(** * EnvironmentsService (src/app/services/environments.service.ts)

    A shallow embedding of the service that owns the collection of
    environments: the JavaScript heap it mutates, the operations of its
    mutation API, the two duplicate-detection passes, the sanitising copy
    made before saving and the import of an exported file. *)

From stdpp Require Import gmap strings list fin_maps pretty.

Set Warnings "-register-all".

Local Open Scope string_scope.
Local Open Scope list_scope.

(** ** Values and the heap

    Objects and arrays have an identity: two references are the same
    object when they are the same location.  Sharing and in-place
    mutation are therefore visible in the model. *)

Definition loc := positive.

Inductive val : Type :=
| VUndefined
| VNull
| VBool (b : bool)
| VNum (n : Z)
| VStr (s : string)
| VRef (l : loc).

Inductive object : Type :=
| OObj (fields : gmap string val)   (* a plain object *)
| OArr (items : list val)           (* an array *)
| ODate (t : Z)                     (* a Date *)
| OHost.                            (* a host object: the http server in [instance] *)

#[global] Instance val_eq_dec : EqDecision val.
Proof. solve_decision. Defined.

#[global] Instance val_inhabited : Inhabited val := populate VUndefined.

(** [===] on the values of the model: strings, numbers and booleans by
    content, references by identity. *)
Definition strict_eq (a b : val) : bool := bool_decide (a = b).

(** ** What the service talks to *)

Inductive level := AlertError | AlertSuccess.

(** Members of the enums [Errors] and [Messages] the service uses. *)
Inductive message :=
| EXPORT_ERROR | IMPORT_ERROR | IMPORT_WRONG_CHECKSUM
| EXPORT_SUCCESS | IMPORT_SUCCESS.

(** A completion callback is an opaque token chosen by the caller;
    [None] is [null]. *)
Definition callback := option nat.

(** One [environmentUpdateEvents.next({ environment, callback })]. *)
Record updateEvent := UpdateEvent { ev_environment : val; ev_callback : callback }.

(** ** The state of the world

    The fields of the service ([environments], [routesTotal], the three
    schemas), the heap they point into, and a log of every call that
    leaves the service: alerts, update events, requests to stop a server.
    [uuid_source] is the sequence of values [uuid()] returns and
    [uuid_calls] how many it has returned so far; [clock] is what
    [new Date()] reads. *)
Record World : Type := mkWorld {
  heap : gmap loc object;
  environments : val;
  routesTotal : Z;
  environmentSchema : val;
  routeSchema : val;
  customHeadersSchema : val;
  uuid_source : nat → string;
  uuid_calls : nat;
  clock : Z;
  alerts : list (level * message);
  updateEvents : list updateEvent;
  stopRequests : list val
}.

Definition set_heap (f : gmap loc object → gmap loc object) (w : World) : World :=
  mkWorld (f (heap w)) (environments w) (routesTotal w) (environmentSchema w)
    (routeSchema w) (customHeadersSchema w) (uuid_source w) (uuid_calls w)
    (clock w) (alerts w) (updateEvents w) (stopRequests w).

Definition set_environments (v : val) (w : World) : World :=
  mkWorld (heap w) v (routesTotal w) (environmentSchema w)
    (routeSchema w) (customHeadersSchema w) (uuid_source w) (uuid_calls w)
    (clock w) (alerts w) (updateEvents w) (stopRequests w).

Definition set_routesTotal (n : Z) (w : World) : World :=
  mkWorld (heap w) (environments w) n (environmentSchema w)
    (routeSchema w) (customHeadersSchema w) (uuid_source w) (uuid_calls w)
    (clock w) (alerts w) (updateEvents w) (stopRequests w).

Definition set_uuid_calls (n : nat) (w : World) : World :=
  mkWorld (heap w) (environments w) (routesTotal w) (environmentSchema w)
    (routeSchema w) (customHeadersSchema w) (uuid_source w) n
    (clock w) (alerts w) (updateEvents w) (stopRequests w).

Definition add_alert (a : level * message) (w : World) : World :=
  mkWorld (heap w) (environments w) (routesTotal w) (environmentSchema w)
    (routeSchema w) (customHeadersSchema w) (uuid_source w) (uuid_calls w)
    (clock w) (alerts w ++ [a]) (updateEvents w) (stopRequests w).

Definition add_event (e : updateEvent) (w : World) : World :=
  mkWorld (heap w) (environments w) (routesTotal w) (environmentSchema w)
    (routeSchema w) (customHeadersSchema w) (uuid_source w) (uuid_calls w)
    (clock w) (alerts w) (updateEvents w ++ [e]) (stopRequests w).

Definition add_stop (v : val) (w : World) : World :=
  mkWorld (heap w) (environments w) (routesTotal w) (environmentSchema w)
    (routeSchema w) (customHeadersSchema w) (uuid_source w) (uuid_calls w)
    (clock w) (alerts w) (updateEvents w) (stopRequests w ++ [v]).

(** ** The monad of the code: state and exceptions

    A call returns a value or throws; either way it leaves a world
    behind.  [TypeError] is JavaScript's (a property of [undefined], a
    method that is not there); [Unsupported] marks a state outside the
    TypeScript types of the source, which the model does not follow;
    [OutOfFuel] is a recursion cut short. *)
Inductive exn := TypeError | SyntaxError | Unsupported | OutOfFuel.

Inductive outcome (A : Type) : Type :=
| Returned (a : A) (w : World)
| Thrown (e : exn) (w : World).
Arguments Returned {A} a w.
Arguments Thrown {A} e w.

Definition M (A : Type) : Type := World → outcome A.

Definition final {A} (o : outcome A) : World :=
  match o with Returned _ w => w | Thrown _ w => w end.

#[global] Instance M_ret : MRet M := λ A a w, Returned a w.
#[global] Instance M_bind : MBind M := λ A B f m w,
  match m w with
  | Returned a w' => f a w'
  | Thrown e w' => Thrown e w'
  end.

Definition throw {A} (e : exn) : M A := λ w, Thrown e w.
Definition modify (f : World → World) : M unit := λ w, Returned tt (f w).
Definition gets {A} (f : World → A) : M A := λ w, Returned (f w) w.

(** ** Primitives: allocation, properties, arrays *)

(** A new object gets a location no object has. *)
Definition alloc (o : object) : M val := λ w,
  let l := fresh (dom (heap w)) in
  Returned (VRef l) (set_heap <[l := o]> w).

(** [v.k] *)
Definition get_prop (v : val) (k : string) : M val := λ w,
  match v with
  | VUndefined | VNull => Thrown TypeError w
  | VBool _ | VNum _ | VStr _ => Returned VUndefined w
  | VRef l =>
      match heap w !! l with
      | Some (OObj m) => Returned (default VUndefined (m !! k)) w
      | Some (OArr _) | Some (ODate _) => Returned VUndefined w
      | Some OHost | None => Thrown Unsupported w
      end
  end.

(** [v.k = x] *)
Definition set_prop (v : val) (k : string) (x : val) : M unit := λ w,
  match v with
  | VUndefined | VNull => Thrown TypeError w
  | VBool _ | VNum _ | VStr _ => Thrown Unsupported w
  | VRef l =>
      match heap w !! l with
      | Some (OObj m) => Returned tt (set_heap <[l := OObj (<[k := x]> m)]> w)
      | _ => Thrown Unsupported w
      end
  end.

(** [delete v.k] *)
Definition delete_prop (v : val) (k : string) : M unit := λ w,
  match v with
  | VUndefined | VNull => Thrown TypeError w
  | VBool _ | VNum _ | VStr _ => Returned tt w
  | VRef l =>
      match heap w !! l with
      | Some (OObj m) => Returned tt (set_heap <[l := OObj (delete k m)]> w)
      | _ => Thrown Unsupported w
      end
  end.

(** The own properties [Object.assign] copies from a source:
    [undefined] and [null] sources are skipped. *)
Definition own_fields (v : val) : M (gmap string val) := λ w,
  match v with
  | VUndefined | VNull | VBool _ | VNum _ => Returned ∅ w
  | VStr _ => Thrown Unsupported w
  | VRef l =>
      match heap w !! l with
      | Some (OObj m) => Returned m w
      | _ => Thrown Unsupported w
      end
  end.

(** An object literal [{ k1: v1, ... }] as the map of its properties. *)
Definition literal (kvs : list (string * val)) : gmap string val := list_to_map kvs.

(** [Object.assign({}, source, { k1: v1, ... })]: a new object with the
    own properties of [source], then those of the literal over them.
    Property values are copied as they are: a reference stays shared. *)
Definition Object_assign (source : val) (kvs : list (string * val)) : M val :=
  m ← own_fields source;
  alloc (OObj (literal kvs ∪ m)).

(** The items of an array, for its methods [forEach], [filter], [map],
    [findIndex], [push], [splice]: on anything but an array the method is
    not there. *)
Definition array_items (v : val) : M (list val) := λ w,
  match v with
  | VRef l =>
      match heap w !! l with
      | Some (OArr items) => Returned items w
      | Some (OObj _) | Some (ODate _) => Thrown TypeError w
      | Some OHost | None => Thrown Unsupported w
      end
  | _ => Thrown TypeError w
  end.

(** [arr.length] *)
Definition array_length (arr : val) : M Z := λ w,
  match arr with
  | VUndefined | VNull => Thrown TypeError w
  | VRef l =>
      match heap w !! l with
      | Some (OArr items) => Returned (Z.of_nat (length items)) w
      | _ => Thrown Unsupported w
      end
  | _ => Thrown Unsupported w
  end.

(** [arr[i]]: [undefined] outside the array. *)
Definition get_index (arr : val) (i : Z) : M val := λ w,
  match arr with
  | VUndefined | VNull => Thrown TypeError w
  | VRef l =>
      match heap w !! l with
      | Some (OArr items) =>
          Returned (if decide (0 ≤ i)%Z then default VUndefined (items !! Z.to_nat i)
                    else VUndefined) w
      | _ => Thrown Unsupported w
      end
  | _ => Thrown Unsupported w
  end.

(** [arr.push(...xs)]: appends in place and returns the new length. *)
Definition push (arr : val) (xs : list val) : M Z := λ w,
  match arr with
  | VRef l =>
      match heap w !! l with
      | Some (OArr items) =>
          Returned (Z.of_nat (length (items ++ xs)))
                   (set_heap <[l := OArr (items ++ xs)]> w)
      | Some (OObj _) | Some (ODate _) => Thrown TypeError w
      | Some OHost | None => Thrown Unsupported w
      end
  | _ => Thrown TypeError w
  end.

(** Where [splice(start, _)] starts in an array of [len] items: a
    negative [start] counts from the end, and the result is clamped to
    the array. *)
Definition splice_start (len : nat) (start : Z) : nat :=
  if decide (start < 0)%Z then Z.to_nat (Z.max (Z.of_nat len + start) 0)
  else Z.to_nat (Z.min start (Z.of_nat len)).

Definition splice_items {A} (items : list A) (start : Z) (deleteCount : nat) : list A :=
  let s := splice_start (length items) start in
  take s items ++ drop (s + deleteCount) items.

(** [arr.splice(start, deleteCount)], in place.  The array of removed
    items it returns is dropped by every caller and is not built. *)
Definition splice (arr : val) (start : Z) (deleteCount : nat) : M unit := λ w,
  match arr with
  | VRef l =>
      match heap w !! l with
      | Some (OArr items) =>
          Returned tt (set_heap <[l := OArr (splice_items items start deleteCount)]> w)
      | Some (OObj _) | Some (ODate _) => Thrown TypeError w
      | Some OHost | None => Thrown Unsupported w
      end
  | _ => Thrown TypeError w
  end.

(** What [if (v)] takes. *)
Definition truthy (v : val) : bool :=
  match v with
  | VUndefined | VNull => false
  | VBool b => b
  | VNum n => negb (n =? 0)%Z
  | VStr s => negb (String.eqb s EmptyString)
  | VRef _ => true
  end.

(** [v + s] for a string [s]: concatenation when [v] is a string, as
    the type of [name] has it; the conversion of other values to a
    string is not followed. *)
Definition add_string (v : val) (s : string) : M val := λ w,
  match v with
  | VStr a => Returned (VStr (a ++ s)%string) w
  | _ => Thrown Unsupported w
  end.

(** [uuid()], from uuid/v1: the next value of the source. *)
Definition uuid : M string := λ w,
  Returned (uuid_source w (uuid_calls w)) (set_uuid_calls (S (uuid_calls w)) w).

(** [new Date()] *)
Definition new_Date : M val := λ w, alloc (ODate (clock w)) w.

(** [alertService.showAlert(level, message)] *)
Definition showAlert (l : level) (m : message) : M unit := modify (add_alert (l, m)).

(** [environmentUpdateEvents.next({ environment, callback })].  The two
    subscribers are debounced: nothing of theirs runs inside the call. *)
Definition emit (environment : val) (cb : callback) : M unit :=
  modify (add_event (UpdateEvent environment cb)).

(** Modelled from the spec: [ServerService.stop] (app/services/server.service
    is not part of the sources at hand).  The specification says that
    the stop must be requested of the server runtime, and have taken
    effect, before a running environment is removed; it does not say
    what the runtime changes in the environment it stops.  The request
    is recorded, in its place in the order of the calls, and the heap is
    left as it is; the properties stated of [removeEnvironment] leave
    out what the object of an environment that was stopped holds
    afterwards. *)
Definition stop (environment : val) : M unit := modify (add_stop environment).

(** ** Loops over the items of an array *)

Fixpoint each_from (f : val → nat → M unit) (items : list val) (i : nat) : M unit :=
  match items with
  | [] => mret tt
  | x :: rest => _ ← f x i; each_from f rest (S i)
  end.

(** [arr.forEach((item, index) => ...)] *)
Definition forEach (arr : val) (f : val → nat → M unit) : M unit :=
  items ← array_items arr; each_from f items 0.

(** [arr.filter((item, index) => ...)] where the callback also updates
    an array [s] local to the caller (it pushes onto it): the local
    array is threaded through the calls.  Returns the items kept and the
    local array. *)
Fixpoint filter_from {L} (f : val → nat → L → M (bool * L))
    (items : list val) (i : nat) (s : L) : M (list val * L) :=
  match items with
  | [] => mret ([], s)
  | x :: rest =>
      '(keep, s1) ← f x i s;
      '(kept, s2) ← filter_from f rest (S i) s1;
      mret (if keep : bool then x :: kept else kept, s2)
  end.

Definition filter_with {L} (arr : val) (f : val → nat → L → M (bool * L)) (s : L)
    : M (list val * L) :=
  items ← array_items arr; filter_from f items 0 s.

(** [arr.map(item => ...)], without the array it builds. *)
Fixpoint map_each {A B} (f : A → M B) (items : list A) : M (list B) :=
  match items with
  | [] => mret []
  | x :: rest => y ← f x; ys ← map_each f rest; mret (y :: ys)
  end.

(** [arr.findIndex(item => ...)]: -1 when no item passes. *)
Fixpoint findIndex_from (f : val → M bool) (items : list val) (i : nat) : M Z :=
  match items with
  | [] => mret (-1)%Z
  | x :: rest => b ← f x; if b : bool then mret (Z.of_nat i) else findIndex_from f rest (S i)
  end.

Definition findIndex (arr : val) (f : val → M bool) : M Z :=
  items ← array_items arr; findIndex_from f items 0.

(** A local array of indexes becomes an object of the heap when it is
    stored in a property. *)
Definition index_array (indexes : list nat) : M val :=
  alloc (OArr ((λ i, VNum (Z.of_nat i)) <$> indexes)).

(** ** [cloneDeep] of lodash

    A recursive copy: arrays, plain objects and dates are rebuilt with
    copies of what they hold, primitives are returned as they are, and a
    value that cannot be cloned (a host object) is returned itself when
    it sits inside an object.  [fuel] bounds the depth of the recursion. *)
Fixpoint cloneDeep (fuel : nat) (value : val) : M val :=
  match value with
  | VRef l => λ w,
      match fuel with
      | O => Thrown OutOfFuel w
      | S n =>
          match heap w !! l with
          | Some (OArr items) =>
              (copies ← map_each (cloneDeep n) items; alloc (OArr copies)) w
          | Some (OObj m) =>
              (copies ← map_each (λ kv : string * val, c ← cloneDeep n kv.2; mret (kv.1, c))
                                (map_to_list m);
               alloc (OObj (list_to_map copies))) w
          | Some (ODate t) => alloc (ODate t) w
          | Some OHost => Returned value w
          | None => Thrown Unsupported w
          end
      end
  | _ => mret value
  end.

(** ** The service *)

(** *** Field initialisers: the three schemas *)

Definition set_schemas (e r h : val) (w : World) : World :=
  mkWorld (heap w) (environments w) (routesTotal w) e r h
    (uuid_source w) (uuid_calls w) (clock w) (alerts w) (updateEvents w) (stopRequests w).

(** A service whose fields are not initialised yet. *)
Definition blank (source : nat → string) (now : Z) : World :=
  mkWorld ∅ VUndefined 0 VUndefined VUndefined VUndefined source 0 now [] [] [].

Definition initialise_fields : M unit :=
  routes ← alloc (OArr []);
  duplicates ← alloc (OArr []);
  environmentSchema ← alloc (OObj (literal
    [("uuid", VStr EmptyString); ("running", VBool false); ("instance", VNull);
     ("name", VStr EmptyString); ("endpointPrefix", VStr EmptyString); ("latency", VNum 0);
     ("port", VNum 3000); ("routes", routes); ("startedAt", VNull);
     ("modifiedAt", VNull); ("duplicates", duplicates);
     ("needRestart", VBool false); ("proxyMode", VBool false);
     ("proxyHost", VStr EmptyString); ("https", VBool false); ("cors", VBool true)]));
  customHeaders ← alloc (OArr []);
  duplicates ← alloc (OArr []);
  routeSchema ← alloc (OObj (literal
    [("uuid", VStr EmptyString); ("method", VStr "get"); ("endpoint", VStr EmptyString);
     ("body", VStr "Environment is running."); ("latency", VNum 0);
     ("statusCode", VStr "200"); ("customHeaders", customHeaders);
     ("file", VNull); ("duplicates", duplicates)]));
  customHeadersSchema ← alloc (OObj (literal
    [("uuid", VStr EmptyString); ("key", VStr "Content-Type"); ("value", VStr "text/plain")]));
  modify (set_schemas environmentSchema routeSchema customHeadersSchema).

(** *** Duplicate detection *)

(** [checkRoutesDuplicates(environment)] (lines 221-243), the callback
    of its [forEach] first.  The array [duplicatedRoutesIndexes] is local
    to one call of the callback until it is stored in
    [firstRoute.duplicates]. *)
Definition routeDuplicates (environment firstRoute : val) (firstRouteIndex : nat) : M unit :=
    routes ← get_prop environment "routes";
    '(duplicatedRoutes, duplicatedRoutesIndexes) ←
      filter_with routes (λ otherRouteItem otherRouteIndex (indexes : list nat),
        if decide (otherRouteIndex = firstRouteIndex) then mret (false, indexes)
        else
          otherEndpoint ← get_prop otherRouteItem "endpoint";
          firstEndpoint ← get_prop firstRoute "endpoint";
          if strict_eq otherEndpoint firstEndpoint then
            otherMethod ← get_prop otherRouteItem "method";
            firstMethod ← get_prop firstRoute "method";
            if strict_eq otherMethod firstMethod
            then mret (true, indexes ++ [otherRouteIndex])
            else mret (false, indexes)
          else mret (false, indexes)) [];
    duplicates ← index_array duplicatedRoutesIndexes;
    set_prop firstRoute "duplicates" duplicates.

Definition checkRoutesDuplicates (environment : val) : M unit :=
  routes ← get_prop environment "routes";
  forEach routes (routeDuplicates environment).

(** [checkEnvironmentsDuplicates()] (lines 248-273), the callback of
    its [forEach] first. *)
Definition environmentDuplicates (environment : val) (environmentIndex : nat) : M unit :=
    collection ← gets environments;
    '(duplicatedEnvironments, duplicatedEnvironmentsIndexes) ←
      filter_with collection (λ otherEnvironmentItem otherEnvironmentIndex (indexes : list nat),
        if decide (otherEnvironmentIndex = environmentIndex) then mret (false, indexes)
        else
          otherPort ← get_prop otherEnvironmentItem "port";
          port ← get_prop environment "port";
          if strict_eq otherPort port
          then mret (true, indexes ++ [otherEnvironmentIndex])
          else mret (false, indexes)) [];
    duplicates ← index_array duplicatedEnvironmentsIndexes;
    set_prop environment "duplicates" duplicates.

Definition checkEnvironmentsDuplicates : M unit :=
  collection ← gets environments;
  forEach collection environmentDuplicates.

(** *** The mutation API *)

(** [addEnvironment(callback)] (lines 112-134) *)
Definition addEnvironment (cb : callback) : M Z :=
  customHeadersSchema ← gets customHeadersSchema;
  headerUuid ← uuid;
  customHeader ← Object_assign customHeadersSchema [("uuid", VStr headerUuid)];
  customHeaders ← alloc (OArr [customHeader]);
  routeSchema ← gets routeSchema;
  newRoute ← Object_assign routeSchema [("customHeaders", customHeaders)];
  environmentSchema ← gets environmentSchema;
  environmentUuid ← uuid;
  routes ← alloc (OArr [newRoute]);
  modifiedAt ← new_Date;
  newEnvironment ← Object_assign environmentSchema
    [("uuid", VStr environmentUuid); ("name", VStr "New environment"); ("port", VNum 3000);
     ("routes", routes); ("modifiedAt", modifiedAt)];
  _ ← modify (λ w, set_routesTotal (routesTotal w + 1) w);
  collection ← gets environments;
  length ← push collection [newEnvironment];
  _ ← emit newEnvironment cb;
  mret (length - 1)%Z.

(** [addRoute(environment, callback)] (lines 141-149) *)
Definition addRoute (environment : val) (cb : callback) : M Z :=
  customHeadersSchema ← gets customHeadersSchema;
  headerUuid ← uuid;
  customHeader ← Object_assign customHeadersSchema [("uuid", VStr headerUuid)];
  customHeaders ← alloc (OArr [customHeader]);
  routeSchema ← gets routeSchema;
  newRoute ← Object_assign routeSchema [("customHeaders", customHeaders)];
  routes ← get_prop environment "routes";
  length ← push routes [newRoute];
  _ ← modify (λ w, set_routesTotal (routesTotal w + 1) w);
  _ ← emit environment cb;
  mret (length - 1)%Z.

(** [removeRoute(environment, routeIndex, callback)] (lines 157-168),
    with what [environmentUpdateEvents.next] does as a parameter.  The
    emitter is a public [Subject]: it hands the event to its subscribers
    inside the call to [next], so a subscriber that is not debounced
    runs at that point of [removeRoute], on the state it finds there. *)
Definition removeRoute_with (next : val → callback → M unit)
    (environment : val) (routeIndex : Z) (cb : callback) : M unit :=
  routes ← get_prop environment "routes";
  _ ← splice routes routeIndex 1;
  _ ← modify (λ w, set_routesTotal (routesTotal w - 1) w);
  _ ← checkRoutesDuplicates environment;
  next environment cb.

(** [removeRoute] in the service on its own: its two subscribers are
    debounced, and [next] only records the event. *)
Definition removeRoute : val → Z → callback → M unit := removeRoute_with emit.

(** [removeEnvironment(environmentIndex)] (lines 175-189) *)
Definition removeEnvironment (environmentIndex : Z) : M unit :=
  collection ← gets environments;
  environment ← get_index collection environmentIndex;
  running ← get_prop environment "running";
  _ ← (if truthy running then
         collection ← gets environments;
         environment ← get_index collection environmentIndex;
         stop environment
       else mret tt);
  collection ← gets environments;
  _ ← splice collection environmentIndex 1;
  _ ← checkEnvironmentsDuplicates;
  emit VNull None.

(** The body of the second default route (lines 208): a JSON text on
    three lines. *)
Definition dolphins_body : string :=
  let quote := String (Ascii.ascii_of_nat 34) EmptyString in
  let newline := String (Ascii.ascii_of_nat 10) EmptyString in
  ("{" ++ newline ++ "    " ++ quote ++ "response" ++ quote ++ ": " ++ quote
   ++ "So Long, and Thanks for All the Fish" ++ quote ++ newline ++ "}")%string.

(** [buildDefaultEnvironment()] (lines 194-214).  [Object.assign] copies
    the reference held by [environmentSchema.routes]: the two routes are
    pushed onto the array of the schema. *)
Definition buildDefaultEnvironment : M val :=
  environmentSchema ← gets environmentSchema;
  defaultEnvironment ← Object_assign environmentSchema [];
  environmentUuid ← uuid;
  _ ← set_prop defaultEnvironment "uuid" (VStr environmentUuid);
  _ ← set_prop defaultEnvironment "name" (VStr "Example");
  _ ← modify (set_routesTotal 2);
  routes ← get_prop defaultEnvironment "routes";
  routeSchema ← gets routeSchema;
  routeUuid ← uuid;
  headerUuid ← uuid;
  customHeader ← alloc (OObj (literal
    [("uuid", VStr headerUuid); ("key", VStr "Content-Type"); ("value", VStr "text/plain")]));
  customHeaders ← alloc (OArr [customHeader]);
  route ← Object_assign routeSchema
    [("endpoint", VStr "answer"); ("body", VStr "42");
     ("uuid", VStr routeUuid); ("customHeaders", customHeaders)];
  _ ← push routes [route];
  routes ← get_prop defaultEnvironment "routes";
  routeUuid ← uuid;
  headerUuid ← uuid;
  customHeader ← alloc (OObj (literal
    [("uuid", VStr headerUuid); ("key", VStr "Content-Type"); ("value", VStr "application/json")]));
  customHeaders ← alloc (OArr [customHeader]);
  route ← Object_assign routeSchema
    [("method", VStr "post"); ("endpoint", VStr "dolphins");
     ("body", VStr dolphins_body);
     ("uuid", VStr routeUuid); ("customHeaders", customHeaders)];
  _ ← push routes [route];
  modifiedAt ← new_Date;
  _ ← set_prop defaultEnvironment "modifiedAt" modifiedAt;
  mret defaultEnvironment.

(** The constructor on an empty storage (lines 73-77): the collection
    is the default environment alone. *)
Definition startWithDefault : M unit :=
  defaultEnvironment ← buildDefaultEnvironment;
  environments ← alloc (OArr [defaultEnvironment]);
  modify (set_environments environments).

(** [cleanBeforeSave(environments)] (lines 280-294): the parameter is
    not read, the copy is made of [this.environments]. *)
Definition cleanBeforeSave (fuel : nat) (_ : val) : M val :=
  collection ← gets environments;
  items ← array_items collection;
  copies ← map_each (λ environment,
    environmentCopy ← cloneDeep fuel environment;
    _ ← delete_prop environmentCopy "instance";
    _ ← delete_prop environmentCopy "running";
    _ ← delete_prop environmentCopy "startedAt";
    _ ← delete_prop environmentCopy "needRestart";
    mret environmentCopy) items;
  alloc (OArr copies).

(** [duplicateEnvironment(environmentIndex, callback)] (lines 335-359) *)
Definition duplicateEnvironment (fuel : nat) (environmentIndex : Z) (cb : callback) : M Z :=
  collection ← gets environments;
  source ← get_index collection environmentIndex;
  environmentUuid ← uuid;
  collection ← gets environments;
  environment ← get_index collection environmentIndex;
  name ← get_prop environment "name";
  name ← add_string name " (copy)";
  duplicates ← alloc (OArr []);
  collection ← gets environments;
  environment ← get_index collection environmentIndex;
  routes ← get_prop environment "routes";
  routes ← cloneDeep fuel routes;
  newEnvironment ← Object_assign source
    [("instance", VNull); ("running", VBool false); ("uuid", VStr environmentUuid);
     ("name", name); ("startedAt", VNull); ("modifiedAt", VNull);
     ("duplicates", duplicates); ("needRestart", VBool false); ("routes", routes)];
  collection ← gets environments;
  environment ← get_index collection environmentIndex;
  routes ← get_prop environment "routes";
  count ← array_length routes;
  _ ← modify (λ w, set_routesTotal (routesTotal w + count) w);
  collection ← gets environments;
  length ← push collection [newEnvironment];
  _ ← emit newEnvironment cb;
  mret (length - 1)%Z.

(** [duplicateRoute(environment, routeIndex, callback)] (lines 368-377) *)
Definition duplicateRoute (fuel : nat) (environment : val) (routeIndex : Z) (cb : callback)
    : M Z :=
  routes ← get_prop environment "routes";
  route ← get_index routes routeIndex;
  clone ← cloneDeep fuel route;
  routeUuid ← uuid;
  duplicates ← alloc (OArr []);
  newRoute ← Object_assign clone [("uuid", VStr routeUuid); ("duplicates", duplicates)];
  routes ← get_prop environment "routes";
  length ← push routes [newRoute];
  _ ← modify (λ w, set_routesTotal (routesTotal w + 1) w);
  _ ← emit environment cb;
  mret (length - 1)%Z.

(** [findEnvironmentIndex(environmentUUID)] (lines 379-381) *)
Definition findEnvironmentIndex (environmentUUID : string) : M Z :=
  collection ← gets environments;
  findIndex collection (λ environment,
    u ← get_prop environment "uuid"; mret (strict_eq u (VStr environmentUUID))).

(** [findRouteIndex(environment, routeUUID)] (lines 383-385) *)
Definition findRouteIndex (environment : val) (routeUUID : string) : M Z :=
  routes ← get_prop environment "routes";
  findIndex routes (λ route,
    u ← get_prop route "uuid"; mret (strict_eq u (VStr routeUUID))).

(** The subscriber of the constructor that refreshes the duplicates
    (lines 95-104), on the event that [debounceTime] lets through: both
    passes when the event carries an environment.  The callback of the
    event is the caller's; the subscriber calls it last, and it is
    returned here for the caller to run. *)
Definition onEnvironmentUpdate (params : updateEvent) : M callback :=
  _ ← (if truthy (ev_environment params) then
         _ ← checkRoutesDuplicates (ev_environment params);
         checkEnvironmentsDuplicates
       else mret tt);
  mret (ev_callback params).

(** ** Data read from a file

    What [JSON.parse] returns is a tree that nothing else references: it
    is kept as a term until the import pushes it onto the live
    collection, where it becomes objects of the heap.  [JUndefined] is
    the value of a property that is not there. *)
Inductive json : Type :=
| JUndefined
| JNull
| JBool (b : bool)
| JNum (n : Z)
| JStr (s : string)
| JArr (items : list json)
| JObj (fields : list (string * json)).

(** The value of a property: that of its first binding. *)
Fixpoint field (k : string) (fields : list (string * json)) : json :=
  match fields with
  | [] => JUndefined
  | (k', v) :: rest => if decide (k' = k) then v else field k rest
  end.

(** Assigning a property: in place when it exists, at the end otherwise. *)
Fixpoint set_field (k : string) (x : json) (fields : list (string * json))
    : list (string * json) :=
  match fields with
  | [] => [(k, x)]
  | (k', v) :: rest =>
      if decide (k' = k) then (k', x) :: rest else (k', v) :: set_field k x rest
  end.

(** [v.k] *)
Definition json_get (v : json) (k : string) : M json :=
  match v with
  | JUndefined | JNull => throw TypeError
  | JObj fields => mret (field k fields)
  | _ => mret JUndefined
  end.

(** [v.k = x], as the updated [v].  On an array the assignment of the
    code succeeds and leaves an array with a property, and on a number,
    a string or a boolean what it does depends on strict mode: a tree has
    no place for either, and the run stops there with [Unsupported].
    What is proved of a run holds of the code when the run does not end
    that way. *)
Definition json_set (v : json) (k : string) (x : json) : M json :=
  match v with
  | JUndefined | JNull => throw TypeError
  | JObj fields => mret (JObj (set_field k x fields))
  | _ => throw Unsupported
  end.

(** The items [forEach] or a spread goes through. *)
Definition json_items (v : json) : M (list json) :=
  match v with
  | JArr items => mret items
  | JStr _ => throw Unsupported
  | _ => throw TypeError
  end.

(** The objects of the heap a tree becomes. *)
Fixpoint materialize (j : json) : M val :=
  match j with
  | JUndefined => mret VUndefined
  | JNull => mret VNull
  | JBool b => mret (VBool b)
  | JNum n => mret (VNum n)
  | JStr s => mret (VStr s)
  | JArr items => vs ← map_each materialize items; alloc (OArr vs)
  | JObj fields =>
      kvs ← map_each (λ kv : string * json, v ← materialize kv.2; mret (kv.1, v)) fields;
      alloc (OObj (list_to_map kvs))
  end.

(** What a read of the chosen file calls back with. *)
Inductive readResult := ReadFailed | ReadOk (fileContent : string).

Section ImportFile.

(** The parts of the import that live outside the service: the list
    [Migrations] of app/libs/migrations.lib, each a change made to one
    environment; [DataService.verifyImportChecksum]; and [JSON.parse],
    [None] when it throws. *)
Variable Migrations : list (json → json).
Variable verifyImportChecksum : json → bool.
Variable JSON_parse : string → option json.

(** [migrateData(environments)] (lines 302-308): for each migration,
    for each environment. *)
Fixpoint migrate_with (migrations : list (json → json)) (environments : json) : M json :=
  match migrations with
  | [] => mret environments
  | migration :: rest =>
      items ← json_items environments;
      migrate_with rest (JArr (migration <$> items))
  end.

Definition migrateData (environments : json) : M json :=
  migrate_with Migrations environments.

(** [renewUUIDs(environments)] (lines 315-327) *)
Definition renewUUIDs (environments : json) : M json :=
  items ← json_items environments;
  items ← map_each (λ environment : json,
    environmentUuid ← uuid;
    environment ← json_set environment "uuid" (JStr environmentUuid);
    routes ← json_get environment "routes";
    routeItems ← json_items routes;
    routeItems ← map_each (λ route : json,
      routeUuid ← uuid;
      route ← json_set route "uuid" (JStr routeUuid);
      customHeaders ← json_get route "customHeaders";
      headerItems ← json_items customHeaders;
      headerItems ← map_each (λ customHeader : json,
        headerUuid ← uuid;
        json_set customHeader "uuid" (JStr headerUuid)) headerItems;
      json_set route "customHeaders" (JArr headerItems)) routeItems;
    json_set environment "routes" (JArr routeItems)) items;
  mret (JArr items).

(** [importEnvironmentsFile()] (lines 408-436), from the answer of the
    open dialog ([file]: the chosen paths, [None] when there is none)
    and of the file system ([readFile]). *)
Definition importEnvironmentsFile (file : option (list string))
    (readFile : string → readResult) : M unit :=
  match file with
  | Some (path :: _) =>
      if String.eqb path EmptyString then mret tt
      else
        match readFile path with
        | ReadFailed => showAlert AlertError IMPORT_ERROR
        | ReadOk fileContent =>
            match JSON_parse fileContent with
            | None => throw SyntaxError
            | Some importData =>
                if negb (verifyImportChecksum importData) then
                  showAlert AlertError IMPORT_WRONG_CHECKSUM
                else
                  data ← json_get importData "data";
                  data ← migrateData data;
                  importData ← json_set importData "data" data;
                  data ← json_get importData "data";
                  data ← renewUUIDs data;
                  importData ← json_set importData "data" data;
                  collection ← gets environments;
                  data ← json_get importData "data";
                  items ← json_items data;
                  imported ← map_each materialize items;
                  _ ← push collection imported;
                  _ ← checkEnvironmentsDuplicates;
                  showAlert AlertSuccess IMPORT_SUCCESS
            end
        end
  | _ => mret tt
  end.

End ImportFile.

(** * Specification vocabulary *)

(** ** Reading the heap *)

(** The properties of the plain object at [l]. *)
Definition obj_at (h : gmap loc object) (l : loc) : option (gmap string val) :=
  match h !! l with Some (OObj m) => Some m | _ => None end.

(** The items of the array at [l]. *)
Definition arr_at (h : gmap loc object) (l : loc) : option (list val) :=
  match h !! l with Some (OArr items) => Some items | _ => None end.

(** The value of [v.k] where it is a property of a plain object. *)
Definition prop (h : gmap loc object) (v : val) (k : string) : val :=
  match v with
  | VRef l => match obj_at h l with Some m => default VUndefined (m !! k) | None => VUndefined end
  | _ => VUndefined
  end.

(** The items of the array in [v.k]. *)
Definition items_of (h : gmap loc object) (v : val) (k : string) : option (list val) :=
  match prop h v k with VRef a => arr_at h a | _ => None end.

(** The plain object a value refers to. *)
Definition as_object (h : gmap loc object) (v : val) : option loc :=
  match v with
  | VRef l => match obj_at h l with Some _ => Some l | None => None end
  | _ => None
  end.

(** The objects an array of objects holds, in order. *)
Definition objects_of (h : gmap loc object) (items : list val) : option (list loc) :=
  mapM (as_object h) items.

(** The indexes held by [v.duplicates]. *)
Definition as_index (v : val) : option nat :=
  match v with
  | VNum n => if decide (0 ≤ n)%Z then Some (Z.to_nat n) else None
  | _ => None
  end.

Definition duplicates_of (h : gmap loc object) (v : val) : option (list nat) :=
  items ← items_of h v "duplicates"; mapM as_index items.

(** The array of indexes as it sits in the heap. *)
Definition indexes (l : list nat) : list val := (λ i, VNum (Z.of_nat i)) <$> l.

(** The world after [first.duplicates = indexes] for the object [l]
    whose properties were [m]: a new array for the indexes, and the
    property of [l] pointing to it. *)
Definition mark (l : loc) (m : gmap string val) (ixs : list nat) (w : World) : World :=
  let a := fresh (dom (heap w)) in
  set_heap (λ h, <[l := OObj (<["duplicates" := VRef a]> m)]>
                   (<[a := OArr (indexes ixs)]> h)) w.

(** [w'] is [w] with another heap: the fields of the service and the
    logs are the same. *)
Definition same_service (w w' : World) : Prop := w' = set_heap (λ _, heap w') w.

(** What a pass leaves behind, for the objects [ls] visited from index
    [i] on with [D j] the indexes found at index [j]: every other object
    is as it was, and each object visited has a new array in
    [duplicates] and its other properties as they were. *)
Record marked (D : nat → list nat) (i : nat) (ls : list loc) (w w' : World) : Prop :=
  Marked {
    marked_service : same_service w w';
    marked_others : ∀ l o, heap w !! l = Some o → l ∉ ls → heap w' !! l = Some o;
    marked_objects : ∀ j l, ls !! j = Some l → ∃ m a,
      obj_at (heap w) l = Some m ∧ (a ∉ dom (heap w)) ∧
      obj_at (heap w') l = Some (<["duplicates" := VRef a]> m) ∧
      arr_at (heap w') a = Some (indexes (D (i + j)))
  }.

(** The indexes other than [i] whose key is the key at [i]. *)
Definition others_like {K} `{EqDecision K} (keys : list K) (i : nat) : list nat :=
  filter (λ j, j ≠ i ∧ keys !! j = keys !! i) (seq 0 (length keys)).

(** What two routes collide on, and what two environments collide on. *)
Definition route_key (h : gmap loc object) (l : loc) : val * val :=
  (prop h (VRef l) "endpoint", prop h (VRef l) "method").

Definition environment_key (h : gmap loc object) (l : loc) : val :=
  prop h (VRef l) "port".

(** ** Total correctness

    [returns m w Q]: from [w], [m] returns a value and leaves a world
    that satisfy [Q]. *)
Definition returns {A} (m : M A) (w : World) (Q : A → World → Prop) : Prop :=
  match m w with
  | Returned a w' => Q a w'
  | Thrown _ _ => False
  end.

#[global] Instance returns_dec {A} (m : M A) w (Q : A → World → Prop)
  `{∀ a w', Decision (Q a w')} : Decision (returns m w Q).
Proof. unfold returns. destruct (m w); apply _. Defined.

(** What the pass over the routes of [environment] needs of the world
    at each turn: the array [a] of routes and the keys of the routes
    [ls] are those of the start [w0]. *)
Definition routes_pre (w0 : World) (environment : val) (a : loc) (ls : list loc)
    (w : World) : Prop :=
  prop (heap w) environment "routes" = VRef a ∧
  arr_at (heap w) a = Some (VRef <$> ls) ∧
  Forall (λ l, is_Some (obj_at (heap w) l)) ls ∧
  ∀ l, l ∈ ls → route_key (heap w) l = route_key (heap w0) l.

(** The same for the pass over the collection. *)
Definition environments_pre (w0 : World) (a : loc) (ls : list loc) (w : World) : Prop :=
  environments w = VRef a ∧
  arr_at (heap w) a = Some (VRef <$> ls) ∧
  Forall (λ l, is_Some (obj_at (heap w) l)) ls ∧
  ∀ l, l ∈ ls → environment_key (heap w) l = environment_key (heap w0) l.

(** ** Well-formed collections

    The routes of an environment, and the environments of the
    collection, as the objects they are. *)
Definition routes_of (h : gmap loc object) (environment : val) : option (list loc) :=
  items ← items_of h environment "routes"; objects_of h items.

Definition collection_of (w : World) : option (list loc) :=
  match environments w with
  | VRef a => items ← arr_at (heap w) a; objects_of (heap w) items
  | _ => None
  end.

(** Every route is owned by one environment and sits once in its
    routes; every environment sits once in the collection. *)
Definition distinct_routes (h : gmap loc object) (environment : val) : Prop :=
  match routes_of h environment with
  | Some rs => NoDup rs
  | None => False
  end.

Definition well_formed (w : World) : Prop :=
  match collection_of w with
  | Some es => NoDup es ∧ Forall (λ e, distinct_routes (heap w) (VRef e)) es
  | None => False
  end.

(** ** Worlds for the examples *)

(** A source of UUIDs: the n-th one is "uuid-n". *)
Definition numbered (n : nat) : string := ("uuid-" ++ pretty n)%string.

(** The service after its constructor has found the storage empty. *)
Definition started : World :=
  final ((_ ← initialise_fields; startWithDefault) (blank numbered 0)).

(** The first environment of the collection. *)
Definition environment_at (i : nat) (w : World) : val :=
  match collection_of w with
  | Some es => match es !! i with Some e => VRef e | None => VUndefined end
  | None => VUndefined
  end.

Definition route_at (i : nat) (environment : val) (w : World) : val :=
  match routes_of (heap w) environment with
  | Some rs => match rs !! i with Some r => VRef r | None => VUndefined end
  | None => VUndefined
  end.

(** An edit of the user interface: the route at [i] of [environment]
    is given a method and an endpoint, in place. *)
Definition edit_route (environment : val) (i : nat) (method endpoint : string) : M unit :=
  routes ← get_prop environment "routes";
  route ← get_index routes (Z.of_nat i);
  _ ← set_prop route "method" (VStr method);
  set_prop route "endpoint" (VStr endpoint).

(** The default environment with five routes: "get users" three times
    (indexes 0, 1 and 4), once in capitals and once with a slash at the
    end. *)
Definition five_routes : World :=
  let environment := environment_at 0 started in
  final ((_ ← addRoute environment None;
          _ ← addRoute environment None;
          _ ← addRoute environment None;
          _ ← edit_route environment 0 "get" "users";
          _ ← edit_route environment 1 "get" "users";
          _ ← edit_route environment 2 "GET" "users";
          _ ← edit_route environment 3 "get" "users/";
          edit_route environment 4 "get" "users") started).

#[global] Instance distinct_routes_dec h environment : Decision (distinct_routes h environment).
Proof. unfold distinct_routes. destruct (routes_of h environment); apply _. Defined.

#[global] Instance well_formed_dec w : Decision (well_formed w).
Proof. unfold well_formed. destruct (collection_of w); apply _. Defined.

(** The default environment with three routes, all "get users". *)
Definition three_alike : World :=
  let environment := environment_at 0 started in
  final ((_ ← addRoute environment None;
          _ ← edit_route environment 0 "get" "users";
          _ ← edit_route environment 1 "get" "users";
          edit_route environment 2 "get" "users") started).

(** ** What a call leaves unchanged

    [keeps f m]: the call [m] leaves [f] of the world as it was, whether
    it returns or throws. *)
Definition keeps {X A} (f : World → X) (m : M A) : Prop :=
  ∀ w, f (final (m w)) = f w.

(** ** UUIDs of the collection *)

(** The [uuid] of every route of the collection, environment by
    environment, or [None] when the collection is not well-shaped. *)
Definition route_uuids (w : World) : option (list val) :=
  match collection_of w with
  | Some es =>
      match mapM (λ e, routes_of (heap w) (VRef e)) es with
      | Some rss => Some ((λ r, prop (heap w) (VRef r) "uuid") <$> concat rss)
      | None => None
      end
  | None => None
  end.

(** The [uuid] of every custom header of a route. *)
Definition header_uuids (h : gmap loc object) (route : val) : option (list val) :=
  match items_of h route "customHeaders" with
  | Some items => Some ((λ x, prop h x "uuid") <$> items)
  | None => None
  end.

(** The invariant on the UUIDs of the routes: no two routes of the
    collection carry the same one. *)
Definition distinct_uuids (w : World) : Prop :=
  match route_uuids w with
  | Some uuids => NoDup uuids
  | None => False
  end.

#[global] Instance distinct_uuids_dec w : Decision (distinct_uuids w).
Proof. unfold distinct_uuids. destruct (route_uuids w); apply _. Defined.

(** ** An exported file for the examples *)

(** A document with one environment of one route of one header, all
    with UUIDs of the collection it was exported from. *)
Definition exported (checksum : string) : json :=
  JObj [("source", JStr "mockoon:1.0.0");
        ("checksum", JStr checksum);
        ("data", JArr [JObj
           [("uuid", JStr "uuid-0"); ("name", JStr "Example"); ("port", JNum 3000);
            ("duplicates", JArr []);
            ("routes", JArr [JObj
               [("uuid", JStr "uuid-1"); ("method", JStr "get");
                ("endpoint", JStr "answer"); ("body", JStr "42");
                ("duplicates", JArr []);
                ("customHeaders", JArr [JObj
                   [("uuid", JStr "uuid-2"); ("key", JStr "Content-Type");
                    ("value", JStr "text/plain")]])]])]])].

(** A parser that knows one file, a checksum that one value satisfies,
    and one migration, which adds a property to an environment. *)
Definition parse_example (good : bool) (content : string) : option json :=
  Some (exported (if good then "good" else "tampered")).

Definition verify_example (importData : json) : bool :=
  match importData with
  | JObj fields => match field "checksum" fields with
                   | JStr s => String.eqb s "good"
                   | _ => false
                   end
  | _ => false
  end.

Definition migration_example (environment : json) : json :=
  match environment with
  | JObj fields => JObj (set_field "proxyMode" (JBool false) fields)
  | _ => environment
  end.

Definition read_example (path : string) : readResult := ReadOk path.

(** ** Deep copies *)

(** [plain hosts d h v]: in [h], [v] is data of depth at most [d]:
    a primitive, or a date, or an array or a plain object that holds data
    of depth at most [d - 1].  A host object counts as data when [hosts]. *)
Fixpoint plain (hosts : bool) (d : nat) (h : gmap loc object) (v : val) : bool :=
  match v with
  | VRef l =>
      match d with
      | O => false
      | S d' =>
          match h !! l with
          | Some (OArr items) => forallb (plain hosts d' h) items
          | Some (OObj m) => forallb (λ kv : string * val, plain hosts d' h kv.2) (map_to_list m)
          | Some (ODate _) => true
          | Some OHost => hosts
          | None => false
          end
      end
  | _ => true
  end.

(** [cloned hosts h h' v v']: [v'] in [h'] is a deep copy of [v] in
    [h].  Primitives are equal; an array, a plain object or a date is
    copied to an object that [h] does not have, holding copies of what
    it held; a host object, allowed when [hosts], is shared. *)
Inductive cloned (hosts : bool) (h h' : gmap loc object) : val → val → Prop :=
| cloned_prim v :
    (∀ l, v ≠ VRef l) → cloned hosts h h' v v
| cloned_host l :
    hosts = true → h !! l = Some OHost → cloned hosts h h' (VRef l) (VRef l)
| cloned_date l l' t :
    h !! l = Some (ODate t) → l' ∉ dom h → h' !! l' = Some (ODate t) →
    cloned hosts h h' (VRef l) (VRef l')
| cloned_arr l l' xs ys :
    h !! l = Some (OArr xs) → l' ∉ dom h → h' !! l' = Some (OArr ys) →
    Forall2 (cloned hosts h h') xs ys →
    cloned hosts h h' (VRef l) (VRef l')
| cloned_obj l l' m m' :
    h !! l = Some (OObj m) → l' ∉ dom h → h' !! l' = Some (OObj m') →
    (∀ k, option_Forall2 (cloned hosts h h') (m !! k) (m' !! k)) →
    cloned hosts h h' (VRef l) (VRef l').

(** The objects reached from a value: the object it refers to, and
    those reached from the items or the properties of that object. *)
Inductive reach (h : gmap loc object) : val → loc → Prop :=
| reach_here l : is_Some (h !! l) → reach h (VRef l) l
| reach_item l items x l' :
    h !! l = Some (OArr items) → x ∈ items → reach h x l' → reach h (VRef l) l'
| reach_field l m k x l' :
    h !! l = Some (OObj m) → m !! k = Some x → reach h x l' → reach h (VRef l) l'.

(** [h'] has every object of [h] that is not in [X], as it is in [h]. *)
Definition outside (X : gset loc) (h h' : gmap loc object) : Prop :=
  ∀ l o, l ∉ X → h !! l = Some o → h' !! l = Some o.

(** The transient properties of an environment, which are not saved. *)
Definition transient (k : string) : bool :=
  bool_decide (k ∈ ["instance"; "running"; "startedAt"; "needRestart"]).

(** The value of a property in an object literal: that of its first
    binding. *)
Fixpoint assoc (k : string) (kvs : list (string * val)) : option val :=
  match kvs with
  | [] => None
  | (k', v) :: rest => if decide (k' = k) then Some v else assoc k rest
  end.

(** The properties [duplicateEnvironment] sets on the copy. *)
Definition reset_on_copy : list string :=
  ["instance"; "running"; "uuid"; "name"; "startedAt"; "modifiedAt";
   "duplicates"; "needRestart"; "routes"].

(** What [cleanBeforeSave] can copy: a plain object whose properties
    are data of depth at most [d], where only the transient properties
    may hold a host object. *)
Definition sanitizable (d : nat) (h : gmap loc object) (v : val) : bool :=
  match v with
  | VRef l =>
      match h !! l with
      | Some (OObj m) =>
          forallb (λ kv : string * val, plain (transient kv.1) d h kv.2) (map_to_list m)
      | _ => false
      end
  | _ => false
  end.

(** [sanitized h h' v v']: [v'] in [h'] is the copy to save of the
    environment [v] in [h]: an object that [h] does not have, without the
    four transient properties, and with a deep copy of every other
    property of [v] and no property more. *)
Definition sanitized (h h' : gmap loc object) (v v' : val) : Prop :=
  ∃ l l' m m',
    v = VRef l ∧ v' = VRef l' ∧
    h !! l = Some (OObj m) ∧ (l' ∉ dom h) ∧ h' !! l' = Some (OObj m') ∧
    (∀ k, transient k = true → m' !! k = None) ∧
    (∀ k, transient k = false → option_Forall2 (cloned false h h') (m !! k) (m' !! k)).

(** The service once the server of its default environment runs: the
    runtime has set [instance] to its server, [running] to true and
    [startedAt] to a date. *)
Definition serving : World :=
  let environment := environment_at 0 started in
  final ((instance ← alloc OHost;
          startedAt ← new_Date;
          _ ← set_prop environment "instance" instance;
          _ ← set_prop environment "running" (VBool true);
          set_prop environment "startedAt" startedAt) started).

(** The properties of the plain object a value refers to. *)
Definition fields_of (h : gmap loc object) (v : val) : gmap string val :=
  match v with
  | VRef l => default ∅ (obj_at h l)
  | _ => ∅
  end.

(** ** Imported data *)

(** The value of a property of a tree, and the items of a tree that is
    an array. *)
Definition json_field (k : string) (j : json) : json :=
  match j with JObj fields => field k fields | _ => JUndefined end.

Definition elements (j : json) : list json :=
  match j with JArr items => items | _ => [] end.

Definition is_object (j : json) : bool :=
  match j with JObj _ => true | _ => false end.

(** The shape of an imported environment that [renewUUIDs] goes through:
    an object whose [routes] is an array of objects whose
    [customHeaders] is an array of objects. *)
Definition shaped_route (route : json) : bool :=
  is_object route &&
  match json_field "customHeaders" route with
  | JArr headers => forallb is_object headers
  | _ => false
  end.

Definition shaped_environment (environment : json) : bool :=
  is_object environment &&
  match json_field "routes" environment with
  | JArr routes => forallb shaped_route routes
  | _ => false
  end.

(** [holds h v j]: the value [v] in the heap [h] is the tree [j]. *)
Inductive holds (h : gmap loc object) : val → json → Prop :=
| holds_undefined : holds h VUndefined JUndefined
| holds_null : holds h VNull JNull
| holds_bool b : holds h (VBool b) (JBool b)
| holds_num n : holds h (VNum n) (JNum n)
| holds_str s : holds h (VStr s) (JStr s)
| holds_arr l vs js :
    h !! l = Some (OArr vs) → Forall2 (holds h) vs js → holds h (VRef l) (JArr js)
| holds_obj l m fields :
    h !! l = Some (OObj m) →
    (∀ k, holds h (default VUndefined (m !! k)) (field k fields)) →
    holds h (VRef l) (JObj fields).

(** The migrations applied to a list of environments: each migration in
    turn to every environment. *)
Definition migrated (migrations : list (json → json)) (environments : list json)
    : list json :=
  foldl (λ es migration, migration <$> es) environments migrations.

(** *** What renewing the UUIDs comes to *)

(** The number of UUIDs a route and an environment take: one for
    itself and one for each thing it holds. *)
Definition route_size (route : json) : nat :=
  S (length (elements (json_field "customHeaders" route))).

Definition environment_size (environment : json) : nat :=
  S (sum_list (route_size <$> elements (json_field "routes" environment))).

(** [j'] has the properties of [j] but for those in [keys]. *)
Definition same_but (keys : list string) (j j' : json) : Prop :=
  ∀ k, k ∉ keys → json_field k j' = json_field k j.

(** [ys] is [xs] item by item under [R], where the item at the head is
    related from the count [n] of UUIDs generated so far and takes
    [size] of them. *)
Fixpoint threaded {A} (size : A → nat) (R : nat → A → A → Prop) (n : nat)
    (xs ys : list A) : Prop :=
  match xs, ys with
  | [], [] => True
  | x :: xs', y :: ys' => R n x y ∧ threaded size R (n + size x) xs' ys'
  | _, _ => False
  end.

(** The header, route or environment [x'] is [x] with the [n]-th UUID
    of the source in [uuid], whatever [x] had there, the next ones in
    what it holds, in order, and every other property as it was. *)
Definition renewed_header (source : nat → string) (n : nat) (h h' : json) : Prop :=
  is_object h' = true ∧
  json_field "uuid" h' = JStr (source n) ∧
  same_but ["uuid"] h h'.

Definition renewed_route (source : nat → string) (n : nat) (r r' : json) : Prop :=
  is_object r' = true ∧
  json_field "uuid" r' = JStr (source n) ∧
  same_but ["uuid"; "customHeaders"] r r' ∧
  ∃ hs', json_field "customHeaders" r' = JArr hs' ∧
         threaded (λ _, 1) (renewed_header source) (S n)
           (elements (json_field "customHeaders" r)) hs'.

Definition renewed_environment (source : nat → string) (n : nat) (e e' : json) : Prop :=
  is_object e' = true ∧
  json_field "uuid" e' = JStr (source n) ∧
  same_but ["uuid"; "routes"] e e' ∧
  ∃ rs', json_field "routes" e' = JArr rs' ∧
         threaded route_size (renewed_route source) (S n)
           (elements (json_field "routes" e)) rs'.

(** ** More worlds for the examples *)

(** The service after a second environment has been added: it listens
    on the port of the first. *)
Definition two_environments : World := final (addEnvironment None started).

(** A document with a good checksum and nothing to import: [data] is
    missing. *)
Definition without_data : json :=
  JObj [("source", JStr "mockoon:1.0.0"); ("checksum", JStr "good")].

(** The UUIDs of an imported payload in the order of the document: for
    each environment its own, then for each of its routes the route's
    own followed by those of its custom headers. *)
Definition uuids_of_route (route : json) : list json :=
  json_field "uuid" route
  :: (json_field "uuid" <$> elements (json_field "customHeaders" route)).

Definition uuids_of_environment (environment : json) : list json :=
  json_field "uuid" environment
  :: concat (uuids_of_route <$> elements (json_field "routes" environment)).

Definition uuids_of_payload (environments : list json) : list json :=
  concat (uuids_of_environment <$> environments).

(** ** A tidy collection

    A well-formed collection in which no environment has the array of
    the collection itself for its routes: the environments sit once in
    the collection, each has an array of routes of its own kind, and
    each route sits once in it. *)
Definition tidy (w : World) : Prop :=
  well_formed w ∧
  match collection_of w with
  | Some es => Forall (λ e, prop (heap w) (VRef e) "routes" ≠ environments w) es
  | None => False
  end.

#[global] Instance tidy_dec w : Decision (tidy w).
Proof. unfold tidy. destruct (collection_of w); apply _. Defined.

(** ** The counter of routes against the routes

    The number of routes of an environment. *)
Definition routes_count (environment : val) (w : World) : option Z :=
  (λ ls : list loc, Z.of_nat (length ls)) <$> routes_of (heap w) environment.

(** From [w] to [w'] the counter of routes has moved by the number of
    routes that [environment] has gained or lost. *)
Definition adjusted_by_routes (environment : val) (w w' : World) : Prop :=
  match routes_count environment w, routes_count environment w' with
  | Some n, Some n' => (routesTotal w' - routesTotal w = n' - n)%Z
  | _, _ => False
  end.

#[global] Instance adjusted_by_routes_dec environment w w' :
  Decision (adjusted_by_routes environment w w').
Proof. unfold adjusted_by_routes. repeat case_match; apply _. Defined.

(** * Proofs *)

(** ** Total correctness *)

Lemma returns_inv {A} (m : M A) w Q :
returns m w Q ↔ ∃ a w', m w = Returned a w' ∧ Q a w'.
Proof.
unfold returns. destruct (m w) as [a w'|e w']; split.
- eauto.
- by intros (? & ? & [= <- <-] & ?).
- done.
- by intros (? & ? & ? & ?).
Qed.

Lemma returns_mono {A} (m : M A) w (Q Q' : A → World → Prop) :
returns m w Q → (∀ a w', Q a w' → Q' a w') → returns m w Q'.
Proof. unfold returns. destruct (m w); eauto. Qed.

Lemma returns_bind {A B} (m : M A) (f : A → M B) w Q :
returns (m ≫= f) w Q ↔ returns m w (λ a w', returns (f a) w' Q).
Proof. unfold returns, mbind, M_bind. by destruct (m w). Qed.

Lemma returns_ret {A} (a : A) w Q : returns (mret a) w Q ↔ Q a w.
Proof. done. Qed.

Lemma returns_gets {A} (f : World → A) w Q : returns (gets f) w Q ↔ Q (f w) w.
Proof. done. Qed.

Lemma returns_modify f w Q : returns (modify f) w Q ↔ Q tt (f w).
Proof. done. Qed.

Lemma returns_alloc o w Q :
returns (alloc o) w Q ↔
Q (VRef (fresh (dom (heap w)))) (set_heap <[fresh (dom (heap w)) := o]> w).
Proof. done. Qed.

Lemma returns_uuid w Q :
returns uuid w Q ↔
Q (uuid_source w (uuid_calls w)) (set_uuid_calls (S (uuid_calls w)) w).
Proof. done. Qed.

Lemma returns_get_prop l k m w Q :
obj_at (heap w) l = Some m →
returns (get_prop (VRef l) k) w Q ↔ Q (default VUndefined (m !! k)) w.
Proof.
unfold obj_at, returns, get_prop. intros H.
destruct (heap w !! l) as [[]|]; by simplify_eq.
Qed.

Lemma returns_set_prop l k x m w Q :
obj_at (heap w) l = Some m →
returns (set_prop (VRef l) k x) w Q ↔
Q tt (set_heap <[l := OObj (<[k := x]> m)]> w).
Proof.
unfold obj_at, returns, set_prop. intros H.
destruct (heap w !! l) as [[]|]; by simplify_eq.
Qed.

Lemma returns_delete_prop l k m w Q :
obj_at (heap w) l = Some m →
returns (delete_prop (VRef l) k) w Q ↔
Q tt (set_heap <[l := OObj (delete k m)]> w).
Proof.
unfold obj_at, returns, delete_prop. intros H.
destruct (heap w !! l) as [[]|]; by simplify_eq.
Qed.

Lemma returns_own_fields l m w Q :
obj_at (heap w) l = Some m →
returns (own_fields (VRef l)) w Q ↔ Q m w.
Proof.
unfold obj_at, returns, own_fields. intros H.
destruct (heap w !! l) as [[]|]; by simplify_eq.
Qed.

Lemma returns_array_items a items w Q :
arr_at (heap w) a = Some items →
returns (array_items (VRef a)) w Q ↔ Q items w.
Proof.
unfold arr_at, returns, array_items. intros H.
destruct (heap w !! a) as [[]|]; by simplify_eq.
Qed.

Lemma returns_array_length a items w Q :
arr_at (heap w) a = Some items →
returns (array_length (VRef a)) w Q ↔ Q (Z.of_nat (length items)) w.
Proof.
unfold arr_at, returns, array_length. intros H.
destruct (heap w !! a) as [[]|]; by simplify_eq.
Qed.

Lemma returns_get_index a items (i : nat) w Q :
arr_at (heap w) a = Some items →
returns (get_index (VRef a) (Z.of_nat i)) w Q ↔ Q (default VUndefined (items !! i)) w.
Proof.
unfold arr_at, returns, get_index. intros H.
destruct (heap w !! a) as [[]|]; simplify_eq.
rewrite decide_True by lia. by rewrite Nat2Z.id.
Qed.

Lemma returns_push a items xs w Q :
arr_at (heap w) a = Some items →
returns (push (VRef a) xs) w Q ↔
Q (Z.of_nat (length (items ++ xs))) (set_heap <[a := OArr (items ++ xs)]> w).
Proof.
unfold arr_at, returns, push. intros H.
destruct (heap w !! a) as [[]|]; by simplify_eq.
Qed.

Lemma returns_splice a items start n w Q :
arr_at (heap w) a = Some items →
returns (splice (VRef a) start n) w Q ↔
Q tt (set_heap <[a := OArr (splice_items items start n)]> w).
Proof.
unfold arr_at, returns, splice. intros H.
destruct (heap w !! a) as [[]|]; by simplify_eq.
Qed.

(** [splice(i, 1)] at an index of the array removes the item there. *)
Lemma splice_items_delete {A} (items : list A) (i : nat) :
i < length items → splice_items items (Z.of_nat i) 1 = delete i items.
Proof.
intros Hi. unfold splice_items, splice_start.
rewrite decide_False by lia.
rewrite Z.min_l by lia. rewrite Nat2Z.id.
by rewrite delete_take_drop, Nat.add_1_r.
Qed.

Lemma returns_eq {A} (m : M A) w a w' :
returns m w (λ b v, b = a ∧ v = w') ↔ m w = Returned a w'.
Proof.
rewrite returns_inv. split.
- by intros (? & ? & -> & -> & ->).
- eauto.
Qed.

Lemma bind_returned {A B} (m : M A) (f : A → M B) w a w' :
m w = Returned a w' → (m ≫= f) w = f a w'.
Proof. unfold mbind, M_bind. by intros ->. Qed.

Lemma bind_thrown {A B} (m : M A) (f : A → M B) w e w' :
m w = Thrown e w' → (m ≫= f) w = Thrown e w'.
Proof. unfold mbind, M_bind. by intros ->. Qed.

(** ** The two passes: what one turn of the loops computes *)

(** A [filter] whose callback only reads the world, keeps the indexes
    that satisfy [P] and pushes them onto the local array. *)
Lemma filter_from_collect (P : nat → Prop) `{!∀ j, Decision (P j)}
    (f : val → nat → list nat → M (bool * list nat)) items i s w :
(∀ j x s, items !! j = Some x →
     f x (i + j) s w =
       Returned (bool_decide (P (i + j)), if bool_decide (P (i + j)) then s ++ [i + j] else s) w) →
∃ kept, filter_from f items i s w
          = Returned (kept, s ++ filter P (seq i (length items))) w.
Proof.
revert i s. induction items as [|x rest IH]; intros i s Hf; simpl.
- exists []. by rewrite app_nil_r.
- pose proof (Hf 0 x s eq_refl) as H0. rewrite Nat.add_0_r in H0.
    destruct (IH (S i) (if bool_decide (P i) then s ++ [i] else s)) as [kept Hk].
    { intros j y s' Hj. specialize (Hf (S j) y s' Hj).
      by rewrite <- Nat.add_succ_comm in Hf. }
    erewrite bind_returned by exact H0. simpl.
    erewrite bind_returned by exact Hk. simpl.
    eexists. unfold mret, M_ret. f_equal. f_equal.
    rewrite filter_cons. case_bool_decide.
    + rewrite decide_True by done. by rewrite <- app_assoc.
    + by rewrite decide_False by done.
Qed.

Lemma get_prop_object l k m w :
obj_at (heap w) l = Some m →
get_prop (VRef l) k w = Returned (prop (heap w) (VRef l) k) w.
Proof.
intros H. unfold prop. rewrite H. unfold get_prop.
unfold obj_at in H. destruct (heap w !! l) as [[]|]; by simplify_eq.
Qed.

Lemma array_items_array a items w :
arr_at (heap w) a = Some items → array_items (VRef a) w = Returned items w.
Proof.
unfold arr_at, array_items. intros H.
destruct (heap w !! a) as [[]|]; by simplify_eq.
Qed.

Lemma mapM_as_index l : mapM as_index (indexes l) = Some l.
Proof.
apply mapM_Some. unfold indexes. apply Forall2_fmap_l, Forall_Forall2_diag.
apply Forall_forall. intros i _. simpl.
rewrite decide_True by lia. by rewrite Nat2Z.id.
Qed.

Lemma obj_at_dom h l m : obj_at h l = Some m → l ∈ dom h.
Proof.
unfold obj_at. intros H. apply elem_of_dom.
destruct (h !! l); [eauto | done].
Qed.

Lemma arr_at_dom h l m : arr_at h l = Some m → l ∈ dom h.
Proof.
unfold arr_at. intros H. apply elem_of_dom.
destruct (h !! l); [eauto | done].
Qed.

Lemma fresh_not_obj h m : obj_at h (fresh (dom h)) = Some m → False.
Proof. intros H%obj_at_dom. by apply is_fresh in H. Qed.

Lemma fresh_not_arr h m : arr_at h (fresh (dom h)) = Some m → False.
Proof. intros H%arr_at_dom. by apply is_fresh in H. Qed.

Lemma store_duplicates l m ixs w :
obj_at (heap w) l = Some m →
(duplicates ← index_array ixs; set_prop (VRef l) "duplicates" duplicates) w
= Returned tt (mark l m ixs w).
Proof.
intros H. unfold index_array.
erewrite bind_returned by reflexivity.
apply returns_eq. eapply returns_set_prop.
- simpl. unfold obj_at. rewrite lookup_insert_ne; [exact H|].
    intros <-. by apply fresh_not_obj in H.
- done.
Qed.

(** What [mark] leaves as it was. *)
Lemma mark_lookup_ne l m ixs w l' o :
heap w !! l' = Some o → l' ≠ l → heap (mark l m ixs w) !! l' = Some o.
Proof.
intros H Hne. simpl. rewrite lookup_insert_ne by done.
rewrite lookup_insert_ne; [done|].
intros <-. apply (is_fresh (dom (heap w))). apply elem_of_dom; eauto.
Qed.

Lemma mark_obj_at_ne l m ixs w l' m' :
obj_at (heap w) l' = Some m' → l' ≠ l → obj_at (heap (mark l m ixs w)) l' = Some m'.
Proof.
unfold obj_at. intros H Hne.
destruct (heap w !! l') as [o|] eqn:E; [|done].
by erewrite mark_lookup_ne.
Qed.

Lemma mark_arr_at l m ixs w a items :
obj_at (heap w) l = Some m →
arr_at (heap w) a = Some items → arr_at (heap (mark l m ixs w)) a = Some items.
Proof.
unfold arr_at. intros Hl H.
destruct (heap w !! a) as [o|] eqn:E; [|done].
erewrite mark_lookup_ne; [done..|].
intros ->. unfold obj_at in Hl. rewrite E in Hl. by destruct o.
Qed.

Lemma mark_prop_ne l m ixs w l' k m' :
obj_at (heap w) l' = Some m' → l' ≠ l →
prop (heap (mark l m ixs w)) (VRef l') k = prop (heap w) (VRef l') k.
Proof.
intros H Hne. unfold prop. by rewrite (mark_obj_at_ne _ _ _ _ _ _ H Hne), H.
Qed.

Lemma mark_obj_at l m ixs w :
obj_at (heap (mark l m ixs w)) l
= Some (<["duplicates" := VRef (fresh (dom (heap w)))]> m).
Proof. unfold obj_at. simpl. by rewrite lookup_insert_eq. Qed.

Lemma mark_prop l m ixs w k :
obj_at (heap w) l = Some m → k ≠ "duplicates" →
prop (heap (mark l m ixs w)) (VRef l) k = prop (heap w) (VRef l) k.
Proof.
intros H Hk. unfold prop. rewrite mark_obj_at, H.
by rewrite lookup_insert_ne.
Qed.

(** A property other than [duplicates] reads the same after [mark],
    whichever object it is read from. *)
Lemma mark_prop_any l m ixs w v k :
obj_at (heap w) l = Some m → k ≠ "duplicates" →
(∀ l', v = VRef l' → is_Some (heap w !! l')) →
prop (heap (mark l m ixs w)) v k = prop (heap w) v k.
Proof.
intros H Hk Hv. destruct v as [| | | | |l']; try done.
destruct (decide (l' = l)) as [->|Hne]; [by apply mark_prop|].
destruct (Hv l' eq_refl) as [o Ho].
unfold prop, obj_at. by erewrite mark_lookup_ne, Ho.
Qed.

Lemma same_service_refl w : same_service w w.
Proof. by destruct w. Qed.

Lemma same_service_trans w1 w2 w3 :
same_service w1 w2 → same_service w2 w3 → same_service w1 w3.
Proof. unfold same_service. intros H1 H2. rewrite H2, H1. by destruct w1. Qed.

Lemma same_service_set_heap f w : same_service w (set_heap f w).
Proof. by destruct w. Qed.

Section Marking.

Variable all : list loc.
Variable body : val → nat → M unit.
Variable D : nat → list nat.
Variable Pre : World → Prop.

Hypothesis body_marks : ∀ i l m w,
  all !! i = Some l → Pre w → obj_at (heap w) l = Some m →
  body (VRef l) i w = Returned tt (mark l m (D i) w).

Hypothesis Pre_mark : ∀ i l m w,
  all !! i = Some l → Pre w → obj_at (heap w) l = Some m →
  Pre (mark l m (D i) w).

Lemma each_from_marks ls i w :
  drop i all = ls → NoDup ls → Pre w →
  Forall (λ l, is_Some (obj_at (heap w) l)) ls →
  ∃ w', each_from body (VRef <$> ls) i w = Returned tt w' ∧ Pre w' ∧ marked D i ls w w'.
Proof.
  revert i w. induction ls as [|l rest IH]; intros i w Hdrop Hnd Hpre Hobj.
  - exists w. split; [done|]. split; [done|].
    split; [apply same_service_refl|done|done].
  - assert (all !! i = Some l) as Hi.
    { rewrite <- (Nat.add_0_r i), <- lookup_drop, Hdrop. done. }
    assert (drop (S i) all = rest) as Hrest.
    { rewrite (drop_S _ _ _ Hi) in Hdrop. by simplify_eq. }
    apply NoDup_cons in Hnd as [Hl Hnd].
    apply Forall_cons in Hobj as [[m Hm] Hobj].
    set (w1 := mark l m (D i) w).
    destruct (IH (S i) w1) as (w' & Hrun & Hpre' & Hmk); try done.
    { by eapply Pre_mark. }
    { eapply Forall_impl; [|intros l' H; exact H].
      apply Forall_forall. intros l' Hl'.
      rewrite Forall_forall in Hobj. destruct (Hobj l' Hl') as [m' Hm'].
      exists m'. apply mark_obj_at_ne; [done|]. by intros ->. }
    exists w'. split.
    { simpl. erewrite bind_returned by (by eapply body_marks). exact Hrun. }
    split; [done|].
    destruct Hmk as [Hs Ho Hob]. split.
    + eapply same_service_trans; [|exact Hs]. apply same_service_set_heap.
    + intros l' o Hl' Hnot. apply not_elem_of_cons in Hnot as [Hne Hnot].
      apply Ho; [|done]. by apply mark_lookup_ne.
    + intros [|j] l' Hj; simpl in Hj.
      * injection Hj as <-. exists m, (fresh (dom (heap w))).
        split; [done|]. split; [apply is_fresh|].
        rewrite Nat.add_0_r.
        assert (fresh (dom (heap w)) ∉ rest) as Hfr.
        { intros Hin. rewrite Forall_forall in Hobj.
          destruct (Hobj _ Hin) as [? H]. by apply fresh_not_obj in H. }
        split.
        -- unfold obj_at.
           rewrite (Ho l (OObj (<["duplicates" := VRef (fresh (dom (heap w)))]> m)));
             [done| |done].
           simpl. by rewrite lookup_insert_eq.
        -- unfold arr_at.
           rewrite (Ho (fresh (dom (heap w))) (OArr (indexes (D i)))); [done| |done].
           simpl. rewrite lookup_insert_ne, lookup_insert_eq; [done|].
           intros ->. by apply fresh_not_obj in Hm.
      * destruct (Hob j l' Hj) as (m' & a & Hm' & Ha & Hm'' & Harr).
        assert (l' ∈ rest) as Hin by (by eapply list_elem_of_lookup_2).
        assert (l' ≠ l) as Hne by (by intros ->).
        rewrite Forall_forall in Hobj. destruct (Hobj l' Hin) as [m0 Hm0].
        exists m', a. split.
        { unfold w1 in Hm'.
          rewrite (mark_obj_at_ne _ _ _ _ _ _ Hm0 Hne) in Hm'. by rewrite Hm0, Hm'. }
        split.
        { intros Hd. apply Ha. simpl. rewrite !dom_insert_L. set_solver. }
        split; [done|].
        by replace (i + S j) with (S i + j) by lia.
Qed.

End Marking.

Lemma elem_of_others_like {K} `{EqDecision K} (keys : list K) i j :
j ∈ others_like keys i ↔ j ≠ i ∧ j < length keys ∧ keys !! j = keys !! i.
Proof.
unfold others_like. rewrite list_elem_of_filter, elem_of_seq.
split; [intros ((? & ?) & ? & ?) | intros (? & ? & ?)]; repeat split; auto with lia.
Qed.

Lemma NoDup_others_like {K} `{EqDecision K} (keys : list K) i :
NoDup (others_like keys i).
Proof. apply NoDup_filter, NoDup_seq. Qed.

Lemma prop_ref_inv h v k a :
prop h v k = VRef a → ∃ l m, v = VRef l ∧ obj_at h l = Some m.
Proof.
unfold prop. destruct v as [| | | | |l]; try done.
destruct (obj_at h l) as [m|] eqn:E; [eauto | done].
Qed.

Lemma get_prop_ref v k a w :
prop (heap w) v k = VRef a → get_prop v k w = Returned (VRef a) w.
Proof.
intros H. destruct (prop_ref_inv _ _ _ _ H) as (l & m & -> & Hm).
erewrite get_prop_object by done. by rewrite H.
Qed.

Lemma obj_at_lookup h l m : obj_at h l = Some m → h !! l = Some (OObj m).
Proof. unfold obj_at. destruct (h !! l) as [[]|]; by intros [= ->]. Qed.

Lemma strict_eq_spec a b : strict_eq a b = bool_decide (a = b).
Proof. done. Qed.

Lemma routes_pre_mark w0 environment a ls i l m ixs w :
  ls !! i = Some l → routes_pre w0 environment a ls w → obj_at (heap w) l = Some m →
  routes_pre w0 environment a ls (mark l m ixs w).
Proof.
  intros Hi (Hr & Ha & Hobj & Hk) Hm. split; [|split; [|split]].
  - rewrite mark_prop_any; [done..|].
    intros l' ->. destruct (prop_ref_inv _ _ _ _ Hr) as (? & ? & [= <-] & H).
    rewrite (obj_at_lookup _ _ _ H). eauto.
  - by eapply mark_arr_at.
  - apply Forall_forall. intros l' Hl'. rewrite Forall_forall in Hobj.
    destruct (Hobj l' Hl') as [m' Hm'].
    destruct (decide (l' = l)) as [->|Hne].
    + rewrite mark_obj_at. eauto.
    + exists m'. by apply mark_obj_at_ne.
  - intros l' Hl'. rewrite <- (Hk l' Hl'). unfold route_key.
    rewrite Forall_forall in Hobj. destruct (Hobj l' Hl') as [m' Hm'].
    f_equal; (apply mark_prop_any; [done..|]);
      intros ? [= <-]; rewrite (obj_at_lookup _ _ _ Hm'); eauto.
Qed.

Lemma routeDuplicates_marks w0 environment a ls i l m w :
  ls !! i = Some l → routes_pre w0 environment a ls w → obj_at (heap w) l = Some m →
  routeDuplicates environment (VRef l) i w
  = Returned tt (mark l m (others_like (route_key (heap w0) <$> ls) i) w).
Proof.
  intros Hi (Hr & Ha & Hobj & Hk) Hm. unfold routeDuplicates.
  erewrite bind_returned by (by eapply get_prop_ref).
  unfold filter_with.
  set (keys := route_key (heap w0) <$> ls).
  edestruct (filter_from_collect (λ j, j ≠ i ∧ keys !! j = keys !! i)) as [kept Hkept];
    [|erewrite bind_returned;
      [|erewrite bind_returned by (by eapply array_items_array); exact Hkept]].
  - intros j x s Hj. simpl.
    apply list_lookup_fmap_Some in Hj as (lj & -> & Hj).
    assert (keys !! j = Some (route_key (heap w0) lj)) as Hkj.
    { unfold keys. by rewrite list_lookup_fmap, Hj. }
    assert (keys !! i = Some (route_key (heap w0) l)) as Hki.
    { unfold keys. by rewrite list_lookup_fmap, Hi. }
    rewrite Forall_forall in Hobj.
    destruct (Hobj lj) as [mj Hmj]; [by eapply list_elem_of_lookup_2|].
    destruct (decide (j = i)) as [->|Hne].
    { rewrite bool_decide_eq_false_2; [done|]. by intros [? _]. }
    erewrite bind_returned by (by eapply get_prop_object).
    erewrite bind_returned by (by eapply get_prop_object).
    rewrite Hkj, Hki.
    rewrite <- (Hk lj), <- (Hk l) by (by eapply list_elem_of_lookup_2).
    unfold route_key, strict_eq.
    case_bool_decide as He.
    + erewrite bind_returned by (by eapply get_prop_object).
      erewrite bind_returned by (by eapply get_prop_object).
      case_bool_decide as Hme'.
      * rewrite bool_decide_eq_true_2; [done|]. split; [done|]. by rewrite He, Hme'.
      * rewrite bool_decide_eq_false_2; [done|]. intros [_ [= ? ?]]. done.
    + rewrite bool_decide_eq_false_2; [done|]. intros [_ [= ? ?]]. done.
  - simpl. rewrite length_fmap.
    replace (length ls) with (length keys) by (unfold keys; by rewrite length_fmap).
    by apply store_duplicates.
Qed.

Lemma checkRoutesDuplicates_marked w0 environment a ls :
  prop (heap w0) environment "routes" = VRef a →
  arr_at (heap w0) a = Some (VRef <$> ls) →
  Forall (λ l, is_Some (obj_at (heap w0) l)) ls →
  NoDup ls →
  ∃ w', checkRoutesDuplicates environment w0 = Returned tt w' ∧
        routes_pre w0 environment a ls w' ∧
        marked (others_like (route_key (heap w0) <$> ls)) 0 ls w0 w'.
Proof.
  intros Hr Ha Hobj Hnd.
  destruct (each_from_marks ls (routeDuplicates environment)
              (others_like (route_key (heap w0) <$> ls)) (routes_pre w0 environment a ls))
    with (ls := ls) (i := 0) (w := w0)
    as (w' & Hrun & Hpre & Hmk); try done.
  - intros. by eapply routeDuplicates_marks.
  - intros. by eapply routes_pre_mark.
  - exists w'. split; [|done].
    unfold checkRoutesDuplicates.
    erewrite bind_returned by (by eapply get_prop_ref).
    unfold forEach.
    erewrite bind_returned by (by eapply array_items_array).
    exact Hrun.
Qed.

Lemma environments_pre_mark w0 a ls i l m ixs w :
  ls !! i = Some l → environments_pre w0 a ls w → obj_at (heap w) l = Some m →
  environments_pre w0 a ls (mark l m ixs w).
Proof.
  intros Hi (Hr & Ha & Hobj & Hk) Hm. split; [|split; [|split]].
  - done.
  - by eapply mark_arr_at.
  - apply Forall_forall. intros l' Hl'. rewrite Forall_forall in Hobj.
    destruct (Hobj l' Hl') as [m' Hm'].
    destruct (decide (l' = l)) as [->|Hne].
    + rewrite mark_obj_at. eauto.
    + exists m'. by apply mark_obj_at_ne.
  - intros l' Hl'. rewrite <- (Hk l' Hl'). unfold environment_key.
    rewrite Forall_forall in Hobj. destruct (Hobj l' Hl') as [m' Hm'].
    apply mark_prop_any; [done..|].
    intros ? [= <-]. rewrite (obj_at_lookup _ _ _ Hm'). eauto.
Qed.

Lemma environmentDuplicates_marks w0 a ls i l m w :
  ls !! i = Some l → environments_pre w0 a ls w → obj_at (heap w) l = Some m →
  environmentDuplicates (VRef l) i w
  = Returned tt (mark l m (others_like (environment_key (heap w0) <$> ls) i) w).
Proof.
  intros Hi (Hr & Ha & Hobj & Hk) Hm. unfold environmentDuplicates.
  erewrite bind_returned by reflexivity.
  rewrite Hr. unfold filter_with.
  set (keys := environment_key (heap w0) <$> ls).
  edestruct (filter_from_collect (λ j, j ≠ i ∧ keys !! j = keys !! i)) as [kept Hkept];
    [|erewrite bind_returned;
      [|erewrite bind_returned by (by eapply array_items_array); exact Hkept]].
  - intros j x s Hj. simpl.
    apply list_lookup_fmap_Some in Hj as (lj & -> & Hj).
    assert (keys !! j = Some (environment_key (heap w0) lj)) as Hkj.
    { unfold keys. by rewrite list_lookup_fmap, Hj. }
    assert (keys !! i = Some (environment_key (heap w0) l)) as Hki.
    { unfold keys. by rewrite list_lookup_fmap, Hi. }
    rewrite Forall_forall in Hobj.
    destruct (Hobj lj) as [mj Hmj]; [by eapply list_elem_of_lookup_2|].
    destruct (decide (j = i)) as [->|Hne].
    { rewrite bool_decide_eq_false_2; [done|]. by intros [? _]. }
    erewrite bind_returned by (by eapply get_prop_object).
    erewrite bind_returned by (by eapply get_prop_object).
    rewrite Hkj, Hki.
    rewrite <- (Hk lj), <- (Hk l) by (by eapply list_elem_of_lookup_2).
    unfold environment_key, strict_eq.
    case_bool_decide as He.
    + rewrite bool_decide_eq_true_2; [done|]. split; [done|]. by rewrite He.
    + rewrite bool_decide_eq_false_2; [done|]. intros [_ [= ?]]. done.
  - simpl. rewrite length_fmap.
    replace (length ls) with (length keys) by (unfold keys; by rewrite length_fmap).
    by apply store_duplicates.
Qed.

Lemma checkEnvironmentsDuplicates_marked w0 a ls :
  environments w0 = VRef a →
  arr_at (heap w0) a = Some (VRef <$> ls) →
  Forall (λ l, is_Some (obj_at (heap w0) l)) ls →
  NoDup ls →
  ∃ w', checkEnvironmentsDuplicates w0 = Returned tt w' ∧
        environments_pre w0 a ls w' ∧
        marked (others_like (environment_key (heap w0) <$> ls)) 0 ls w0 w'.
Proof.
  intros Hr Ha Hobj Hnd.
  destruct (each_from_marks ls environmentDuplicates
              (others_like (environment_key (heap w0) <$> ls)) (environments_pre w0 a ls))
    with (ls := ls) (i := 0) (w := w0)
    as (w' & Hrun & Hpre & Hmk); try done.
  - intros. by eapply environmentDuplicates_marks.
  - intros. by eapply environments_pre_mark.
  - exists w'. split; [|done].
    unfold checkEnvironmentsDuplicates.
    erewrite bind_returned by reflexivity.
    rewrite Hr. unfold forEach.
    erewrite bind_returned by (by eapply array_items_array).
    exact Hrun.
Qed.

(** ** The two passes, in terms of what is read back from the heap *)

Lemma as_object_Some h v l : as_object h v = Some l ↔ v = VRef l ∧ is_Some (obj_at h l).
Proof.
unfold as_object. destruct v as [| | | | |l']; try by (split; [|intros [? _]]).
destruct (obj_at h l') eqn:E; split.
- intros [= ->]. by rewrite E.
- by intros [[= ->] _].
- done.
- intros [[= ->] [? H]]. by rewrite E in H.
Qed.

Lemma objects_of_Some h items ls :
objects_of h items = Some ls ↔
items = VRef <$> ls ∧ Forall (λ l, is_Some (obj_at h l)) ls.
Proof.
unfold objects_of. rewrite mapM_Some. split.
- intros H. induction H as [|v l items ls Hv _ [-> IH]]; [done|].
    apply as_object_Some in Hv as [-> Hl]. split; [done|]. by constructor.
- intros [-> H]. apply Forall2_fmap_l, Forall_Forall2_diag.
    eapply Forall_impl; [exact H|]. intros l Hl. by apply as_object_Some.
Qed.

Lemma items_of_Some h v k items :
items_of h v k = Some items ↔ ∃ a, prop h v k = VRef a ∧ arr_at h a = Some items.
Proof.
unfold items_of. destruct (prop h v k) as [| | | | |a];
    (split; [try done; eauto | by intros (? & [= <-] & ?)]).
Qed.

Lemma marked_duplicates_of D i ls w w' j l :
marked D i ls w w' → ls !! j = Some l →
duplicates_of (heap w') (VRef l) = Some (D (i + j)).
Proof.
intros [_ _ H] Hj. destruct (H j l Hj) as (m & a & _ & _ & Hm & Ha).
unfold duplicates_of, items_of, prop. rewrite Hm, lookup_insert_eq. simpl.
rewrite Ha. simpl. apply mapM_as_index.
Qed.

Lemma marked_prop D i ls w w' j l k :
marked D i ls w w' → ls !! j = Some l → k ≠ "duplicates" →
prop (heap w') (VRef l) k = prop (heap w) (VRef l) k.
Proof.
intros [_ _ H] Hj Hk. destruct (H j l Hj) as (m & a & Hm0 & _ & Hm & Ha).
unfold prop. rewrite Hm, Hm0. by rewrite lookup_insert_ne.
Qed.

(** The pass over the routes of an environment whose routes are
    distinct objects. *)
Lemma routes_pass w environment items ls :
items_of (heap w) environment "routes" = Some items →
objects_of (heap w) items = Some ls →
NoDup ls →
∃ w', checkRoutesDuplicates environment w = Returned tt w' ∧
    same_service w w' ∧
    items_of (heap w') environment "routes" = Some items ∧
    objects_of (heap w') items = Some ls ∧
    (∀ l, l ∈ ls → route_key (heap w') l = route_key (heap w) l) ∧
    (∀ i l, ls !! i = Some l →
       duplicates_of (heap w') (VRef l)
       = Some (others_like (route_key (heap w) <$> ls) i)) ∧
    (∀ l o, heap w !! l = Some o → l ∉ ls → heap w' !! l = Some o) ∧
    (∀ l k, l ∈ ls → k ≠ "duplicates" →
       prop (heap w') (VRef l) k = prop (heap w) (VRef l) k).
Proof.
intros (a & Hr & Ha)%items_of_Some [-> Hobj]%objects_of_Some Hnd.
destruct (checkRoutesDuplicates_marked w environment a ls Hr Ha Hobj Hnd)
    as (w' & Hrun & (Hr' & Ha' & Hobj' & Hk') & Hmk).
exists w'. split; [done|]. split; [apply Hmk|].
split; [apply items_of_Some; eauto|].
split; [by apply objects_of_Some|].
split; [done|]. split; [|split].
- intros i l Hi. by rewrite (marked_duplicates_of _ _ _ _ _ _ _ Hmk Hi).
- apply Hmk.
- intros l k [j Hj]%list_elem_of_lookup_1 Hk. by eapply marked_prop.
Qed.

(** The pass over the collection, whose environments are distinct
    objects. *)
Lemma environments_pass w a ls :
environments w = VRef a →
arr_at (heap w) a = Some (VRef <$> ls) →
Forall (λ l, is_Some (obj_at (heap w) l)) ls →
NoDup ls →
∃ w', checkEnvironmentsDuplicates w = Returned tt w' ∧
    same_service w w' ∧
    arr_at (heap w') a = Some (VRef <$> ls) ∧
    Forall (λ l, is_Some (obj_at (heap w') l)) ls ∧
    (∀ l, l ∈ ls → environment_key (heap w') l = environment_key (heap w) l) ∧
    (∀ i l, ls !! i = Some l →
       duplicates_of (heap w') (VRef l)
       = Some (others_like (environment_key (heap w) <$> ls) i)) ∧
    (∀ l o, heap w !! l = Some o → l ∉ ls → heap w' !! l = Some o) ∧
    (∀ l k, l ∈ ls → k ≠ "duplicates" →
       prop (heap w') (VRef l) k = prop (heap w) (VRef l) k).
Proof.
intros Hr Ha Hobj Hnd.
destruct (checkEnvironmentsDuplicates_marked w a ls Hr Ha Hobj Hnd)
    as (w' & Hrun & (Hr' & Ha' & Hobj' & Hk') & Hmk).
exists w'. split; [done|]. split; [apply Hmk|].
split; [done|]. split; [done|]. split; [done|]. split; [|split].
- intros i l Hi. by rewrite (marked_duplicates_of _ _ _ _ _ _ _ Hmk Hi).
- apply Hmk.
- intros l k [j Hj]%list_elem_of_lookup_1 Hk. by eapply marked_prop.
Qed.

Lemma others_like_fmap {A K} `{EqDecision K} (f : A → K) (ls : list A) i l j :
  ls !! i = Some l →
  j ∈ others_like (f <$> ls) i ↔ j ≠ i ∧ ∃ l', ls !! j = Some l' ∧ f l' = f l.
Proof.
  intros Hi. rewrite elem_of_others_like, length_fmap, !list_lookup_fmap, Hi. simpl.
  split.
  - intros (Hne & Hlt & Hj). split; [done|].
    destruct (ls !! j) as [l'|] eqn:E; [|done].
    exists l'. split; [done|]. by injection Hj.
  - intros (Hne & l' & Hj & Hf). split; [done|]. split.
    + by eapply lookup_lt_Some.
    + by rewrite Hj, <- Hf.
Qed.

Lemma routes_of_Some h environment ls :
  routes_of h environment = Some ls ↔
  ∃ items, items_of h environment "routes" = Some items ∧ objects_of h items = Some ls.
Proof.
  unfold routes_of. destruct (items_of h environment "routes") as [items|]; simpl.
  - split; [eauto|]. by intros (? & [= <-] & ?).
  - split; [done|]. by intros (? & ? & ?).
Qed.

(** ** The pass over the routes *)

(** C2. After [checkRoutesDuplicates(environment)], for an environment
    whose routes are distinct objects: the routes are the same, in the
    same order, with the same endpoint and method; the [duplicates] of
    the route at index [i] holds, once each, exactly the indexes [j]
    other than [i] of the routes whose endpoint and method are equal to
    its own.  The index of a route is not among its duplicates, [j] is
    among those of [i] exactly when [i] is among those of [j], and when
    endpoints and methods are strings the equality is that of the
    strings, character by character. *)
Theorem checkRoutesDuplicates_exact w environment ls :
  routes_of (heap w) environment = Some ls →
  NoDup ls →
  ∃ w', checkRoutesDuplicates environment w = Returned tt w' ∧
    routes_of (heap w') environment = Some ls ∧
    ∀ i l, ls !! i = Some l →
      route_key (heap w') l = route_key (heap w) l ∧
      ∃ d, duplicates_of (heap w') (VRef l) = Some d ∧ NoDup d ∧ (i ∉ d) ∧
        (∀ j, j ∈ d ↔
           j ≠ i ∧ ∃ l', ls !! j = Some l' ∧ route_key (heap w) l' = route_key (heap w) l) ∧
        (∀ j l' d', ls !! j = Some l' →
           duplicates_of (heap w') (VRef l') = Some d' → (j ∈ d ↔ i ∈ d')) ∧
        (∀ j l' e m e' m', ls !! j = Some l' →
           route_key (heap w) l = (VStr e, VStr m) →
           route_key (heap w) l' = (VStr e', VStr m') →
           (j ∈ d ↔ j ≠ i ∧ e' = e ∧ m' = m)).
Proof.
  intros (items & Hitems & Hobjs)%routes_of_Some Hnd.
  destruct (routes_pass w environment items ls Hitems Hobjs Hnd)
    as (w' & Hrun & _ & Hitems' & Hobjs' & Hkeys & Hdup & _).
  exists w'. split; [done|]. split; [apply routes_of_Some; eauto|].
  intros i l Hi. split; [apply Hkeys; by eapply list_elem_of_lookup_2|].
  exists (others_like (route_key (heap w) <$> ls) i).
  split; [by apply Hdup|]. split; [apply NoDup_others_like|].
  split; [|split; [|split]].
  - rewrite (others_like_fmap _ _ _ _ _ Hi). by intros [? _].
  - intros j. by apply others_like_fmap.
  - intros j l' d' Hj Hd'. rewrite (Hdup j l' Hj) in Hd'. injection Hd' as <-.
    rewrite (others_like_fmap _ _ _ _ _ Hi), (others_like_fmap _ _ _ _ _ Hj).
    split; intros (Hne & l'' & Hl'' & Hk).
    + rewrite Hj in Hl''. injection Hl'' as <-. split; [done|]. by exists l.
    + rewrite Hi in Hl''. injection Hl'' as <-. split; [done|]. by exists l'.
  - intros j l' e m e' m' Hj Hl Hl'.
    rewrite (others_like_fmap _ _ _ _ _ Hi). split.
    + intros (Hne & l'' & Hl'' & Hk). rewrite Hj in Hl''. injection Hl'' as <-.
      rewrite Hl, Hl' in Hk. by injection Hk as -> ->.
    + intros (Hne & -> & ->). split; [done|]. exists l'. split; [done|]. congruence.
Qed.

Lemma checkRoutesDuplicates_exact_witness :
  let w := five_routes in
  let environment := environment_at 0 w in
  ∃ ls, routes_of (heap w) environment = Some ls ∧ NoDup ls ∧
  ∃ w', checkRoutesDuplicates environment w = Returned tt w' ∧
    routes_of (heap w') environment = Some ls ∧
    ∀ i l, ls !! i = Some l →
      route_key (heap w') l = route_key (heap w) l ∧
      ∃ d, duplicates_of (heap w') (VRef l) = Some d ∧ NoDup d ∧ (i ∉ d) ∧
        (∀ j, j ∈ d ↔
           j ≠ i ∧ ∃ l', ls !! j = Some l' ∧ route_key (heap w) l' = route_key (heap w) l) ∧
        (∀ j l' d', ls !! j = Some l' →
           duplicates_of (heap w') (VRef l') = Some d' → (j ∈ d ↔ i ∈ d')) ∧
        (∀ j l' e m e' m', ls !! j = Some l' →
           route_key (heap w) l = (VStr e, VStr m) →
           route_key (heap w) l' = (VStr e', VStr m') →
           (j ∈ d ↔ j ≠ i ∧ e' = e ∧ m' = m)).
Proof.
  intros w environment.
  destruct (routes_of (heap w) environment) as [ls|] eqn:E; [|by vm_compute in E].
  exists ls.
  assert (NoDup ls) as Hnd.
  { vm_compute in E. injection E as <-. by apply (bool_decide_unpack _). }
  split; [done|]. split; [done|].
  by apply checkRoutesDuplicates_exact.
Defined.

(** ** Running a pass twice *)

Lemma collection_of_Some w es :
  collection_of w = Some es ↔
  ∃ a, environments w = VRef a ∧ arr_at (heap w) a = Some (VRef <$> es) ∧
       Forall (λ l, is_Some (obj_at (heap w) l)) es.
Proof.
  unfold collection_of. destruct (environments w) as [| | | | |a];
    try (split; [done|by intros (? & ? & _)]).
  destruct (arr_at (heap w) a) as [items|] eqn:E; simpl.
  - rewrite objects_of_Some. split.
    + intros [-> H]. eauto.
    + intros (? & [= <-] & Ha & H). rewrite E in Ha. by injection Ha as ->.
  - split; [done|]. intros (? & [= <-] & Ha & _). by rewrite E in Ha.
Qed.

Lemma well_formed_inv w :
  well_formed w →
  ∃ es, collection_of w = Some es ∧ NoDup es ∧
        Forall (λ e, ∃ rs, routes_of (heap w) (VRef e) = Some rs ∧ NoDup rs) es.
Proof.
  unfold well_formed. destruct (collection_of w) as [es|]; [|done].
  intros [Hnd H]. exists es. split; [done|]. split; [done|].
  eapply Forall_impl; [exact H|]. intros e. unfold distinct_routes.
  destruct (routes_of (heap w) (VRef e)); [eauto|done].
Qed.

(** A [duplicates] read from an object that a pass does not visit
    reads the same after the pass. *)
Lemma duplicates_of_kept (h h' : gmap loc object) ls v d :
  (∀ l o, h !! l = Some o → l ∉ ls → h' !! l = Some o) →
  Forall (λ l, is_Some (obj_at h l)) ls →
  (∀ l, v = VRef l → l ∉ ls) →
  duplicates_of h v = Some d → duplicates_of h' v = Some d.
Proof.
  intros Hkept Hobj Hv. unfold duplicates_of, items_of, prop.
  destruct v as [| | | | |l]; try done.
  destruct (obj_at h l) as [m|] eqn:Hm; [|done].
  assert (obj_at h' l = Some m) as ->.
  { unfold obj_at. rewrite (Hkept l (OObj m)); [done|by apply obj_at_lookup|by apply Hv]. }
  destruct (default VUndefined (m !! "duplicates")) as [| | | | |a]; try done.
  unfold arr_at. destruct (h !! a) as [[| items | |]|] eqn:Ha; try done.
  rewrite (Hkept a (OArr items) Ha); [done|].
  intros Hin. rewrite Forall_forall in Hobj. destruct (Hobj a Hin) as [m' Hm'].
  apply obj_at_lookup in Hm'. by rewrite Ha in Hm'.
Qed.

Lemma duplicates_of_ref h v d : duplicates_of h v = Some d → ∃ l, v = VRef l.
Proof. destruct v; try done. eauto. Qed.

Lemma others_like_ext {A K} `{EqDecision K} (f g : A → K) (ls : list A) i :
  (∀ l, l ∈ ls → f l = g l) → others_like (f <$> ls) i = others_like (g <$> ls) i.
Proof.
  intros H. f_equal. apply list_fmap_ext. intros j l Hj. apply H.
  by eapply list_elem_of_lookup_2.
Qed.

Lemma routes_pass_twice w environment rs :
  routes_of (heap w) environment = Some rs → NoDup rs →
  ∃ w1 w2,
    checkRoutesDuplicates environment w = Returned tt w1 ∧
    checkRoutesDuplicates environment w1 = Returned tt w2 ∧
    (∀ r, r ∈ rs → is_Some (duplicates_of (heap w1) (VRef r))) ∧
    (∀ v d, duplicates_of (heap w1) v = Some d → duplicates_of (heap w2) v = Some d).
Proof.
  intros (items & Hitems & Hobjs)%routes_of_Some Hnd.
  destruct (routes_pass w environment items rs Hitems Hobjs Hnd)
    as (w1 & Hrun1 & _ & Hitems1 & Hobjs1 & Hkeys1 & Hdup1 & _).
  destruct (routes_pass w1 environment items rs Hitems1 Hobjs1 Hnd)
    as (w2 & Hrun2 & _ & _ & _ & _ & Hdup2 & Hkept2 & _).
  exists w1, w2. split; [done|]. split; [done|]. split.
  - intros r [i Hi]%list_elem_of_lookup_1. rewrite (Hdup1 i r Hi). eauto.
  - intros v d Hd.
    destruct (duplicates_of_ref _ _ _ Hd) as [l ->].
    destruct (decide (l ∈ rs)) as [[i Hi]%list_elem_of_lookup_1|Hno].
    + rewrite (Hdup1 i l Hi) in Hd. rewrite (Hdup2 i l Hi). rewrite <- Hd.
      f_equal. by apply others_like_ext.
    + eapply duplicates_of_kept; [exact Hkept2| |..|exact Hd].
      * by apply objects_of_Some in Hobjs1 as [_ ?].
      * by intros ? [= <-].
Qed.

Lemma environments_pass_twice w es :
  collection_of w = Some es → NoDup es →
  ∃ w1 w2,
    checkEnvironmentsDuplicates w = Returned tt w1 ∧
    checkEnvironmentsDuplicates w1 = Returned tt w2 ∧
    (∀ e, e ∈ es → is_Some (duplicates_of (heap w1) (VRef e))) ∧
    (∀ v d, duplicates_of (heap w1) v = Some d → duplicates_of (heap w2) v = Some d).
Proof.
  intros (a & Henv & Harr & Hobj)%collection_of_Some Hnd.
  destruct (environments_pass w a es Henv Harr Hobj Hnd)
    as (w1 & Hrun1 & Hsame & Harr1 & Hobj1 & Hkeys1 & Hdup1 & _).
  assert (environments w1 = VRef a) as Henv1 by (rewrite Hsame; exact Henv).
  destruct (environments_pass w1 a es Henv1 Harr1 Hobj1 Hnd)
    as (w2 & Hrun2 & _ & _ & _ & _ & Hdup2 & Hkept2 & _).
  exists w1, w2. split; [done|]. split; [done|]. split.
  - intros r [i Hi]%list_elem_of_lookup_1. rewrite (Hdup1 i r Hi). eauto.
  - intros v d Hd.
    destruct (duplicates_of_ref _ _ _ Hd) as [l ->].
    destruct (decide (l ∈ es)) as [[i Hi]%list_elem_of_lookup_1|Hno].
    + rewrite (Hdup1 i l Hi) in Hd. rewrite (Hdup2 i l Hi). rewrite <- Hd.
      f_equal. by apply others_like_ext.
    + eapply duplicates_of_kept; [exact Hkept2|exact Hobj1|..|exact Hd].
      by intros ? [= <-].
Qed.

(** C9. Both passes are idempotent.  In a well-formed collection, for
    each environment [e], a second [checkRoutesDuplicates(e)] right after
    the first leaves every [duplicates] that can be read after the first
    (those of the routes of [e] among them) as the first left it; and so
    does a second [checkEnvironmentsDuplicates()] for the [duplicates] of
    the environments. *)
Theorem duplicate_passes_idempotent w es :
  well_formed w →
  collection_of w = Some es →
  (∀ e rs, e ∈ es → routes_of (heap w) (VRef e) = Some rs →
     ∃ w1 w2,
       checkRoutesDuplicates (VRef e) w = Returned tt w1 ∧
       checkRoutesDuplicates (VRef e) w1 = Returned tt w2 ∧
       (∀ r, r ∈ rs → is_Some (duplicates_of (heap w1) (VRef r))) ∧
       (∀ v d, duplicates_of (heap w1) v = Some d → duplicates_of (heap w2) v = Some d)) ∧
  (∃ w1 w2,
     checkEnvironmentsDuplicates w = Returned tt w1 ∧
     checkEnvironmentsDuplicates w1 = Returned tt w2 ∧
     (∀ e, e ∈ es → is_Some (duplicates_of (heap w1) (VRef e))) ∧
     (∀ v d, duplicates_of (heap w1) v = Some d → duplicates_of (heap w2) v = Some d)).
Proof.
  intros (es' & Hes' & Hnd & Hroutes)%well_formed_inv Hes.
  rewrite Hes in Hes'. injection Hes' as <-. split.
  - intros e rs He Hrs. rewrite Forall_forall in Hroutes.
    destruct (Hroutes e He) as (rs' & Hrs' & Hndr).
    rewrite Hrs in Hrs'. injection Hrs' as <-.
    by apply routes_pass_twice.
  - by apply environments_pass_twice.
Qed.

Lemma duplicate_passes_idempotent_witness :
  let w := five_routes in
  ∃ es, well_formed w ∧ collection_of w = Some es ∧
  (∀ e rs, e ∈ es → routes_of (heap w) (VRef e) = Some rs →
     ∃ w1 w2,
       checkRoutesDuplicates (VRef e) w = Returned tt w1 ∧
       checkRoutesDuplicates (VRef e) w1 = Returned tt w2 ∧
       (∀ r, r ∈ rs → is_Some (duplicates_of (heap w1) (VRef r))) ∧
       (∀ v d, duplicates_of (heap w1) v = Some d → duplicates_of (heap w2) v = Some d)) ∧
  (∃ w1 w2,
     checkEnvironmentsDuplicates w = Returned tt w1 ∧
     checkEnvironmentsDuplicates w1 = Returned tt w2 ∧
     (∀ e, e ∈ es → is_Some (duplicates_of (heap w1) (VRef e))) ∧
     (∀ v d, duplicates_of (heap w1) v = Some d → duplicates_of (heap w2) v = Some d)).
Proof.
  intros w.
  assert (well_formed w) as Hwf by (apply (bool_decide_unpack _); by vm_compute).
  destruct (collection_of w) as [es|] eqn:E; [|by vm_compute in E].
  exists es. split; [done|]. split; [done|].
  by apply duplicate_passes_idempotent.
Defined.

(** ** Writing an array leaves the plain objects as they are *)

Lemma obj_at_store_array h a items xs l :
  arr_at h a = Some items → obj_at (<[a := OArr xs]> h) l = obj_at h l.
Proof.
  intros Ha. unfold obj_at. destruct (decide (l = a)) as [->|Hne].
  - rewrite lookup_insert_eq. unfold arr_at in Ha.
    by destruct (h !! a) as [[]|].
  - by rewrite lookup_insert_ne.
Qed.

Lemma prop_store_array h a items xs v k :
  arr_at h a = Some items → prop (<[a := OArr xs]> h) v k = prop h v k.
Proof.
  intros Ha. unfold prop. destruct v; try done.
  by erewrite obj_at_store_array.
Qed.

Lemma arr_at_store_array (h : gmap loc object) a xs :
  arr_at (<[a := OArr xs]> h) a = Some xs.
Proof. unfold arr_at. by rewrite lookup_insert_eq. Qed.

Lemma arr_at_store_array_ne (h : gmap loc object) a xs b :
  b ≠ a → arr_at (<[a := OArr xs]> h) b = arr_at h b.
Proof. intros. unfold arr_at. by rewrite lookup_insert_ne. Qed.

Lemma route_key_store_array h a items xs l :
  arr_at h a = Some items → route_key (<[a := OArr xs]> h) l = route_key h l.
Proof. intros Ha. unfold route_key. by rewrite !(prop_store_array _ _ _ _ _ _ Ha). Qed.

Lemma environment_key_store_array h a items xs l :
  arr_at h a = Some items → environment_key (<[a := OArr xs]> h) l = environment_key h l.
Proof. intros Ha. unfold environment_key. by rewrite !(prop_store_array _ _ _ _ _ _ Ha). Qed.

Lemma elem_of_delete {A} (l : list A) i x : x ∈ delete i l → x ∈ l.
Proof. intros H. eapply elem_of_sublist; [exact H | apply sublist_delete]. Qed.

Lemma Forall_delete_objects (h : gmap loc object) (ls : list loc) i :
  Forall (λ l, is_Some (obj_at h l)) ls →
  Forall (λ l, is_Some (obj_at h l)) (delete i ls).
Proof.
  rewrite !Forall_forall. intros H l Hl. by apply H, (elem_of_delete _ i).
Qed.

Lemma NoDup_delete {A} (l : list A) i : NoDup l → NoDup (delete i l).
Proof. intros H. eapply sublist_NoDup; [done | apply sublist_delete]. Qed.

(** ** [removeRoute] *)

(** C6. [removeRoute(environment, i, callback)] at an index [i] of the
    routes: the routes left are those of before without the one at [i],
    in the same order; their endpoint and method are unchanged; the
    [duplicates] of the route now at index [j] holds exactly the indexes
    [k] other than [j], counted in the routes left, of the routes with
    its endpoint and method; the counter of routes is one less; and the
    update event is the last thing that happens, in a world [w1] whose
    heap already holds all of this.  The recomputation comes before the
    event: whatever [next] does with the event (whatever the subscribers
    do, throwing included), it is called once, last, on the world [w1]
    where the duplicates are already those of the routes left; with the
    service's own debounced subscribers the call then returns with the
    event recorded. *)
Theorem removeRoute_recomputes w environment ls (i : nat) cb :
  routes_of (heap w) environment = Some ls →
  NoDup ls →
  i < length ls →
  ∃ w1,
    (∀ next : val → callback → M unit,
       removeRoute_with next environment (Z.of_nat i) cb w = next environment cb w1) ∧
    removeRoute environment (Z.of_nat i) cb w
    = Returned tt (add_event (UpdateEvent environment cb) w1) ∧
    updateEvents w1 = updateEvents w ∧
    routesTotal w1 = (routesTotal w - 1)%Z ∧
    routes_of (heap w1) environment = Some (delete i ls) ∧
    ∀ j r, delete i ls !! j = Some r →
      route_key (heap w1) r = route_key (heap w) r ∧
      ∃ d, duplicates_of (heap w1) (VRef r) = Some d ∧ NoDup d ∧
        ∀ k, k ∈ d ↔
          k ≠ j ∧ ∃ r', delete i ls !! k = Some r' ∧
                        route_key (heap w) r' = route_key (heap w) r.
Proof.
  intros (items & (a & Hr & Ha)%items_of_Some & [-> Hobj]%objects_of_Some)%routes_of_Some
    Hnd Hi.
  set (items' := VRef <$> delete i ls).
  set (w0 := set_routesTotal (routesTotal w - 1) (set_heap <[a := OArr items']> w)).
  assert (items_of (heap w0) environment "routes" = Some items') as Hitems0.
  { apply items_of_Some. exists a. simpl.
    rewrite (prop_store_array _ _ _ _ _ _ Ha). split; [done|apply arr_at_store_array]. }
  assert (objects_of (heap w0) items' = Some (delete i ls)) as Hobjs0.
  { apply objects_of_Some. split; [done|]. simpl.
    eapply Forall_impl; [by apply Forall_delete_objects|].
    intros l. simpl. by rewrite (obj_at_store_array _ _ _ _ _ Ha). }
  destruct (routes_pass w0 environment items' (delete i ls) Hitems0 Hobjs0
              (NoDup_delete _ _ Hnd))
    as (w1 & Hrun & Hsame & Hitems1 & Hobjs1 & Hkeys & Hdup & _).
  assert (∀ r, r ∈ delete i ls → route_key (heap w1) r = route_key (heap w) r) as Hkeys'.
  { intros r Hin. rewrite (Hkeys r Hin). simpl. by eapply route_key_store_array. }
  assert (∀ next : val → callback → M unit,
            removeRoute_with next environment (Z.of_nat i) cb w = next environment cb w1)
    as Hnext.
  { intros next. unfold removeRoute_with.
    erewrite bind_returned by (by eapply get_prop_ref).
    erewrite bind_returned.
    2:{ apply returns_eq. eapply returns_splice; [exact Ha|]. split; reflexivity. }
    erewrite bind_returned by reflexivity.
    erewrite bind_returned.
    2:{ rewrite splice_items_delete by (by rewrite length_fmap).
        rewrite <- list_fmap_delete. exact Hrun. }
    done. }
  exists w1. split; [exact Hnext|]. split; [|split; [|split; [|split]]].
  - unfold removeRoute. by rewrite Hnext.
  - by rewrite Hsame.
  - by rewrite Hsame.
  - apply routes_of_Some. eauto.
  - intros j r Hj. split; [apply Hkeys'; by eapply list_elem_of_lookup_2|].
    exists (others_like (route_key (heap w0) <$> delete i ls) j).
    split; [by apply Hdup|]. split; [apply NoDup_others_like|].
    intros k. rewrite (others_like_fmap _ _ _ _ _ Hj).
    assert (∀ r', route_key (heap w0) r' = route_key (heap w) r') as Heq.
    { intros r'. simpl. by eapply route_key_store_array. }
    by setoid_rewrite Heq.
Qed.

Lemma removeRoute_recomputes_witness :
  let w := three_alike in
  let environment := environment_at 0 w in
  ∃ ls, routes_of (heap w) environment = Some ls ∧ NoDup ls ∧ 1 < length ls ∧
  ∃ w1,
    (∀ next : val → callback → M unit,
       removeRoute_with next environment (Z.of_nat 1) (Some 7) w
       = next environment (Some 7) w1) ∧
    removeRoute environment (Z.of_nat 1) (Some 7) w
    = Returned tt (add_event (UpdateEvent environment (Some 7)) w1) ∧
    updateEvents w1 = updateEvents w ∧
    routesTotal w1 = (routesTotal w - 1)%Z ∧
    routes_of (heap w1) environment = Some (delete 1 ls) ∧
    ∀ j r, delete 1 ls !! j = Some r →
      route_key (heap w1) r = route_key (heap w) r ∧
      ∃ d, duplicates_of (heap w1) (VRef r) = Some d ∧ NoDup d ∧
        ∀ k, k ∈ d ↔
          k ≠ j ∧ ∃ r', delete 1 ls !! k = Some r' ∧
                        route_key (heap w) r' = route_key (heap w) r.
Proof.
  intros w environment.
  destruct (routes_of (heap w) environment) as [ls|] eqn:E; [|by vm_compute in E].
  exists ls. vm_compute in E. injection E as <-.
  assert (NoDup [11; 14; 19]%positive) as Hnd by (by apply (bool_decide_unpack _)).
  split; [done|]. split; [done|]. split; [simpl; lia|].
  apply removeRoute_recomputes; [by vm_compute|done|simpl; lia].
Defined.

(** The scenario of the specification: of three routes that are
    duplicates of one another, the one in the middle is removed; the two
    left are each the only duplicate of the other, under the indexes they
    have now. *)
Example removeRoute_of_three_alike :
  let w := three_alike in
  let environment := environment_at 0 w in
  let w' := final (removeRoute environment 1 None w) in
  (λ r, duplicates_of (heap w) (route_at r environment w)) <$> [0; 1; 2]
    = [Some []; Some []; Some []] ∧
  (λ r, duplicates_of (heap (final (checkRoutesDuplicates environment w)))
          (route_at r environment w)) <$> [0; 1; 2]
    = [Some [1; 2]; Some [0; 2]; Some [0; 1]] ∧
  (λ r, duplicates_of (heap w') (route_at r environment w')) <$> [0; 1; 2]
    = [Some [1]; Some [0]; None].
Proof. by vm_compute. Qed.

(** The order, seen by a subscriber that is not debounced: one that
    throws stops [removeRoute] at the event, and the two routes left
    already are each the only duplicate of the other. *)
Example removeRoute_event_after_duplicates :
  let w := three_alike in
  let environment := environment_at 0 w in
  let run := removeRoute_with (λ _ _, throw TypeError) environment 1 None w in
  let w' := final run in
  (if run is Thrown TypeError _ then True else False) ∧
  updateEvents w' = updateEvents w ∧
  (λ r, duplicates_of (heap w') (route_at r environment w')) <$> [0; 1; 2]
  = [Some [1]; Some [0]; None].
Proof. split; [by vm_compute|]. split; by vm_compute. Qed.

(** ** What [removeEnvironment] leaves unchanged *)

Section Keeps.

Context {X : Type} (f : World → X).
Hypothesis f_heap : ∀ g w, f (set_heap g w) = f w.

Lemma keeps_ret {A} (a : A) : keeps f (mret a).
Proof. done. Qed.

Lemma keeps_throw {A} e : keeps f (throw e : M A).
Proof. done. Qed.

Lemma keeps_gets {A} (g : World → A) : keeps f (gets g).
Proof. done. Qed.

Lemma keeps_bind {A B} (m : M A) (k : A → M B) :
  keeps f m → (∀ a, keeps f (k a)) → keeps f (m ≫= k).
Proof.
  intros Hm Hk w. unfold mbind, M_bind. specialize (Hm w).
  destruct (m w) as [a w'|e w']; simpl in *; [|done].
  by rewrite Hk.
Qed.

Lemma keeps_alloc o : keeps f (alloc o).
Proof. intros w. apply f_heap. Qed.

Lemma keeps_get_prop v k : keeps f (get_prop v k).
Proof. intros w. unfold get_prop. by repeat case_match. Qed.

Lemma keeps_set_prop v k x : keeps f (set_prop v k x).
Proof. intros w. unfold set_prop. repeat case_match; try done; apply f_heap. Qed.

Lemma keeps_array_items v : keeps f (array_items v).
Proof. intros w. unfold array_items. by repeat case_match. Qed.

Lemma keeps_get_index v i : keeps f (get_index v i).
Proof. intros w. unfold get_index. by repeat case_match. Qed.

Lemma keeps_splice v i n : keeps f (splice v i n).
Proof. intros w. unfold splice. repeat case_match; try done; apply f_heap. Qed.

Lemma keeps_each_from body items i :
  (∀ x j, keeps f (body x j)) → keeps f (each_from body items i).
Proof.
  intros Hb. revert i. induction items as [|x rest IH]; intros i; simpl.
  - apply keeps_ret.
  - apply keeps_bind; [apply Hb | intros _; apply IH].
Qed.

Lemma keeps_filter_from {L} (cb : val → nat → L → M (bool * L)) items i s :
  (∀ x j s, keeps f (cb x j s)) → keeps f (filter_from cb items i s).
Proof.
  intros Hb. revert i s. induction items as [|x rest IH]; intros i s; simpl.
  - apply keeps_ret.
  - apply keeps_bind; [apply Hb | intros [keep s1]].
    apply keeps_bind; [apply IH | intros [kept s2]]. apply keeps_ret.
Qed.

Lemma keeps_checkEnvironmentsDuplicates : keeps f checkEnvironmentsDuplicates.
Proof.
  unfold checkEnvironmentsDuplicates, forEach.
  apply keeps_bind; [apply keeps_gets | intros collection].
  apply keeps_bind; [apply keeps_array_items | intros items].
  apply keeps_each_from. intros environment environmentIndex.
  unfold environmentDuplicates, filter_with, index_array.
  apply keeps_bind; [apply keeps_gets | intros collection'].
  apply keeps_bind.
  { apply keeps_bind; [apply keeps_array_items | intros items'].
    apply keeps_filter_from. intros x j s.
    destruct (decide (j = environmentIndex)); [apply keeps_ret|].
    apply keeps_bind; [apply keeps_get_prop | intros otherPort].
    apply keeps_bind; [apply keeps_get_prop | intros port].
    destruct (strict_eq otherPort port); apply keeps_ret. }
  intros [kept ixs].
  apply keeps_bind; [apply keeps_alloc | intros d]. apply keeps_set_prop.
Qed.

End Keeps.

(** [removeEnvironment(environmentIndex)] leaves [routesTotal] as
    it was, for every world and every index, whether the call returns or
    throws.  So it does when the environment removed has routes: from
    the service as it starts, with its default environment of two routes
    and a counter of 2, removing that environment leaves an empty
    collection and a counter of 2. *)
Lemma removeEnvironment_frames_routesTotal :
  (∀ environmentIndex w,
     routesTotal (final (removeEnvironment environmentIndex w)) = routesTotal w) ∧
  (routesTotal started = 2%Z ∧
   (length <$> routes_of (heap started) (environment_at 0 started)) = Some 2 ∧
   returns (removeEnvironment 0) started
     (λ _ w', collection_of w' = Some [] ∧ routesTotal w' = 2%Z)).
Proof.
  split.
  - intros environmentIndex. change (keeps routesTotal (removeEnvironment environmentIndex)).
    assert (∀ g w, routesTotal (set_heap g w) = routesTotal w) as Hh by done.
    unfold removeEnvironment.
    apply keeps_bind; [apply keeps_gets | intros collection].
    apply keeps_bind; [by apply keeps_get_index | intros environment].
    apply keeps_bind; [by apply keeps_get_prop | intros running].
    apply keeps_bind.
    { destruct (truthy running); [|apply keeps_ret].
      apply keeps_bind; [apply keeps_gets | intros collection'].
      apply keeps_bind; [by apply keeps_get_index | intros environment'].
      done. }
    intros _.
    apply keeps_bind; [apply keeps_gets | intros collection'].
    apply keeps_bind; [by apply keeps_splice | intros _].
    apply keeps_bind; [by apply keeps_checkEnvironmentsDuplicates | intros _].
    done.
  - split; [by vm_compute|]. split; by vm_compute.
Qed.

(** ** Import of a file whose checksum does not verify *)

Section WrongChecksum.

Variable Migrations : list (json → json).
Variable verifyImportChecksum : json → bool.
Variable JSON_parse : string → option json.

(** C1. When the checksum of the document read from the chosen file
    does not verify, [importEnvironmentsFile] returns after one alert,
    the error [IMPORT_WRONG_CHECKSUM], and nothing else has changed: the
    heap (so every object of the live collection, and no object built),
    the collection, the counter of routes, the number of UUIDs generated
    and the update events are those of before. *)
Theorem import_wrong_checksum file path rest readFile fileContent importData w :
  file = Some (path :: rest) →
  path ≠ EmptyString →
  readFile path = ReadOk fileContent →
  JSON_parse fileContent = Some importData →
  verifyImportChecksum importData = false →
  ∃ w',
    importEnvironmentsFile Migrations verifyImportChecksum JSON_parse file readFile w
    = Returned tt w' ∧
    alerts w' = alerts w ++ [(AlertError, IMPORT_WRONG_CHECKSUM)] ∧
    heap w' = heap w ∧
    environments w' = environments w ∧
    routesTotal w' = routesTotal w ∧
    uuid_calls w' = uuid_calls w ∧
    updateEvents w' = updateEvents w ∧
    stopRequests w' = stopRequests w.
Proof.
  intros -> Hpath Hread Hparse Hverify.
  exists (add_alert (AlertError, IMPORT_WRONG_CHECKSUM) w).
  split; [|done].
  unfold importEnvironmentsFile.
  destruct (String.eqb_spec path EmptyString) as [->|_]; [done|].
  by rewrite Hread, Hparse, Hverify.
Qed.

End WrongChecksum.

Lemma import_wrong_checksum_witness :
  let file := Some ["/tmp/export.json"] in
  let w := started in
  "/tmp/export.json" ≠ EmptyString ∧
  read_example "/tmp/export.json" = ReadOk "/tmp/export.json" ∧
  parse_example false "/tmp/export.json" = Some (exported "tampered") ∧
  verify_example (exported "tampered") = false ∧
  ∃ w',
    importEnvironmentsFile [migration_example] verify_example (parse_example false)
      file read_example w
    = Returned tt w' ∧
    alerts w' = alerts w ++ [(AlertError, IMPORT_WRONG_CHECKSUM)] ∧
    heap w' = heap w ∧
    environments w' = environments w ∧
    routesTotal w' = routesTotal w ∧
    uuid_calls w' = uuid_calls w ∧
    updateEvents w' = updateEvents w ∧
    stopRequests w' = stopRequests w.
Proof.
  intros file w. split; [done|]. split; [done|]. split; [done|]. split; [done|].
  by eapply import_wrong_checksum.
Defined.

(** ** The UUIDs of what is added or duplicated *)

(** C3, at the service as it starts (one environment, two routes, five
    UUIDs generated).  [addEnvironment] returns the index 1 of a new last
    environment with one route with one header; the environment and the
    header carry the UUIDs generated by the call, and the [uuid] of the
    route is the empty string of [routeSchema].  [addRoute] on the first
    environment returns the index 2 of a new last route whose header
    carries the UUID generated by the call and whose [uuid] is the empty
    string.  The routes built by [buildDefaultEnvironment] carry
    generated UUIDs. *)
Theorem added_route_has_no_uuid :
  route_uuids started = Some [VStr (numbered 1); VStr (numbered 3)] ∧
  returns (addEnvironment None) started (λ index w,
    let environment := environment_at 1 w in
    let route := route_at 0 environment w in
    index = 1%Z ∧
    (length <$> collection_of w) = Some 2 ∧
    (length <$> routes_of (heap w) environment) = Some 1 ∧
    prop (heap w) environment "uuid" = VStr (numbered 6) ∧
    header_uuids (heap w) route = Some [VStr (numbered 5)] ∧
    prop (heap w) route "uuid" = VStr EmptyString ∧
    uuid_calls w = 7) ∧
  returns (addRoute (environment_at 0 started) None) started (λ index w,
    let environment := environment_at 0 w in
    let route := route_at 2 environment w in
    index = 2%Z ∧
    (length <$> routes_of (heap w) environment) = Some 3 ∧
    header_uuids (heap w) route = Some [VStr (numbered 5)] ∧
    prop (heap w) route "uuid" = VStr EmptyString ∧
    uuid_calls w = 6).
Proof. split; [by vm_compute|]. split; by vm_compute. Qed.

(** C4, at the service as it starts: the UUIDs of the two routes are
    distinct.  After [duplicateEnvironment(0)] the routes of the copy
    carry the UUIDs of the routes they were copied from, and after two
    [addRoute] the two new routes both carry the empty string: in both
    worlds the UUIDs of the routes of the collection are not distinct.
    [duplicateRoute] gives the copy of a route a UUID generated by the
    call. *)
Theorem copied_routes_keep_their_uuids :
  route_uuids started = Some [VStr (numbered 1); VStr (numbered 3)] ∧
  distinct_uuids started ∧
  returns (duplicateEnvironment 4 0 None) started (λ index w,
    index = 1%Z ∧
    route_uuids w = Some [VStr (numbered 1); VStr (numbered 3);
                          VStr (numbered 1); VStr (numbered 3)] ∧
    ¬ distinct_uuids w) ∧
  returns (_ ← addRoute (environment_at 0 started) None;
           addRoute (environment_at 0 started) None) started (λ _ w,
    route_uuids w = Some [VStr (numbered 1); VStr (numbered 3);
                          VStr EmptyString; VStr EmptyString] ∧
    ¬ distinct_uuids w) ∧
  returns (duplicateRoute 4 (environment_at 0 started) 0 None) started (λ _ w,
    route_uuids w = Some [VStr (numbered 1); VStr (numbered 3); VStr (numbered 5)] ∧
    distinct_uuids w).
Proof.
  split; [by vm_compute|].
  split; [apply (bool_decide_unpack _); by vm_compute|].
  split; [apply (bool_decide_unpack _); by vm_compute|].
  split; apply (bool_decide_unpack _); by vm_compute.
Qed.

(** ** [cloneDeep] makes a deep copy *)

Lemma outside_weaken (X : gset loc) (h1 h2 h' : gmap loc object) :
  h1 ⊆ h2 → outside X h2 h' → outside X h1 h'.
Proof. intros Hsub Ho l o Hl H. apply Ho; [done|]. by eapply lookup_weaken. Qed.

Lemma insert_fresh_subseteq (h : gmap loc object) o :
  h ⊆ <[fresh (dom h) := o]> h.
Proof. apply insert_subseteq, not_elem_of_dom, is_fresh. Qed.

Lemma fresh_not_in_sub (h0 h : gmap loc object) : h0 ⊆ h → fresh (dom h) ∉ dom h0.
Proof.
  intros Hsub Hin. apply (is_fresh (dom h)). by eapply subseteq_dom.
Qed.

Section Thread.

Context {A B : Type}.
Variable h0 : gmap loc object.
Variable R : gmap loc object → A → B → Prop.
Hypothesis R_mono : ∀ h1 h2 a b, h1 ⊆ h2 → R h1 a b → R h2 a b.

(** A [map] whose callback extends the heap: what holds of each
    result when it is returned holds of all of them at the end. *)
Lemma map_each_thread (c : A → M B) xs :
  (∀ x, x ∈ xs → ∀ w, h0 ⊆ heap w →
     ∃ y w', c x w = Returned y w' ∧ same_service w w' ∧
             heap w ⊆ heap w' ∧ R (heap w') x y) →
  ∀ w, h0 ⊆ heap w →
    ∃ ys w', map_each c xs w = Returned ys w' ∧ same_service w w' ∧
             heap w ⊆ heap w' ∧ Forall2 (R (heap w')) xs ys.
Proof.
  induction xs as [|x rest IH]; intros Hc w Hw; simpl.
  - exists [], w. split; [done|]. split; [apply same_service_refl|]. by split.
  - destruct (Hc x (list_elem_of_here _ _) w Hw) as (y & w1 & Hrun & Hs1 & Hsub1 & Hy).
    destruct (IH (λ x' Hx', Hc x' (list_elem_of_further _ _ _ Hx')) w1)
      as (ys & w2 & Hrun2 & Hs2 & Hsub2 & Hys); [by etrans|].
    exists (y :: ys), w2.
    split; [by erewrite bind_returned, bind_returned by done|].
    split; [by eapply same_service_trans|].
    split; [by etrans|].
    constructor; [by eapply R_mono|done].
Qed.

End Thread.

(** The properties of a copy built from copies of the properties. *)
Lemma list_to_map_copies (Q : string → val → val → Prop) (m : gmap string val)
    (copies : list (string * val)) :
  Forall2 (λ kv kv', kv.1 = kv'.1 ∧ Q kv.1 kv.2 kv'.2) (map_to_list m) copies →
  ∀ k, option_Forall2 (Q k) (m !! k) ((list_to_map copies : gmap string val) !! k).
Proof.
  intros H k.
  assert ((map_to_list m).*1 = copies.*1) as Hfst.
  { induction H as [|? ? ? ? [? _] _ IH]; simpl; [done|]. by f_equal. }
  assert (NoDup (copies.*1)) as Hnd by (rewrite <- Hfst; apply NoDup_fst_map_to_list).
  destruct (m !! k) as [x|] eqn:Hk.
  - apply elem_of_map_to_list in Hk. apply list_elem_of_lookup_1 in Hk as [i Hi].
    destruct (Forall2_lookup_l _ _ _ _ _ H Hi) as ([k' x'] & Hi' & Hkk & Hq).
    simpl in *. subst k'.
    rewrite (elem_of_list_to_map_1 copies k x'); [by constructor|done|].
    by eapply list_elem_of_lookup_2.
  - rewrite not_elem_of_list_to_map_1; [constructor|].
    rewrite <- Hfst. intros ((k' & x) & -> & Hin%elem_of_map_to_list)%list_elem_of_fmap.
    simpl in Hk. by rewrite Hk in Hin.
Qed.

Lemma plain_fields hosts d h (m : gmap string val) k x :
  forallb (λ kv : string * val, plain hosts d h kv.2) (map_to_list m) = true →
  m !! k = Some x → plain hosts d h x = true.
Proof.
  intros H Hk. rewrite forallb_forall in H.
  apply (H (k, x)). apply list_elem_of_In. by apply elem_of_map_to_list.
Qed.

Lemma cloneDeep_cloned hosts (d : nat) :
  ∀ (fuel : nat) v w h0, (d ≤ fuel)%nat → h0 ⊆ heap w → plain hosts d h0 v = true →
    ∃ v' w', cloneDeep fuel v w = Returned v' w' ∧ same_service w w' ∧
             heap w ⊆ heap w' ∧
             ∀ h', outside (dom h0) (heap w') h' → cloned hosts h0 h' v v'.
Proof.
  induction d as [|d IH]; intros fuel v w h0 Hfuel Hsub Hplain.
  - exists v, w.
    destruct v as [| | | | |l]; try done;
      (split; [by destruct fuel|]; split; [apply same_service_refl|];
       split; [done|]; intros; by constructor).
  - destruct v as [| | | | |l];
      try (exists v, w; split; [by destruct fuel|]; split; [apply same_service_refl|];
           split; [done|]; intros; by constructor).
    all: try by (eexists _, w; split; [by destruct fuel|]; split; [apply same_service_refl|];
                 split; [done|]; intros; by constructor).
    destruct fuel as [|n]; [lia|]. assert (d ≤ n)%nat as Hn by lia.
    simpl in Hplain. simpl.
    destruct (h0 !! l) as [[m|items|t|]|] eqn:Hl; [| | | |done];
      rewrite (lookup_weaken _ _ _ _ Hl Hsub).
    + (* a plain object *)
      destruct (map_each_thread h0
                  (λ h (kv kv' : string * val),
                     kv.1 = kv'.1 ∧ ∀ h', outside (dom h0) h h' → cloned hosts h0 h' kv.2 kv'.2)
                  ltac:(intros h1 h2 ? ? ? [? H]; split; [done|];
                        intros h' Hout; apply H; by eapply outside_weaken)
                  (λ kv : string * val, c ← cloneDeep n kv.2; mret (kv.1, c))
                  (map_to_list m)) with (w := w)
        as (copies & w1 & Hrun & Hs1 & Hsub1 & Hcopies); [|done|].
      { intros [k x] Hin%elem_of_map_to_list w0 Hw0. simpl.
        destruct (IH n x w0 h0 Hn Hw0) as (x' & w0' & Hrun & Hs & Hsub0 & Hc).
        { by eapply plain_fields. }
        exists (k, x'), w0'. split; [by erewrite bind_returned by done|].
        split; [done|]. split; [done|]. by split. }
      eexists _, _. split; [by erewrite bind_returned by done|].
      split; [eapply same_service_trans; [exact Hs1|apply same_service_set_heap]|].
      split; [etrans; [exact Hsub1|apply insert_fresh_subseteq]|].
      intros h' Hout. eapply cloned_obj; [done| |..].
      * apply fresh_not_in_sub. by etrans.
      * apply Hout; [apply fresh_not_in_sub; by etrans|]. simpl. apply lookup_insert_eq.
      * apply (list_to_map_copies (λ _, cloned hosts h0 h')).
        eapply Forall2_impl; [exact Hcopies|]. intros kv kv' [? H]. split; [done|].
        apply H. eapply outside_weaken; [|exact Hout]. apply insert_fresh_subseteq.
    + (* an array *)
      destruct (map_each_thread h0
                  (λ h x x', ∀ h', outside (dom h0) h h' → cloned hosts h0 h' x x')
                  ltac:(intros h1 h2 ? ? ? H h' Hout; apply H; by eapply outside_weaken)
                  (cloneDeep n) items) with (w := w)
        as (copies & w1 & Hrun & Hs1 & Hsub1 & Hcopies); [|done|].
      { intros x Hin w0 Hw0. apply IH; [done..|].
        rewrite forallb_forall in Hplain. by apply Hplain, list_elem_of_In. }
      eexists _, _. split; [by erewrite bind_returned by done|].
      split; [eapply same_service_trans; [exact Hs1|apply same_service_set_heap]|].
      split; [etrans; [exact Hsub1|apply insert_fresh_subseteq]|].
      intros h' Hout. eapply cloned_arr; [done| |..].
      * apply fresh_not_in_sub. by etrans.
      * apply Hout; [apply fresh_not_in_sub; by etrans|]. simpl. apply lookup_insert_eq.
      * eapply Forall2_impl; [exact Hcopies|]. intros x x' H.
        apply H. eapply outside_weaken; [|exact Hout]. apply insert_fresh_subseteq.
    + (* a date *)
      eexists _, _. split; [done|].
      split; [apply same_service_set_heap|].
      split; [apply insert_fresh_subseteq|].
      intros h' Hout. eapply cloned_date; [done| |].
      * by apply fresh_not_in_sub.
      * apply Hout; [by apply fresh_not_in_sub|]. simpl. apply lookup_insert_eq.
    + (* a host object *)
      exists (VRef l), w. split; [done|]. split; [apply same_service_refl|].
      split; [done|]. intros. by apply cloned_host.
Qed.

Lemma literal_lookup kvs k : literal kvs !! k = assoc k kvs.
Proof.
  unfold literal. induction kvs as [|[k' v] rest IH]; simpl; [done|].
  destruct (decide (k' = k)) as [->|Hne].
  - by rewrite lookup_insert_eq.
  - by rewrite lookup_insert_ne.
Qed.

Lemma obj_at_weaken (h h' : gmap loc object) l m :
  h ⊆ h' → obj_at h l = Some m → obj_at h' l = Some m.
Proof.
  intros Hsub H%obj_at_lookup. unfold obj_at. by rewrite (lookup_weaken _ _ _ _ H Hsub).
Qed.

Lemma arr_at_lookup h l items : arr_at h l = Some items → h !! l = Some (OArr items).
Proof. unfold arr_at. destruct (h !! l) as [[]|]; by intros [= ->]. Qed.

Lemma arr_at_weaken (h h' : gmap loc object) l items :
  h ⊆ h' → arr_at h l = Some items → arr_at h' l = Some items.
Proof.
  intros Hsub H%arr_at_lookup. unfold arr_at. by rewrite (lookup_weaken _ _ _ _ H Hsub).
Qed.

(** Every object of a copy is an object the copied heap does not
    have, when no host object is copied. *)
Lemma cloned_reach_fresh h0 h' v' l :
  reach h' v' l → ∀ v, cloned false h0 h' v v' → l ∉ dom h0.
Proof.
  induction 1 as [l Hl|l items x l' Hl Hx _ IH|l m k x l' Hl Hk _ IH]; intros v Hc.
  - inversion Hc as [? Hp|? Hh ?|? ? ? ? Hf ?|? ? ? ? ? Hf ? ?|? ? ? ? ? Hf ? ?];
      simplify_eq; try done.
    by destruct (Hp l).
  - inversion Hc as [? Hp|? Hh ?|? ? ? ? Hf Hl'|? ? xs ys ? Hf Hl' Hxs|? ? ? ? ? Hf Hl' ?];
      simplify_eq; try done.
    + by destruct (Hp l).
    + apply list_elem_of_lookup_1 in Hx as [i Hi].
      destruct (Forall2_lookup_r _ _ _ _ _ Hxs Hi) as (x0 & _ & Hx0). by eapply IH.
  - inversion Hc as [? Hp|? Hh ?|? ? ? ? Hf Hl'|? ? ? ? ? Hf Hl' ?|? ? m0 m1 ? Hf Hl' Hm];
      simplify_eq; try done.
    + by destruct (Hp l).
    + specialize (Hm k). rewrite Hk in Hm. inversion Hm; simplify_eq. by eapply IH.
Qed.

Lemma get_index_array a items (i : nat) w :
  arr_at (heap w) a = Some items →
  get_index (VRef a) (Z.of_nat i) w = Returned (default VUndefined (items !! i)) w.
Proof. intros H. apply returns_eq. by eapply returns_get_index. Qed.

Lemma own_fields_object l m w :
  obj_at (heap w) l = Some m → own_fields (VRef l) w = Returned m w.
Proof. intros H. apply returns_eq. by eapply returns_own_fields. Qed.

Lemma array_length_array a items w :
  arr_at (heap w) a = Some items →
  array_length (VRef a) w = Returned (Z.of_nat (length items)) w.
Proof. intros H. apply returns_eq. by eapply returns_array_length. Qed.

Lemma push_array a items xs w :
  arr_at (heap w) a = Some items →
  push (VRef a) xs w
  = Returned (Z.of_nat (length (items ++ xs))) (set_heap <[a := OArr (items ++ xs)]> w).
Proof. intros H. apply returns_eq. by eapply returns_push. Qed.

Lemma get_prop_field l k m x w :
  obj_at (heap w) l = Some m → m !! k = Some x →
  get_prop (VRef l) k w = Returned x w.
Proof.
  intros H Hk. erewrite get_prop_object by done. unfold prop. by rewrite H, Hk.
Qed.

Lemma same_service_fields w w' :
  same_service w w' →
  environments w' = environments w ∧ routesTotal w' = routesTotal w ∧
  uuid_calls w' = uuid_calls w ∧ uuid_source w' = uuid_source w ∧
  alerts w' = alerts w ∧ updateEvents w' = updateEvents w ∧
  stopRequests w' = stopRequests w.
Proof. intros ->. by destruct w. Qed.

(** ** [duplicateEnvironment] *)

(** C8. [duplicateEnvironment(i, callback)] for an environment of the
    collection whose name is a string and whose routes are data of depth
    at most [d], with fuel for that depth.  It returns the index of a new
    last item of the collection, an environment [e'] that did not exist;
    every other object is as it was.  The copy has a UUID generated by
    the call, the name followed by " (copy)", [instance], [startedAt] and
    [modifiedAt] null, [running] and [needRestart] false, a new empty
    array in [duplicates], the other properties of the original, and in
    [routes] a deep copy of the routes of the original.  Every object
    reached from the routes of the copy is an object that did not exist:
    writing to one changes no object that existed, and writing to an
    object that existed changes none of them. *)
Theorem duplicateEnvironment_copies w (fuel d i : nat) cb a items e m name r ritems :
  environments w = VRef a →
  arr_at (heap w) a = Some items →
  items !! i = Some (VRef e) →
  obj_at (heap w) e = Some m →
  m !! "name" = Some (VStr name) →
  m !! "routes" = Some (VRef r) →
  arr_at (heap w) r = Some ritems →
  plain false d (heap w) (VRef r) = true →
  (d ≤ fuel)%nat →
  ∃ w' e' m' dups routes',
    duplicateEnvironment fuel (Z.of_nat i) cb w
    = Returned (Z.of_nat (length items)) w' ∧
    environments w' = VRef a ∧
    arr_at (heap w') a = Some (items ++ [VRef e']) ∧
    (∀ l o, heap w !! l = Some o → l ≠ a → heap w' !! l = Some o) ∧
    (e' ∉ dom (heap w)) ∧
    obj_at (heap w') e' = Some m' ∧
    m' !! "uuid" = Some (VStr (uuid_source w (uuid_calls w))) ∧
    uuid_calls w' = S (uuid_calls w) ∧
    m' !! "name" = Some (VStr (name ++ " (copy)")%string) ∧
    m' !! "instance" = Some VNull ∧
    m' !! "running" = Some (VBool false) ∧
    m' !! "startedAt" = Some VNull ∧
    m' !! "needRestart" = Some (VBool false) ∧
    m' !! "modifiedAt" = Some VNull ∧
    m' !! "duplicates" = Some (VRef dups) ∧
    (dups ∉ dom (heap w)) ∧
    arr_at (heap w') dups = Some [] ∧
    m' !! "routes" = Some routes' ∧
    cloned false (heap w) (heap w') (VRef r) routes' ∧
    (∀ k, k ∉ reset_on_copy → m' !! k = m !! k) ∧
    (∀ l, reach (heap w') routes' l → l ∉ dom (heap w)) ∧
    (∀ l o l0, reach (heap w') routes' l → l0 ∈ dom (heap w) →
       <[l := o]> (heap w') !! l0 = heap w' !! l0) ∧
    (∀ l0 o l, l0 ∈ dom (heap w) → reach (heap w') routes' l →
       <[l0 := o]> (heap w') !! l = heap w' !! l) ∧
    routesTotal w' = (routesTotal w + Z.of_nat (length ritems))%Z ∧
    updateEvents w' = updateEvents w ++ [UpdateEvent (VRef e') cb].
Proof.
  intros Henv Ha Hi He Hname Hroutes Hr Hplain Hfuel.
  set (w1 := set_uuid_calls (S (uuid_calls w)) w).
  set (dups := fresh (dom (heap w))).
  set (w2 := set_heap <[dups := OArr []]> w1).
  assert (heap w ⊆ heap w2) as Hsub2 by apply insert_fresh_subseteq.
  destruct (cloneDeep_cloned false d fuel (VRef r) w2 (heap w) Hfuel Hsub2 Hplain)
    as (routes' & w3 & Hclone & Hs3 & Hsub3 & Hcloned).
  assert (heap w ⊆ heap w3) as Hsub3' by (by etrans).
  set (kvs := [("instance", VNull); ("running", VBool false);
               ("uuid", VStr (uuid_source w (uuid_calls w)));
               ("name", VStr (name ++ " (copy)")%string); ("startedAt", VNull);
               ("modifiedAt", VNull); ("duplicates", VRef dups);
               ("needRestart", VBool false); ("routes", routes')]).
  set (e' := fresh (dom (heap w3))).
  set (m' := literal kvs ∪ m).
  set (w4 := set_heap <[e' := OObj m']> w3).
  assert (heap w3 ⊆ heap w4) as Hsub4 by apply insert_fresh_subseteq.
  assert (heap w ⊆ heap w4) as Hsub4' by (by etrans).
  set (w5 := set_routesTotal (routesTotal w4 + Z.of_nat (length ritems)) w4).
  set (w6 := set_heap <[a := OArr (items ++ [VRef e'])]> w5).
  set (w7 := add_event (UpdateEvent (VRef e') cb) w6).
  destruct (same_service_fields _ _ Hs3) as (Henv3 & Htotal3 & Hcalls3 & _ & _ & Hevents3 & _).
  simpl in Henv3, Htotal3, Hcalls3, Hevents3. rewrite Henv in Henv3.
  assert (e' ∉ dom (heap w)) as He' by (by apply fresh_not_in_sub).
  assert (a ∈ dom (heap w)) as Hadom by (by eapply arr_at_dom).
  assert (outside (dom (heap w)) (heap w3) (heap w7)) as Hout.
  { intros l o Hl Hlo. simpl. rewrite lookup_insert_ne by (by intros <-).
    by eapply lookup_weaken. }
  assert (∀ l, reach (heap w7) routes' l → l ∉ dom (heap w)) as Hfresh.
  { intros l Hl. eapply cloned_reach_fresh; [exact Hl|]. by apply Hcloned. }
  exists w7, e', m', dups, routes'.
  split.
  { unfold duplicateEnvironment.
    erewrite bind_returned by reflexivity. rewrite Henv.
    erewrite bind_returned by (by eapply get_index_array). rewrite Hi. simpl.
    erewrite bind_returned by reflexivity.
    erewrite bind_returned by reflexivity. simpl. rewrite Henv.
    erewrite bind_returned by (by eapply get_index_array). rewrite Hi. simpl.
    erewrite bind_returned by (by eapply get_prop_field).
    erewrite bind_returned by reflexivity.
    erewrite bind_returned by reflexivity.
    erewrite bind_returned by reflexivity. simpl. rewrite Henv.
    erewrite bind_returned by (eapply get_index_array, arr_at_weaken; [exact Hsub2|exact Ha]).
    rewrite Hi. simpl.
    erewrite bind_returned
      by (eapply get_prop_field; [eapply obj_at_weaken; [exact Hsub2|exact He]|exact Hroutes]).
    erewrite bind_returned by exact Hclone.
    unfold Object_assign.
    erewrite bind_returned.
    2:{ erewrite bind_returned
          by (eapply own_fields_object, obj_at_weaken; [exact Hsub3'|exact He]).
        reflexivity. }
    erewrite bind_returned by reflexivity. simpl. rewrite Henv3.
    erewrite bind_returned by (eapply get_index_array, arr_at_weaken; [exact Hsub4'|exact Ha]).
    rewrite Hi. simpl.
    erewrite bind_returned
      by (eapply get_prop_field; [eapply obj_at_weaken; [exact Hsub4'|exact He]|exact Hroutes]).
    erewrite bind_returned
      by (eapply array_length_array, arr_at_weaken; [exact Hsub4'|exact Hr]).
    erewrite bind_returned by reflexivity.
    erewrite bind_returned by reflexivity. simpl. rewrite Henv3.
    erewrite bind_returned
      by (eapply push_array, (arr_at_weaken (heap w) _ _ _ Hsub4'); exact Ha).
    erewrite bind_returned by reflexivity.
    unfold mret, M_ret. f_equal.
    rewrite length_app. simpl. lia. }
  split; [simpl; by rewrite Henv3|].
  split; [apply arr_at_store_array|].
  split.
  { intros l o Hl Hne. simpl. rewrite lookup_insert_ne by done. by eapply lookup_weaken. }
  split; [done|].
  split.
  { unfold obj_at. simpl. rewrite lookup_insert_ne by (by intros <-).
    by rewrite lookup_insert_eq. }
  assert (∀ k x, assoc k kvs = Some x → m' !! k = Some x) as Hlit.
  { intros k x Hk. unfold m'. apply lookup_union_Some_l. by rewrite literal_lookup. }
  split; [by apply Hlit|]. split; [done|].
  do 7 (split; [by apply Hlit|]).
  split; [apply is_fresh|].
  split.
  { assert (heap w4 !! dups = Some (OArr [])) as Hd.
    { eapply lookup_weaken; [|exact Hsub4]. eapply lookup_weaken; [|exact Hsub3].
      simpl. apply lookup_insert_eq. }
    unfold arr_at. simpl. simpl in Hd. rewrite lookup_insert_ne, Hd; [done|].
    intros Heq. apply (is_fresh (dom (heap w))). fold dups. by rewrite <- Heq. }
  split; [by apply Hlit|].
  split; [by apply Hcloned|].
  split.
  { intros k Hk. unfold m'. rewrite lookup_union_r; [done|].
    rewrite literal_lookup. unfold reset_on_copy in Hk.
    repeat (apply not_elem_of_cons in Hk as [? Hk]).
    simpl. by repeat (rewrite decide_False by done). }
  split; [done|].
  split.
  { intros l o l0 Hl Hl0. apply lookup_insert_ne. intros ->. by apply (Hfresh l0). }
  split.
  { intros l0 o l Hl0 Hl. apply lookup_insert_ne. intros ->. by apply (Hfresh l). }
  split; [simpl; by rewrite Htotal3|].
  simpl. by rewrite Hevents3.
Qed.

(** ** [cleanBeforeSave] *)

Lemma delete_prop_object l k m w :
  obj_at (heap w) l = Some m →
  delete_prop (VRef l) k w = Returned tt (set_heap <[l := OObj (delete k m)]> w).
Proof. intros H. apply returns_eq. by eapply returns_delete_prop. Qed.

Lemma transient_cases k :
  transient k = true ↔
  k = "instance" ∨ k = "running" ∨ k = "startedAt" ∨ k = "needRestart".
Proof.
  unfold transient. rewrite bool_decide_eq_true.
  rewrite !elem_of_cons, elem_of_nil. tauto.
Qed.

(** The copy of one environment: the callback of the [map] of
    [cleanBeforeSave]. *)
Lemma clean_environment h0 (fuel d : nat) l m :
  h0 !! l = Some (OObj m) →
  forallb (λ kv : string * val, plain (transient kv.1) d h0 kv.2) (map_to_list m) = true →
  (d < fuel)%nat →
  ∀ w, h0 ⊆ heap w →
    ∃ y w',
      (environmentCopy ← cloneDeep fuel (VRef l);
       _ ← delete_prop environmentCopy "instance";
       _ ← delete_prop environmentCopy "running";
       _ ← delete_prop environmentCopy "startedAt";
       _ ← delete_prop environmentCopy "needRestart";
       mret environmentCopy) w = Returned y w' ∧
      same_service w w' ∧ heap w ⊆ heap w' ∧
      ∀ h', outside (dom h0) (heap w') h' → sanitized h0 h' (VRef l) y.
Proof.
  intros Hl Hplain Hfuel w Hsub.
  destruct fuel as [|n]; [lia|]. assert (d ≤ n)%nat as Hn by lia.
  destruct (map_each_thread h0
              (λ h (kv kv' : string * val),
                 kv.1 = kv'.1 ∧
                 ∀ h', outside (dom h0) h h' → cloned (transient kv.1) h0 h' kv.2 kv'.2)
              ltac:(intros h1 h2 ? ? ? [? H]; split; [done|];
                    intros h' Hout; apply H; by eapply outside_weaken)
              (λ kv : string * val, c ← cloneDeep n kv.2; mret (kv.1, c))
              (map_to_list m)) with (w := w)
    as (copies & w1 & Hrun & Hs1 & Hsub1 & Hcopies); [|done|].
  { intros [k x] Hin w0 Hw0. simpl.
    destruct (cloneDeep_cloned (transient k) d n x w0 h0 Hn Hw0)
      as (x' & w0' & Hrun & Hs & Hsub0 & Hc).
    { rewrite forallb_forall in Hplain. by apply (Hplain (k, x)), list_elem_of_In. }
    exists (k, x'), w0'. split; [by erewrite bind_returned by done|].
    split; [done|]. split; [done|]. by split. }
  set (l' := fresh (dom (heap w1))).
  set (m1 := list_to_map copies : gmap string val).
  set (m4 := delete "needRestart" (delete "startedAt" (delete "running"
               (delete "instance" m1)))).
  exists (VRef l'), (set_heap <[l' := OObj m4]> w1).
  split.
  { erewrite bind_returned.
    2:{ simpl. rewrite (lookup_weaken _ _ _ _ Hl Hsub).
        erewrite bind_returned by exact Hrun. reflexivity. }
    erewrite bind_returned.
    2:{ apply delete_prop_object. unfold obj_at. simpl. by rewrite lookup_insert_eq. }
    erewrite bind_returned.
    2:{ apply delete_prop_object. unfold obj_at. simpl. by rewrite lookup_insert_eq. }
    erewrite bind_returned.
    2:{ apply delete_prop_object. unfold obj_at. simpl. by rewrite lookup_insert_eq. }
    erewrite bind_returned.
    2:{ apply delete_prop_object. unfold obj_at. simpl. by rewrite lookup_insert_eq. }
    unfold mret, M_ret. f_equal. destruct w1. unfold set_heap. simpl. f_equal.
    by rewrite !insert_insert_eq. }
  split; [eapply same_service_trans; [exact Hs1|apply same_service_set_heap]|].
  split; [etrans; [exact Hsub1|apply insert_fresh_subseteq]|].
  intros h' Hout. exists l, l', m, m4.
  split; [done|]. split; [done|]. split; [done|].
  split; [apply fresh_not_in_sub; by etrans|].
  split.
  { apply Hout; [apply fresh_not_in_sub; by etrans|]. simpl. apply lookup_insert_eq. }
  split.
  - intros k [-> | [-> | [-> | ->]]]%transient_cases; unfold m4.
    + by rewrite !lookup_delete_ne, lookup_delete_eq by done.
    + by rewrite !lookup_delete_ne, lookup_delete_eq by done.
    + by rewrite lookup_delete_ne, lookup_delete_eq by done.
    + by rewrite lookup_delete_eq.
  - intros k Hk.
    assert (m4 !! k = m1 !! k) as ->.
    { unfold m4. rewrite !lookup_delete_ne; [done|..];
        intros <-; by vm_compute in Hk. }
    assert (Forall2 (λ kv kv' : string * val,
                       kv.1 = kv'.1 ∧ cloned (transient kv.1) h0 h' kv.2 kv'.2)
              (map_to_list m) copies) as HF.
    { eapply Forall2_impl; [exact Hcopies|]. intros kv kv' [? H]. split; [done|].
      apply H. eapply outside_weaken; [|exact Hout]. apply insert_fresh_subseteq. }
    pose proof (list_to_map_copies (λ k, cloned (transient k) h0 h') m copies HF k) as Hm.
    simpl in Hm. by rewrite Hk in Hm.
Qed.

Lemma sanitizable_inv d h v :
  sanitizable d h v = true →
  ∃ l m, v = VRef l ∧ h !! l = Some (OObj m) ∧
    forallb (λ kv : string * val, plain (transient kv.1) d h kv.2) (map_to_list m) = true.
Proof.
  unfold sanitizable. destruct v as [| | | | |l]; try done.
  destruct (h !! l) as [[m| | |]|] eqn:E; try done. intros H. by exists l, m.
Qed.

(** Every object of the copy of an environment is an object the
    copied heap does not have. *)
Lemma sanitized_reach_fresh h0 h' v v' l :
  sanitized h0 h' v v' → reach h' v' l → l ∉ dom h0.
Proof.
  intros (l0 & l1 & m & m' & -> & -> & Hl0 & Hl1 & Hm' & Htr & Hcl) Hreach.
  inversion Hreach as [? ?|? items x ? Hitems|? m0 k x ? Hm0 Hk Hx]; simplify_eq; [done|].
  destruct (transient k) eqn:Hkt.
  - by rewrite (Htr k Hkt) in Hk.
  - specialize (Hcl k Hkt). rewrite Hk in Hcl. inversion Hcl; simplify_eq.
    by eapply cloned_reach_fresh.
Qed.

(** C7. [cleanBeforeSave] on a collection whose environments are
    plain objects of data of depth at most [d], host objects allowed in
    the transient properties only, with fuel for that depth.  It returns
    a new array with one copy per environment of the live collection, in
    order; each copy is an object that did not exist, without
    [instance], [running], [startedAt] and [needRestart], and with a deep
    copy of every other property of its environment and nothing more.
    Every object reached from the result is an object that did not exist
    before the call, so none is shared with the live collection.  Every
    object that existed is as it was, and so are the fields of the
    service.  The parameter is not read. *)
Theorem cleanBeforeSave_sanitizes w (fuel d : nat) argument a items :
  environments w = VRef a →
  arr_at (heap w) a = Some items →
  forallb (sanitizable d (heap w)) items = true →
  (d < fuel)%nat →
  ∃ w' result copies,
    cleanBeforeSave fuel argument w = Returned (VRef result) w' ∧
    same_service w w' ∧
    heap w ⊆ heap w' ∧
    (result ∉ dom (heap w)) ∧
    arr_at (heap w') result = Some copies ∧
    Forall2 (sanitized (heap w) (heap w')) items copies ∧
    ∀ l, reach (heap w') (VRef result) l → l ∉ dom (heap w).
Proof.
  intros Henv Ha Hitems Hfuel.
  destruct (map_each_thread (heap w)
              (λ h x y, ∀ h', outside (dom (heap w)) h h' → sanitized (heap w) h' x y)
              ltac:(intros h1 h2 ? ? ? H h' Hout; apply H; by eapply outside_weaken)
              (λ environment,
                 environmentCopy ← cloneDeep fuel environment;
                 _ ← delete_prop environmentCopy "instance";
                 _ ← delete_prop environmentCopy "running";
                 _ ← delete_prop environmentCopy "startedAt";
                 _ ← delete_prop environmentCopy "needRestart";
                 mret environmentCopy)
              items) with (w := w)
    as (copies & w1 & Hrun & Hs1 & Hsub1 & Hcopies); [|done|].
  { intros x Hx w0 Hw0. rewrite forallb_forall in Hitems.
    destruct (sanitizable_inv d (heap w) x) as (l & m & -> & Hl & Hm).
    { by apply Hitems, list_elem_of_In. }
    by eapply clean_environment. }
  set (result := fresh (dom (heap w1))).
  set (w' := set_heap <[result := OArr copies]> w1).
  assert (Forall2 (sanitized (heap w) (heap w')) items copies) as Hsan.
  { eapply Forall2_impl; [exact Hcopies|]. intros x y H. apply H.
    intros l o _ Hlo. eapply lookup_weaken; [exact Hlo|apply insert_fresh_subseteq]. }
  exists w', result, copies.
  split.
  { unfold cleanBeforeSave.
    erewrite bind_returned by reflexivity. rewrite Henv.
    erewrite bind_returned by (by eapply array_items_array).
    by erewrite bind_returned by exact Hrun. }
  split; [eapply same_service_trans; [exact Hs1|apply same_service_set_heap]|].
  split; [etrans; [exact Hsub1|apply insert_fresh_subseteq]|].
  split; [by apply fresh_not_in_sub|].
  split; [apply arr_at_store_array|].
  split; [done|].
  intros l Hreach.
  inversion Hreach as [? ?|? items' x ? Hitems' Hx Hxl|? m0 k x ? Hm0]; simplify_eq.
  - by apply fresh_not_in_sub.
  - simpl in Hitems'. rewrite lookup_insert_eq in Hitems'. injection Hitems' as <-.
    apply list_elem_of_lookup_1 in Hx as [i Hi].
    destruct (Forall2_lookup_r _ _ _ _ _ Hsan Hi) as (x0 & _ & Hx0).
    by eapply sanitized_reach_fresh.
  - simpl in Hm0. by rewrite lookup_insert_eq in Hm0.
Qed.

Lemma fields_of_obj_at h l :
  is_Some (obj_at h l) → obj_at h l = Some (fields_of h (VRef l)).
Proof. intros [m Hm]. unfold fields_of. by rewrite Hm. Qed.

Lemma cleanBeforeSave_sanitizes_witness :
  let w := serving in
  prop (heap w) (environment_at 0 w) "running" = VBool true ∧
  (∃ server, prop (heap w) (environment_at 0 w) "instance" = VRef server ∧
             heap w !! server = Some OHost) ∧
  ∃ a items,
    environments w = VRef a ∧
    arr_at (heap w) a = Some items ∧
    forallb (sanitizable 4 (heap w)) items = true ∧
    (4 < 5)%nat ∧
    ∃ w' result copies,
      cleanBeforeSave 5 VUndefined w = Returned (VRef result) w' ∧
      same_service w w' ∧
      heap w ⊆ heap w' ∧
      (result ∉ dom (heap w)) ∧
      arr_at (heap w') result = Some copies ∧
      Forall2 (sanitized (heap w) (heap w')) items copies ∧
      ∀ l, reach (heap w') (VRef result) l → l ∉ dom (heap w).
Proof.
  intros w. split; [by vm_compute|]. split; [eexists; split; by vm_compute|].
  exists 16%positive, [VRef 8%positive].
  assert (environments w = VRef 16%positive) as H1 by (by vm_compute).
  assert (arr_at (heap w) 16%positive = Some [VRef 8%positive]) as H2 by (by vm_compute).
  assert (forallb (sanitizable 4 (heap w)) [VRef 8%positive] = true) as H3 by (by vm_compute).
  split; [exact H1|]. split; [exact H2|]. split; [exact H3|]. split; [lia|].
  apply (cleanBeforeSave_sanitizes w 5 4 VUndefined 16%positive [VRef 8%positive]);
    [exact H1|exact H2|exact H3|lia].
Defined.

Lemma duplicateEnvironment_copies_witness :
  let w := serving in
  ∃ a items e m name r ritems,
    environments w = VRef a ∧
    arr_at (heap w) a = Some items ∧
    items !! 0 = Some (VRef e) ∧
    obj_at (heap w) e = Some m ∧
    m !! "name" = Some (VStr name) ∧
    m !! "routes" = Some (VRef r) ∧
    arr_at (heap w) r = Some ritems ∧
    plain false 4 (heap w) (VRef r) = true ∧
    (4 ≤ 4)%nat ∧
    ∃ w' e' m' dups routes',
      duplicateEnvironment 4 (Z.of_nat 0) (Some 1) w
      = Returned (Z.of_nat (length items)) w' ∧
      arr_at (heap w') a = Some (items ++ [VRef e']) ∧
      (e' ∉ dom (heap w)) ∧
      obj_at (heap w') e' = Some m' ∧
      m' !! "uuid" = Some (VStr (uuid_source w (uuid_calls w))) ∧
      m' !! "name" = Some (VStr (name ++ " (copy)")%string) ∧
      m' !! "instance" = Some VNull ∧
      m' !! "running" = Some (VBool false) ∧
      m' !! "duplicates" = Some (VRef dups) ∧
      m' !! "routes" = Some routes' ∧
      cloned false (heap w) (heap w') (VRef r) routes' ∧
      (∀ l, reach (heap w') routes' l → l ∉ dom (heap w)).
Proof.
  intros w.
  exists 16%positive, [VRef 8%positive], 8%positive,
    (fields_of (heap w) (VRef 8%positive)), "Example", 1%positive,
    [VRef 11%positive; VRef 14%positive].
  assert (environments w = VRef 16%positive) as H1 by (by vm_compute).
  assert (arr_at (heap w) 16%positive = Some [VRef 8%positive]) as H2 by (by vm_compute).
  assert (obj_at (heap w) 8%positive = Some (fields_of (heap w) (VRef 8%positive))) as H3.
  { apply fields_of_obj_at. apply (bool_decide_unpack _). by vm_compute. }
  assert (fields_of (heap w) (VRef 8%positive) !! "name" = Some (VStr "Example")) as H4
    by (by vm_compute).
  assert (fields_of (heap w) (VRef 8%positive) !! "routes" = Some (VRef 1%positive)) as H5
    by (by vm_compute).
  assert (arr_at (heap w) 1%positive = Some [VRef 11%positive; VRef 14%positive]) as H6
    by (by vm_compute).
  assert (plain false 4 (heap w) (VRef 1%positive) = true) as H7 by (by vm_compute).
  split; [exact H1|]. split; [exact H2|]. split; [reflexivity|]. split; [exact H3|].
  split; [exact H4|]. split; [exact H5|]. split; [exact H6|]. split; [exact H7|].
  split; [lia|].
  destruct (duplicateEnvironment_copies w 4 4 0 (Some 1) _ _ _ _ _ _ _
              H1 H2 eq_refl H3 H4 H5 H6 H7 (le_n 4))
    as (w' & e' & m' & dups & routes' & E1 & E2 & E3 & E4 & E5 & E6 & E7 & E8 & E9 & E10 &
        E11 & E12 & E13 & E14 & E15 & E16 & E17 & E18 & E19 & E20 & E21 & _).
  exists w', e', m', dups, routes'.
  split; [exact E1|]. split; [exact E3|]. split; [exact E5|]. split; [exact E6|].
  split; [exact E7|]. split; [exact E9|]. split; [exact E10|]. split; [exact E11|].
  split; [exact E15|]. split; [exact E18|]. split; [exact E19|]. exact E21.
Defined.

(** ** Import of a file whose checksum verifies *)

(** *** Renewing the UUIDs *)

Lemma field_set_field_eq k x fields : field k (set_field k x fields) = x.
Proof.
  induction fields as [|[k' v] rest IH]; simpl.
  - by rewrite decide_True.
  - destruct (decide (k' = k)) as [->|Hne]; simpl.
    + by rewrite decide_True.
    + by rewrite decide_False.
Qed.

Lemma field_set_field_ne k k' x fields :
  k ≠ k' → field k' (set_field k x fields) = field k' fields.
Proof.
  intros Hne. induction fields as [|[k0 v] rest IH]; simpl.
  - by rewrite decide_False.
  - destruct (decide (k0 = k)) as [->|Hne0]; simpl.
    + by rewrite !decide_False.
    + destruct (decide (k0 = k')); [done|apply IH].
Qed.

Lemma map_each_threaded (base : World) (c : json → M json) (size : json → nat)
    (R : nat → json → json → Prop) xs :
  (∀ x, x ∈ xs → ∀ n,
     ∃ y, c x (set_uuid_calls n base) = Returned y (set_uuid_calls (n + size x) base) ∧
          R n x y) →
  ∀ n, ∃ ys,
    map_each c xs (set_uuid_calls n base)
    = Returned ys (set_uuid_calls (n + sum_list (size <$> xs)) base) ∧
    threaded size R n xs ys.
Proof.
  induction xs as [|x rest IH]; intros Hc n; simpl.
  - exists []. by rewrite Nat.add_0_r.
  - destruct (Hc x (list_elem_of_here _ _) n) as (y & Hrun & Hy).
    destruct (IH (λ x' Hx', Hc x' (list_elem_of_further _ _ _ Hx')) (n + size x))
      as (ys & Hrun' & Hys).
    exists (y :: ys). split; [|done].
    erewrite bind_returned by exact Hrun.
    erewrite bind_returned by exact Hrun'.
    by rewrite Nat.add_assoc.
Qed.

Lemma sum_list_ones {A} (xs : list A) : sum_list ((λ _, 1) <$> xs) = length xs.
Proof. induction xs; simpl; [done|]. by f_equal. Qed.

Lemma is_object_inv j : is_object j = true → ∃ fields, j = JObj fields.
Proof. destruct j; try done. eauto. Qed.

Lemma renew_header (base : World) (customHeader : json) (n : nat) :
  is_object customHeader = true →
  ∃ y, (headerUuid ← uuid; json_set customHeader "uuid" (JStr headerUuid))
         (set_uuid_calls n base)
       = Returned y (set_uuid_calls (n + 1) base) ∧
       renewed_header (uuid_source base) n customHeader y.
Proof.
  intros [fields ->]%is_object_inv.
  exists (JObj (set_field "uuid" (JStr (uuid_source base n)) fields)).
  split; [by rewrite Nat.add_1_r|].
  split; [done|]. split; [apply field_set_field_eq|].
  intros k Hk. apply field_set_field_ne. intros <-. apply Hk. by left.
Qed.

Lemma renew_route (base : World) (route : json) (n : nat) :
  shaped_route route = true →
  ∃ y, (routeUuid ← uuid;
        route ← json_set route "uuid" (JStr routeUuid);
        customHeaders ← json_get route "customHeaders";
        headerItems ← json_items customHeaders;
        headerItems ← map_each (λ customHeader : json,
          headerUuid ← uuid;
          json_set customHeader "uuid" (JStr headerUuid)) headerItems;
        json_set route "customHeaders" (JArr headerItems))
         (set_uuid_calls n base)
       = Returned y (set_uuid_calls (n + route_size route) base) ∧
       renewed_route (uuid_source base) n route y.
Proof.
  unfold shaped_route. intros [[fields ->]%is_object_inv Hhs]%andb_true_iff.
  simpl in Hhs. destruct (field "customHeaders" fields) as [| | | | |hs|] eqn:Hf; try done.
  set (f1 := set_field "uuid" (JStr (uuid_source base n)) fields).
  assert (field "customHeaders" f1 = JArr hs) as Hf1.
  { unfold f1. by rewrite field_set_field_ne. }
  destruct (map_each_threaded base
              (λ customHeader : json,
                 headerUuid ← uuid; json_set customHeader "uuid" (JStr headerUuid))
              (λ _, 1) (renewed_header (uuid_source base)) hs) with (n := S n)
    as (hs' & Hrun & Hhs').
  { intros h Hh n'. apply renew_header.
    rewrite forallb_forall in Hhs. by apply Hhs, list_elem_of_In. }
  exists (JObj (set_field "customHeaders" (JArr hs') f1)).
  split.
  - erewrite bind_returned by reflexivity.
    erewrite bind_returned by reflexivity.
    erewrite bind_returned by reflexivity. simpl. fold f1. rewrite Hf1.
    erewrite bind_returned by reflexivity.
    erewrite bind_returned by exact Hrun.
    unfold json_set, mret, M_ret. f_equal. f_equal.
    unfold route_size. simpl. rewrite Hf, sum_list_ones. simpl. lia.
  - split; [done|]. split.
    { unfold json_field. rewrite field_set_field_ne by done.
      apply field_set_field_eq. }
    split.
    { intros k Hk. unfold json_field, f1.
      apply not_elem_of_cons in Hk as [? Hk]. apply not_elem_of_cons in Hk as [? _].
      by rewrite !field_set_field_ne. }
    exists hs'. split; [apply field_set_field_eq|].
    unfold json_field. by rewrite Hf.
Qed.

Lemma renew_environment (base : World) (environment : json) (n : nat) :
  shaped_environment environment = true →
  ∃ y, (environmentUuid ← uuid;
        environment ← json_set environment "uuid" (JStr environmentUuid);
        routes ← json_get environment "routes";
        routeItems ← json_items routes;
        routeItems ← map_each (λ route : json,
          routeUuid ← uuid;
          route ← json_set route "uuid" (JStr routeUuid);
          customHeaders ← json_get route "customHeaders";
          headerItems ← json_items customHeaders;
          headerItems ← map_each (λ customHeader : json,
            headerUuid ← uuid;
            json_set customHeader "uuid" (JStr headerUuid)) headerItems;
          json_set route "customHeaders" (JArr headerItems)) routeItems;
        json_set environment "routes" (JArr routeItems))
         (set_uuid_calls n base)
       = Returned y (set_uuid_calls (n + environment_size environment) base) ∧
       renewed_environment (uuid_source base) n environment y.
Proof.
  unfold shaped_environment. intros [[fields ->]%is_object_inv Hrs]%andb_true_iff.
  simpl in Hrs. destruct (field "routes" fields) as [| | | | |rs|] eqn:Hf; try done.
  set (f1 := set_field "uuid" (JStr (uuid_source base n)) fields).
  assert (field "routes" f1 = JArr rs) as Hf1.
  { unfold f1. by rewrite field_set_field_ne. }
  destruct (map_each_threaded base
              (λ route : json,
                 routeUuid ← uuid;
                 route ← json_set route "uuid" (JStr routeUuid);
                 customHeaders ← json_get route "customHeaders";
                 headerItems ← json_items customHeaders;
                 headerItems ← map_each (λ customHeader : json,
                   headerUuid ← uuid;
                   json_set customHeader "uuid" (JStr headerUuid)) headerItems;
                 json_set route "customHeaders" (JArr headerItems))
              route_size (renewed_route (uuid_source base)) rs) with (n := S n)
    as (rs' & Hrun & Hrs').
  { intros r Hr n'. apply renew_route.
    rewrite forallb_forall in Hrs. by apply Hrs, list_elem_of_In. }
  exists (JObj (set_field "routes" (JArr rs') f1)).
  split.
  - erewrite bind_returned by reflexivity.
    erewrite bind_returned by reflexivity.
    erewrite bind_returned by reflexivity. simpl. fold f1. rewrite Hf1.
    erewrite bind_returned by reflexivity.
    erewrite bind_returned by exact Hrun.
    unfold json_set, mret, M_ret. f_equal. f_equal.
    unfold environment_size. simpl. rewrite Hf. simpl. lia.
  - split; [done|]. split.
    { unfold json_field. rewrite field_set_field_ne by done.
      apply field_set_field_eq. }
    split.
    { intros k Hk. unfold json_field, f1.
      apply not_elem_of_cons in Hk as [? Hk]. apply not_elem_of_cons in Hk as [? _].
      by rewrite !field_set_field_ne. }
    exists rs'. split; [apply field_set_field_eq|].
    unfold json_field. by rewrite Hf.
Qed.

Lemma set_uuid_calls_same w : set_uuid_calls (uuid_calls w) w = w.
Proof. by destruct w. Qed.

(** [renewUUIDs] on environments of the shape it goes through: the
    result has, item by item, the next UUIDs of the source in every
    [uuid], and the number generated is what the call has taken. *)
Lemma renewUUIDs_renews (environments : list json) w :
  forallb shaped_environment environments = true →
  ∃ renewed,
    renewUUIDs (JArr environments) w
    = Returned (JArr renewed)
        (set_uuid_calls (uuid_calls w + sum_list (environment_size <$> environments)) w) ∧
    threaded environment_size (renewed_environment (uuid_source w)) (uuid_calls w)
      environments renewed.
Proof.
  intros Hshaped.
  destruct (map_each_threaded w
              (λ environment : json,
                 environmentUuid ← uuid;
                 environment ← json_set environment "uuid" (JStr environmentUuid);
                 routes ← json_get environment "routes";
                 routeItems ← json_items routes;
                 routeItems ← map_each (λ route : json,
                   routeUuid ← uuid;
                   route ← json_set route "uuid" (JStr routeUuid);
                   customHeaders ← json_get route "customHeaders";
                   headerItems ← json_items customHeaders;
                   headerItems ← map_each (λ customHeader : json,
                     headerUuid ← uuid;
                     json_set customHeader "uuid" (JStr headerUuid)) headerItems;
                   json_set route "customHeaders" (JArr headerItems)) routeItems;
                 json_set environment "routes" (JArr routeItems))
              environment_size (renewed_environment (uuid_source w)) environments)
    with (n := uuid_calls w) as (renewed & Hrun & Hrenewed).
  { intros e He n'. apply renew_environment.
    rewrite forallb_forall in Hshaped. by apply Hshaped, list_elem_of_In. }
  exists renewed. split; [|done].
  unfold renewUUIDs.
  erewrite bind_returned by reflexivity.
  rewrite set_uuid_calls_same in Hrun.
  by erewrite bind_returned by exact Hrun.
Qed.

(** *** The migrations *)

Lemma migrate_with_migrated migrations (environments : list json) w :
  migrate_with migrations (JArr environments) w
  = Returned (JArr (migrated migrations environments)) w.
Proof.
  revert environments. induction migrations as [|migration rest IH]; intros environments.
  - done.
  - simpl. erewrite bind_returned by reflexivity. apply IH.
Qed.

(** Each environment goes through every migration, in the order of
    the list. *)
Lemma migrated_each migrations (environments : list json) :
  migrated migrations environments
  = (λ e, foldl (λ e migration, migration e) e migrations) <$> environments.
Proof.
  revert environments. induction migrations as [|migration rest IH]; intros environments.
  - simpl. by rewrite list_fmap_id.
  - simpl. rewrite IH, <- list_fmap_compose. done.
Qed.

(** *** The trees become objects *)

Lemma json_induction (P : json → Prop) :
  P JUndefined → P JNull → (∀ b, P (JBool b)) → (∀ n, P (JNum n)) → (∀ s, P (JStr s)) →
  (∀ items, Forall P items → P (JArr items)) →
  (∀ fields, Forall (λ kv : string * json, P kv.2) fields → P (JObj fields)) →
  ∀ j, P j.
Proof.
  intros Hu Hn Hb Hz Hs Harr Hobj. fix IH 1. intros [| |b|n|s|items|fields].
  - exact Hu.
  - exact Hn.
  - apply Hb.
  - apply Hz.
  - apply Hs.
  - apply Harr. induction items as [|x rest IHl]; constructor; [apply IH|exact IHl].
  - apply Hobj. induction fields as [|[k x] rest IHl]; constructor; [apply IH|exact IHl].
Qed.

(** The properties of an object built from the bindings of a tree:
    the first binding of a key is its value, on both sides. *)
Lemma holds_fields (Q : val → json → Prop) (fields : list (string * json))
    (kvs : list (string * val)) :
  Q VUndefined JUndefined →
  Forall2 (λ (kv : string * json) (kv' : string * val), kv.1 = kv'.1 ∧ Q kv'.2 kv.2)
    fields kvs →
  ∀ k, Q (default VUndefined ((list_to_map kvs : gmap string val) !! k)) (field k fields).
Proof.
  intros Hu H k. induction H as [|[k0 j] [k0' v] fields kvs [Hk Hq] _ IH]; simpl in *.
  - by rewrite lookup_empty.
  - subst k0'. destruct (decide (k0 = k)) as [->|Hne].
    + by rewrite lookup_insert_eq.
    + by rewrite lookup_insert_ne.
Qed.

Lemma materialize_holds :
  ∀ j w h0, h0 ⊆ heap w →
    ∃ v w', materialize j w = Returned v w' ∧ same_service w w' ∧ heap w ⊆ heap w' ∧
            ∀ h', outside (dom h0) (heap w') h' → holds h' v j.
Proof.
  induction j as [| |b|n|s|items IH|fields IH] using json_induction; intros w h0 Hsub.
  1-5: (eexists _, w; split; [reflexivity|]; split; [apply same_service_refl|];
        split; [done|]; intros; constructor).
  - destruct (map_each_thread h0
                (λ h j v, ∀ h', outside (dom h0) h h' → holds h' v j)
                ltac:(intros h1 h2 ? ? ? H h' Hout; apply H; by eapply outside_weaken)
                materialize items) with (w := w)
      as (vs & w1 & Hrun & Hs1 & Hsub1 & Hvs); [|done|].
    { intros x Hx w0 Hw0. rewrite Forall_forall in IH. by apply IH. }
    eexists _, _. split; [simpl; by erewrite bind_returned by exact Hrun|].
    split; [eapply same_service_trans; [exact Hs1|apply same_service_set_heap]|].
    split; [etrans; [exact Hsub1|apply insert_fresh_subseteq]|].
    intros h' Hout. eapply holds_arr.
    + apply Hout; [apply fresh_not_in_sub; by etrans|]. simpl. apply lookup_insert_eq.
    + apply Forall2_flip. eapply Forall2_impl; [exact Hvs|]. intros x v H.
      apply H. eapply outside_weaken; [|exact Hout]. apply insert_fresh_subseteq.
  - destruct (map_each_thread h0
                (λ h (kv : string * json) (kv' : string * val),
                   kv.1 = kv'.1 ∧ ∀ h', outside (dom h0) h h' → holds h' kv'.2 kv.2)
                ltac:(intros h1 h2 ? ? ? [? H]; split; [done|];
                      intros h' Hout; apply H; by eapply outside_weaken)
                (λ kv : string * json, v ← materialize kv.2; mret (kv.1, v))
                fields) with (w := w)
      as (kvs & w1 & Hrun & Hs1 & Hsub1 & Hkvs); [|done|].
    { intros [k x] Hx w0 Hw0. rewrite Forall_forall in IH.
      destruct (IH (k, x) Hx w0 h0 Hw0) as (v & w0' & Hrun & Hs & Hsub0 & Hv).
      exists (k, v), w0'. split; [simpl; by erewrite bind_returned by exact Hrun|].
      split; [done|]. split; [done|]. by split. }
    eexists _, _. split; [simpl; by erewrite bind_returned by exact Hrun|].
    split; [eapply same_service_trans; [exact Hs1|apply same_service_set_heap]|].
    split; [etrans; [exact Hsub1|apply insert_fresh_subseteq]|].
    intros h' Hout. eapply holds_obj.
    + apply Hout; [apply fresh_not_in_sub; by etrans|]. simpl. apply lookup_insert_eq.
    + apply holds_fields; [constructor|].
      eapply Forall2_impl; [exact Hkvs|]. intros kv kv' [? H]. split; [done|].
      apply H. eapply outside_weaken; [|exact Hout]. apply insert_fresh_subseteq.
Qed.

(** The environments of an imported list become objects that did not
    exist, distinct from one another; each holds, property by property,
    the tree it was built from, in every heap that keeps what was built
    under them. *)
Lemma materialize_environments (environments : list json) :
  forallb is_object environments = true →
  ∀ w, ∃ news w',
    map_each materialize environments w = Returned (VRef <$> news) w' ∧
    same_service w w' ∧ heap w ⊆ heap w' ∧
    NoDup news ∧ (∀ l, l ∈ news → l ∉ dom (heap w)) ∧
    length news = length environments ∧
    ∀ i l j, news !! i = Some l → environments !! i = Some j →
      ∃ m, heap w' !! l = Some (OObj m) ∧
           ∀ key h', outside (dom (heap w) ∪ list_to_set news) (heap w') h' →
                     holds h' (default VUndefined (m !! key)) (json_field key j).
Proof.
  induction environments as [|e rest IH]; intros Hobj w.
  - exists [], w. split; [done|]. split; [apply same_service_refl|].
    split; [done|]. split; [constructor|]. split; [by intros l Hl%elem_of_nil|].
    split; [done|]. by intros i l j Hi.
  - simpl in Hobj. apply andb_true_iff in Hobj as [[fields ->]%is_object_inv Hrest].
    destruct (map_each_thread (heap w)
                (λ h (kv : string * json) (kv' : string * val),
                   kv.1 = kv'.1 ∧ ∀ h', outside (dom (heap w)) h h' → holds h' kv'.2 kv.2)
                ltac:(intros h1 h2 ? ? ? [? H]; split; [done|];
                      intros h' Hout; apply H; by eapply outside_weaken)
                (λ kv : string * json, v ← materialize kv.2; mret (kv.1, v))
                fields) with (w := w)
      as (kvs & wb & Hrun & Hsb & Hsubb & Hkvs); [|done|].
    { intros [k x] Hx w0 Hw0.
      destruct (materialize_holds x w0 (heap w) Hw0) as (v & w0' & Hrun & Hs & Hsub0 & Hv).
      exists (k, v), w0'. split; [simpl; by erewrite bind_returned by exact Hrun|].
      split; [done|]. split; [done|]. by split. }
    set (l := fresh (dom (heap wb))).
    set (m := list_to_map kvs : gmap string val).
    set (w1 := set_heap <[l := OObj m]> wb).
    assert (heap wb ⊆ heap w1) as Hsub1 by apply insert_fresh_subseteq.
    destruct (IH Hrest w1) as (news & w' & Hrun' & Hs' & Hsub' & Hnd & Hfresh & Hlen & Hnews).
    assert (l ∈ dom (heap w1)) as Hl1.
    { simpl. rewrite dom_insert_L. set_solver. }
    assert (l ∉ news) as Hlnews by (intros Hin; by apply (Hfresh l Hin)).
    exists (l :: news), w'. split.
    { simpl. erewrite bind_returned.
      2:{ erewrite bind_returned by exact Hrun. reflexivity. }
      by erewrite bind_returned by exact Hrun'. }
    split.
    { eapply same_service_trans; [|exact Hs'].
      eapply same_service_trans; [exact Hsb|apply same_service_set_heap]. }
    split; [etrans; [exact Hsubb|]; by etrans|].
    split; [by constructor|].
    split.
    { intros l' [->|Hin]%elem_of_cons.
      - by apply fresh_not_in_sub.
      - intros Hd. apply (Hfresh l' Hin).
        eapply subseteq_dom; [|exact Hd]. by etrans. }
    split; [simpl; by rewrite Hlen|].
    intros [|i] l' j Hi Hj; simpl in Hi, Hj.
    + injection Hi as <-. injection Hj as <-. exists m. split.
      { eapply lookup_weaken; [|exact Hsub']. simpl. apply lookup_insert_eq. }
      intros key h' Hout. unfold json_field. apply holds_fields; [constructor|].
      eapply Forall2_impl; [exact Hkvs|]. intros kv kv' [? H]. split; [done|].
      apply H. intros l' o Hl' Hlo.
      assert (l' ∈ dom (heap wb)) as Hdom by (apply elem_of_dom; eauto).
      apply Hout.
      * rewrite list_to_set_cons. intros [Hin|[Hin|Hin]%elem_of_union]%elem_of_union.
        -- done.
        -- apply elem_of_singleton in Hin. subst l'. by apply (is_fresh (dom (heap wb))).
        -- apply elem_of_list_to_set in Hin. apply (Hfresh l' Hin).
           eapply subseteq_dom; [exact Hsub1|done].
      * eapply lookup_weaken; [|exact Hsub']. by eapply lookup_weaken.
    + destruct (Hnews i l' j Hi Hj) as (m' & Hm' & Hholds).
      exists m'. split; [done|]. intros key h' Hout. apply Hholds.
      intros l0 o Hl0 Hlo. apply Hout; [|done].
      rewrite list_to_set_cons. intros [Hin|[Hin|Hin]%elem_of_union]%elem_of_union.
      * apply Hl0, elem_of_union_l. eapply subseteq_dom; [|exact Hin]. by etrans.
      * apply elem_of_singleton in Hin. subst l0. by apply Hl0, elem_of_union_l.
      * by apply Hl0, elem_of_union_r.
Qed.

(** *** The import of a file whose checksum verifies *)

Lemma threaded_length {A} (size : A → nat) (R : nat → A → A → Prop) n (xs ys : list A) :
  threaded size R n xs ys → length ys = length xs.
Proof.
  revert n ys. induction xs as [|x xs IH]; intros n [|y ys]; simpl; try done.
  intros [_ H]. f_equal. by eapply IH.
Qed.

Lemma renewed_objects source n (xs ys : list json) :
  threaded environment_size (renewed_environment source) n xs ys →
  forallb is_object ys = true.
Proof.
  revert n ys. induction xs as [|x xs IH]; intros n [|y ys]; simpl; try done.
  intros [(Hy & _) H]. rewrite Hy. simpl. by eapply IH.
Qed.

Lemma migrated_length migrations (environments : list json) :
  length (migrated migrations environments) = length environments.
Proof. by rewrite migrated_each, length_fmap. Qed.

Section VerifiedImport.

Variable Migrations : list (json → json).
Variable verifyImportChecksum : json → bool.
Variable JSON_parse : string → option json.

(** C5. When the checksum of the document read from the chosen file
    verifies, and the migrated [data] is a list of environments of the
    shape [renewUUIDs] goes through, [importEnvironmentsFile] returns
    after these steps, each on the result of the one before:
    - the migrations are applied to the payload, each in turn to every
      environment;
    - every [uuid] of the migrated payload, of each environment, of each
      of its routes and of each of their custom headers, is replaced by
      the next UUID of the source, whatever it held, and nothing else of
      the payload changes; the number of UUIDs generated is the number
      of environments, routes and headers;
    - the renewed environments become new objects, appended in order to
      the end of the live collection; the environments that were there
      are still there, in their order, with their properties other than
      [duplicates] as they were, and no other object of the heap but the
      array of the collection has changed;
    - the [duplicates] of every environment of the merged collection is
      the indexes of the other environments of the merged collection
      with its port;
    and the user is told of the success. *)
Theorem import_appends_renewed file path rest readFile fileContent fields payload es w :
  file = Some (path :: rest) →
  path ≠ EmptyString →
  readFile path = ReadOk fileContent →
  JSON_parse fileContent = Some (JObj fields) →
  verifyImportChecksum (JObj fields) = true →
  field "data" fields = JArr payload →
  forallb shaped_environment (migrated Migrations payload) = true →
  collection_of w = Some es →
  NoDup es →
  ∃ w' renewed news,
    importEnvironmentsFile Migrations verifyImportChecksum JSON_parse file readFile w
    = Returned tt w' ∧
    threaded environment_size (renewed_environment (uuid_source w)) (uuid_calls w)
      (migrated Migrations payload) renewed ∧
    uuid_calls w'
    = uuid_calls w + sum_list (environment_size <$> migrated Migrations payload) ∧
    environments w' = environments w ∧
    collection_of w' = Some (es ++ news) ∧
    length news = length payload ∧
    NoDup news ∧
    (∀ l, l ∈ news → l ∉ dom (heap w)) ∧
    (∀ i l j k, news !! i = Some l → renewed !! i = Some j → k ≠ "duplicates" →
       holds (heap w') (prop (heap w') (VRef l) k) (json_field k j)) ∧
    (∀ l k, l ∈ es → k ≠ "duplicates" →
       prop (heap w') (VRef l) k = prop (heap w) (VRef l) k) ∧
    (∀ l o, heap w !! l = Some o → l ∉ es → VRef l ≠ environments w →
       heap w' !! l = Some o) ∧
    (∀ i l, (es ++ news) !! i = Some l →
       duplicates_of (heap w') (VRef l)
       = Some (others_like (environment_key (heap w') <$> es ++ news) i)) ∧
    alerts w' = alerts w ++ [(AlertSuccess, IMPORT_SUCCESS)] ∧
    routesTotal w' = routesTotal w ∧
    updateEvents w' = updateEvents w.
Proof.
  intros -> Hpath Hread Hparse Hverify Hdata Hshape Hes Hnd.
  apply collection_of_Some in Hes as (a & Ha & Harr & Hobjs).
  destruct (renewUUIDs_renews _ w Hshape) as (renewed & Hrenew & Hthread).
  set (N := uuid_calls w + sum_list (environment_size <$> migrated Migrations payload)) in *.
  set (wr := set_uuid_calls N w) in *.
  destruct (materialize_environments renewed (renewed_objects _ _ _ _ Hthread) wr)
    as (news & w1 & Hbuild & Hs1 & Hsub1 & Hndn & Hfresh & Hlen & Hnews).
  change (heap wr) with (heap w) in Hsub1, Hfresh, Hnews.
  apply same_service_fields in Hs1 as (He1 & Hr1 & Hu1 & _ & Hal1 & Hev1 & _).
  assert (arr_at (heap w1) a = Some (VRef <$> es)) as Harr1 by by eapply arr_at_weaken.
  set (w2 := set_heap <[a := OArr ((VRef <$> es) ++ (VRef <$> news))]> w1).
  assert (∀ l, l ∈ es → l ∈ dom (heap w)) as Hold.
  { intros l Hl. rewrite Forall_forall in Hobjs. destruct (Hobjs l Hl) as [m Hm].
    apply obj_at_lookup in Hm. apply elem_of_dom. eauto. }
  assert (a ∈ dom (heap w)) as Hadom.
  { apply arr_at_lookup in Harr. apply elem_of_dom. eauto. }
  destruct (environments_pass w2 a (es ++ news)) as
    (w3 & Hpass & Hs3 & Harr3 & Hobjs3 & Hkeys & Hdups & Hothers & Hprops).
  { simpl. by rewrite He1. }
  { simpl. by rewrite arr_at_store_array, fmap_app. }
  { apply Forall_app. split; apply Forall_forall; intros l Hl; simpl;
      erewrite obj_at_store_array by exact Harr1.
    - rewrite Forall_forall in Hobjs. destruct (Hobjs l Hl) as [m Hm].
      exists m. by eapply obj_at_weaken.
    - apply list_elem_of_lookup in Hl as [i Hi].
      destruct (lookup_lt_is_Some_2 renewed i) as [j Hj].
      { rewrite <- Hlen. by eapply lookup_lt_Some. }
      destruct (Hnews i l j Hi Hj) as (m & Hm & _). exists m.
      unfold obj_at. by rewrite Hm. }
  { apply NoDup_app. split; [done|]. split; [|done].
    intros l Hl Hl'. by apply (Hfresh l Hl'), Hold. }
  apply same_service_fields in Hs3 as (He3 & Hr3 & Hu3 & _ & Hal3 & Hev3 & _).
  exists (add_alert (AlertSuccess, IMPORT_SUCCESS) w3), renewed, news.
  split.
  { unfold importEnvironmentsFile.
    destruct (String.eqb_spec path EmptyString) as [->|_]; [done|].
    rewrite Hread, Hparse, Hverify. unfold negb.
    erewrite bind_returned by reflexivity. rewrite Hdata.
    erewrite bind_returned by apply migrate_with_migrated.
    erewrite bind_returned by reflexivity.
    erewrite bind_returned by reflexivity. rewrite field_set_field_eq.
    erewrite bind_returned by exact Hrenew.
    erewrite bind_returned by reflexivity.
    erewrite bind_returned by reflexivity.
    erewrite bind_returned by reflexivity. rewrite field_set_field_eq.
    erewrite bind_returned by reflexivity.
    erewrite bind_returned by exact Hbuild.
    erewrite bind_returned.
    2:{ change (environments wr) with (environments w). rewrite Ha.
        by apply push_array. }
    erewrite bind_returned by exact Hpass.
    reflexivity. }
  change (heap (add_alert (AlertSuccess, IMPORT_SUCCESS) w3)) with (heap w3).
  assert (∀ l k, l ∈ es ++ news → k ≠ "duplicates" →
            prop (heap w3) (VRef l) k = prop (heap w1) (VRef l) k) as Hprops1.
  { intros l k Hl Hk. rewrite (Hprops l k Hl Hk).
    exact (prop_store_array _ _ _ _ _ _ Harr1). }
  assert (∀ l o, heap w1 !! l = Some o → l ≠ a → l ∉ es ++ news →
            heap w3 !! l = Some o) as Hothers1.
  { intros l o Hlo Hne Hl. apply Hothers; [|done].
    change (<[a := OArr ((VRef <$> es) ++ (VRef <$> news))]> (heap w1) !! l = Some o).
    by rewrite lookup_insert_ne. }
  split; [exact Hthread|].
  split; [simpl; rewrite Hu3; unfold w2; simpl; by rewrite Hu1|].
  split; [simpl; rewrite He3; unfold w2; simpl; by rewrite He1|].
  split.
  { apply collection_of_Some. exists a. split; [|by split].
    simpl. rewrite He3. unfold w2. simpl. by rewrite He1. }
  split.
  { by rewrite Hlen, (threaded_length _ _ _ _ _ Hthread), migrated_length. }
  split; [done|]. split; [done|].
  split.
  { intros i l j k Hi Hj Hk. destruct (Hnews i l j Hi Hj) as (m & Hm & Hholds).
    rewrite Hprops1; [|apply elem_of_app; right; by eapply list_elem_of_lookup_2|done].
    unfold prop, obj_at. rewrite Hm. apply Hholds.
    intros l0 o Hl0 Hlo. apply Hothers1; [done| |].
    - intros ->. by apply Hl0, elem_of_union_l.
    - intros [H|H]%elem_of_app; apply Hl0.
      + by apply elem_of_union_l, Hold.
      + by apply elem_of_union_r, elem_of_list_to_set. }
  split.
  { intros l k Hl Hk. rewrite Hprops1; [|apply elem_of_app; by left|done].
    rewrite Forall_forall in Hobjs. destruct (Hobjs l Hl) as [m Hm].
    unfold prop. by rewrite Hm, (obj_at_weaken _ _ _ _ Hsub1 Hm). }
  split.
  { intros l o Hlo Hl Hne. apply Hothers1.
    - by eapply lookup_weaken.
    - intros ->. apply Hne. by rewrite Ha.
    - intros [H|H]%elem_of_app; [done|]. apply (Hfresh l H), elem_of_dom. eauto. }
  split.
  { intros i l Hi. rewrite (Hdups i l Hi). f_equal. symmetry.
    by apply others_like_ext. }
  split; [simpl; rewrite Hal3; unfold w2; simpl; by rewrite Hal1|].
  split; [simpl; rewrite Hr3; unfold w2; simpl; by rewrite Hr1|].
  simpl. rewrite Hev3. unfold w2. simpl. by rewrite Hev1.
Qed.

End VerifiedImport.

(** The import of the example file into the service as it starts: the
    file holds one environment of one route of one header, the migration
    adds a property to it, and the collection has one environment. *)
Lemma import_appends_renewed_witness :
  let path := "/tmp/export.json" in
  let file := Some [path] in
  let w := started in
  let payload := elements (json_field "data" (exported "good")) in
  path ≠ EmptyString ∧
  read_example path = ReadOk path ∧
  parse_example true path = Some (exported "good") ∧
  verify_example (exported "good") = true ∧
  json_field "data" (exported "good") = JArr payload ∧
  forallb shaped_environment (migrated [migration_example] payload) = true ∧
  collection_of w = Some [8%positive] ∧
  NoDup [8%positive] ∧
  ∃ w' renewed news,
    importEnvironmentsFile [migration_example] verify_example (parse_example true)
      file read_example w
    = Returned tt w' ∧
    threaded environment_size (renewed_environment (uuid_source w)) (uuid_calls w)
      (migrated [migration_example] payload) renewed ∧
    uuid_calls w'
    = uuid_calls w + sum_list (environment_size <$> migrated [migration_example] payload) ∧
    environments w' = environments w ∧
    collection_of w' = Some ([8%positive] ++ news) ∧
    length news = length payload ∧
    NoDup news ∧
    (∀ l, l ∈ news → l ∉ dom (heap w)) ∧
    (∀ i l j k, news !! i = Some l → renewed !! i = Some j → k ≠ "duplicates" →
       holds (heap w') (prop (heap w') (VRef l) k) (json_field k j)) ∧
    (∀ l k, l ∈ [8%positive] → k ≠ "duplicates" →
       prop (heap w') (VRef l) k = prop (heap w) (VRef l) k) ∧
    (∀ l o, heap w !! l = Some o → l ∉ [8%positive] → VRef l ≠ environments w →
       heap w' !! l = Some o) ∧
    (∀ i l, ([8%positive] ++ news) !! i = Some l →
       duplicates_of (heap w') (VRef l)
       = Some (others_like (environment_key (heap w') <$> [8%positive] ++ news) i)) ∧
    alerts w' = alerts w ++ [(AlertSuccess, IMPORT_SUCCESS)] ∧
    routesTotal w' = routesTotal w ∧
    updateEvents w' = updateEvents w.
Proof.
  intros path file w payload.
  split; [done|]. split; [reflexivity|]. split; [reflexivity|].
  split; [reflexivity|]. split; [reflexivity|]. split; [reflexivity|].
  split; [by vm_compute|]. split; [apply NoDup_singleton|].
  eapply (import_appends_renewed [migration_example] verify_example
            (parse_example true) file path [] read_example path _ payload
            [8%positive] w).
  - reflexivity.
  - done.
  - reflexivity.
  - reflexivity.
  - reflexivity.
  - reflexivity.
  - reflexivity.
  - by vm_compute.
  - apply NoDup_singleton.
Defined.

(** The same import, computed: the environment of the file comes second,
    with the property the migration adds and the three UUIDs generated
    after the five of the start, where the file had those of the
    collection it was exported from; the two environments have the same
    port, and each is the duplicate of the other. *)
Example import_of_example_file :
  let w := started in
  let w' := final (importEnvironmentsFile [migration_example] verify_example
                     (parse_example true) (Some ["/tmp/export.json"]) read_example w) in
  let imported := environment_at 1 w' in
  (λ e, prop (heap w') e "uuid") <$> [environment_at 0 w'; imported]
    = [VStr "uuid-0"; VStr "uuid-5"] ∧
  route_uuids w' = Some [VStr "uuid-1"; VStr "uuid-3"; VStr "uuid-6"] ∧
  header_uuids (heap w') (route_at 0 imported w') = Some [VStr "uuid-7"] ∧
  prop (heap w') imported "proxyMode" = VBool false ∧
  (λ e, prop (heap w') e "port") <$> [environment_at 0 w'; imported]
    = [VNum 3000; VNum 3000] ∧
  (λ e, duplicates_of (heap w') e) <$> [environment_at 0 w'; imported]
    = [Some [1]; Some [0]] ∧
  alerts w' = [(AlertSuccess, IMPORT_SUCCESS)].
Proof. by vm_compute. Qed.

(** * Further properties of the service *)

(** ** The pass over the collection *)

(** X1. After [checkEnvironmentsDuplicates()], for a collection whose
    environments are distinct objects: the collection holds the same
    environments in the same order, the fields of the service and its
    logs are unchanged, every object that is not an environment of the
    collection is as it was, and each environment has its properties
    other than [duplicates] as they were.  The [duplicates] of the
    environment at index [i] holds, once each, exactly the indexes [j]
    other than [i] of the environments whose [port] is strictly equal
    to its own; [j] is among those of [i] exactly when [i] is among
    those of [j]. *)
Theorem checkEnvironmentsDuplicates_exact w es :
  collection_of w = Some es →
  NoDup es →
  ∃ w', checkEnvironmentsDuplicates w = Returned tt w' ∧
    same_service w w' ∧
    collection_of w' = Some es ∧
    (∀ l o, heap w !! l = Some o → l ∉ es → heap w' !! l = Some o) ∧
    ∀ i l, es !! i = Some l →
      (∀ k, k ≠ "duplicates" → prop (heap w') (VRef l) k = prop (heap w) (VRef l) k) ∧
      ∃ d, duplicates_of (heap w') (VRef l) = Some d ∧ NoDup d ∧ (i ∉ d) ∧
        (∀ j, j ∈ d ↔
           j ≠ i ∧ ∃ l', es !! j = Some l' ∧
                         prop (heap w) (VRef l') "port" = prop (heap w) (VRef l) "port") ∧
        (∀ j l' d', es !! j = Some l' →
           duplicates_of (heap w') (VRef l') = Some d' → (j ∈ d ↔ i ∈ d')).
Proof.
  intros (a & Ha & Harr & Hobjs)%collection_of_Some Hnd.
  destruct (environments_pass w a es Ha Harr Hobjs Hnd)
    as (w' & Hrun & Hs & Harr' & Hobjs' & Hkeys & Hdup & Hothers & Hprops).
  exists w'. split; [done|]. split; [done|].
  split.
  { apply collection_of_Some. exists a. split; [|by split].
    apply same_service_fields in Hs as (-> & _). done. }
  split; [done|].
  intros i l Hi. split.
  { intros k Hk. apply Hprops; [by eapply list_elem_of_lookup_2|done]. }
  exists (others_like (environment_key (heap w) <$> es) i).
  split; [by apply Hdup|]. split; [apply NoDup_others_like|].
  split; [|split].
  - rewrite (others_like_fmap _ _ _ _ _ Hi). by intros [? _].
  - intros j. exact (others_like_fmap (environment_key (heap w)) es i l j Hi).
  - intros j l' d' Hj Hd'. rewrite (Hdup j l' Hj) in Hd'. injection Hd' as <-.
    rewrite (others_like_fmap _ _ _ _ _ Hi), (others_like_fmap _ _ _ _ _ Hj).
    split; intros (Hne & l'' & Hl'' & Hk).
    + rewrite Hj in Hl''. injection Hl'' as <-. split; [done|]. by exists l.
    + rewrite Hi in Hl''. injection Hl'' as <-. split; [done|]. by exists l'.
Qed.

Lemma checkEnvironmentsDuplicates_exact_witness :
  let w := two_environments in
  ∃ es, collection_of w = Some es ∧ NoDup es ∧
  ∃ w', checkEnvironmentsDuplicates w = Returned tt w' ∧
    same_service w w' ∧
    collection_of w' = Some es ∧
    (∀ l o, heap w !! l = Some o → l ∉ es → heap w' !! l = Some o) ∧
    ∀ i l, es !! i = Some l →
      (∀ k, k ≠ "duplicates" → prop (heap w') (VRef l) k = prop (heap w) (VRef l) k) ∧
      ∃ d, duplicates_of (heap w') (VRef l) = Some d ∧ NoDup d ∧ (i ∉ d) ∧
        (∀ j, j ∈ d ↔
           j ≠ i ∧ ∃ l', es !! j = Some l' ∧
                         prop (heap w) (VRef l') "port" = prop (heap w) (VRef l) "port") ∧
        (∀ j l' d', es !! j = Some l' →
           duplicates_of (heap w') (VRef l') = Some d' → (j ∈ d ↔ i ∈ d')).
Proof.
  intros w.
  destruct (collection_of w) as [es|] eqn:E; [|by vm_compute in E].
  exists es. split; [done|].
  assert (NoDup es) as Hnd.
  { vm_compute in E. injection E as <-. by apply (bool_decide_unpack _). }
  split; [done|].
  by apply checkEnvironmentsDuplicates_exact.
Defined.

(** The pass on the two environments of the example, computed: each is
    the duplicate of the other. *)
Example checkEnvironmentsDuplicates_of_two :
  let w := two_environments in
  let w' := final (checkEnvironmentsDuplicates w) in
  (λ i, prop (heap w) (environment_at i w) "port") <$> [0; 1] = [VNum 3000; VNum 3000] ∧
  (λ i, duplicates_of (heap w) (environment_at i w)) <$> [0; 1] = [Some []; Some []] ∧
  (λ i, duplicates_of (heap w') (environment_at i w')) <$> [0; 1] = [Some [1]; Some [0]].
Proof. by vm_compute. Qed.

(** ** Looking an environment or a route up by its UUID *)

(** [findIndex] with the callback [item => item.k === x] over objects:
    the index of the first one whose [k] is [x], or -1, and the world
    as it was. *)
Lemma findIndex_from_objects (k : string) (x : val) (ls : list loc) (i : nat) w :
  Forall (λ l, is_Some (obj_at (heap w) l)) ls →
  ∃ r, findIndex_from (λ item, u ← get_prop item k; mret (strict_eq u x))
         (VRef <$> ls) i w = Returned r w ∧
    ((r = (-1)%Z ∧ ∀ l, l ∈ ls → prop (heap w) (VRef l) k ≠ x) ∨
     (∃ j l, r = Z.of_nat (i + j) ∧ ls !! j = Some l ∧ prop (heap w) (VRef l) k = x ∧
             ∀ j' l', j' < j → ls !! j' = Some l' → prop (heap w) (VRef l') k ≠ x)).
Proof.
  revert i. induction ls as [|l rest IH]; intros i Hobjs.
  - exists (-1)%Z. split; [done|]. left. split; [done|]. by intros l Hl%elem_of_nil.
  - apply Forall_cons in Hobjs as [[m Hm] Hrest].
    simpl. erewrite bind_returned.
    2:{ erewrite bind_returned by exact (get_prop_object l k m w Hm). reflexivity. }
    rewrite strict_eq_spec.
    destruct (decide (prop (heap w) (VRef l) k = x)) as [Heq|Hne].
    + rewrite bool_decide_eq_true_2 by done.
      exists (Z.of_nat i). split; [done|]. right. exists 0, l.
      split; [by rewrite Nat.add_0_r|]. split; [done|]. split; [done|]. lia.
    + rewrite bool_decide_eq_false_2 by done.
      destruct (IH (S i) Hrest) as (r & Hrun & Hr). exists r. split; [done|].
      destruct Hr as [[-> Hnone]|(j & l' & -> & Hj & Hx & Hfirst)].
      * left. split; [done|]. intros l' [-> | Hl']%elem_of_cons; [done|by apply Hnone].
      * right. exists (S j), l'. split; [f_equal; lia|]. split; [done|]. split; [done|].
        intros [|j'] l'' Hlt Hj'; simpl in Hj'.
        -- by injection Hj' as <-.
        -- apply (Hfirst j' l''); [lia|done].
Qed.

(** X2. [findEnvironmentIndex(uuid)] on a collection of objects returns,
    without changing anything, the index of the first environment whose
    [uuid] is the string given, and -1 exactly when no environment has
    it.  So the index is -1 or an index of the collection, and when no
    other environment carries the [uuid] of the environment at [i], the
    call with that [uuid] returns [i]. *)
Theorem findEnvironmentIndex_first w es environmentUUID :
  collection_of w = Some es →
  ∃ r, findEnvironmentIndex environmentUUID w = Returned r w ∧
    (r = (-1)%Z ↔ ∀ l, l ∈ es → prop (heap w) (VRef l) "uuid" ≠ VStr environmentUUID) ∧
    (r ≠ (-1)%Z →
       ∃ i l, r = Z.of_nat i ∧ es !! i = Some l ∧
         prop (heap w) (VRef l) "uuid" = VStr environmentUUID ∧
         ∀ j l', j < i → es !! j = Some l' →
                 prop (heap w) (VRef l') "uuid" ≠ VStr environmentUUID) ∧
    (∀ i l, es !! i = Some l →
       prop (heap w) (VRef l) "uuid" = VStr environmentUUID →
       (∀ j l', j ≠ i → es !! j = Some l' →
                prop (heap w) (VRef l') "uuid" ≠ VStr environmentUUID) →
       r = Z.of_nat i).
Proof.
  intros (a & Ha & Harr & Hobjs)%collection_of_Some.
  destruct (findIndex_from_objects "uuid" (VStr environmentUUID) es 0 w Hobjs)
    as (r & Hrun & Hr).
  exists r. split.
  { unfold findEnvironmentIndex, findIndex.
    erewrite bind_returned by reflexivity. rewrite Ha.
    erewrite bind_returned by (by apply array_items_array). done. }
  destruct Hr as [[-> Hnone]|(j & l & -> & Hj & Hx & Hfirst)].
  - split; [done|]. split; [done|].
    intros i l Hi Hu _. destruct (Hnone l); [by eapply list_elem_of_lookup_2|done].
  - split; [|split].
    + split; [lia|]. intros Hnone. destruct (Hnone l); [by eapply list_elem_of_lookup_2|done].
    + intros _. by exists j, l.
    + intros i l' Hi Hu Hothers. simpl. f_equal.
      destruct (decide (j = i)) as [->|Hne]; [done|].
      by destruct (Hothers j l Hne Hj).
Qed.

Lemma findEnvironmentIndex_first_witness :
  let w := two_environments in
  ∃ es, collection_of w = Some es ∧
  ∃ r, findEnvironmentIndex (numbered 6) w = Returned r w ∧
    (r = (-1)%Z ↔ ∀ l, l ∈ es → prop (heap w) (VRef l) "uuid" ≠ VStr (numbered 6)) ∧
    (r ≠ (-1)%Z →
       ∃ i l, r = Z.of_nat i ∧ es !! i = Some l ∧
         prop (heap w) (VRef l) "uuid" = VStr (numbered 6) ∧
         ∀ j l', j < i → es !! j = Some l' →
                 prop (heap w) (VRef l') "uuid" ≠ VStr (numbered 6)) ∧
    (∀ i l, es !! i = Some l →
       prop (heap w) (VRef l) "uuid" = VStr (numbered 6) →
       (∀ j l', j ≠ i → es !! j = Some l' →
                prop (heap w) (VRef l') "uuid" ≠ VStr (numbered 6)) →
       r = Z.of_nat i).
Proof.
  intros w.
  destruct (collection_of w) as [es|] eqn:E; [|by vm_compute in E].
  exists es. split; [done|].
  by apply findEnvironmentIndex_first.
Defined.

(** X3. [findRouteIndex(environment, uuid)] on an environment whose
    routes are objects returns, without changing anything, the index of
    the first route whose [uuid] is the string given, and -1 exactly
    when no route of the environment has it; when no other route of the
    environment carries the [uuid] of the route at [i], the call with
    that [uuid] returns [i]. *)
Theorem findRouteIndex_first w environment rs routeUUID :
  routes_of (heap w) environment = Some rs →
  ∃ r, findRouteIndex environment routeUUID w = Returned r w ∧
    (r = (-1)%Z ↔ ∀ l, l ∈ rs → prop (heap w) (VRef l) "uuid" ≠ VStr routeUUID) ∧
    (r ≠ (-1)%Z →
       ∃ i l, r = Z.of_nat i ∧ rs !! i = Some l ∧
         prop (heap w) (VRef l) "uuid" = VStr routeUUID ∧
         ∀ j l', j < i → rs !! j = Some l' →
                 prop (heap w) (VRef l') "uuid" ≠ VStr routeUUID) ∧
    (∀ i l, rs !! i = Some l →
       prop (heap w) (VRef l) "uuid" = VStr routeUUID →
       (∀ j l', j ≠ i → rs !! j = Some l' →
                prop (heap w) (VRef l') "uuid" ≠ VStr routeUUID) →
       r = Z.of_nat i).
Proof.
  intros (items & (a & Hr & Ha)%items_of_Some & [-> Hobjs]%objects_of_Some)%routes_of_Some.
  destruct (findIndex_from_objects "uuid" (VStr routeUUID) rs 0 w Hobjs)
    as (r & Hrun & Hres).
  exists r. split.
  { unfold findRouteIndex, findIndex.
    erewrite bind_returned by (by eapply get_prop_ref).
    erewrite bind_returned by (by apply array_items_array). done. }
  destruct Hres as [[-> Hnone]|(j & l & -> & Hj & Hx & Hfirst)].
  - split; [done|]. split; [done|].
    intros i l Hi Hu _. destruct (Hnone l); [by eapply list_elem_of_lookup_2|done].
  - split; [|split].
    + split; [lia|]. intros Hnone. destruct (Hnone l); [by eapply list_elem_of_lookup_2|done].
    + intros _. by exists j, l.
    + intros i l' Hi Hu Hothers. simpl. f_equal.
      destruct (decide (j = i)) as [->|Hne]; [done|].
      by destruct (Hothers j l Hne Hj).
Qed.

Lemma findRouteIndex_first_witness :
  let w := started in
  let environment := environment_at 0 w in
  ∃ rs, routes_of (heap w) environment = Some rs ∧
  ∃ r, findRouteIndex environment (numbered 3) w = Returned r w ∧
    (r = (-1)%Z ↔ ∀ l, l ∈ rs → prop (heap w) (VRef l) "uuid" ≠ VStr (numbered 3)) ∧
    (r ≠ (-1)%Z →
       ∃ i l, r = Z.of_nat i ∧ rs !! i = Some l ∧
         prop (heap w) (VRef l) "uuid" = VStr (numbered 3) ∧
         ∀ j l', j < i → rs !! j = Some l' →
                 prop (heap w) (VRef l') "uuid" ≠ VStr (numbered 3)) ∧
    (∀ i l, rs !! i = Some l →
       prop (heap w) (VRef l) "uuid" = VStr (numbered 3) →
       (∀ j l', j ≠ i → rs !! j = Some l' →
                prop (heap w) (VRef l') "uuid" ≠ VStr (numbered 3)) →
       r = Z.of_nat i).
Proof.
  intros w environment.
  destruct (routes_of (heap w) environment) as [rs|] eqn:E; [|by vm_compute in E].
  exists rs. split; [done|].
  by apply findRouteIndex_first.
Defined.

(** Lookups computed on the examples: the second route of the default
    environment, the environment added second, a UUID nothing carries,
    and the empty string, which finds the route that [addRoute] has
    added. *)
Example find_by_uuid :
  let w := started in
  let environment := environment_at 0 w in
  returns (findRouteIndex environment (numbered 3)) w (λ r _, r = 1%Z) ∧
  returns (findRouteIndex environment "nothing") w (λ r _, r = (-1)%Z) ∧
  returns (findEnvironmentIndex (numbered 6)) two_environments (λ r _, r = 1%Z) ∧
  returns (findEnvironmentIndex "nothing") two_environments (λ r _, r = (-1)%Z) ∧
  returns (_ ← addRoute environment None; findRouteIndex environment EmptyString) w
    (λ r _, r = 2%Z).
Proof.
  split; [by vm_compute|]. split; [by vm_compute|]. split; [by vm_compute|].
  split; by vm_compute.
Qed.

(** ** [removeRoute] at an index that is not one of the routes *)

Lemma splice_items_one {A} (items : list A) (start : Z) :
  splice_items items start 1 = delete (splice_start (length items) start) items.
Proof.
  unfold splice_items. by rewrite delete_take_drop, Nat.add_1_r.
Qed.

Lemma splice_items_fmap {A B} (f : A → B) (items : list A) (start : Z) (n : nat) :
  splice_items (f <$> items) start n = f <$> splice_items items start n.
Proof.
  unfold splice_items. by rewrite length_fmap, fmap_app, fmap_take, fmap_drop.
Qed.

Lemma delete_beyond {A} (items : list A) (i : nat) :
  (length items ≤ i)%nat → delete i items = items.
Proof.
  intros Hi. rewrite delete_take_drop, take_ge, drop_ge by lia. apply app_nil_r.
Qed.

(** [removeRoute] whatever the index: the route removed is the one
    where [splice] starts. *)
Lemma removeRoute_splices w environment ls (routeIndex : Z) cb :
  routes_of (heap w) environment = Some ls →
  NoDup ls →
  ∃ w1,
    removeRoute environment routeIndex cb w
    = Returned tt (add_event (UpdateEvent environment cb) w1) ∧
    same_service (set_routesTotal (routesTotal w - 1) w) w1 ∧
    routes_of (heap w1) environment
    = Some (delete (splice_start (length ls) routeIndex) ls) ∧
    (∀ j r, delete (splice_start (length ls) routeIndex) ls !! j = Some r →
      route_key (heap w1) r = route_key (heap w) r ∧
      ∃ d, duplicates_of (heap w1) (VRef r) = Some d ∧ NoDup d ∧
        ∀ k, k ∈ d ↔
          k ≠ j ∧ ∃ r', delete (splice_start (length ls) routeIndex) ls !! k = Some r' ∧
                        route_key (heap w) r' = route_key (heap w) r) ∧
    (∀ l o, heap w !! l = Some o → prop (heap w) environment "routes" ≠ VRef l →
       l ∉ delete (splice_start (length ls) routeIndex) ls → heap w1 !! l = Some o) ∧
    (∀ l k, l ∈ delete (splice_start (length ls) routeIndex) ls → k ≠ "duplicates" →
       prop (heap w1) (VRef l) k = prop (heap w) (VRef l) k).
Proof.
  intros (items & (a & Hr & Ha)%items_of_Some & [-> Hobj]%objects_of_Some)%routes_of_Some
    Hnd.
  set (i := splice_start (length ls) routeIndex).
  set (items' := VRef <$> delete i ls).
  set (w0 := set_routesTotal (routesTotal w - 1) (set_heap <[a := OArr items']> w)).
  assert (items_of (heap w0) environment "routes" = Some items') as Hitems0.
  { apply items_of_Some. exists a. simpl.
    rewrite (prop_store_array _ _ _ _ _ _ Ha). split; [done|apply arr_at_store_array]. }
  assert (objects_of (heap w0) items' = Some (delete i ls)) as Hobjs0.
  { apply objects_of_Some. split; [done|]. simpl.
    eapply Forall_impl; [by apply Forall_delete_objects|].
    intros l. simpl. by rewrite (obj_at_store_array _ _ _ _ _ Ha). }
  destruct (routes_pass w0 environment items' (delete i ls) Hitems0 Hobjs0
              (NoDup_delete _ _ Hnd))
    as (w1 & Hrun & Hsame & Hitems1 & Hobjs1 & Hkeys & Hdup & Hothers & Hprops).
  assert (∀ r, route_key (heap w0) r = route_key (heap w) r) as Heq.
  { intros r. simpl. by eapply route_key_store_array. }
  exists w1. split; [|split; [|split; [|split; [|split]]]].
  - unfold removeRoute, removeRoute_with.
    erewrite bind_returned by (by eapply get_prop_ref).
    erewrite bind_returned.
    2:{ apply returns_eq. eapply returns_splice; [exact Ha|]. split; reflexivity. }
    erewrite bind_returned by reflexivity.
    erewrite bind_returned.
    2:{ rewrite splice_items_fmap, splice_items_one. exact Hrun. }
    done.
  - eapply same_service_trans; [|exact Hsame]. by destruct w.
  - apply routes_of_Some. eauto.
  - intros j r Hj. split.
    { rewrite (Hkeys r) by (by eapply list_elem_of_lookup_2). apply Heq. }
    exists (others_like (route_key (heap w0) <$> delete i ls) j).
    split; [by apply Hdup|]. split; [apply NoDup_others_like|].
    intros k. rewrite (others_like_fmap _ _ _ _ _ Hj).
    by setoid_rewrite Heq.
  - intros l o Hl Hne Hout. apply Hothers; [|done]. simpl.
    rewrite lookup_insert_ne; [done|]. intros ->. by rewrite Hr in Hne.
  - intros l k Hl Hk. rewrite (Hprops l k Hl Hk).
    exact (prop_store_array _ _ _ _ _ _ Ha).
Qed.

(** X4. [removeRoute(environment, index, callback)] at an index past
    the last route (so any index from 0 on when there is no route)
    removes nothing: the routes are those of before, in the same order,
    with their endpoint and method, and their [duplicates] are
    recomputed.  The counter of routes is decremented all the same, and
    the update event is emitted. *)
Theorem removeRoute_past_the_end w environment ls (routeIndex : Z) cb :
  routes_of (heap w) environment = Some ls →
  NoDup ls →
  (Z.of_nat (length ls) ≤ routeIndex)%Z →
  ∃ w1,
    removeRoute environment routeIndex cb w
    = Returned tt (add_event (UpdateEvent environment cb) w1) ∧
    updateEvents w1 = updateEvents w ∧
    routesTotal w1 = (routesTotal w - 1)%Z ∧
    routes_of (heap w1) environment = Some ls ∧
    ∀ j r, ls !! j = Some r →
      route_key (heap w1) r = route_key (heap w) r ∧
      ∃ d, duplicates_of (heap w1) (VRef r) = Some d ∧
        ∀ k, k ∈ d ↔
          k ≠ j ∧ ∃ r', ls !! k = Some r' ∧ route_key (heap w) r' = route_key (heap w) r.
Proof.
  intros Hls Hnd Hi.
  destruct (removeRoute_splices w environment ls routeIndex cb Hls Hnd)
    as (w1 & Hrun & Hs & Hroutes & Hdups & _).
  assert (delete (splice_start (length ls) routeIndex) ls = ls) as Heq.
  { apply delete_beyond. unfold splice_start. rewrite decide_False by lia. lia. }
  rewrite Heq in Hroutes, Hdups.
  apply same_service_fields in Hs as (_ & Hrt & _ & _ & _ & Hev & _).
  exists w1. split; [done|]. split; [done|]. split; [done|]. split; [done|].
  intros j r Hj. destruct (Hdups j r Hj) as (Hkey & d & Hd & _ & Hin). split; [done|].
  by exists d.
Qed.

Lemma removeRoute_past_the_end_witness :
  let w := started in
  let environment := environment_at 0 w in
  ∃ ls, routes_of (heap w) environment = Some ls ∧ NoDup ls ∧
    (Z.of_nat (length ls) ≤ 2)%Z ∧
  ∃ w1,
    removeRoute environment 2 None w
    = Returned tt (add_event (UpdateEvent environment None) w1) ∧
    updateEvents w1 = updateEvents w ∧
    routesTotal w1 = (routesTotal w - 1)%Z ∧
    routes_of (heap w1) environment = Some ls ∧
    ∀ j r, ls !! j = Some r →
      route_key (heap w1) r = route_key (heap w) r ∧
      ∃ d, duplicates_of (heap w1) (VRef r) = Some d ∧
        ∀ k, k ∈ d ↔
          k ≠ j ∧ ∃ r', ls !! k = Some r' ∧ route_key (heap w) r' = route_key (heap w) r.
Proof.
  intros w environment.
  destruct (routes_of (heap w) environment) as [ls|] eqn:E; [|by vm_compute in E].
  exists ls. vm_compute in E. injection E as <-.
  assert (NoDup [11; 14]%positive) as Hnd by (by apply (bool_decide_unpack _)).
  split; [done|]. split; [done|]. split; [simpl; lia|].
  apply removeRoute_past_the_end; [by vm_compute|done|simpl; lia].
Defined.

(** X5. [removeRoute(environment, index, callback)] at a negative index
    counts from the end, as [splice] does: with [n] routes, the index
    [-k] removes the route at [n - k], and the first route when [k] is
    more than [n].  The routes left keep their order, endpoint and
    method, their [duplicates] are recomputed over the routes left, and
    the counter of routes is one less. *)
Theorem removeRoute_from_the_end w environment ls (routeIndex : Z) cb :
  routes_of (heap w) environment = Some ls →
  NoDup ls →
  (routeIndex < 0)%Z →
  let i := Z.to_nat (Z.max (Z.of_nat (length ls) + routeIndex) 0) in
  ∃ w1,
    removeRoute environment routeIndex cb w
    = Returned tt (add_event (UpdateEvent environment cb) w1) ∧
    updateEvents w1 = updateEvents w ∧
    routesTotal w1 = (routesTotal w - 1)%Z ∧
    routes_of (heap w1) environment = Some (delete i ls) ∧
    (ls ≠ [] → length (delete i ls) = length ls - 1) ∧
    ∀ j r, delete i ls !! j = Some r →
      route_key (heap w1) r = route_key (heap w) r ∧
      ∃ d, duplicates_of (heap w1) (VRef r) = Some d ∧
        ∀ k, k ∈ d ↔
          k ≠ j ∧ ∃ r', delete i ls !! k = Some r' ∧
                        route_key (heap w) r' = route_key (heap w) r.
Proof.
  intros Hls Hnd Hi i.
  destruct (removeRoute_splices w environment ls routeIndex cb Hls Hnd)
    as (w1 & Hrun & Hs & Hroutes & Hdups & _).
  assert (splice_start (length ls) routeIndex = i) as Heq.
  { unfold splice_start. by rewrite decide_True by done. }
  rewrite Heq in Hroutes, Hdups.
  apply same_service_fields in Hs as (_ & Hrt & _ & _ & _ & Hev & _).
  exists w1. split; [done|]. split; [done|]. split; [done|]. split; [done|].
  split.
  { intros Hne. rewrite length_delete; [done|]. apply lookup_lt_is_Some_2.
    destruct ls; [done|]. unfold i. simpl length. lia. }
  intros j r Hj. destruct (Hdups j r Hj) as (Hkey & d & Hd & _ & Hin). split; [done|].
  by exists d.
Qed.

Lemma removeRoute_from_the_end_witness :
  let w := three_alike in
  let environment := environment_at 0 w in
  ∃ ls, routes_of (heap w) environment = Some ls ∧ NoDup ls ∧ (-1 < 0)%Z ∧
  let i := Z.to_nat (Z.max (Z.of_nat (length ls) + -1) 0) in
  ∃ w1,
    removeRoute environment (-1) None w
    = Returned tt (add_event (UpdateEvent environment None) w1) ∧
    updateEvents w1 = updateEvents w ∧
    routesTotal w1 = (routesTotal w - 1)%Z ∧
    routes_of (heap w1) environment = Some (delete i ls) ∧
    (ls ≠ [] → length (delete i ls) = length ls - 1) ∧
    ∀ j r, delete i ls !! j = Some r →
      route_key (heap w1) r = route_key (heap w) r ∧
      ∃ d, duplicates_of (heap w1) (VRef r) = Some d ∧
        ∀ k, k ∈ d ↔
          k ≠ j ∧ ∃ r', delete i ls !! k = Some r' ∧
                        route_key (heap w) r' = route_key (heap w) r.
Proof.
  intros w environment.
  destruct (routes_of (heap w) environment) as [ls|] eqn:E; [|by vm_compute in E].
  exists ls. vm_compute in E. injection E as <-.
  assert (NoDup [11; 14; 19]%positive) as Hnd by (by apply (bool_decide_unpack _)).
  split; [done|]. split; [done|]. split; [lia|].
  apply removeRoute_from_the_end; [by vm_compute|done|lia].
Defined.

(** The two cases computed on the default environment and its two
    routes: an index past the end leaves both routes and a counter of
    1, the index -1 removes the last route and -5 the first. *)
Example removeRoute_at_other_indexes :
  let w := started in
  let environment := environment_at 0 w in
  routesTotal w = 2%Z ∧
  routes_of (heap w) environment = Some [11; 14]%positive ∧
  returns (removeRoute environment 2 None) w (λ _ w',
    routes_of (heap w') environment = Some [11; 14]%positive ∧ routesTotal w' = 1%Z) ∧
  returns (removeRoute environment (-1) None) w (λ _ w',
    routes_of (heap w') environment = Some [11]%positive ∧ routesTotal w' = 1%Z) ∧
  returns (removeRoute environment (-5) None) w (λ _ w',
    routes_of (heap w') environment = Some [14]%positive ∧ routesTotal w' = 1%Z).
Proof.
  split; [by vm_compute|]. split; [by vm_compute|]. split; [by vm_compute|].
  split; by vm_compute.
Qed.

(** ** [removeEnvironment] *)

(** [removeEnvironment] at an index of the collection, step by step:
    the stop when the environment runs, the splice, the pass over the
    environments left. *)
Lemma removeEnvironment_splices w a es (i : nat) l :
  environments w = VRef a →
  arr_at (heap w) a = Some (VRef <$> es) →
  Forall (λ l, is_Some (obj_at (heap w) l)) es →
  NoDup es →
  es !! i = Some l →
  ∃ w1,
    removeEnvironment (Z.of_nat i) w
    = Returned tt (add_event (UpdateEvent VNull None) w1) ∧
    same_service
      (if truthy (prop (heap w) (VRef l) "running") then add_stop (VRef l) w else w) w1 ∧
    arr_at (heap w1) a = Some (VRef <$> delete i es) ∧
    Forall (λ l, is_Some (obj_at (heap w1) l)) (delete i es) ∧
    (∀ l' o, heap w !! l' = Some o → l' ≠ a → l' ∉ delete i es → heap w1 !! l' = Some o) ∧
    (∀ e k, e ∈ delete i es → k ≠ "duplicates" →
       prop (heap w1) (VRef e) k = prop (heap w) (VRef e) k) ∧
    (∀ j e, delete i es !! j = Some e →
       duplicates_of (heap w1) (VRef e)
       = Some (others_like (environment_key (heap w) <$> delete i es) j)).
Proof.
  intros Ha Harr Hobjs Hnd Hi.
  assert (is_Some (obj_at (heap w) l)) as [m Hm].
  { rewrite Forall_forall in Hobjs. apply Hobjs. by eapply list_elem_of_lookup_2. }
  set (running := prop (heap w) (VRef l) "running").
  set (ws := if truthy running then add_stop (VRef l) w else w).
  assert (heap ws = heap w ∧ environments ws = environments w) as (Hheap & Henv).
  { unfold ws. by destruct (truthy running). }
  assert ((if truthy running
           then collection ← gets environments;
                environment ← get_index collection (Z.of_nat i);
                stop environment
           else mret tt) w = Returned tt ws) as Hstop.
  { unfold ws. destruct (truthy running); [|done].
    erewrite bind_returned by reflexivity. rewrite Ha.
    erewrite bind_returned by (by apply get_index_array).
    by rewrite list_lookup_fmap, Hi. }
  set (w0 := set_heap <[a := OArr (VRef <$> delete i es)]> ws).
  assert (arr_at (heap ws) a = Some (VRef <$> es)) as Harrs by by rewrite Hheap.
  destruct (environments_pass w0 a (delete i es)) as
    (w1 & Hpass & Hs1 & Harr1 & Hobjs1 & Hkeys & Hdups & Hothers & Hprops).
  { simpl. by rewrite Henv. }
  { simpl. apply arr_at_store_array. }
  { eapply Forall_impl; [by apply Forall_delete_objects|].
    intros e. simpl. by rewrite (obj_at_store_array _ _ _ _ _ Harrs), Hheap. }
  { by apply NoDup_delete. }
  assert (∀ v k, prop (heap w0) v k = prop (heap w) v k) as Hprop0.
  { intros v k. simpl. by rewrite (prop_store_array _ _ _ _ _ _ Harrs), Hheap. }
  assert (i < length es) as Hlt by (by eapply lookup_lt_Some).
  exists w1. split.
  { unfold removeEnvironment.
    erewrite bind_returned by reflexivity. rewrite Ha.
    erewrite bind_returned by (by apply get_index_array).
    rewrite list_lookup_fmap, Hi. simpl.
    erewrite bind_returned by exact (get_prop_object l "running" m w Hm).
    fold running.
    erewrite bind_returned by exact Hstop.
    erewrite bind_returned by reflexivity. rewrite Henv, Ha.
    erewrite bind_returned.
    2:{ apply returns_eq. eapply returns_splice; [exact Harrs|]. split; reflexivity. }
    erewrite bind_returned.
    2:{ rewrite splice_items_delete by (by rewrite length_fmap).
        rewrite <- list_fmap_delete. exact Hpass. }
    done. }
  split; [eapply same_service_trans; [apply same_service_set_heap|exact Hs1]|].
  split; [done|]. split; [done|].
  split.
  { intros l' o Hl' Hne Hout. apply Hothers; [|done].
    simpl. rewrite lookup_insert_ne by done. by rewrite Hheap. }
  split.
  { intros e k He Hk. by rewrite (Hprops e k He Hk). }
  intros j e Hj. rewrite (Hdups j e Hj). f_equal.
  apply others_like_ext. intros e' _. unfold environment_key. apply Hprop0.
Qed.

Lemma NoDup_delete_lookup {A} (xs : list A) (i : nat) x :
  NoDup xs → xs !! i = Some x → x ∉ delete i xs.
Proof.
  intros Hnd Hi [j Hj]%list_elem_of_lookup_1.
  destruct (decide (j < i)) as [Hji|Hji].
  - rewrite list_lookup_delete_lt in Hj by done.
    pose proof (NoDup_lookup _ _ _ _ Hnd Hj Hi). lia.
  - rewrite list_lookup_delete_ge in Hj by lia.
    pose proof (NoDup_lookup _ _ _ _ Hnd Hj Hi). lia.
Qed.

(** X6. [removeEnvironment(index)] at an index of a collection of
    distinct objects: a stop of its server is requested exactly when
    the [running] of the environment at the index is truthy; the
    collection is then the one of before without that environment, in
    the same order; the environments left keep their properties other
    than [duplicates], and the [duplicates] of the one now at index [j]
    holds exactly the indexes [k] other than [j], counted in the
    environments left, of those with its port; the object of an
    environment removed that was not running is untouched (of one that
    was running nothing is said: what the server runtime does to the
    environment it stops is not in the sources); and one update event is
    emitted, with [null] for the environment and for the callback. *)
Theorem removeEnvironment_removes w es (i : nat) l :
  collection_of w = Some es →
  NoDup es →
  es !! i = Some l →
  ∃ w1,
    removeEnvironment (Z.of_nat i) w
    = Returned tt (add_event (UpdateEvent VNull None) w1) ∧
    updateEvents w1 = updateEvents w ∧
    alerts w1 = alerts w ∧
    stopRequests w1
    = stopRequests w ++
      (if truthy (prop (heap w) (VRef l) "running") then [VRef l] else []) ∧
    collection_of w1 = Some (delete i es) ∧
    (truthy (prop (heap w) (VRef l) "running") = false → heap w1 !! l = heap w !! l) ∧
    ∀ j e, delete i es !! j = Some e →
      (∀ k, k ≠ "duplicates" → prop (heap w1) (VRef e) k = prop (heap w) (VRef e) k) ∧
      ∃ d, duplicates_of (heap w1) (VRef e) = Some d ∧
        ∀ k, k ∈ d ↔
          k ≠ j ∧ ∃ e', delete i es !! k = Some e' ∧
                        prop (heap w) (VRef e') "port" = prop (heap w) (VRef e) "port".
Proof.
  intros (a & Ha & Harr & Hobjs)%collection_of_Some Hnd Hi.
  destruct (removeEnvironment_splices w a es i l Ha Harr Hobjs Hnd Hi)
    as (w1 & Hrun & Hs & Harr1 & Hobjs1 & Hothers & Hprops & Hdups).
  assert (is_Some (obj_at (heap w) l)) as [m Hm].
  { rewrite Forall_forall in Hobjs. apply Hobjs. by eapply list_elem_of_lookup_2. }
  apply same_service_fields in Hs as (He1 & _ & _ & _ & Hal1 & Hev1 & Hst1).
  exists w1. split; [done|].
  split; [rewrite Hev1; by destruct (truthy _)|].
  split; [rewrite Hal1; by destruct (truthy _)|].
  split.
  { rewrite Hst1. destruct (truthy _); simpl; [done|]. by rewrite app_nil_r. }
  split.
  { apply collection_of_Some. exists a. split; [|by split].
    rewrite He1. by destruct (truthy _). }
  split.
  { intros _. apply obj_at_lookup in Hm. rewrite Hm. apply Hothers; [done| |].
    - intros ->. apply arr_at_lookup in Harr. congruence.
    - by apply NoDup_delete_lookup. }
  intros j e Hj.
  assert (e ∈ delete i es) as He by (by eapply list_elem_of_lookup_2).
  split; [intros k Hk; by apply Hprops|].
  exists (others_like (environment_key (heap w) <$> delete i es) j).
  split; [by apply Hdups|].
  intros k. exact (others_like_fmap (environment_key (heap w)) _ _ _ _ Hj).
Qed.

Lemma removeEnvironment_removes_witness :
  let w := final (addEnvironment None serving) in
  ∃ es l, collection_of w = Some es ∧ NoDup es ∧ es !! 0 = Some l ∧
  ∃ w1,
    removeEnvironment (Z.of_nat 0) w
    = Returned tt (add_event (UpdateEvent VNull None) w1) ∧
    updateEvents w1 = updateEvents w ∧
    alerts w1 = alerts w ∧
    stopRequests w1
    = stopRequests w ++
      (if truthy (prop (heap w) (VRef l) "running") then [VRef l] else []) ∧
    collection_of w1 = Some (delete 0 es) ∧
    (truthy (prop (heap w) (VRef l) "running") = false → heap w1 !! l = heap w !! l) ∧
    ∀ j e, delete 0 es !! j = Some e →
      (∀ k, k ≠ "duplicates" → prop (heap w1) (VRef e) k = prop (heap w) (VRef e) k) ∧
      ∃ d, duplicates_of (heap w1) (VRef e) = Some d ∧
        ∀ k, k ∈ d ↔
          k ≠ j ∧ ∃ e', delete 0 es !! k = Some e' ∧
                        prop (heap w) (VRef e') "port" = prop (heap w) (VRef e) "port".
Proof.
  intros w.
  destruct (collection_of w) as [es|] eqn:E; [|by vm_compute in E].
  destruct (es !! 0) as [l|] eqn:El; [|vm_compute in E; injection E as <-; done].
  exists es, l. split; [done|].
  assert (NoDup es) as Hnd.
  { vm_compute in E. injection E as <-. by apply (bool_decide_unpack _). }
  split; [done|]. split; [done|].
  by apply removeEnvironment_removes.
Defined.

(** X7. [removeEnvironment(index)] at an index that is not one of the
    collection (negative, or past the last environment, so any index
    when the collection is empty) throws a [TypeError], reading
    [running] of [undefined], and nothing has changed. *)
Theorem removeEnvironment_out_of_range w a items (environmentIndex : Z) :
  environments w = VRef a →
  arr_at (heap w) a = Some items →
  (environmentIndex < 0 ∨ Z.of_nat (length items) ≤ environmentIndex)%Z →
  removeEnvironment environmentIndex w = Thrown TypeError w.
Proof.
  intros Ha Harr Hi. unfold removeEnvironment.
  erewrite bind_returned by reflexivity. rewrite Ha.
  assert (get_index (VRef a) environmentIndex w = Returned VUndefined w) as Hget.
  { unfold get_index. rewrite (arr_at_lookup _ _ _ Harr).
    destruct (decide (0 ≤ environmentIndex)%Z) as [Hpos|]; [|done].
    rewrite lookup_ge_None_2; [done|]. lia. }
  erewrite bind_returned by exact Hget.
  done.
Qed.

Lemma removeEnvironment_out_of_range_witness :
  let w := started in
  environments w = VRef 16%positive ∧
  arr_at (heap w) 16%positive = Some [VRef 8%positive] ∧
  (1 < 0 ∨ Z.of_nat (length [VRef 8%positive]) ≤ 1)%Z ∧
  removeEnvironment 1 w = Thrown TypeError w.
Proof.
  intros w.
  assert (environments w = VRef 16%positive) as Ha by (by vm_compute).
  assert (arr_at (heap w) 16%positive = Some [VRef 8%positive]) as Harr by (by vm_compute).
  split; [done|]. split; [done|]. split; [right; simpl; lia|].
  apply (removeEnvironment_out_of_range w 16%positive [VRef 8%positive] 1 Ha Harr).
  right. simpl. lia.
Defined.

(** The removal of the default environment while its server runs, and
    when it does not: one request to stop it in the first case, none in
    the second; the collection is empty afterwards. *)
Example removeEnvironment_examples :
  returns (removeEnvironment 0) serving (λ _ w',
    stopRequests w' = [environment_at 0 serving] ∧ collection_of w' = Some [] ∧
    updateEvents w' = [UpdateEvent VNull None]) ∧
  returns (removeEnvironment 0) started (λ _ w',
    stopRequests w' = [] ∧ collection_of w' = Some []).
Proof. split; by vm_compute. Qed.

(** ** Duplicating at an index that is not there *)

Lemma get_index_outside a items (i : Z) w :
  arr_at (heap w) a = Some items →
  (i < 0 ∨ Z.of_nat (length items) ≤ i)%Z →
  get_index (VRef a) i w = Returned VUndefined w.
Proof.
  intros Harr Hi. unfold get_index. rewrite (arr_at_lookup _ _ _ Harr).
  destruct (decide (0 ≤ i)%Z) as [Hpos|]; [|done].
  rewrite lookup_ge_None_2; [done|]. lia.
Qed.

(** X8. [duplicateEnvironment(index, callback)] at an index that is not
    one of the collection throws a [TypeError], reading [name] of
    [undefined]: the heap, the collection, the counter of routes and
    the logs are those of before, and the one UUID that [uuid()] has
    returned by then is lost. *)
Theorem duplicateEnvironment_out_of_range w fuel a items (environmentIndex : Z) cb :
  environments w = VRef a →
  arr_at (heap w) a = Some items →
  (environmentIndex < 0 ∨ Z.of_nat (length items) ≤ environmentIndex)%Z →
  duplicateEnvironment fuel environmentIndex cb w
  = Thrown TypeError (set_uuid_calls (S (uuid_calls w)) w).
Proof.
  intros Ha Harr Hi. unfold duplicateEnvironment.
  erewrite bind_returned by reflexivity. rewrite Ha.
  erewrite bind_returned by (eapply get_index_outside; [exact Harr|exact Hi]).
  erewrite bind_returned by reflexivity.
  erewrite bind_returned by reflexivity. simpl environments. rewrite Ha.
  erewrite bind_returned by (eapply get_index_outside; [exact Harr|exact Hi]).
  done.
Qed.

Lemma duplicateEnvironment_out_of_range_witness :
  let w := started in
  environments w = VRef 16%positive ∧
  arr_at (heap w) 16%positive = Some [VRef 8%positive] ∧
  (-1 < 0 ∨ Z.of_nat (length [VRef 8%positive]) ≤ -1)%Z ∧
  duplicateEnvironment 0 (-1) None w
  = Thrown TypeError (set_uuid_calls (S (uuid_calls w)) w).
Proof.
  intros w.
  assert (environments w = VRef 16%positive) as Ha by (by vm_compute).
  assert (arr_at (heap w) 16%positive = Some [VRef 8%positive]) as Harr by (by vm_compute).
  split; [done|]. split; [done|]. split; [left; lia|].
  apply (duplicateEnvironment_out_of_range w 0 16%positive [VRef 8%positive] (-1) None Ha Harr).
  left. lia.
Defined.

(** X9. [duplicateRoute(environment, index, callback)] at an index that
    is not one of the routes does not throw: [cloneDeep(undefined)] is
    [undefined], which [Object.assign] skips.  A new last route is
    appended that has two properties and no other, a [uuid] generated by
    the call and a new empty array in [duplicates] (no method, no
    endpoint); the index of that route is returned, the counter of
    routes is one more, every object but the array of routes is as it
    was, and the update event is emitted. *)
Theorem duplicateRoute_out_of_range w fuel environment a items (routeIndex : Z) cb :
  prop (heap w) environment "routes" = VRef a →
  arr_at (heap w) a = Some items →
  (routeIndex < 0 ∨ Z.of_nat (length items) ≤ routeIndex)%Z →
  ∃ w' r dups,
    duplicateRoute fuel environment routeIndex cb w
    = Returned (Z.of_nat (length items)) w' ∧
    (dups ∉ dom (heap w)) ∧ (r ∉ dom (heap w)) ∧ r ≠ dups ∧
    arr_at (heap w') dups = Some [] ∧
    obj_at (heap w') r
    = Some (<["uuid" := VStr (uuid_source w (uuid_calls w))]>
              (<["duplicates" := VRef dups]> ∅)) ∧
    arr_at (heap w') a = Some (items ++ [VRef r]) ∧
    (∀ l o, heap w !! l = Some o → l ≠ a → heap w' !! l = Some o) ∧
    uuid_calls w' = S (uuid_calls w) ∧
    routesTotal w' = (routesTotal w + 1)%Z ∧
    updateEvents w' = updateEvents w ++ [UpdateEvent environment cb].
Proof.
  intros Hr Harr Hi.
  set (w1 := set_uuid_calls (S (uuid_calls w)) w).
  set (dups := fresh (dom (heap w))).
  set (w2 := set_heap <[dups := OArr []]> w1).
  set (r := fresh (dom (heap w2))).
  set (m := <["uuid" := VStr (uuid_source w (uuid_calls w))]>
              (<["duplicates" := VRef dups]> (∅ : gmap string val))).
  set (w3 := set_heap <[r := OObj m]> w2).
  assert (heap w ⊆ heap w2) as Hsub2 by apply insert_fresh_subseteq.
  assert (heap w2 ⊆ heap w3) as Hsub3 by apply insert_fresh_subseteq.
  assert (heap w ⊆ heap w3) as Hsub3' by (by etrans).
  assert (a ∈ dom (heap w)) as Hadom by (by eapply arr_at_dom).
  assert (dups ∉ dom (heap w)) as Hdups by apply is_fresh.
  assert (r ∉ dom (heap w2)) as Hr2 by apply is_fresh.
  assert (r ∉ dom (heap w)) as Hrw by (by apply fresh_not_in_sub).
  assert (r ≠ dups) as Hne.
  { intros Heq. apply Hr2. rewrite Heq. simpl. rewrite dom_insert_L.
    by apply elem_of_union_l, elem_of_singleton. }
  set (w4 := set_routesTotal (routesTotal w + 1)
               (set_heap <[a := OArr (items ++ [VRef r])]> w3)).
  exists (add_event (UpdateEvent environment cb) w4), r, dups.
  split.
  { unfold duplicateRoute.
    erewrite bind_returned by (by eapply get_prop_ref).
    erewrite bind_returned by (eapply get_index_outside; [exact Harr|exact Hi]).
    erewrite bind_returned by (by destruct fuel).
    erewrite bind_returned by reflexivity.
    erewrite bind_returned by reflexivity.
    unfold Object_assign.
    erewrite bind_returned.
    2:{ erewrite bind_returned by reflexivity. reflexivity. }
    unfold literal. simpl list_to_map. rewrite (right_id_L ∅ (∪)).
    destruct (prop_ref_inv _ _ _ _ Hr) as (le & me & -> & Hme).
    erewrite bind_returned.
    2:{ apply (get_prop_ref (VRef le) "routes" a w3). unfold prop in *.
        rewrite (obj_at_weaken _ _ _ _ Hsub3' Hme). by rewrite Hme in Hr. }
    erewrite bind_returned
      by exact (push_array a items _ w3 (arr_at_weaken _ _ _ _ Hsub3' Harr)).
    erewrite bind_returned by reflexivity.
    erewrite bind_returned by reflexivity.
    unfold mret, M_ret. f_equal.
    rewrite length_app. simpl. lia. }
  split; [done|]. split; [done|]. split; [done|].
  assert (a ≠ r) as Har by (intros Heq; apply Hrw; by rewrite <- Heq).
  assert (a ≠ dups) as Had by (intros Heq; apply Hdups; by rewrite <- Heq).
  split.
  { unfold arr_at. simpl.
    rewrite lookup_insert_ne by done. rewrite lookup_insert_ne by done.
    by rewrite lookup_insert_eq. }
  split.
  { unfold obj_at. simpl. rewrite lookup_insert_ne by done.
    by rewrite lookup_insert_eq. }
  split; [simpl; apply arr_at_store_array|].
  split.
  { intros l o Hl Hla. simpl. rewrite lookup_insert_ne by done.
    by eapply (lookup_weaken (heap w)). }
  done.
Qed.

Lemma duplicateRoute_out_of_range_witness :
  let w := started in
  let environment := environment_at 0 w in
  prop (heap w) environment "routes" = VRef 1%positive ∧
  arr_at (heap w) 1%positive = Some [VRef 11%positive; VRef 14%positive] ∧
  (2 < 0 ∨ Z.of_nat (length [VRef 11%positive; VRef 14%positive]) ≤ 2)%Z ∧
  ∃ w' r dups,
    duplicateRoute 0 environment 2 None w
    = Returned (Z.of_nat (length [VRef 11%positive; VRef 14%positive])) w' ∧
    (dups ∉ dom (heap w)) ∧ (r ∉ dom (heap w)) ∧ r ≠ dups ∧
    arr_at (heap w') dups = Some [] ∧
    obj_at (heap w') r
    = Some (<["uuid" := VStr (uuid_source w (uuid_calls w))]>
              (<["duplicates" := VRef dups]> ∅)) ∧
    arr_at (heap w') 1%positive
    = Some ([VRef 11%positive; VRef 14%positive] ++ [VRef r]) ∧
    (∀ l o, heap w !! l = Some o → l ≠ 1%positive → heap w' !! l = Some o) ∧
    uuid_calls w' = S (uuid_calls w) ∧
    routesTotal w' = (routesTotal w + 1)%Z ∧
    updateEvents w' = updateEvents w ++ [UpdateEvent environment None].
Proof.
  intros w environment.
  assert (prop (heap w) environment "routes" = VRef 1%positive) as Hr by (by vm_compute).
  assert (arr_at (heap w) 1%positive = Some [VRef 11%positive; VRef 14%positive])
    as Harr by (by vm_compute).
  split; [done|]. split; [done|]. split; [right; simpl; lia|].
  apply (duplicateRoute_out_of_range w 0 environment 1%positive
           [VRef 11%positive; VRef 14%positive] 2 None Hr Harr).
  right. simpl. lia.
Defined.

(** ** [duplicateRoute] *)

Lemma outside_refl (X : gset loc) (h : gmap loc object) : outside X h h.
Proof. by intros l o _ H. Qed.

(** The copy of a plain object is a plain object. *)
Lemma cloned_object hosts (h h' : gmap loc object) l m v' :
  h !! l = Some (OObj m) → cloned hosts h h' (VRef l) v' →
  ∃ l' m', v' = VRef l' ∧ (l' ∉ dom h) ∧ h' !! l' = Some (OObj m') ∧
           ∀ k, option_Forall2 (cloned hosts h h') (m !! k) (m' !! k).
Proof.
  intros Hl Hc.
  inversion Hc as [? Hp|? Hh Hhost|? ? ? Hd|? ? ? ? Ha|? l' m0 m' Hm Hl' Hm' Hf];
    simplify_eq.
  - by destruct (Hp l).
  - by exists l', m'.
Qed.

(** X10. [duplicateRoute(environment, i, callback)] for a route of the
    environment that is data of depth at most [d], with fuel for that
    depth.  It returns the index of a new last route [r'], an object
    that did not exist; every other object but the array of routes is as
    it was.  The copy has a UUID generated by the call, a new empty
    array in [duplicates], and in every other property a deep copy of
    what the original has there (so its custom headers are copies, with
    the UUIDs of the original's).  Every object reached from the copy is
    an object that did not exist.  The counter of routes is one more and
    the update event is emitted. *)
Theorem duplicateRoute_copies w (fuel d i : nat) cb environment a items r m :
  prop (heap w) environment "routes" = VRef a →
  arr_at (heap w) a = Some items →
  items !! i = Some (VRef r) →
  obj_at (heap w) r = Some m →
  plain false d (heap w) (VRef r) = true →
  (d ≤ fuel)%nat →
  ∃ w' r' m' dups,
    duplicateRoute fuel environment (Z.of_nat i) cb w
    = Returned (Z.of_nat (length items)) w' ∧
    prop (heap w') environment "routes" = VRef a ∧
    arr_at (heap w') a = Some (items ++ [VRef r']) ∧
    (∀ l o, heap w !! l = Some o → l ≠ a → heap w' !! l = Some o) ∧
    (r' ∉ dom (heap w)) ∧
    obj_at (heap w') r' = Some m' ∧
    m' !! "uuid" = Some (VStr (uuid_source w (uuid_calls w))) ∧
    uuid_calls w' = S (uuid_calls w) ∧
    m' !! "duplicates" = Some (VRef dups) ∧
    (dups ∉ dom (heap w)) ∧
    arr_at (heap w') dups = Some [] ∧
    (∀ k, k ≠ "uuid" → k ≠ "duplicates" →
       option_Forall2 (cloned false (heap w) (heap w')) (m !! k) (m' !! k)) ∧
    (∀ l, reach (heap w') (VRef r') l → l ∉ dom (heap w)) ∧
    routesTotal w' = (routesTotal w + 1)%Z ∧
    updateEvents w' = updateEvents w ++ [UpdateEvent environment cb].
Proof.
  intros Hr Ha Hi Hm Hplain Hfuel.
  destruct (cloneDeep_cloned false d fuel (VRef r) w (heap w) Hfuel (reflexivity _) Hplain)
    as (clone & w1 & Hclone & Hs1 & Hsub1 & Hcloned).
  destruct (cloned_object _ _ _ _ _ _ (obj_at_lookup _ _ _ Hm)
              (Hcloned (heap w1) (outside_refl _ _)))
    as (c & mc & -> & Hc & Hc1 & _).
  destruct (same_service_fields _ _ Hs1) as (_ & Htotal1 & Hcalls1 & Hsource1 & _ & Hevents1 & _).
  set (w2 := set_uuid_calls (S (uuid_calls w1)) w1).
  set (dups := fresh (dom (heap w1))).
  set (w3 := set_heap <[dups := OArr []]> w2).
  set (kvs := [("uuid", VStr (uuid_source w1 (uuid_calls w1))); ("duplicates", VRef dups)]).
  set (m' := literal kvs ∪ mc).
  set (r' := fresh (dom (heap w3))).
  set (w4 := set_heap <[r' := OObj m']> w3).
  set (w5 := set_heap <[a := OArr (items ++ [VRef r'])]> w4).
  set (w6 := set_routesTotal (routesTotal w5 + 1) w5).
  set (w7 := add_event (UpdateEvent environment cb) w6).
  assert (heap w1 ⊆ heap w3) as Hsub3 by apply insert_fresh_subseteq.
  assert (heap w3 ⊆ heap w4) as Hsub4 by apply insert_fresh_subseteq.
  assert (heap w ⊆ heap w3) as Hsub3' by (by etrans).
  assert (heap w ⊆ heap w4) as Hsub4' by (by etrans).
  assert (heap w1 ⊆ heap w4) as Hsub14 by (by etrans).
  assert (a ∈ dom (heap w)) as Hadom by (by eapply arr_at_dom).
  assert (dups ∉ dom (heap w1)) as Hdups1 by apply is_fresh.
  assert (dups ∉ dom (heap w)) as Hdups by (by apply fresh_not_in_sub).
  assert (r' ∉ dom (heap w3)) as Hr3 by apply is_fresh.
  assert (r' ∉ dom (heap w)) as Hrw by (by apply fresh_not_in_sub).
  assert (a ≠ r') as Har by (intros Heq; apply Hrw; by rewrite <- Heq).
  assert (a ≠ dups) as Had by (intros Heq; apply Hdups; by rewrite <- Heq).
  assert (r' ≠ dups) as Hrd.
  { intros Heq. apply Hr3. rewrite Heq. simpl. rewrite dom_insert_L.
    by apply elem_of_union_l, elem_of_singleton. }
  assert (outside (dom (heap w)) (heap w1) (heap w7)) as Hout.
  { intros l o Hl Hlo. simpl. rewrite lookup_insert_ne by (intros <-; by apply Hl).
    by eapply (lookup_weaken (heap w1)). }
  destruct (cloned_object _ _ _ _ _ _ (obj_at_lookup _ _ _ Hm) (Hcloned (heap w7) Hout))
    as (c' & mc' & [= <-] & _ & Hc7 & Hfields).
  assert (mc' = mc) as ->.
  { pose proof (Hout c _ Hc Hc1) as H7. rewrite H7 in Hc7. by injection Hc7. }
  assert (heap w7 !! r' = Some (OObj m')) as Hr7.
  { simpl. rewrite lookup_insert_ne by done. by rewrite lookup_insert_eq. }
  assert (heap w7 !! dups = Some (OArr [])) as Hd7.
  { simpl. rewrite lookup_insert_ne by done. rewrite lookup_insert_ne by done.
    by rewrite lookup_insert_eq. }
  destruct (prop_ref_inv _ _ _ _ Hr) as (le & me & -> & Hme).
  assert (∀ h', heap w ⊆ h' → prop h' (VRef le) "routes" = VRef a) as Hroutes.
  { intros h' Hsub. unfold prop in *. rewrite (obj_at_weaken _ _ _ _ Hsub Hme).
    by rewrite Hme in Hr. }
  assert (∀ k, k ≠ "uuid" → k ≠ "duplicates" → m' !! k = mc !! k) as Hother.
  { intros k Hk1 Hk2. unfold m'. rewrite lookup_union_r; [done|].
    rewrite literal_lookup. simpl. by rewrite !decide_False by done. }
  exists w7, r', m', dups.
  split.
  { unfold duplicateRoute.
    erewrite bind_returned by (by eapply get_prop_ref).
    erewrite bind_returned by (by eapply get_index_array). rewrite Hi. simpl default.
    erewrite bind_returned by exact Hclone.
    erewrite bind_returned by reflexivity.
    erewrite bind_returned by reflexivity.
    unfold Object_assign.
    erewrite bind_returned.
    2:{ erewrite bind_returned.
        2:{ apply (own_fields_object c mc w3). unfold obj_at.
            by rewrite (lookup_weaken _ _ _ _ Hc1 Hsub3). }
        reflexivity. }
    erewrite bind_returned by exact (get_prop_ref (VRef le) "routes" a w4 (Hroutes _ Hsub4')).
    erewrite bind_returned
      by exact (push_array a items _ w4 (arr_at_weaken _ _ _ _ Hsub4' Ha)).
    erewrite bind_returned by reflexivity.
    erewrite bind_returned by reflexivity.
    unfold mret, M_ret. f_equal.
    rewrite length_app. simpl. lia. }
  split.
  { change (prop (<[a := OArr (items ++ [VRef r'])]> (heap w4)) (VRef le) "routes" = VRef a).
    rewrite (prop_store_array _ _ _ _ _ _ (arr_at_weaken _ _ _ _ Hsub4' Ha)).
    by apply Hroutes. }
  split; [simpl; apply arr_at_store_array|].
  split.
  { intros l o Hl Hla. simpl. rewrite lookup_insert_ne by done.
    by eapply (lookup_weaken (heap w)). }
  split; [done|].
  split; [unfold obj_at; by rewrite Hr7|].
  split.
  { unfold m'. apply lookup_union_Some_l. rewrite literal_lookup. simpl.
    by rewrite Hsource1, Hcalls1. }
  split; [simpl; by rewrite Hcalls1|].
  split; [unfold m'; apply lookup_union_Some_l; by rewrite literal_lookup|].
  split; [done|].
  split; [unfold arr_at; by rewrite Hd7|].
  split.
  { intros k Hk1 Hk2. rewrite (Hother k Hk1 Hk2). apply Hfields. }
  split.
  { intros l Hl.
    inversion Hl as [? _|? xs x ? Hxs|? m0 k x ? Hm0 Hk Hx]; simplify_eq; [done|].
    destruct (decide (k = "uuid")) as [->|Hk1].
    { unfold m' in Hk. rewrite (lookup_union_Some_l _ _ _ (VStr (uuid_source w1 (uuid_calls w1))))
        in Hk by (by rewrite literal_lookup).
      injection Hk as <-. inversion Hx. }
    destruct (decide (k = "duplicates")) as [->|Hk2].
    { unfold m' in Hk. rewrite (lookup_union_Some_l _ _ _ (VRef dups))
        in Hk by (by rewrite literal_lookup).
      injection Hk as <-.
      inversion Hx as [? _|? xs y ? Hxs Hy|? m1 k1 y ? Hm1]; simplify_eq; [done|].
      by apply elem_of_nil in Hy. }
    rewrite (Hother k Hk1 Hk2) in Hk.
    pose proof (Hfields k) as Hf. rewrite Hk in Hf.
    inversion Hf as [v ? Hv|]; simplify_eq.
    by eapply cloned_reach_fresh. }
  split; [simpl; by rewrite Htotal1|].
  simpl. by rewrite Hevents1.
Qed.

Lemma duplicateRoute_copies_witness :
  let w := started in
  let environment := environment_at 0 w in
  let a := 1%positive in
  let items := [VRef 11%positive; VRef 14%positive] in
  let r := 11%positive in
  let m := fields_of (heap w) (VRef r) in
  prop (heap w) environment "routes" = VRef a ∧
  arr_at (heap w) a = Some items ∧
  items !! 0 = Some (VRef r) ∧
  obj_at (heap w) r = Some m ∧
  plain false 3 (heap w) (VRef r) = true ∧
  (3 ≤ 3)%nat ∧
  ∃ w' r' m' dups,
    duplicateRoute 3 environment (Z.of_nat 0) (Some 1) w
    = Returned (Z.of_nat (length items)) w' ∧
    prop (heap w') environment "routes" = VRef a ∧
    arr_at (heap w') a = Some (items ++ [VRef r']) ∧
    (∀ l o, heap w !! l = Some o → l ≠ a → heap w' !! l = Some o) ∧
    (r' ∉ dom (heap w)) ∧
    obj_at (heap w') r' = Some m' ∧
    m' !! "uuid" = Some (VStr (uuid_source w (uuid_calls w))) ∧
    uuid_calls w' = S (uuid_calls w) ∧
    m' !! "duplicates" = Some (VRef dups) ∧
    (dups ∉ dom (heap w)) ∧
    arr_at (heap w') dups = Some [] ∧
    (∀ k, k ≠ "uuid" → k ≠ "duplicates" →
       option_Forall2 (cloned false (heap w) (heap w')) (m !! k) (m' !! k)) ∧
    (∀ l, reach (heap w') (VRef r') l → l ∉ dom (heap w)) ∧
    routesTotal w' = (routesTotal w + 1)%Z ∧
    updateEvents w' = updateEvents w ++ [UpdateEvent environment (Some 1)].
Proof.
  intros w environment a items r m.
  assert (prop (heap w) environment "routes" = VRef a) as H1 by (by vm_compute).
  assert (arr_at (heap w) a = Some items) as H2 by (by vm_compute).
  assert (obj_at (heap w) r = Some m) as H3.
  { apply fields_of_obj_at. apply (bool_decide_unpack _). by vm_compute. }
  assert (plain false 3 (heap w) (VRef r) = true) as H4 by (by vm_compute).
  split; [exact H1|]. split; [exact H2|]. split; [reflexivity|]. split; [exact H3|].
  split; [exact H4|]. split; [lia|].
  exact (duplicateRoute_copies w 3 3 0 (Some 1) environment a items r m
           H1 H2 eq_refl H3 H4 (le_n 3)).
Defined.

(** The copy of the first default route, computed: it comes third, with
    the sixth UUID of the source, the endpoint and method of the
    original, and a header of its own that carries the UUID of the
    original's header. *)
Example duplicateRoute_of_default_route :
  returns (duplicateRoute 3 (environment_at 0 started) 0 None) started (λ index w',
     index = 2%Z ∧
     prop (heap w') (route_at 2 (environment_at 0 w') w') "uuid" = VStr (numbered 5) ∧
     prop (heap w') (route_at 0 (environment_at 0 w') w') "uuid" = VStr (numbered 1) ∧
     route_key (heap w') 11%positive = (VStr "answer", VStr "get") ∧
     prop (heap w') (route_at 2 (environment_at 0 w') w') "endpoint" = VStr "answer" ∧
     prop (heap w') (route_at 2 (environment_at 0 w') w') "method" = VStr "get" ∧
     prop (heap w') (route_at 2 (environment_at 0 w') w') "customHeaders"
     ≠ prop (heap w') (route_at 0 (environment_at 0 w') w') "customHeaders" ∧
     header_uuids (heap w') (route_at 2 (environment_at 0 w') w')
     = header_uuids (heap w') (route_at 0 (environment_at 0 w') w') ∧
     duplicates_of (heap w') (route_at 2 (environment_at 0 w') w') = Some [] ∧
     routesTotal w' = 3%Z).
Proof. apply (bool_decide_unpack _). by vm_compute. Qed.

(** ** [addRoute] and [addEnvironment] *)

Lemma literal_one_union k (v : val) (m : gmap string val) :
  literal [(k, v)] ∪ m = <[k := v]> m.
Proof.
  unfold literal. simpl. rewrite <- insert_union_l. by rewrite (left_id_L ∅ (∪)).
Qed.

Lemma fresh_insert_ne (h : gmap loc object) l o : fresh (dom (<[l := o]> h)) ≠ l.
Proof.
  intros Heq. apply (is_fresh (dom (<[l := o]> h))). rewrite Heq, dom_insert_L.
  by apply elem_of_union_l, elem_of_singleton.
Qed.

Lemma fresh_ne_old (h : gmap loc object) l : l ∈ dom h → fresh (dom h) ≠ l.
Proof. intros Hl Heq. apply (is_fresh (dom h)). by rewrite Heq. Qed.

Lemma prop_obj_at h l m k : obj_at h l = Some m → prop h (VRef l) k = default VUndefined (m !! k).
Proof. intros H. unfold prop. by rewrite H. Qed.

(** [addRoute] step by step: the header, the array that holds it and
    the route are three new objects, and the heap is the one of before
    with them and with the route at the end of the routes. *)
Lemma addRoute_appends w environment cb hs mh rs mr a items :
  customHeadersSchema w = VRef hs →
  obj_at (heap w) hs = Some mh →
  routeSchema w = VRef rs →
  obj_at (heap w) rs = Some mr →
  prop (heap w) environment "routes" = VRef a →
  arr_at (heap w) a = Some items →
  ∃ h ha r w',
    addRoute environment cb w = Returned (Z.of_nat (length items)) w' ∧
    same_service
      (add_event (UpdateEvent environment cb)
         (set_routesTotal (routesTotal w + 1) (set_uuid_calls (S (uuid_calls w)) w))) w' ∧
    NoDup [h; ha; r] ∧
    (∀ l, l ∈ [h; ha; r] → l ∉ dom (heap w)) ∧
    heap w'
    = <[a := OArr (items ++ [VRef r])]>
        (<[r := OObj (<["customHeaders" := VRef ha]> mr)]>
           (<[ha := OArr [VRef h]]>
              (<[h := OObj (<["uuid" := VStr (uuid_source w (uuid_calls w))]> mh)]>
                 (heap w)))).
Proof.
  intros Hhs Hmh Hrs Hmr Hr Ha.
  set (w1 := set_uuid_calls (S (uuid_calls w)) w).
  set (h := fresh (dom (heap w1))).
  set (w2 := set_heap <[h := OObj (<["uuid" := VStr (uuid_source w (uuid_calls w))]> mh)]> w1).
  set (ha := fresh (dom (heap w2))).
  set (w3 := set_heap <[ha := OArr [VRef h]]> w2).
  set (r := fresh (dom (heap w3))).
  set (w4 := set_heap <[r := OObj (<["customHeaders" := VRef ha]> mr)]> w3).
  assert (heap w ⊆ heap w2) as Hsub2 by apply insert_fresh_subseteq.
  assert (heap w2 ⊆ heap w3) as Hsub3 by apply insert_fresh_subseteq.
  assert (heap w3 ⊆ heap w4) as Hsub4 by apply insert_fresh_subseteq.
  assert (heap w ⊆ heap w3) as Hsub3' by (by etrans).
  assert (heap w ⊆ heap w4) as Hsub4' by (by etrans).
  assert (h ∈ dom (heap w2)) as Hh2.
  { simpl. rewrite dom_insert_L. by apply elem_of_union_l, elem_of_singleton. }
  assert (ha ∈ dom (heap w3)) as Hha3.
  { simpl. rewrite dom_insert_L. by apply elem_of_union_l, elem_of_singleton. }
  assert (h ∈ dom (heap w3)) as Hh3 by (by apply (subseteq_dom _ _ Hsub3)).
  destruct (prop_ref_inv _ _ _ _ Hr) as (le & me & -> & Hme).
  exists h, ha, r, (add_event (UpdateEvent (VRef le) cb)
                      (set_routesTotal (routesTotal w + 1)
                         (set_heap <[a := OArr (items ++ [VRef r])]> w4))).
  split.
  { unfold addRoute.
    erewrite bind_returned by reflexivity. rewrite Hhs.
    erewrite bind_returned by reflexivity.
    unfold Object_assign.
    erewrite bind_returned.
    2:{ erewrite bind_returned by exact (own_fields_object hs mh w1 Hmh).
        rewrite literal_one_union. reflexivity. }
    erewrite bind_returned by reflexivity.
    erewrite bind_returned by reflexivity. simpl routeSchema. rewrite Hrs.
    erewrite bind_returned.
    2:{ erewrite bind_returned
          by exact (own_fields_object rs mr w3 (obj_at_weaken _ _ _ _ Hsub3' Hmr)).
        rewrite literal_one_union. reflexivity. }
    erewrite bind_returned.
    2:{ apply (get_prop_ref (VRef le) "routes" a w4). unfold prop in *.
        rewrite (obj_at_weaken _ _ _ _ Hsub4' Hme). by rewrite Hme in Hr. }
    erewrite bind_returned
      by exact (push_array a items _ w4 (arr_at_weaken _ _ _ _ Hsub4' Ha)).
    erewrite bind_returned by reflexivity.
    erewrite bind_returned by reflexivity.
    unfold mret, M_ret. f_equal.
    rewrite length_app. simpl. lia. }
  split; [done|].
  split.
  { apply NoDup_cons. split.
    - intros [Heq|[Heq|Heq%elem_of_nil]%elem_of_cons]%elem_of_cons.
      + symmetry in Heq. by apply (fresh_ne_old _ _ Hh2) in Heq.
      + symmetry in Heq. by apply (fresh_ne_old _ _ Hh3) in Heq.
      + done.
    - apply NoDup_cons. split; [|apply NoDup_singleton].
      intros Heq%list_elem_of_singleton.
      symmetry in Heq. by apply (fresh_ne_old _ _ Hha3) in Heq. }
  split; [|done].
  intros l [->|[->|Hl]%elem_of_cons]%elem_of_cons.
  - apply is_fresh.
  - by apply fresh_not_in_sub.
  - apply list_elem_of_singleton in Hl as ->. by apply fresh_not_in_sub.
Qed.

(** [addEnvironment] step by step: six new objects (the header, the
    array that holds it, the route, the array that holds it, the date
    and the environment), and the environment at the end of the
    collection. *)
Lemma addEnvironment_appends w cb hs mh rs mr es me a items :
  customHeadersSchema w = VRef hs →
  obj_at (heap w) hs = Some mh →
  routeSchema w = VRef rs →
  obj_at (heap w) rs = Some mr →
  environmentSchema w = VRef es →
  obj_at (heap w) es = Some me →
  environments w = VRef a →
  arr_at (heap w) a = Some items →
  ∃ h ha r ra dt e w',
    addEnvironment cb w = Returned (Z.of_nat (length items)) w' ∧
    same_service
      (add_event (UpdateEvent (VRef e) cb)
         (set_routesTotal (routesTotal w + 1)
            (set_uuid_calls (S (S (uuid_calls w))) w))) w' ∧
    NoDup [h; ha; r; ra; dt; e] ∧
    (∀ l, l ∈ [h; ha; r; ra; dt; e] → l ∉ dom (heap w)) ∧
    heap w'
    = <[a := OArr (items ++ [VRef e])]>
        (<[e := OObj (literal
                  [("uuid", VStr (uuid_source w (S (uuid_calls w))));
                   ("name", VStr "New environment"); ("port", VNum 3000);
                   ("routes", VRef ra); ("modifiedAt", VRef dt)] ∪ me)]>
           (<[dt := ODate (clock w)]>
              (<[ra := OArr [VRef r]]>
                 (<[r := OObj (<["customHeaders" := VRef ha]> mr)]>
                    (<[ha := OArr [VRef h]]>
                       (<[h := OObj (<["uuid" := VStr (uuid_source w (uuid_calls w))]> mh)]>
                          (heap w))))))).
Proof.
  intros Hhs Hmh Hrs Hmr Hes Hme Henv Ha.
  set (w1 := set_uuid_calls (S (uuid_calls w)) w).
  set (h := fresh (dom (heap w1))).
  set (w2 := set_heap <[h := OObj (<["uuid" := VStr (uuid_source w (uuid_calls w))]> mh)]> w1).
  set (ha := fresh (dom (heap w2))).
  set (w3 := set_heap <[ha := OArr [VRef h]]> w2).
  set (r := fresh (dom (heap w3))).
  set (w4 := set_heap <[r := OObj (<["customHeaders" := VRef ha]> mr)]> w3).
  set (w5 := set_uuid_calls (S (S (uuid_calls w))) w4).
  set (ra := fresh (dom (heap w5))).
  set (w6 := set_heap <[ra := OArr [VRef r]]> w5).
  set (dt := fresh (dom (heap w6))).
  set (w7 := set_heap <[dt := ODate (clock w)]> w6).
  set (kvs := [("uuid", VStr (uuid_source w (S (uuid_calls w))));
               ("name", VStr "New environment"); ("port", VNum 3000);
               ("routes", VRef ra); ("modifiedAt", VRef dt)]).
  set (e := fresh (dom (heap w7))).
  set (w8 := set_heap <[e := OObj (literal kvs ∪ me)]> w7).
  assert (heap w ⊆ heap w2) as Hsub2 by apply insert_fresh_subseteq.
  assert (heap w2 ⊆ heap w3) as Hsub3 by apply insert_fresh_subseteq.
  assert (heap w3 ⊆ heap w4) as Hsub4 by apply insert_fresh_subseteq.
  assert (heap w4 ⊆ heap w6) as Hsub6 by apply (insert_fresh_subseteq (heap w5)).
  assert (heap w6 ⊆ heap w7) as Hsub7 by apply insert_fresh_subseteq.
  assert (heap w7 ⊆ heap w8) as Hsub8 by apply insert_fresh_subseteq.
  assert (heap w ⊆ heap w3) as Hsub3' by (by etrans).
  assert (heap w ⊆ heap w4) as Hsub4' by (by etrans).
  assert (heap w ⊆ heap w6) as Hsub6' by (by etrans).
  assert (heap w ⊆ heap w7) as Hsub7' by (by etrans).
  assert (heap w ⊆ heap w8) as Hsub8' by (by etrans).
  assert (∀ (g : gmap loc object) l o, l ∈ dom (<[l := o]> g)) as Hin.
  { intros g l o. rewrite dom_insert_L. by apply elem_of_union_l, elem_of_singleton. }
  assert (h ∈ dom (heap w2)) as Hh2 by apply Hin.
  assert (ha ∈ dom (heap w3)) as Hha3 by apply Hin.
  assert (r ∈ dom (heap w4)) as Hr4 by apply Hin.
  assert (ra ∈ dom (heap w6)) as Hra6 by apply Hin.
  assert (dt ∈ dom (heap w7)) as Hdt7 by apply Hin.
  pose proof (subseteq_dom _ _ Hsub3) as Hd3.
  pose proof (subseteq_dom _ _ Hsub4) as Hd4.
  pose proof (subseteq_dom _ _ Hsub6) as Hd6.
  pose proof (subseteq_dom _ _ Hsub7) as Hd7.
  exists h, ha, r, ra, dt, e,
    (add_event (UpdateEvent (VRef e) cb)
       (set_heap <[a := OArr (items ++ [VRef e])]>
          (set_routesTotal (routesTotal w + 1) w8))).
  split.
  { unfold addEnvironment.
    erewrite bind_returned by reflexivity. rewrite Hhs.
    erewrite bind_returned by reflexivity.
    unfold Object_assign.
    erewrite bind_returned.
    2:{ erewrite bind_returned by exact (own_fields_object hs mh w1 Hmh).
        rewrite literal_one_union. reflexivity. }
    erewrite bind_returned by reflexivity.
    erewrite bind_returned by reflexivity. simpl routeSchema. rewrite Hrs.
    erewrite bind_returned.
    2:{ erewrite bind_returned
          by exact (own_fields_object rs mr w3 (obj_at_weaken _ _ _ _ Hsub3' Hmr)).
        rewrite literal_one_union. reflexivity. }
    erewrite bind_returned by reflexivity. simpl environmentSchema. rewrite Hes.
    erewrite bind_returned by reflexivity.
    erewrite bind_returned by reflexivity.
    erewrite bind_returned by reflexivity.
    erewrite bind_returned.
    2:{ erewrite bind_returned
          by exact (own_fields_object es me w7 (obj_at_weaken _ _ _ _ Hsub7' Hme)).
        reflexivity. }
    erewrite bind_returned by reflexivity.
    erewrite bind_returned by reflexivity. simpl environments. rewrite Henv.
    erewrite bind_returned.
    2:{ apply (push_array a items). simpl heap.
        exact (arr_at_weaken _ _ _ _ Hsub8' Ha). }
    erewrite bind_returned by reflexivity.
    unfold mret, M_ret. f_equal.
    rewrite length_app. simpl. lia. }
  split; [done|].
  split.
  { repeat (apply NoDup_cons; split); [..|apply NoDup_nil];
      rewrite ?not_elem_of_cons; repeat split; try apply not_elem_of_nil;
      intros Heq; symmetry in Heq; revert Heq; apply fresh_ne_old; auto. }
  split; [|done].
  intros l Hl. repeat (apply elem_of_cons in Hl as [->|Hl]);
    [..|by apply elem_of_nil in Hl]; by apply fresh_not_in_sub.
Qed.

Ltac lookup_inserted :=
  repeat (rewrite lookup_insert_ne by done); rewrite ?lookup_insert_eq.

Ltac in_list := repeat first [apply list_elem_of_here | apply list_elem_of_further].

(** X11. [addRoute(environment, callback)], for an environment whose
    routes are objects and a service whose schemas are objects: a new
    route [r] is appended at the end of the routes and its index
    returned.  The route has the properties of [routeSchema] as they
    are, but for [customHeaders]: so its [uuid] is the one of the schema
    (no UUID is generated for it) and its [duplicates] is the very array
    of the schema.  Its [customHeaders] is a new array of one new
    header, which has the properties of [customHeadersSchema] but for a
    [uuid] generated by the call.  Every object of before other than
    the array of routes is as it was (the duplicates of the routes are
    not recomputed); one UUID has been generated, the counter of routes
    is one more and the update event is emitted. *)
Theorem addRoute_appends_schema_route w environment cb hs mh rs mr ls :
  customHeadersSchema w = VRef hs →
  obj_at (heap w) hs = Some mh →
  routeSchema w = VRef rs →
  obj_at (heap w) rs = Some mr →
  routes_of (heap w) environment = Some ls →
  ∃ w' r ha h,
    addRoute environment cb w = Returned (Z.of_nat (length ls)) w' ∧
    routes_of (heap w') environment = Some (ls ++ [r]) ∧
    (r ∉ dom (heap w)) ∧ (ha ∉ dom (heap w)) ∧ (h ∉ dom (heap w)) ∧
    (∀ k, k ≠ "customHeaders" → prop (heap w') (VRef r) k = prop (heap w) (VRef rs) k) ∧
    prop (heap w') (VRef r) "customHeaders" = VRef ha ∧
    arr_at (heap w') ha = Some [VRef h] ∧
    prop (heap w') (VRef h) "uuid" = VStr (uuid_source w (uuid_calls w)) ∧
    (∀ k, k ≠ "uuid" → prop (heap w') (VRef h) k = prop (heap w) (VRef hs) k) ∧
    (∀ l o, heap w !! l = Some o → prop (heap w) environment "routes" ≠ VRef l →
       heap w' !! l = Some o) ∧
    uuid_calls w' = S (uuid_calls w) ∧
    routesTotal w' = (routesTotal w + 1)%Z ∧
    updateEvents w' = updateEvents w ++ [UpdateEvent environment cb].
Proof.
  intros Hhs Hmh Hrs Hmr
    (items & (a & Hr & Ha)%items_of_Some & [-> Hobjs]%objects_of_Some)%routes_of_Some.
  destruct (addRoute_appends w environment cb hs mh rs mr a _ Hhs Hmh Hrs Hmr Hr Ha)
    as (h & ha & r & w' & Hrun & Hs & Hnd & Hfresh & Hheap).
  apply same_service_fields in Hs as (_ & Hrt & Hu & _ & _ & Hev & _).
  assert (h ∉ dom (heap w)) as Hh by (apply Hfresh; in_list).
  assert (ha ∉ dom (heap w)) as Hha by (apply Hfresh; in_list).
  assert (r ∉ dom (heap w)) as Hrf by (apply Hfresh; in_list).
  assert (a ∈ dom (heap w)) as Hadom by (by eapply arr_at_dom).
  assert (a ≠ h ∧ a ≠ ha ∧ a ≠ r) as (Hah & Haha & Har).
  { repeat split; intros <-; done. }
  assert (h ≠ ha ∧ h ≠ r ∧ ha ≠ r) as (Hhha & Hhr & Hhar).
  { pose proof (NoDup_cons_1_1 _ _ Hnd) as H1.
    pose proof (NoDup_cons_1_1 _ _ (NoDup_cons_1_2 _ _ Hnd)) as H2.
    apply not_elem_of_cons in H1 as [? [? _]%not_elem_of_cons].
    apply not_elem_of_cons in H2 as [? _]. done. }
  assert (∀ l o, heap w !! l = Some o → l ≠ a → heap w' !! l = Some o) as Hold.
  { intros l o Hl Hne. rewrite Hheap.
    assert (l ∈ dom (heap w)) as Hdom by (apply elem_of_dom; eauto).
    assert (l ≠ h ∧ l ≠ ha ∧ l ≠ r) as (? & ? & ?) by (repeat split; intros ->; done).
    by lookup_inserted. }
  assert (heap w' !! r = Some (OObj (<["customHeaders" := VRef ha]> mr))) as Hr'.
  { rewrite Hheap. by lookup_inserted. }
  assert (heap w' !! ha = Some (OArr [VRef h])) as Hha'.
  { rewrite Hheap. by lookup_inserted. }
  assert (heap w' !! h
          = Some (OObj (<["uuid" := VStr (uuid_source w (uuid_calls w))]> mh))) as Hh'.
  { rewrite Hheap. by lookup_inserted. }
  assert (∀ l m, obj_at (heap w) l = Some m → obj_at (heap w') l = Some m) as Hobj.
  { intros l m Hm. unfold obj_at. rewrite (Hold l (OObj m)); [done|by apply obj_at_lookup|].
    intros ->. apply obj_at_lookup in Hm. apply arr_at_lookup in Ha. congruence. }
  exists w', r, ha, h.
  split; [by rewrite length_fmap in Hrun|].
  split.
  { apply routes_of_Some. exists ((VRef <$> ls) ++ [VRef r]). split.
    - apply items_of_Some. exists a. split.
      + destruct (prop_ref_inv _ _ _ _ Hr) as (le & me & -> & Hme).
        rewrite (prop_obj_at _ _ _ _ (Hobj _ _ Hme)).
        by rewrite (prop_obj_at _ _ _ _ Hme) in Hr.
      + unfold arr_at. rewrite Hheap. by lookup_inserted.
    - apply objects_of_Some. split; [by rewrite fmap_app|].
      apply Forall_app. split.
      + eapply Forall_impl; [exact Hobjs|]. intros l [m Hm]. exists m. by apply Hobj.
      + apply Forall_singleton. unfold obj_at. rewrite Hr'. eauto. }
  split; [done|]. split; [done|]. split; [done|].
  split.
  { intros k Hk. unfold prop, obj_at at 1. rewrite Hr', Hmr.
    by rewrite lookup_insert_ne by done. }
  split; [unfold prop, obj_at; rewrite Hr'; by rewrite lookup_insert_eq|].
  split; [unfold arr_at; by rewrite Hha'|].
  split; [unfold prop, obj_at; rewrite Hh'; by rewrite lookup_insert_eq|].
  split.
  { intros k Hk. unfold prop, obj_at at 1. rewrite Hh', Hmh.
    by rewrite lookup_insert_ne by done. }
  split.
  { intros l o Hl Hne. apply Hold; [done|]. intros ->. by apply Hne. }
  split; [by rewrite Hu|]. split; [by rewrite Hrt|]. by rewrite Hev.
Qed.

Lemma addRoute_appends_schema_route_witness :
  let w := started in
  let environment := environment_at 0 w in
  let hs := 7%positive in
  let rs := 6%positive in
  let mh := fields_of (heap w) (VRef hs) in
  let mr := fields_of (heap w) (VRef rs) in
  let ls := [11; 14]%positive in
  customHeadersSchema w = VRef hs ∧
  obj_at (heap w) hs = Some mh ∧
  routeSchema w = VRef rs ∧
  obj_at (heap w) rs = Some mr ∧
  routes_of (heap w) environment = Some ls ∧
  ∃ w' r ha h,
    addRoute environment (Some 3) w = Returned (Z.of_nat (length ls)) w' ∧
    routes_of (heap w') environment = Some (ls ++ [r]) ∧
    (r ∉ dom (heap w)) ∧ (ha ∉ dom (heap w)) ∧ (h ∉ dom (heap w)) ∧
    (∀ k, k ≠ "customHeaders" → prop (heap w') (VRef r) k = prop (heap w) (VRef rs) k) ∧
    prop (heap w') (VRef r) "customHeaders" = VRef ha ∧
    arr_at (heap w') ha = Some [VRef h] ∧
    prop (heap w') (VRef h) "uuid" = VStr (uuid_source w (uuid_calls w)) ∧
    (∀ k, k ≠ "uuid" → prop (heap w') (VRef h) k = prop (heap w) (VRef hs) k) ∧
    (∀ l o, heap w !! l = Some o → prop (heap w) environment "routes" ≠ VRef l →
       heap w' !! l = Some o) ∧
    uuid_calls w' = S (uuid_calls w) ∧
    routesTotal w' = (routesTotal w + 1)%Z ∧
    updateEvents w' = updateEvents w ++ [UpdateEvent environment (Some 3)].
Proof.
  intros w environment hs rs mh mr ls.
  assert (customHeadersSchema w = VRef hs) as H1 by (by vm_compute).
  assert (obj_at (heap w) hs = Some mh) as H2.
  { apply fields_of_obj_at. apply (bool_decide_unpack _). by vm_compute. }
  assert (routeSchema w = VRef rs) as H3 by (by vm_compute).
  assert (obj_at (heap w) rs = Some mr) as H4.
  { apply fields_of_obj_at. apply (bool_decide_unpack _). by vm_compute. }
  assert (routes_of (heap w) environment = Some ls) as H5 by (by vm_compute).
  split; [exact H1|]. split; [exact H2|]. split; [exact H3|]. split; [exact H4|].
  split; [exact H5|].
  exact (addRoute_appends_schema_route w environment (Some 3) hs mh rs mr ls H1 H2 H3 H4 H5).
Defined.

(** X12. [addEnvironment(callback)], for a collection of objects and a
    service whose schemas are objects: a new environment [e] is appended
    at the end of the collection and its index returned.  It has a
    [uuid] generated by the call (the second one: the first goes to the
    header), the name "New environment", the port 3000, a date in
    [modifiedAt] and the other properties of [environmentSchema] as they
    are (so its [duplicates] is the very array of the schema).  Its
    routes are one new route, which has the properties of [routeSchema]
    as they are but for [customHeaders], a new array of one new header
    with a [uuid] generated by the call.  Every object of before other
    than the array of the collection is as it was (the duplicates of
    the environments are not recomputed, whatever their ports); two
    UUIDs have been generated, the counter of routes is one more and the
    update event carries the new environment. *)
Theorem addEnvironment_appends_schema_environment w cb hs mh rs mr es me envs :
  customHeadersSchema w = VRef hs →
  obj_at (heap w) hs = Some mh →
  routeSchema w = VRef rs →
  obj_at (heap w) rs = Some mr →
  environmentSchema w = VRef es →
  obj_at (heap w) es = Some me →
  collection_of w = Some envs →
  ∃ w' e r ha h dt,
    addEnvironment cb w = Returned (Z.of_nat (length envs)) w' ∧
    collection_of w' = Some (envs ++ [e]) ∧
    (∀ l, l ∈ [e; r; ha; h; dt] → l ∉ dom (heap w)) ∧
    prop (heap w') (VRef e) "uuid" = VStr (uuid_source w (S (uuid_calls w))) ∧
    prop (heap w') (VRef e) "name" = VStr "New environment" ∧
    prop (heap w') (VRef e) "port" = VNum 3000 ∧
    prop (heap w') (VRef e) "modifiedAt" = VRef dt ∧
    heap w' !! dt = Some (ODate (clock w)) ∧
    (∀ k, k ∉ ["uuid"; "name"; "port"; "routes"; "modifiedAt"] →
       prop (heap w') (VRef e) k = prop (heap w) (VRef es) k) ∧
    routes_of (heap w') (VRef e) = Some [r] ∧
    (∀ k, k ≠ "customHeaders" → prop (heap w') (VRef r) k = prop (heap w) (VRef rs) k) ∧
    prop (heap w') (VRef r) "customHeaders" = VRef ha ∧
    arr_at (heap w') ha = Some [VRef h] ∧
    prop (heap w') (VRef h) "uuid" = VStr (uuid_source w (uuid_calls w)) ∧
    (∀ k, k ≠ "uuid" → prop (heap w') (VRef h) k = prop (heap w) (VRef hs) k) ∧
    (∀ l o, heap w !! l = Some o → environments w ≠ VRef l → heap w' !! l = Some o) ∧
    uuid_calls w' = S (S (uuid_calls w)) ∧
    routesTotal w' = (routesTotal w + 1)%Z ∧
    updateEvents w' = updateEvents w ++ [UpdateEvent (VRef e) cb].
Proof.
  intros Hhs Hmh Hrs Hmr Hes Hme (a & Henv & Ha & Hobjs)%collection_of_Some.
  destruct (addEnvironment_appends w cb hs mh rs mr es me a _
              Hhs Hmh Hrs Hmr Hes Hme Henv Ha)
    as (h & ha & r & ra & dt & e & w' & Hrun & Hs & Hnd & Hfresh & Hheap).
  apply same_service_fields in Hs as (Henv' & Hrt & Hu & _ & _ & Hev & _).
  assert (a ∈ dom (heap w)) as Hadom by (by eapply arr_at_dom).
  assert (∀ l, l ∈ [h; ha; r; ra; dt; e] → a ≠ l) as Hane.
  { intros l Hl <-. by apply (Hfresh a). }
  assert (a ≠ h ∧ a ≠ ha ∧ a ≠ r ∧ a ≠ ra ∧ a ≠ dt ∧ a ≠ e)
    as (Hah & Haha & Har & Hara & Hadt & Hae).
  { repeat split; apply Hane; in_list. }
  assert (h ≠ ha ∧ h ≠ r ∧ h ≠ ra ∧ h ≠ dt ∧ h ≠ e ∧ ha ≠ r ∧ ha ≠ ra ∧ ha ≠ dt ∧ ha ≠ e ∧
          r ≠ ra ∧ r ≠ dt ∧ r ≠ e ∧ ra ≠ dt ∧ ra ≠ e ∧ dt ≠ e)
    as (? & ? & ? & ? & ? & ? & ? & ? & ? & ? & ? & ? & ? & ? & ?).
  { pose proof (NoDup_cons_1_1 _ _ Hnd) as H1.
    pose proof (NoDup_cons_1_2 _ _ Hnd) as Hnd2.
    pose proof (NoDup_cons_1_1 _ _ Hnd2) as H2.
    pose proof (NoDup_cons_1_2 _ _ Hnd2) as Hnd3.
    pose proof (NoDup_cons_1_1 _ _ Hnd3) as H3.
    pose proof (NoDup_cons_1_2 _ _ Hnd3) as Hnd4.
    pose proof (NoDup_cons_1_1 _ _ Hnd4) as H4.
    pose proof (NoDup_cons_1_2 _ _ Hnd4) as Hnd5.
    pose proof (NoDup_cons_1_1 _ _ Hnd5) as H5.
    repeat (apply not_elem_of_cons in H1 as [? H1]).
    repeat (apply not_elem_of_cons in H2 as [? H2]).
    repeat (apply not_elem_of_cons in H3 as [? H3]).
    repeat (apply not_elem_of_cons in H4 as [? H4]).
    repeat (apply not_elem_of_cons in H5 as [? H5]).
    done. }
  assert (∀ l o, heap w !! l = Some o → l ≠ a → heap w' !! l = Some o) as Hold.
  { intros l o Hl Hne. rewrite Hheap.
    assert (l ∈ dom (heap w)) as Hdom by (apply elem_of_dom; eauto).
    assert (∀ l', l' ∈ [h; ha; r; ra; dt; e] → l ≠ l') as Hl'.
    { intros l' Hin <-. by apply (Hfresh l). }
    assert (l ≠ h ∧ l ≠ ha ∧ l ≠ r ∧ l ≠ ra ∧ l ≠ dt ∧ l ≠ e) as (? & ? & ? & ? & ? & ?).
    { repeat split; apply Hl'; in_list. }
    by lookup_inserted. }
  set (kvs := [("uuid", VStr (uuid_source w (S (uuid_calls w))));
               ("name", VStr "New environment"); ("port", VNum 3000);
               ("routes", VRef ra); ("modifiedAt", VRef dt)]) in *.
  assert (obj_at (heap w') e = Some (literal kvs ∪ me)) as He'.
  { unfold obj_at. rewrite Hheap. by lookup_inserted. }
  assert (obj_at (heap w') r = Some (<["customHeaders" := VRef ha]> mr)) as Hr'.
  { unfold obj_at. rewrite Hheap. by lookup_inserted. }
  assert (obj_at (heap w') h
          = Some (<["uuid" := VStr (uuid_source w (uuid_calls w))]> mh)) as Hh'.
  { unfold obj_at. rewrite Hheap. by lookup_inserted. }
  assert (arr_at (heap w') ha = Some [VRef h]) as Hha'.
  { unfold arr_at. rewrite Hheap. by lookup_inserted. }
  assert (arr_at (heap w') ra = Some [VRef r]) as Hra'.
  { unfold arr_at. rewrite Hheap. by lookup_inserted. }
  assert (∀ k x, assoc k kvs = Some x → prop (heap w') (VRef e) k = x) as Hlit.
  { intros k x Hk. rewrite (prop_obj_at _ _ _ _ He').
    by rewrite (lookup_union_Some_l _ _ _ x) by (by rewrite literal_lookup). }
  assert (∀ l m, obj_at (heap w) l = Some m → obj_at (heap w') l = Some m) as Hobj.
  { intros l m Hm. unfold obj_at. rewrite (Hold l (OObj m)); [done|by apply obj_at_lookup|].
    intros ->. apply obj_at_lookup in Hm. apply arr_at_lookup in Ha. congruence. }
  exists w', e, r, ha, h, dt.
  split; [by rewrite length_fmap in Hrun|].
  split.
  { apply collection_of_Some. exists a. split; [by rewrite Henv'|]. split.
    - unfold arr_at. rewrite Hheap. lookup_inserted. by rewrite fmap_app.
    - apply Forall_app. split.
      + eapply Forall_impl; [exact Hobjs|]. intros l [m Hm]. exists m. by apply Hobj.
      + apply Forall_singleton. rewrite He'. eauto. }
  split.
  { intros l Hl. apply Hfresh.
    repeat (apply elem_of_cons in Hl as [-> | Hl]); [in_list..|by apply elem_of_nil in Hl]. }
  split; [by apply Hlit|]. split; [by apply Hlit|]. split; [by apply Hlit|].
  split; [by apply Hlit|].
  split; [rewrite Hheap; by lookup_inserted|].
  split.
  { intros k Hk. rewrite (prop_obj_at _ _ _ _ He'), (prop_obj_at _ _ _ _ Hme).
    rewrite lookup_union_r; [done|]. rewrite literal_lookup.
    repeat (apply not_elem_of_cons in Hk as [? Hk]).
    simpl. by repeat (rewrite decide_False by done). }
  split.
  { apply routes_of_Some. exists [VRef r]. split.
    - apply items_of_Some. exists ra. split; [by apply Hlit|done].
    - apply objects_of_Some. split; [done|]. apply Forall_singleton. rewrite Hr'. eauto. }
  split.
  { intros k Hk. rewrite (prop_obj_at _ _ _ _ Hr'), (prop_obj_at _ _ _ _ Hmr).
    by rewrite lookup_insert_ne by done. }
  split; [rewrite (prop_obj_at _ _ _ _ Hr'); by rewrite lookup_insert_eq|].
  split; [done|].
  split; [rewrite (prop_obj_at _ _ _ _ Hh'); by rewrite lookup_insert_eq|].
  split.
  { intros k Hk. rewrite (prop_obj_at _ _ _ _ Hh'), (prop_obj_at _ _ _ _ Hmh).
    by rewrite lookup_insert_ne by done. }
  split.
  { intros l o Hl Hne. apply Hold; [done|]. intros ->. by apply Hne. }
  split; [by rewrite Hu|]. split; [by rewrite Hrt|]. by rewrite Hev.
Qed.

Lemma addEnvironment_appends_schema_environment_witness :
  let w := started in
  let hs := 7%positive in
  let rs := 6%positive in
  let es := 3%positive in
  let mh := fields_of (heap w) (VRef hs) in
  let mr := fields_of (heap w) (VRef rs) in
  let me := fields_of (heap w) (VRef es) in
  let envs := [8%positive] in
  customHeadersSchema w = VRef hs ∧
  obj_at (heap w) hs = Some mh ∧
  routeSchema w = VRef rs ∧
  obj_at (heap w) rs = Some mr ∧
  environmentSchema w = VRef es ∧
  obj_at (heap w) es = Some me ∧
  collection_of w = Some envs ∧
  ∃ w' e r ha h dt,
    addEnvironment (Some 2) w = Returned (Z.of_nat (length envs)) w' ∧
    collection_of w' = Some (envs ++ [e]) ∧
    (∀ l, l ∈ [e; r; ha; h; dt] → l ∉ dom (heap w)) ∧
    prop (heap w') (VRef e) "uuid" = VStr (uuid_source w (S (uuid_calls w))) ∧
    prop (heap w') (VRef e) "name" = VStr "New environment" ∧
    prop (heap w') (VRef e) "port" = VNum 3000 ∧
    prop (heap w') (VRef e) "modifiedAt" = VRef dt ∧
    heap w' !! dt = Some (ODate (clock w)) ∧
    (∀ k, k ∉ ["uuid"; "name"; "port"; "routes"; "modifiedAt"] →
       prop (heap w') (VRef e) k = prop (heap w) (VRef es) k) ∧
    routes_of (heap w') (VRef e) = Some [r] ∧
    (∀ k, k ≠ "customHeaders" → prop (heap w') (VRef r) k = prop (heap w) (VRef rs) k) ∧
    prop (heap w') (VRef r) "customHeaders" = VRef ha ∧
    arr_at (heap w') ha = Some [VRef h] ∧
    prop (heap w') (VRef h) "uuid" = VStr (uuid_source w (uuid_calls w)) ∧
    (∀ k, k ≠ "uuid" → prop (heap w') (VRef h) k = prop (heap w) (VRef hs) k) ∧
    (∀ l o, heap w !! l = Some o → environments w ≠ VRef l → heap w' !! l = Some o) ∧
    uuid_calls w' = S (S (uuid_calls w)) ∧
    routesTotal w' = (routesTotal w + 1)%Z ∧
    updateEvents w' = updateEvents w ++ [UpdateEvent (VRef e) (Some 2)].
Proof.
  intros w hs rs es mh mr me envs.
  assert (customHeadersSchema w = VRef hs) as H1 by (by vm_compute).
  assert (obj_at (heap w) hs = Some mh) as H2.
  { apply fields_of_obj_at. apply (bool_decide_unpack _). by vm_compute. }
  assert (routeSchema w = VRef rs) as H3 by (by vm_compute).
  assert (obj_at (heap w) rs = Some mr) as H4.
  { apply fields_of_obj_at. apply (bool_decide_unpack _). by vm_compute. }
  assert (environmentSchema w = VRef es) as H5 by (by vm_compute).
  assert (obj_at (heap w) es = Some me) as H6.
  { apply fields_of_obj_at. apply (bool_decide_unpack _). by vm_compute. }
  assert (collection_of w = Some envs) as H7 by (by vm_compute).
  split; [exact H1|]. split; [exact H2|]. split; [exact H3|]. split; [exact H4|].
  split; [exact H5|]. split; [exact H6|]. split; [exact H7|].
  exact (addEnvironment_appends_schema_environment w (Some 2) hs mh rs mr es me envs
           H1 H2 H3 H4 H5 H6 H7).
Defined.

(** ** Adding, then removing what was added *)

(** The routes after [addRoute]. *)
Lemma addRoute_routes w environment cb hs mh rs mr ls :
  customHeadersSchema w = VRef hs →
  obj_at (heap w) hs = Some mh →
  routeSchema w = VRef rs →
  obj_at (heap w) rs = Some mr →
  routes_of (heap w) environment = Some ls →
  ∃ w1 r,
    addRoute environment cb w = Returned (Z.of_nat (length ls)) w1 ∧
    same_service
      (add_event (UpdateEvent environment cb)
         (set_routesTotal (routesTotal w + 1) (set_uuid_calls (S (uuid_calls w)) w))) w1 ∧
    (r ∉ dom (heap w)) ∧
    routes_of (heap w1) environment = Some (ls ++ [r]) ∧
    (∀ l k, l ∈ ls → prop (heap w1) (VRef l) k = prop (heap w) (VRef l) k).
Proof.
  intros Hhs Hmh Hrs Hmr
    (items & (a & Hr & Ha)%items_of_Some & [-> Hobjs]%objects_of_Some)%routes_of_Some.
  destruct (addRoute_appends w environment cb hs mh rs mr a _ Hhs Hmh Hrs Hmr Hr Ha)
    as (h & ha & r & w' & Hrun & Hs & Hnd & Hfresh & Hheap).
  assert (h ∉ dom (heap w)) as Hh by (apply Hfresh; in_list).
  assert (ha ∉ dom (heap w)) as Hha by (apply Hfresh; in_list).
  assert (r ∉ dom (heap w)) as Hrf by (apply Hfresh; in_list).
  assert (a ∈ dom (heap w)) as Hadom by (by eapply arr_at_dom).
  assert (a ≠ h ∧ a ≠ ha ∧ a ≠ r) as (Hah & Haha & Har).
  { repeat split; intros <-; done. }
  assert (∀ l m, obj_at (heap w) l = Some m → obj_at (heap w') l = Some m) as Hobj.
  { intros l m Hm. unfold obj_at. rewrite Hheap.
    assert (l ∈ dom (heap w)) as Hdom by (by eapply obj_at_dom).
    assert (l ≠ h ∧ l ≠ ha ∧ l ≠ r) as (? & ? & ?) by (repeat split; intros ->; done).
    assert (l ≠ a).
    { intros ->. apply obj_at_lookup in Hm. apply arr_at_lookup in Ha. congruence. }
    lookup_inserted. by rewrite (obj_at_lookup _ _ _ Hm). }
  exists w', r.
  split; [by rewrite length_fmap in Hrun|]. split; [done|]. split; [done|].
  split.
  { apply routes_of_Some. exists ((VRef <$> ls) ++ [VRef r]). split.
    - apply items_of_Some. exists a. split.
      + destruct (prop_ref_inv _ _ _ _ Hr) as (le & me & -> & Hme).
        rewrite (prop_obj_at _ _ _ _ (Hobj _ _ Hme)).
        by rewrite (prop_obj_at _ _ _ _ Hme) in Hr.
      + unfold arr_at. rewrite Hheap. by lookup_inserted.
    - apply objects_of_Some. split; [by rewrite fmap_app|].
      apply Forall_app. split.
      + eapply Forall_impl; [exact Hobjs|]. intros l [m Hm]. exists m. by apply Hobj.
      + apply Forall_singleton. unfold obj_at. rewrite Hheap. lookup_inserted. eauto. }
  intros l k Hl. rewrite Forall_forall in Hobjs. destruct (Hobjs l Hl) as [m Hm].
  by rewrite (prop_obj_at _ _ _ _ Hm), (prop_obj_at _ _ _ _ (Hobj _ _ Hm)).
Qed.

Lemma delete_last {A} (xs : list A) (x : A) : delete (length xs) (xs ++ [x]) = xs.
Proof. induction xs as [|y xs IH]; simpl; [done|]. by rewrite IH. Qed.

Lemma routes_in_heap h environment ls l :
  routes_of h environment = Some ls → l ∈ ls → l ∈ dom h.
Proof.
  intros (items & _ & [-> Hobjs]%objects_of_Some)%routes_of_Some Hl.
  rewrite Forall_forall in Hobjs. destruct (Hobjs l Hl) as [m Hm]. by eapply obj_at_dom.
Qed.

(** X13. [addRoute] followed by [removeRoute] at the index it has
    returned, on an environment whose routes are distinct objects: the
    routes are those of before, in the same order, with their endpoint
    and method, and their [duplicates] recomputed; the counter of routes
    is the one of before.  One UUID has been generated and two update
    events emitted. *)
Theorem addRoute_then_removeRoute w environment cb cb' hs mh rs mr ls :
  customHeadersSchema w = VRef hs →
  obj_at (heap w) hs = Some mh →
  routeSchema w = VRef rs →
  obj_at (heap w) rs = Some mr →
  routes_of (heap w) environment = Some ls →
  NoDup ls →
  ∃ w',
    (index ← addRoute environment cb; removeRoute environment index cb') w
    = Returned tt w' ∧
    routes_of (heap w') environment = Some ls ∧
    routesTotal w' = routesTotal w ∧
    (∀ j r, ls !! j = Some r →
       route_key (heap w') r = route_key (heap w) r ∧
       ∃ d, duplicates_of (heap w') (VRef r) = Some d ∧
         ∀ k, k ∈ d ↔
           k ≠ j ∧ ∃ r', ls !! k = Some r' ∧ route_key (heap w) r' = route_key (heap w) r) ∧
    uuid_calls w' = S (uuid_calls w) ∧
    updateEvents w'
    = updateEvents w ++ [UpdateEvent environment cb; UpdateEvent environment cb'].
Proof.
  intros Hhs Hmh Hrs Hmr Hls Hnd.
  destruct (addRoute_routes w environment cb hs mh rs mr ls Hhs Hmh Hrs Hmr Hls)
    as (w1 & r & Hadd & Hs1 & Hr & Hls1 & Hprops).
  assert (NoDup (ls ++ [r])) as Hnd1.
  { apply NoDup_app. split; [done|]. split; [|apply NoDup_singleton].
    intros l Hl ->%list_elem_of_singleton. apply Hr. by eapply routes_in_heap. }
  destruct (removeRoute_splices w1 environment (ls ++ [r]) (Z.of_nat (length ls)) cb'
              Hls1 Hnd1) as (w2 & Hremove & Hs2 & Hls2 & Hdups & _).
  assert (splice_start (length (ls ++ [r])) (Z.of_nat (length ls)) = length ls) as Heq.
  { unfold splice_start. rewrite decide_False by lia. rewrite length_app. simpl. lia. }
  rewrite Heq, delete_last in Hls2, Hdups.
  assert (∀ l, l ∈ ls → route_key (heap w1) l = route_key (heap w) l) as Hkeys.
  { intros l Hl. unfold route_key. by rewrite !Hprops. }
  apply same_service_fields in Hs1 as (_ & Hrt1 & Hu1 & _ & _ & Hev1 & _).
  apply same_service_fields in Hs2 as (_ & Hrt2 & Hu2 & _ & _ & Hev2 & _).
  simpl in Hrt1, Hu1, Hev1, Hrt2, Hu2, Hev2.
  exists (add_event (UpdateEvent environment cb') w2).
  split; [by erewrite bind_returned by exact Hadd|].
  split; [done|].
  split; [simpl; rewrite Hrt2, Hrt1; lia|].
  split.
  { intros j l Hj. destruct (Hdups j l Hj) as (Hkey & d & Hd & _ & Hin).
    assert (l ∈ ls) as Hl by (by eapply list_elem_of_lookup_2).
    split; [simpl; by rewrite Hkey, Hkeys|].
    exists d. split; [done|]. intros k. rewrite Hin. rewrite (Hkeys l Hl).
    split; intros (Hne & l' & Hl' & Hk); (split; [done|]); exists l'; (split; [done|]).
    - rewrite <- Hkeys; [done|]. by eapply list_elem_of_lookup_2.
    - rewrite Hkeys; [done|]. by eapply list_elem_of_lookup_2. }
  split; [simpl; by rewrite Hu2, Hu1|].
  simpl. rewrite Hev2, Hev1. by rewrite <- app_assoc.
Qed.

Lemma addRoute_then_removeRoute_witness :
  let w := final (checkRoutesDuplicates (environment_at 0 five_routes) five_routes) in
  let environment := environment_at 0 w in
  let hs := 7%positive in
  let rs := 6%positive in
  let mh := fields_of (heap w) (VRef hs) in
  let mr := fields_of (heap w) (VRef rs) in
  ∃ ls,
  customHeadersSchema w = VRef hs ∧
  obj_at (heap w) hs = Some mh ∧
  routeSchema w = VRef rs ∧
  obj_at (heap w) rs = Some mr ∧
  routes_of (heap w) environment = Some ls ∧
  NoDup ls ∧
  ∃ w',
    (index ← addRoute environment None; removeRoute environment index (Some 1)) w
    = Returned tt w' ∧
    routes_of (heap w') environment = Some ls ∧
    routesTotal w' = routesTotal w ∧
    (∀ j r, ls !! j = Some r →
       route_key (heap w') r = route_key (heap w) r ∧
       ∃ d, duplicates_of (heap w') (VRef r) = Some d ∧
         ∀ k, k ∈ d ↔
           k ≠ j ∧ ∃ r', ls !! k = Some r' ∧ route_key (heap w) r' = route_key (heap w) r) ∧
    uuid_calls w' = S (uuid_calls w) ∧
    updateEvents w'
    = updateEvents w ++ [UpdateEvent environment None; UpdateEvent environment (Some 1)].
Proof.
  intros w environment hs rs mh mr.
  destruct (routes_of (heap w) environment) as [ls|] eqn:E; [|by vm_compute in E].
  exists ls.
  assert (customHeadersSchema w = VRef hs) as H1 by (by vm_compute).
  assert (obj_at (heap w) hs = Some mh) as H2.
  { apply fields_of_obj_at. apply (bool_decide_unpack _). by vm_compute. }
  assert (routeSchema w = VRef rs) as H3 by (by vm_compute).
  assert (obj_at (heap w) rs = Some mr) as H4.
  { apply fields_of_obj_at. apply (bool_decide_unpack _). by vm_compute. }
  assert (NoDup ls) as H6.
  { vm_compute in E. injection E as <-. by apply (bool_decide_unpack _). }
  split; [exact H1|]. split; [exact H2|]. split; [exact H3|]. split; [exact H4|].
  split; [done|]. split; [exact H6|].
  exact (addRoute_then_removeRoute w environment None (Some 1) hs mh rs mr ls
           H1 H2 H3 H4 E H6).
Defined.

(** The collection after [addEnvironment]. *)
Lemma addEnvironment_collection w cb hs mh rs mr es me a envs :
  customHeadersSchema w = VRef hs →
  obj_at (heap w) hs = Some mh →
  routeSchema w = VRef rs →
  obj_at (heap w) rs = Some mr →
  environmentSchema w = VRef es →
  obj_at (heap w) es = Some me →
  environments w = VRef a →
  arr_at (heap w) a = Some (VRef <$> envs) →
  Forall (λ l, is_Some (obj_at (heap w) l)) envs →
  ∃ w1 e,
    addEnvironment cb w = Returned (Z.of_nat (length envs)) w1 ∧
    same_service
      (add_event (UpdateEvent (VRef e) cb)
         (set_routesTotal (routesTotal w + 1)
            (set_uuid_calls (S (S (uuid_calls w))) w))) w1 ∧
    (e ∉ dom (heap w)) ∧
    arr_at (heap w1) a = Some (VRef <$> envs ++ [e]) ∧
    Forall (λ l, is_Some (obj_at (heap w1) l)) (envs ++ [e]) ∧
    (∀ l k, l ∈ envs → prop (heap w1) (VRef l) k = prop (heap w) (VRef l) k) ∧
    (∀ k, k ∉ ["uuid"; "name"; "port"; "routes"; "modifiedAt"] →
       prop (heap w1) (VRef e) k = prop (heap w) (VRef es) k) ∧
    prop (heap w1) (VRef e) "uuid" = VStr (uuid_source w (S (uuid_calls w))).
Proof.
  intros Hhs Hmh Hrs Hmr Hes Hme Henv Ha Hobjs.
  destruct (addEnvironment_appends w cb hs mh rs mr es me a _
              Hhs Hmh Hrs Hmr Hes Hme Henv Ha)
    as (h & ha & r & ra & dt & e & w' & Hrun & Hs & Hnd & Hfresh & Hheap).
  assert (a ∈ dom (heap w)) as Hadom by (by eapply arr_at_dom).
  assert (∀ l, l ∈ dom (heap w) →
               l ≠ h ∧ l ≠ ha ∧ l ≠ r ∧ l ≠ ra ∧ l ≠ dt ∧ l ≠ e) as Hne.
  { intros l Hl.
    assert (∀ l', l' ∈ [h; ha; r; ra; dt; e] → l ≠ l') as Hl'.
    { intros l' Hin <-. by apply (Hfresh l). }
    repeat split; apply Hl'; in_list. }
  destruct (Hne a Hadom) as (? & ? & ? & ? & ? & ?).
  assert (∀ l m, obj_at (heap w) l = Some m → obj_at (heap w') l = Some m) as Hobj.
  { intros l m Hm. unfold obj_at. rewrite Hheap.
    destruct (Hne l (obj_at_dom _ _ _ Hm)) as (? & ? & ? & ? & ? & ?).
    assert (l ≠ a).
    { intros ->. apply obj_at_lookup in Hm. apply arr_at_lookup in Ha. congruence. }
    lookup_inserted. by rewrite (obj_at_lookup _ _ _ Hm). }
  set (kvs := [("uuid", VStr (uuid_source w (S (uuid_calls w))));
               ("name", VStr "New environment"); ("port", VNum 3000);
               ("routes", VRef ra); ("modifiedAt", VRef dt)]) in *.
  assert (obj_at (heap w') e = Some (literal kvs ∪ me)) as He'.
  { unfold obj_at. rewrite Hheap. by lookup_inserted. }
  exists w', e.
  split; [by rewrite length_fmap in Hrun|]. split; [done|].
  split; [apply Hfresh; in_list|].
  split.
  { unfold arr_at. rewrite Hheap. lookup_inserted. by rewrite fmap_app. }
  split.
  { apply Forall_app. split.
    - eapply Forall_impl; [exact Hobjs|]. intros l [m Hm]. exists m. by apply Hobj.
    - apply Forall_singleton. rewrite He'. eauto. }
  split.
  { intros l k Hl. rewrite Forall_forall in Hobjs. destruct (Hobjs l Hl) as [m Hm].
    by rewrite (prop_obj_at _ _ _ _ Hm), (prop_obj_at _ _ _ _ (Hobj _ _ Hm)). }
  split.
  { intros k Hk. rewrite (prop_obj_at _ _ _ _ He'), (prop_obj_at _ _ _ _ Hme).
    rewrite lookup_union_r; [done|]. rewrite literal_lookup.
    repeat (apply not_elem_of_cons in Hk as [? Hk]).
    simpl. by repeat (rewrite decide_False by done). }
  rewrite (prop_obj_at _ _ _ _ He').
  by rewrite (lookup_union_Some_l _ _ _ (VStr (uuid_source w (S (uuid_calls w)))))
    by (by rewrite literal_lookup).
Qed.

(** X14. [addEnvironment] followed by [removeEnvironment] at the index
    it has returned, on a collection of distinct objects and with a
    schema whose [running] is falsy: the collection is the one of
    before, in the same order; its environments keep their properties
    other than [duplicates], which are recomputed; no server is asked
    to stop.  The counter of routes is one more than before: the
    removal does not take back the route that the addition has
    counted.  Two UUIDs have been generated and two update events
    emitted. *)
Theorem addEnvironment_then_removeEnvironment w cb hs mh rs mr es me envs :
  customHeadersSchema w = VRef hs →
  obj_at (heap w) hs = Some mh →
  routeSchema w = VRef rs →
  obj_at (heap w) rs = Some mr →
  environmentSchema w = VRef es →
  obj_at (heap w) es = Some me →
  truthy (prop (heap w) (VRef es) "running") = false →
  collection_of w = Some envs →
  NoDup envs →
  ∃ w' e,
    (index ← addEnvironment cb; removeEnvironment index) w = Returned tt w' ∧
    collection_of w' = Some envs ∧
    routesTotal w' = (routesTotal w + 1)%Z ∧
    stopRequests w' = stopRequests w ∧
    (∀ j l, envs !! j = Some l →
       (∀ k, k ≠ "duplicates" → prop (heap w') (VRef l) k = prop (heap w) (VRef l) k) ∧
       ∃ d, duplicates_of (heap w') (VRef l) = Some d ∧
         ∀ k, k ∈ d ↔
           k ≠ j ∧ ∃ l', envs !! k = Some l' ∧
                         prop (heap w) (VRef l') "port" = prop (heap w) (VRef l) "port") ∧
    uuid_calls w' = S (S (uuid_calls w)) ∧
    (e ∉ dom (heap w)) ∧
    updateEvents w'
    = updateEvents w ++ [UpdateEvent (VRef e) cb; UpdateEvent VNull None].
Proof.
  intros Hhs Hmh Hrs Hmr Hes Hme Hrunning (a & Henv & Ha & Hobjs)%collection_of_Some Hnd.
  destruct (addEnvironment_collection w cb hs mh rs mr es me a envs
              Hhs Hmh Hrs Hmr Hes Hme Henv Ha Hobjs)
    as (w1 & e & Hadd & Hs1 & He & Ha1 & Hobjs1 & Hprops1 & Hschema & _).
  assert (NoDup (envs ++ [e])) as Hnd1.
  { apply NoDup_app. split; [done|]. split; [|apply NoDup_singleton].
    intros l Hl ->%list_elem_of_singleton. apply He.
    rewrite Forall_forall in Hobjs. destruct (Hobjs e Hl) as [m Hm]. by eapply obj_at_dom. }
  destruct (same_service_fields _ _ Hs1) as (Henv1 & Hrt1 & Hu1 & _ & _ & Hev1 & Hst1).
  simpl in Henv1, Hrt1, Hu1, Hev1, Hst1.
  destruct (removeEnvironment_splices w1 a (envs ++ [e]) (length envs) e)
    as (w2 & Hremove & Hs2 & Ha2 & Hobjs2 & _ & Hprops2 & Hdups); try done.
  { by rewrite Henv1. }
  { by rewrite list_lookup_middle. }
  rewrite delete_last in Ha2, Hobjs2, Hprops2, Hdups.
  rewrite Hschema, Hrunning in Hs2.
  2:{ intros Hin. repeat (apply elem_of_cons in Hin as [Heq|Hin]); try done.
      by apply elem_of_nil in Hin. }
  apply same_service_fields in Hs2 as (Henv2 & Hrt2 & Hu2 & _ & _ & Hev2 & Hst2).
  exists (add_event (UpdateEvent VNull None) w2), e.
  change (heap (add_event (UpdateEvent VNull None) w2)) with (heap w2).
  split; [by erewrite bind_returned by exact Hadd|].
  split.
  { apply collection_of_Some. exists a. split; [|by split].
    simpl. by rewrite Henv2, Henv1. }
  split; [simpl; by rewrite Hrt2, Hrt1|].
  split; [simpl; by rewrite Hst2, Hst1|].
  split.
  { intros j l Hj.
    assert (l ∈ envs) as Hl by (by eapply list_elem_of_lookup_2).
    split.
    { intros k Hk. by rewrite (Hprops2 l k Hl Hk), Hprops1. }
    exists (others_like (environment_key (heap w1) <$> envs) j).
    split; [by apply Hdups|].
    intros k. rewrite (others_like_fmap _ _ _ _ _ Hj). unfold environment_key.
    rewrite (Hprops1 l "port" Hl).
    split; intros (Hne & l' & Hl' & Hk); (split; [done|]); exists l'; (split; [done|]).
    - rewrite <- Hprops1; [done|]. by eapply list_elem_of_lookup_2.
    - rewrite Hprops1; [done|]. by eapply list_elem_of_lookup_2. }
  split; [simpl; by rewrite Hu2, Hu1|].
  split; [done|].
  simpl. rewrite Hev2, Hev1. by rewrite <- app_assoc.
Qed.

Lemma addEnvironment_then_removeEnvironment_witness :
  let w := started in
  let hs := 7%positive in
  let rs := 6%positive in
  let es := 3%positive in
  let mh := fields_of (heap w) (VRef hs) in
  let mr := fields_of (heap w) (VRef rs) in
  let me := fields_of (heap w) (VRef es) in
  let envs := [8%positive] in
  customHeadersSchema w = VRef hs ∧
  obj_at (heap w) hs = Some mh ∧
  routeSchema w = VRef rs ∧
  obj_at (heap w) rs = Some mr ∧
  environmentSchema w = VRef es ∧
  obj_at (heap w) es = Some me ∧
  truthy (prop (heap w) (VRef es) "running") = false ∧
  collection_of w = Some envs ∧
  NoDup envs ∧
  ∃ w' e,
    (index ← addEnvironment (Some 4); removeEnvironment index) w = Returned tt w' ∧
    collection_of w' = Some envs ∧
    routesTotal w' = (routesTotal w + 1)%Z ∧
    stopRequests w' = stopRequests w ∧
    (∀ j l, envs !! j = Some l →
       (∀ k, k ≠ "duplicates" → prop (heap w') (VRef l) k = prop (heap w) (VRef l) k) ∧
       ∃ d, duplicates_of (heap w') (VRef l) = Some d ∧
         ∀ k, k ∈ d ↔
           k ≠ j ∧ ∃ l', envs !! k = Some l' ∧
                         prop (heap w) (VRef l') "port" = prop (heap w) (VRef l) "port") ∧
    uuid_calls w' = S (S (uuid_calls w)) ∧
    (e ∉ dom (heap w)) ∧
    updateEvents w'
    = updateEvents w ++ [UpdateEvent (VRef e) (Some 4); UpdateEvent VNull None].
Proof.
  intros w hs rs es mh mr me envs.
  assert (customHeadersSchema w = VRef hs) as H1 by (by vm_compute).
  assert (obj_at (heap w) hs = Some mh) as H2.
  { apply fields_of_obj_at. apply (bool_decide_unpack _). by vm_compute. }
  assert (routeSchema w = VRef rs) as H3 by (by vm_compute).
  assert (obj_at (heap w) rs = Some mr) as H4.
  { apply fields_of_obj_at. apply (bool_decide_unpack _). by vm_compute. }
  assert (environmentSchema w = VRef es) as H5 by (by vm_compute).
  assert (obj_at (heap w) es = Some me) as H6.
  { apply fields_of_obj_at. apply (bool_decide_unpack _). by vm_compute. }
  assert (truthy (prop (heap w) (VRef es) "running") = false) as H7 by (by vm_compute).
  assert (collection_of w = Some envs) as H8 by (by vm_compute).
  assert (NoDup envs) as H9 by apply NoDup_singleton.
  split; [exact H1|]. split; [exact H2|]. split; [exact H3|]. split; [exact H4|].
  split; [exact H5|]. split; [exact H6|]. split; [exact H7|]. split; [exact H8|].
  split; [exact H9|].
  exact (addEnvironment_then_removeEnvironment w (Some 4) hs mh rs mr es me envs
           H1 H2 H3 H4 H5 H6 H7 H8 H9).
Defined.

(** The counter on the service as it starts: two routes and a counter
    of 2; after an environment is added and removed again, the same
    collection with its two routes, and a counter of 3. *)
Example routesTotal_after_add_and_remove :
  routesTotal started = 2%Z ∧
  returns (index ← addEnvironment None; removeEnvironment index) started (λ _ w',
    collection_of w' = collection_of started ∧
    (length <$> routes_of (heap w') (environment_at 0 w')) = Some 2 ∧
    routesTotal w' = 3%Z).
Proof. split; [done|]. apply (bool_decide_unpack _). by vm_compute. Qed.

(** X20. The environment that [addEnvironment] has added is found by
    [findEnvironmentIndex] under the UUID generated for it, at the index
    that [addEnvironment] has returned, provided no environment of the
    collection carried that UUID already. *)
Theorem added_environment_is_found w cb hs mh rs mr es me envs :
  customHeadersSchema w = VRef hs →
  obj_at (heap w) hs = Some mh →
  routeSchema w = VRef rs →
  obj_at (heap w) rs = Some mr →
  environmentSchema w = VRef es →
  obj_at (heap w) es = Some me →
  collection_of w = Some envs →
  (∀ l, l ∈ envs →
        prop (heap w) (VRef l) "uuid" ≠ VStr (uuid_source w (S (uuid_calls w)))) →
  ∃ w',
    (index ← addEnvironment cb;
     found ← findEnvironmentIndex (uuid_source w (S (uuid_calls w)));
     mret (index, found)) w
    = Returned (Z.of_nat (length envs), Z.of_nat (length envs)) w'.
Proof.
  intros Hhs Hmh Hrs Hmr Hes Hme (a & Henv & Ha & Hobjs)%collection_of_Some Hnew.
  destruct (addEnvironment_collection w cb hs mh rs mr es me a envs
              Hhs Hmh Hrs Hmr Hes Hme Henv Ha Hobjs)
    as (w1 & e & Hadd & Hs1 & He & Ha1 & Hobjs1 & Hprops1 & _ & Huuid).
  destruct (same_service_fields _ _ Hs1) as (Henv1 & _).
  simpl in Henv1.
  destruct (findIndex_from_objects "uuid" (VStr (uuid_source w (S (uuid_calls w))))
              (envs ++ [e]) 0 w1 Hobjs1) as (r & Hfind & Hr).
  assert (r = Z.of_nat (length envs)) as ->.
  { destruct Hr as [[_ Hnone]|(j & l & -> & Hj & Hx & _)].
    - destruct (Hnone e); [|done]. apply elem_of_app. right. apply list_elem_of_here.
    - simpl. f_equal. destruct (decide (j < length envs)) as [Hlt|Hge].
      + rewrite lookup_app_l in Hj by done.
        destruct (Hnew l); [by eapply list_elem_of_lookup_2|].
        rewrite <- (Hprops1 l "uuid"); [done|by eapply list_elem_of_lookup_2].
      + apply lookup_lt_Some in Hj. rewrite length_app in Hj. simpl in Hj. lia. }
  exists w1.
  erewrite bind_returned by exact Hadd.
  erewrite bind_returned; [reflexivity|].
  unfold findEnvironmentIndex, findIndex.
  erewrite bind_returned by reflexivity. rewrite Henv1, Henv.
  erewrite bind_returned by (by apply array_items_array). done.
Qed.

Lemma added_environment_is_found_witness :
  let w := started in
  let hs := 7%positive in
  let rs := 6%positive in
  let es := 3%positive in
  let mh := fields_of (heap w) (VRef hs) in
  let mr := fields_of (heap w) (VRef rs) in
  let me := fields_of (heap w) (VRef es) in
  let envs := [8%positive] in
  customHeadersSchema w = VRef hs ∧
  obj_at (heap w) hs = Some mh ∧
  routeSchema w = VRef rs ∧
  obj_at (heap w) rs = Some mr ∧
  environmentSchema w = VRef es ∧
  obj_at (heap w) es = Some me ∧
  collection_of w = Some envs ∧
  (∀ l, l ∈ envs →
        prop (heap w) (VRef l) "uuid" ≠ VStr (uuid_source w (S (uuid_calls w)))) ∧
  ∃ w',
    (index ← addEnvironment None;
     found ← findEnvironmentIndex (uuid_source w (S (uuid_calls w)));
     mret (index, found)) w
    = Returned (Z.of_nat (length envs), Z.of_nat (length envs)) w'.
Proof.
  intros w hs rs es mh mr me envs.
  assert (customHeadersSchema w = VRef hs) as H1 by (by vm_compute).
  assert (obj_at (heap w) hs = Some mh) as H2.
  { apply fields_of_obj_at. apply (bool_decide_unpack _). by vm_compute. }
  assert (routeSchema w = VRef rs) as H3 by (by vm_compute).
  assert (obj_at (heap w) rs = Some mr) as H4.
  { apply fields_of_obj_at. apply (bool_decide_unpack _). by vm_compute. }
  assert (environmentSchema w = VRef es) as H5 by (by vm_compute).
  assert (obj_at (heap w) es = Some me) as H6.
  { apply fields_of_obj_at. apply (bool_decide_unpack _). by vm_compute. }
  assert (collection_of w = Some envs) as H7 by (by vm_compute).
  assert (∀ l, l ∈ envs →
            prop (heap w) (VRef l) "uuid" ≠ VStr (uuid_source w (S (uuid_calls w)))) as H8.
  { intros l Hl%list_elem_of_singleton. subst l. by vm_compute. }
  split; [exact H1|]. split; [exact H2|]. split; [exact H3|]. split; [exact H4|].
  split; [exact H5|]. split; [exact H6|]. split; [exact H7|]. split; [exact H8|].
  exact (added_environment_is_found w None hs mh rs mr es me envs
           H1 H2 H3 H4 H5 H6 H7 H8).
Defined.

(** ** The service as its constructor leaves it on an empty storage *)

(** X15. Whatever [uuid()] returns and whatever the clock reads, after
    the field initialisers and the constructor on an empty storage the
    collection is one environment named "Example" on port 3000 with two
    routes, "get answer" and "post dolphins", of one header each; the
    five UUIDs generated go, in the order of generation, to the
    environment, the first route, its header, the second route and its
    header; the counter of routes is 2, and no update event and no alert
    has been emitted.  [buildDefaultEnvironment] has pushed the two
    routes onto the array held by [environmentSchema.routes], which
    [Object.assign] has copied by reference: the [routes] of the default
    environment and of the schema are one array, so the schema now
    holds the two routes, and holds every route added to the default
    environment later.  The [duplicates] of the environment is the
    array of the schema too. *)
Theorem default_environment_shares_schema_routes (source : nat → string) (now : Z) :
  returns (_ ← initialise_fields; startWithDefault) (blank source now) (λ _ w,
    let environment := environment_at 0 w in
    (length <$> collection_of w) = Some 1 ∧
    prop (heap w) environment "uuid" = VStr (source 0) ∧
    prop (heap w) environment "name" = VStr "Example" ∧
    prop (heap w) environment "port" = VNum 3000 ∧
    (length <$> routes_of (heap w) environment) = Some 2 ∧
    route_uuids w = Some [VStr (source 1); VStr (source 3)] ∧
    header_uuids (heap w) (route_at 0 environment w) = Some [VStr (source 2)] ∧
    header_uuids (heap w) (route_at 1 environment w) = Some [VStr (source 4)] ∧
    prop (heap w) (route_at 0 environment w) "endpoint" = VStr "answer" ∧
    prop (heap w) (route_at 0 environment w) "method" = VStr "get" ∧
    prop (heap w) (route_at 1 environment w) "endpoint" = VStr "dolphins" ∧
    prop (heap w) (route_at 1 environment w) "method" = VStr "post" ∧
    routesTotal w = 2%Z ∧ uuid_calls w = 5 ∧ updateEvents w = [] ∧ alerts w = [] ∧
    prop (heap w) environment "routes" = prop (heap w) (environmentSchema w) "routes" ∧
    routes_of (heap w) (environmentSchema w) = routes_of (heap w) environment ∧
    prop (heap w) environment "duplicates"
    = prop (heap w) (environmentSchema w) "duplicates" ∧
    returns (addRoute environment None) w (λ _ w',
      (length <$> routes_of (heap w') environment) = Some 3 ∧
      (length <$> routes_of (heap w') (environmentSchema w')) = Some 3)).
Proof. vm_compute. repeat split. Qed.

(** ** The migrations *)

(** X16. [migrateData(environments)] on an array returns the array of
    the same length in which each environment has had every migration
    applied, in the order of the list, and changes nothing else: the two
    nested loops, migrations outside and environments inside, come to
    one pass over the environments.  With no migration, [environments]
    is returned as it is, array or not; with one migration or more,
    anything but an array makes the call throw, a [TypeError] when it
    is not a string, before anything has changed. *)
Theorem migrateData_each_environment (Migrations : list (json → json)) w :
  (∀ environments,
     migrateData Migrations (JArr environments) w
     = Returned
         (JArr ((λ e, foldl (λ e migration, migration e) e Migrations) <$> environments)) w) ∧
  (∀ v, migrateData [] v w = Returned v w) ∧
  (∀ migration rest v,
     match v with
     | JArr _ | JStr _ => True
     | _ => migrateData (migration :: rest) v w = Thrown TypeError w
     end).
Proof.
  split; [|split].
  - intros environments. unfold migrateData.
    by rewrite migrate_with_migrated, migrated_each.
  - done.
  - by intros migration rest [].
Qed.

(** The example migration and a second one, on two environments. *)
Example migrateData_in_order :
  let rename (e : json) :=
    match e with
    | JObj fields => JObj (set_field "name" (json_field "proxyMode" e) fields)
    | _ => e
    end in
  returns (migrateData [migration_example; rename]
             (JArr [JObj [("name", JStr "a")]; JObj [("name", JStr "b")]])) started
    (λ v _, v = JArr [JObj [("name", JBool false); ("proxyMode", JBool false)];
                      JObj [("name", JBool false); ("proxyMode", JBool false)]]) ∧
  returns (migrateData [rename; migration_example]
             (JArr [JObj [("name", JStr "a")]; JObj [("name", JStr "b")]])) started
    (λ v _, v = JArr [JObj [("name", JUndefined); ("proxyMode", JBool false)];
                      JObj [("name", JUndefined); ("proxyMode", JBool false)]]).
Proof. split; by vm_compute. Qed.

(** ** Imports that do not go through *)

Section FailedImport.

Variable Migrations : list (json → json).
Variable verifyImportChecksum : json → bool.
Variable JSON_parse : string → option json.

(** X17. Unless a file is chosen, read and parsed into a document whose
    checksum verifies, [importEnvironmentsFile] changes nothing of the
    service but the alerts, and never reports a success.  No file (or an
    empty path): it returns and nothing has happened.  A read that
    fails: it returns after the one alert [IMPORT_ERROR].  A content
    that [JSON.parse] rejects: the [SyntaxError] leaves the call, with
    no alert.  A checksum that does not verify: it returns after the one
    alert [IMPORT_WRONG_CHECKSUM]. *)
Theorem import_needs_a_verified_document file readFile w :
  (∀ path rest fileContent importData,
     file = Some (path :: rest) → path ≠ EmptyString →
     readFile path = ReadOk fileContent →
     JSON_parse fileContent = Some importData →
     verifyImportChecksum importData = false) →
  importEnvironmentsFile Migrations verifyImportChecksum JSON_parse file readFile w
  = match file with
    | Some (path :: _) =>
        if decide (path = EmptyString) then Returned tt w
        else match readFile path with
             | ReadFailed => Returned tt (add_alert (AlertError, IMPORT_ERROR) w)
             | ReadOk fileContent =>
                 match JSON_parse fileContent with
                 | None => Thrown SyntaxError w
                 | Some _ => Returned tt (add_alert (AlertError, IMPORT_WRONG_CHECKSUM) w)
                 end
             end
    | _ => Returned tt w
    end.
Proof.
  intros Hno. unfold importEnvironmentsFile.
  destruct file as [[|path rest]|]; [done| |done].
  destruct (String.eqb_spec path EmptyString) as [->|Hpath].
  { by rewrite decide_True. }
  rewrite decide_False by done.
  destruct (readFile path) as [|fileContent] eqn:Hread; [done|].
  destruct (JSON_parse fileContent) as [importData|] eqn:Hparse; [|done].
  by rewrite (Hno path rest fileContent importData eq_refl Hpath Hread Hparse).
Qed.

End FailedImport.

Lemma import_needs_a_verified_document_witness :
  let file := Some ["/tmp/missing.json"] in
  let readFile := λ _ : string, ReadFailed in
  let w := started in
  (∀ path rest fileContent importData,
     file = Some (path :: rest) → path ≠ EmptyString →
     readFile path = ReadOk fileContent →
     parse_example true fileContent = Some importData →
     verify_example importData = false) ∧
  importEnvironmentsFile [migration_example] verify_example (parse_example true)
    file readFile w
  = match file with
    | Some (path :: _) =>
        if decide (path = EmptyString) then Returned tt w
        else match readFile path with
             | ReadFailed => Returned tt (add_alert (AlertError, IMPORT_ERROR) w)
             | ReadOk fileContent =>
                 match parse_example true fileContent with
                 | None => Thrown SyntaxError w
                 | Some _ => Returned tt (add_alert (AlertError, IMPORT_WRONG_CHECKSUM) w)
                 end
             end
    | _ => Returned tt w
    end.
Proof.
  intros file readFile w.
  assert (∀ path rest fileContent importData,
            file = Some (path :: rest) → path ≠ EmptyString →
            readFile path = ReadOk fileContent →
            parse_example true fileContent = Some importData →
            verify_example importData = false) as Hno by done.
  split; [exact Hno|].
  exact (import_needs_a_verified_document [migration_example] verify_example
           (parse_example true) file readFile w Hno).
Defined.

(** ** The import changes the collection at its last steps only *)

Lemma bind_returned_inv {A B} (m : M A) (f : A → M B) w b w' :
  (m ≫= f) w = Returned b w' → ∃ a w1, m w = Returned a w1 ∧ f a w1 = Returned b w'.
Proof.
  unfold mbind, M_bind. destruct (m w) as [a w1|e w1]; [|done]. eauto.
Qed.

Lemma keeps_uuid {X} (f : World → X) :
  (∀ n w, f (set_uuid_calls n w) = f w) → keeps f uuid.
Proof. intros Hf w. apply Hf. Qed.

Lemma keeps_json_get {X} (f : World → X) v k : keeps f (json_get v k).
Proof. by destruct v. Qed.

Lemma keeps_json_set {X} (f : World → X) v k x : keeps f (json_set v k x).
Proof. by destruct v. Qed.

Lemma keeps_json_items {X} (f : World → X) v : keeps f (json_items v).
Proof. by destruct v. Qed.

Lemma keeps_map_each {X A B} (f : World → X) (c : A → M B) xs :
  (∀ x, keeps f (c x)) → keeps f (map_each c xs).
Proof.
  intros Hc. induction xs as [|x rest IH]; simpl; [done|].
  apply keeps_bind; [apply Hc | intros y].
  apply keeps_bind; [apply IH | intros ys]. done.
Qed.

(** [renewUUIDs] touches the count of UUIDs and nothing else, whether
    it returns or throws. *)
Lemma keeps_renewUUIDs {X} (f : World → X) v :
  (∀ n w, f (set_uuid_calls n w) = f w) → keeps f (renewUUIDs v).
Proof.
  intros Hf. unfold renewUUIDs.
  apply keeps_bind; [apply keeps_json_items | intros items].
  apply keeps_bind; [|done].
  apply keeps_map_each. intros environment.
  apply keeps_bind; [by apply keeps_uuid | intros environmentUuid].
  apply keeps_bind; [apply keeps_json_set | intros environment'].
  apply keeps_bind; [apply keeps_json_get | intros routes].
  apply keeps_bind; [apply keeps_json_items | intros routeItems].
  apply keeps_bind; [|intros routeItems'; apply keeps_json_set].
  apply keeps_map_each. intros route.
  apply keeps_bind; [by apply keeps_uuid | intros routeUuid].
  apply keeps_bind; [apply keeps_json_set | intros route'].
  apply keeps_bind; [apply keeps_json_get | intros customHeaders].
  apply keeps_bind; [apply keeps_json_items | intros headerItems].
  apply keeps_bind; [|intros headerItems'; apply keeps_json_set].
  apply keeps_map_each. intros customHeader.
  apply keeps_bind; [by apply keeps_uuid | intros headerUuid]. apply keeps_json_set.
Qed.

Lemma keeps_migrate_with {X} (f : World → X) migrations v :
  keeps f (migrate_with migrations v).
Proof.
  revert v. induction migrations as [|migration rest IH]; intros v; simpl; [done|].
  apply keeps_bind; [apply keeps_json_items | intros items]. apply IH.
Qed.

Lemma map_each_returned {A B} (P : B → Prop) (c : A → M B) xs :
  (∀ x w y w', c x w = Returned y w' → P y) →
  ∀ w ys w', map_each c xs w = Returned ys w' → Forall P ys.
Proof.
  intros Hc. induction xs as [|x rest IH]; intros w ys w' Hrun; simpl in Hrun.
  - injection Hrun as <- _. constructor.
  - apply bind_returned_inv in Hrun as (y & w1 & Hy & Hrun).
    apply bind_returned_inv in Hrun as (ys' & w2 & Hys & Hrun).
    injection Hrun as <- _. constructor; [by eapply Hc | by eapply IH].
Qed.

Lemma json_set_returned v k x w y w' :
  json_set v k x w = Returned y w' → is_object y = true.
Proof. destruct v; try done. by intros [= <- _]. Qed.

(** What [renewUUIDs] returns, when it returns, is an array of objects. *)
Lemma renewUUIDs_returned v w v' w' :
  renewUUIDs v w = Returned v' w' →
  ∃ items, v' = JArr items ∧ forallb is_object items = true.
Proof.
  unfold renewUUIDs. intros Hrun.
  apply bind_returned_inv in Hrun as (items & w1 & _ & Hrun).
  apply bind_returned_inv in Hrun as (items' & w2 & Hmap & Hrun).
  injection Hrun as <- _. exists items'. split; [done|].
  apply forallb_forall. intros y Hy%list_elem_of_In.
  revert y Hy. apply Forall_forall.
  eapply map_each_returned; [|exact Hmap].
  intros x w0 y w0' Hc. simpl in Hc.
  do 5 (apply bind_returned_inv in Hc as (? & ? & _ & Hc)).
  by eapply json_set_returned.
Qed.

Section AllOrNothing.

Variable Migrations : list (json → json).
Variable verifyImportChecksum : json → bool.
Variable JSON_parse : string → option json.

(** X18. The import of a document whose checksum verifies, whatever the
    document holds, into a collection of distinct objects, either goes
    through or leaves the collection alone.  When the call returns, the
    success has been reported and the collection is the one of before
    followed by new environments.  When it throws (the document has no
    [data] array, an environment has no [routes] array, a route has no
    [customHeaders] array, ...), the heap, the collection, the alerts,
    the counter of routes and the update events are those of before:
    nothing was imported and nothing was reported.  Nothing is said of a
    document on which the run ends in [Unsupported]: one where the code
    assigns [uuid] to an array or to a number, a string or a boolean, or
    goes through the items of a string; there the trees of the model do
    not follow what the code does. *)
Theorem import_all_or_nothing file path rest readFile fileContent importData es w :
  file = Some (path :: rest) →
  path ≠ EmptyString →
  readFile path = ReadOk fileContent →
  JSON_parse fileContent = Some importData →
  verifyImportChecksum importData = true →
  collection_of w = Some es →
  NoDup es →
  match importEnvironmentsFile Migrations verifyImportChecksum JSON_parse file readFile w with
  | Returned _ w' =>
      alerts w' = alerts w ++ [(AlertSuccess, IMPORT_SUCCESS)] ∧
      ∃ news, collection_of w' = Some (es ++ news) ∧ ∀ l, l ∈ news → l ∉ dom (heap w)
  | Thrown e w' =>
      e ≠ Unsupported →
      heap w' = heap w ∧ environments w' = environments w ∧ alerts w' = alerts w ∧
      routesTotal w' = routesTotal w ∧ updateEvents w' = updateEvents w
  end.
Proof.
  intros -> Hpath Hread Hparse Hverify (a & Ha & Harr & Hobjs)%collection_of_Some Hnd.
  unfold importEnvironmentsFile.
  destruct (String.eqb_spec path EmptyString) as [->|_]; [done|].
  rewrite Hread, Hparse, Hverify. unfold negb.
  destruct importData as [| |b|n|s|items0|fields];
    try (erewrite bind_thrown by reflexivity; done);
    try (erewrite bind_returned by reflexivity;
         destruct Migrations as [|migration migrations];
         [ erewrite bind_returned by reflexivity; erewrite bind_thrown by reflexivity; done
         | erewrite bind_thrown by reflexivity; done ]).
  erewrite bind_returned by reflexivity.
  pose proof (keeps_migrate_with (λ w, w) Migrations (field "data" fields) w) as Hkeep.
  unfold migrateData.
  destruct (migrate_with Migrations (field "data" fields) w) as [data w0|e w0] eqn:Hmigrate;
    simpl in Hkeep; subst w0.
  2:{ by erewrite bind_thrown by exact Hmigrate. }
  erewrite bind_returned by exact Hmigrate.
  erewrite bind_returned by reflexivity.
  erewrite bind_returned by reflexivity. rewrite field_set_field_eq.
  pose proof (keeps_renewUUIDs
                (λ w, (heap w, environments w, alerts w, routesTotal w, updateEvents w))
                data (λ _ _, eq_refl) w) as Hkeep.
  destruct (renewUUIDs data w) as [renewed w1|e w1] eqn:Hrenew;
    simpl in Hkeep; injection Hkeep as Hheap1 Henv1 Halerts1 Htotal1 Hevents1.
  2:{ by erewrite bind_thrown by exact Hrenew. }
  destruct (renewUUIDs_returned _ _ _ _ Hrenew) as (items & -> & Hitems).
  erewrite bind_returned by exact Hrenew.
  erewrite bind_returned by reflexivity.
  erewrite bind_returned by reflexivity.
  erewrite bind_returned by reflexivity. rewrite field_set_field_eq.
  erewrite bind_returned by reflexivity.
  destruct (materialize_environments items Hitems w1)
    as (news & w2 & Hbuild & Hs2 & Hsub2 & Hndn & Hfresh & Hlen & Hnews).
  rewrite Hheap1 in Hsub2, Hfresh.
  apply same_service_fields in Hs2 as (Henv2 & _ & _ & _ & Halerts2 & _).
  erewrite bind_returned by exact Hbuild.
  assert (arr_at (heap w2) a = Some (VRef <$> es)) as Harr2 by by eapply arr_at_weaken.
  erewrite bind_returned.
  2:{ rewrite Henv1, Ha. by apply push_array. }
  set (w3 := set_heap <[a := OArr ((VRef <$> es) ++ (VRef <$> news))]> w2).
  assert (∀ l, l ∈ es → l ∈ dom (heap w)) as Hold.
  { intros l Hl. rewrite Forall_forall in Hobjs. destruct (Hobjs l Hl) as [m Hm].
    by eapply obj_at_dom. }
  destruct (environments_pass w3 a (es ++ news)) as (w4 & Hpass & Hs4 & Harr4 & Hobjs4 & _).
  { simpl. by rewrite Henv2, Henv1. }
  { simpl. by rewrite arr_at_store_array, fmap_app. }
  { apply Forall_app. split; apply Forall_forall; intros l Hl; simpl;
      erewrite obj_at_store_array by exact Harr2.
    - rewrite Forall_forall in Hobjs. destruct (Hobjs l Hl) as [m Hm].
      exists m. by eapply obj_at_weaken.
    - apply list_elem_of_lookup in Hl as [i Hi].
      destruct (lookup_lt_is_Some_2 items i) as [j Hj].
      { rewrite <- Hlen. by eapply lookup_lt_Some. }
      destruct (Hnews i l j Hi Hj) as (m & Hm & _). exists m.
      unfold obj_at. by rewrite Hm. }
  { apply NoDup_app. split; [done|]. split; [|done].
    intros l Hl Hl'. by apply (Hfresh l Hl'), Hold. }
  apply same_service_fields in Hs4 as (Henv4 & _ & _ & _ & Halerts4 & _).
  erewrite bind_returned by exact Hpass.
  simpl. split.
  { rewrite Halerts4. simpl. by rewrite Halerts2, Halerts1. }
  exists news. split; [|done].
  apply collection_of_Some. exists a. split; [|by split].
  simpl. rewrite Henv4. simpl. by rewrite Henv2, Henv1.
Qed.

End AllOrNothing.

Lemma import_all_or_nothing_witness :
  let file := Some ["/tmp/export.json"] in
  let parse := λ _ : string, Some without_data in
  let w := started in
  "/tmp/export.json" ≠ EmptyString ∧
  read_example "/tmp/export.json" = ReadOk "/tmp/export.json" ∧
  parse "/tmp/export.json" = Some without_data ∧
  verify_example without_data = true ∧
  collection_of w = Some [8%positive] ∧
  NoDup [8%positive] ∧
  match importEnvironmentsFile [migration_example] verify_example parse file read_example w
  with
  | Returned _ w' =>
      alerts w' = alerts w ++ [(AlertSuccess, IMPORT_SUCCESS)] ∧
      ∃ news, collection_of w' = Some ([8%positive] ++ news) ∧
              ∀ l, l ∈ news → l ∉ dom (heap w)
  | Thrown e w' =>
      e ≠ Unsupported →
      heap w' = heap w ∧ environments w' = environments w ∧ alerts w' = alerts w ∧
      routesTotal w' = routesTotal w ∧ updateEvents w' = updateEvents w
  end.
Proof.
  intros file parse w.
  assert (collection_of w = Some [8%positive]) as Hes by (by vm_compute).
  split; [done|]. split; [reflexivity|]. split; [reflexivity|]. split; [reflexivity|].
  split; [exact Hes|]. split; [apply NoDup_singleton|].
  apply (import_all_or_nothing [migration_example] verify_example parse file
           "/tmp/export.json" [] read_example "/tmp/export.json" without_data
           [8%positive] w);
    [reflexivity|done|reflexivity|reflexivity|reflexivity|exact Hes|apply NoDup_singleton].
Defined.

(** The two outcomes, computed on the service as it starts: the
    document without [data] throws a [TypeError] and the collection
    still has its one environment; the example file goes through. *)
Example import_outcomes :
  (∃ w', importEnvironmentsFile [migration_example] verify_example
           (λ _, Some without_data) (Some ["/tmp/export.json"]) read_example started
         = Thrown TypeError w' ∧
         collection_of w' = Some [8%positive] ∧ alerts w' = []) ∧
  returns (importEnvironmentsFile [migration_example] verify_example
             (parse_example true) (Some ["/tmp/export.json"]) read_example) started
    (λ _ w', (length <$> collection_of w') = Some 2).
Proof.
  split; [|by vm_compute].
  eexists. split; [reflexivity|]. split; by vm_compute.
Qed.

(** ** The UUIDs of a renewed payload *)

Lemma threaded_concat {A} (size : A → nat) (R : nat → A → A → Prop) (g : A → list json)
    (source : nat → string) :
  (∀ n x y, R n x y → g y = (λ i, JStr (source i)) <$> seq n (size x)) →
  ∀ xs ys n, threaded size R n xs ys →
    concat (g <$> ys) = (λ i, JStr (source i)) <$> seq n (sum_list (size <$> xs)).
Proof.
  intros Hg. induction xs as [|x xs IH]; intros [|y ys] n; simpl; try done.
  intros [Hy Hys]. rewrite (Hg _ _ _ Hy). rewrite seq_app, fmap_app. f_equal.
  exact (IH _ _ Hys).
Qed.

Lemma renewed_route_uuids source n r r' :
  renewed_route source n r r' →
  uuids_of_route r' = (λ i, JStr (source i)) <$> seq n (route_size r).
Proof.
  intros (_ & Huuid & _ & hs' & Hhs' & Hthread).
  unfold uuids_of_route, route_size. rewrite Huuid, Hhs'. simpl. f_equal.
  transitivity (concat ((λ h, [json_field "uuid" h]) <$> hs')).
  { clear. induction hs' as [|h hs IH]; simpl; [done|]. by f_equal. }
  rewrite (threaded_concat (λ _, 1) (renewed_header source)
             (λ h, [json_field "uuid" h]) source
             (λ n0 x y H, f_equal (λ u, [u]) (proj1 (proj2 H))) _ _ _ Hthread).
  by rewrite sum_list_ones.
Qed.

Lemma renewed_environment_uuids source n e e' :
  renewed_environment source n e e' →
  uuids_of_environment e' = (λ i, JStr (source i)) <$> seq n (environment_size e).
Proof.
  intros (_ & Huuid & _ & rs' & Hrs' & Hthread).
  unfold uuids_of_environment, environment_size. rewrite Huuid, Hrs'. simpl. f_equal.
  exact (threaded_concat route_size (renewed_route source) uuids_of_route source
           (renewed_route_uuids source) _ _ _ Hthread).
Qed.

(** X19. [renewUUIDs(environments)] on a payload of the shape it goes
    through returns the payload in which the UUIDs, read in the order
    of the document (each environment, then each of its routes followed
    by its custom headers), are exactly the values that [uuid()] has
    returned during the call, in the order it returned them, one for
    each environment, route and header, whatever was there before.  So
    the UUIDs of the renewed payload are pairwise distinct as soon as
    the generator does not return the same value twice. *)
Theorem renewUUIDs_in_document_order (environments : list json) w :
  forallb shaped_environment environments = true →
  ∃ renewed w',
    renewUUIDs (JArr environments) w = Returned (JArr renewed) w' ∧
    length renewed = length environments ∧
    uuid_calls w' = uuid_calls w + sum_list (environment_size <$> environments) ∧
    uuids_of_payload renewed
    = (λ i, JStr (uuid_source w i)) <$>
        seq (uuid_calls w) (sum_list (environment_size <$> environments)) ∧
    ((∀ i j, uuid_source w i = uuid_source w j → i = j) →
     NoDup (uuids_of_payload renewed)).
Proof.
  intros Hshape.
  destruct (renewUUIDs_renews environments w Hshape) as (renewed & Hrun & Hthread).
  assert (uuids_of_payload renewed
          = (λ i, JStr (uuid_source w i)) <$>
              seq (uuid_calls w) (sum_list (environment_size <$> environments))) as Heq.
  { exact (threaded_concat environment_size (renewed_environment (uuid_source w))
             uuids_of_environment (uuid_source w)
             (renewed_environment_uuids (uuid_source w)) _ _ _ Hthread). }
  eexists renewed, _. split; [exact Hrun|].
  split; [by eapply threaded_length|]. split; [done|]. split; [done|].
  intros Hinj. rewrite Heq. apply NoDup_fmap_2; [|apply NoDup_seq].
  intros i j [= Hij]. by apply Hinj.
Qed.

Lemma renewUUIDs_in_document_order_witness :
  let environments := elements (json_field "data" (exported "good")) in
  let w := started in
  forallb shaped_environment environments = true ∧
  ∃ renewed w',
    renewUUIDs (JArr environments) w = Returned (JArr renewed) w' ∧
    length renewed = length environments ∧
    uuid_calls w' = uuid_calls w + sum_list (environment_size <$> environments) ∧
    uuids_of_payload renewed
    = (λ i, JStr (uuid_source w i)) <$>
        seq (uuid_calls w) (sum_list (environment_size <$> environments)) ∧
    ((∀ i j, uuid_source w i = uuid_source w j → i = j) →
     NoDup (uuids_of_payload renewed)).
Proof.
  intros environments w. split; [reflexivity|].
  by apply renewUUIDs_in_document_order.
Defined.

(** The example payload, whose three UUIDs are those of the collection
    it was exported from, renewed from the service as it starts. *)
Example renewUUIDs_of_example :
  uuids_of_payload (elements (json_field "data" (exported "good")))
  = [JStr "uuid-0"; JStr "uuid-1"; JStr "uuid-2"] ∧
  returns (renewUUIDs (json_field "data" (exported "good"))) started (λ v w',
    uuids_of_payload (elements v) = [JStr "uuid-5"; JStr "uuid-6"; JStr "uuid-7"] ∧
    uuid_calls w' = 8).
Proof. split; by vm_compute. Qed.

(** ** The subscriber that refreshes the duplicates *)

(** X21. The subscriber to the update events, on an event that carries
    an environment whose routes are distinct objects, none of them an
    environment of the collection, in a collection of distinct objects:
    it leaves the collection and the routes as they are and, when it
    hands the callback of the event back, the [duplicates] of every
    route of the environment is exactly the indexes of the other routes
    with its endpoint and method, and the [duplicates] of every
    environment of the collection exactly the indexes of the other
    environments with its port: the second pass does not undo the
    first.  On an event without environment, as [removeEnvironment]
    emits, it changes nothing. *)
Theorem onEnvironmentUpdate_refreshes w es e rs cb :
  collection_of w = Some es →
  NoDup es →
  routes_of (heap w) (VRef e) = Some rs →
  NoDup rs →
  (∀ r, r ∈ rs → r ∉ es) →
  onEnvironmentUpdate (UpdateEvent VNull cb) w = Returned cb w ∧
  ∃ w',
    onEnvironmentUpdate (UpdateEvent (VRef e) cb) w = Returned cb w' ∧
    same_service w w' ∧
    collection_of w' = Some es ∧
    routes_of (heap w') (VRef e) = Some rs ∧
    (∀ i r, rs !! i = Some r →
       route_key (heap w') r = route_key (heap w) r ∧
       ∃ d, duplicates_of (heap w') (VRef r) = Some d ∧
         ∀ j, j ∈ d ↔
           j ≠ i ∧ ∃ r', rs !! j = Some r' ∧ route_key (heap w) r' = route_key (heap w) r) ∧
    (∀ i l, es !! i = Some l →
       prop (heap w') (VRef l) "port" = prop (heap w) (VRef l) "port" ∧
       ∃ d, duplicates_of (heap w') (VRef l) = Some d ∧
         ∀ j, j ∈ d ↔
           j ≠ i ∧ ∃ l', es !! j = Some l' ∧
                         prop (heap w) (VRef l') "port" = prop (heap w) (VRef l) "port").
Proof.
  intros (a & Ha & Harr & Hobjs)%collection_of_Some Hnd Hrs Hndr Hdisjoint.
  split; [done|].
  pose proof Hrs as (items & Hitems & Hobjsr)%routes_of_Some.
  destruct (routes_pass w (VRef e) items rs Hitems Hobjsr Hndr)
    as (w1 & Hrun1 & Hs1 & Hitems1 & Hobjsr1 & Hkeys1 & Hdups1 & Hothers1 & Hprops1).
  apply objects_of_Some in Hobjsr as [-> Hobjsr].
  apply objects_of_Some in Hobjsr1 as [_ Hobjsr1].
  assert (∀ l, l ∈ es → l ∉ rs) as Hdisjoint' by (intros l Hl Hr; by apply (Hdisjoint l)).
  assert (∀ l m, l ∈ es → obj_at (heap w) l = Some m → obj_at (heap w1) l = Some m) as Hsame1.
  { intros l m Hl Hm. unfold obj_at.
    by rewrite (Hothers1 l (OObj m) (obj_at_lookup _ _ _ Hm) (Hdisjoint' l Hl)). }
  assert (a ∉ rs) as Har.
  { intros Hin. rewrite Forall_forall in Hobjsr. destruct (Hobjsr a Hin) as [m Hm].
    apply obj_at_lookup in Hm. apply arr_at_lookup in Harr. congruence. }
  destruct (same_service_fields _ _ Hs1) as (Henv1 & _).
  destruct (environments_pass w1 a es) as
    (w2 & Hrun2 & Hs2 & Harr2 & Hobjs2 & Hkeys2 & Hdups2 & Hothers2 & Hprops2).
  { by rewrite Henv1. }
  { unfold arr_at. by rewrite (Hothers1 a _ (arr_at_lookup _ _ _ Harr) Har). }
  { apply Forall_forall. intros l Hl. rewrite Forall_forall in Hobjs.
    destruct (Hobjs l Hl) as [m Hm]. exists m. by apply Hsame1. }
  { done. }
  destruct (same_service_fields _ _ Hs2) as (Henv2 & _).
  assert (∀ l, l ∈ rs → l ∉ es) as Hres by done.
  assert (∀ l o, heap w1 !! l = Some o → l ∉ es → heap w2 !! l = Some o) as Hkept by done.
  assert (Forall (λ l, is_Some (obj_at (heap w1) l)) es) as Hobjs1.
  { apply Forall_forall. intros l Hl. rewrite Forall_forall in Hobjs.
    destruct (Hobjs l Hl) as [m Hm]. exists m. by apply Hsame1. }
  assert (∀ l m, l ∉ es → obj_at (heap w1) l = Some m → obj_at (heap w2) l = Some m) as Hobj2.
  { intros l m Hl Hm. unfold obj_at.
    by rewrite (Hkept l (OObj m) (obj_at_lookup _ _ _ Hm) Hl). }
  assert (∀ l items, arr_at (heap w1) l = Some items → arr_at (heap w2) l = Some items)
    as Harr12.
  { intros l items0 Hl. unfold arr_at. rewrite (Hkept l (OArr items0)); [done| |].
    - by apply arr_at_lookup.
    - intros Hin. rewrite Forall_forall in Hobjs1. destruct (Hobjs1 l Hin) as [m Hm].
      apply obj_at_lookup in Hm. apply arr_at_lookup in Hl. congruence. }
  assert (∀ r k, r ∈ rs → prop (heap w2) (VRef r) k = prop (heap w1) (VRef r) k) as Hprop2.
  { intros r k Hr. rewrite Forall_forall in Hobjsr1. destruct (Hobjsr1 r Hr) as [m Hm].
    by rewrite (prop_obj_at _ _ _ _ Hm), (prop_obj_at _ _ _ _ (Hobj2 r m (Hres r Hr) Hm)). }
  exists w2. split.
  { unfold onEnvironmentUpdate. simpl.
    erewrite bind_returned; [reflexivity|].
    by erewrite bind_returned by exact Hrun1. }
  split; [by eapply same_service_trans|].
  split.
  { apply collection_of_Some. exists a. split; [|by split]. by rewrite Henv2, Henv1. }
  split.
  { apply routes_of_Some. exists (VRef <$> rs). split.
    - apply items_of_Some in Hitems1 as (ar & Hprop & Har1).
      apply items_of_Some. exists ar. split; [|by apply Harr12].
      destruct (prop_ref_inv _ _ _ _ Hprop) as (le & me & [= <-] & Hme).
      destruct (decide (e ∈ es)) as [Hin|Hout].
      + by rewrite Hprops2.
      + rewrite (prop_obj_at _ _ _ _ (Hobj2 e me Hout Hme)).
        by rewrite (prop_obj_at _ _ _ _ Hme) in Hprop.
    - apply objects_of_Some. split; [done|].
      apply Forall_forall. intros r Hr. rewrite Forall_forall in Hobjsr1.
      destruct (Hobjsr1 r Hr) as [m Hm]. exists m. by apply Hobj2; [apply Hres|]. }
  split.
  { intros i r Hi.
    assert (r ∈ rs) as Hr by (by eapply list_elem_of_lookup_2).
    split.
    { unfold route_key. rewrite !Hprop2 by done. by apply Hkeys1. }
    exists (others_like (route_key (heap w) <$> rs) i). split.
    - eapply duplicates_of_kept; [exact Hkept|exact Hobjs1| |by apply Hdups1].
      intros l [= <-]. by apply Hres.
    - intros j. by apply others_like_fmap. }
  intros i l Hi.
  assert (l ∈ es) as Hl by (by eapply list_elem_of_lookup_2).
  assert (∀ l', l' ∈ es → environment_key (heap w1) l' = environment_key (heap w) l')
    as Hkey1.
  { intros l' Hl'. rewrite Forall_forall in Hobjs. destruct (Hobjs l' Hl') as [m Hm].
    unfold environment_key.
    by rewrite (prop_obj_at _ _ _ _ Hm), (prop_obj_at _ _ _ _ (Hsame1 l' m Hl' Hm)). }
  split.
  { rewrite (Hprops2 l "port" Hl) by done. apply (Hkey1 l Hl). }
  exists (others_like (environment_key (heap w) <$> es) i). split.
  - rewrite (Hdups2 i l Hi). f_equal. by apply others_like_ext.
  - intros j. exact (others_like_fmap (environment_key (heap w)) es i l j Hi).
Qed.

Lemma onEnvironmentUpdate_refreshes_witness :
  let w := two_environments in
  ∃ es e rs,
    collection_of w = Some es ∧
    NoDup es ∧
    routes_of (heap w) (VRef e) = Some rs ∧
    NoDup rs ∧
    (∀ r, r ∈ rs → r ∉ es) ∧
    onEnvironmentUpdate (UpdateEvent VNull (Some 9)) w = Returned (Some 9) w ∧
    ∃ w',
      onEnvironmentUpdate (UpdateEvent (VRef e) (Some 9)) w = Returned (Some 9) w' ∧
      same_service w w' ∧
      collection_of w' = Some es ∧
      routes_of (heap w') (VRef e) = Some rs ∧
      (∀ i r, rs !! i = Some r →
         route_key (heap w') r = route_key (heap w) r ∧
         ∃ d, duplicates_of (heap w') (VRef r) = Some d ∧
           ∀ j, j ∈ d ↔
             j ≠ i ∧ ∃ r', rs !! j = Some r' ∧
                           route_key (heap w) r' = route_key (heap w) r) ∧
      (∀ i l, es !! i = Some l →
         prop (heap w') (VRef l) "port" = prop (heap w) (VRef l) "port" ∧
         ∃ d, duplicates_of (heap w') (VRef l) = Some d ∧
           ∀ j, j ∈ d ↔
             j ≠ i ∧ ∃ l', es !! j = Some l' ∧
                           prop (heap w) (VRef l') "port" = prop (heap w) (VRef l) "port").
Proof.
  intros w.
  destruct (collection_of w) as [es|] eqn:E; [|by vm_compute in E].
  destruct (routes_of (heap w) (VRef 8%positive)) as [rs|] eqn:Er; [|by vm_compute in Er].
  exists es, 8%positive, rs.
  assert (NoDup es ∧ NoDup rs ∧ ∀ r, r ∈ rs → r ∉ es) as (H2 & H4 & H5).
  { vm_compute in E, Er. injection E as <-. injection Er as <-.
    split; [by apply (bool_decide_unpack _)|]. split; [by apply (bool_decide_unpack _)|].
    apply Forall_forall. by apply (bool_decide_unpack _). }
  split; [done|]. split; [exact H2|]. split; [done|]. split; [exact H4|].
  split; [exact H5|].
  exact (onEnvironmentUpdate_refreshes w es 8%positive rs (Some 9) E H2 Er H4 H5).
Defined.

(** The subscriber after an environment has been added on the port of
    the first, computed: before it runs the duplicates are empty, after
    it each environment is the duplicate of the other. *)
Example onEnvironmentUpdate_after_addEnvironment :
  (λ i, duplicates_of (heap two_environments) (environment_at i two_environments))
    <$> [0; 1] = [Some []; Some []] ∧
  returns (onEnvironmentUpdate
             (UpdateEvent (environment_at 1 two_environments) None)) two_environments
    (λ _ w', (λ i, duplicates_of (heap w') (environment_at i w')) <$> [0; 1]
             = [Some [1]; Some [0]]).
Proof. split; by vm_compute. Qed.

(** ** What an import never touches *)

Lemma keeps_map_each_in {X A B} (f : World → X) (c : A → M B) xs :
  (∀ x, x ∈ xs → keeps f (c x)) → keeps f (map_each c xs).
Proof.
  induction xs as [|x rest IH]; intros Hc; simpl; [done|].
  apply keeps_bind; [apply Hc, list_elem_of_here | intros y].
  apply keeps_bind; [|done].
  apply IH. intros x' Hx'. by apply Hc, list_elem_of_further.
Qed.

Lemma keeps_materialize {X} (f : World → X) :
  (∀ g w, f (set_heap g w) = f w) → ∀ j, keeps f (materialize j).
Proof.
  intros Hf. apply json_induction; try done.
  - intros items Hitems. simpl.
    apply keeps_bind; [|intros vs; by apply keeps_alloc].
    apply keeps_map_each_in. by apply Forall_forall.
  - intros fields Hfields. simpl.
    apply keeps_bind; [|intros kvs; by apply keeps_alloc].
    apply keeps_map_each_in. intros kv Hkv.
    apply keeps_bind; [|done].
    rewrite Forall_forall in Hfields. by apply Hfields.
Qed.

Lemma keeps_push {X} (f : World → X) v xs :
  (∀ g w, f (set_heap g w) = f w) → keeps f (push v xs).
Proof. intros Hf w. unfold push. repeat case_match; try done; apply Hf. Qed.

(** X22. Whatever the file, the answer of the file system, the parser,
    the checksum and the migrations, and whether it returns or throws,
    [importEnvironmentsFile] leaves the counter of routes as it was (the
    routes of the imported environments are not counted), emits no
    update event (so neither subscriber runs for an import: the routes'
    duplicates are not refreshed and nothing is saved), asks no server
    to stop, and leaves [this.environments] the array it was. *)
Theorem import_counts_and_emits_nothing
    (Migrations : list (json → json)) (verifyImportChecksum : json → bool)
    (JSON_parse : string → option json) file readFile w :
  let w' := final (importEnvironmentsFile Migrations verifyImportChecksum JSON_parse
                     file readFile w) in
  routesTotal w' = routesTotal w ∧
  updateEvents w' = updateEvents w ∧
  stopRequests w' = stopRequests w ∧
  environments w' = environments w.
Proof.
  set (f := λ w : World, (routesTotal w, updateEvents w, stopRequests w, environments w)).
  assert (∀ g w, f (set_heap g w) = f w) as Hheap by done.
  assert (∀ n w, f (set_uuid_calls n w) = f w) as Huuid by done.
  assert (keeps f (importEnvironmentsFile Migrations verifyImportChecksum JSON_parse
                     file readFile)) as Hkeeps.
  { unfold importEnvironmentsFile.
    destruct file as [[|path rest]|]; try done.
    destruct (String.eqb path EmptyString); [done|].
    destruct (readFile path) as [|fileContent]; [done|].
    destruct (JSON_parse fileContent) as [importData|]; [|done].
    destruct (negb (verifyImportChecksum importData)); [done|].
    apply keeps_bind; [apply keeps_json_get | intros data].
    apply keeps_bind; [apply keeps_migrate_with | intros data'].
    apply keeps_bind; [apply keeps_json_set | intros importData'].
    apply keeps_bind; [apply keeps_json_get | intros data''].
    apply keeps_bind; [by apply keeps_renewUUIDs | intros renewed].
    apply keeps_bind; [apply keeps_json_set | intros importData''].
    apply keeps_bind; [apply keeps_gets | intros collection].
    apply keeps_bind; [apply keeps_json_get | intros data3].
    apply keeps_bind; [apply keeps_json_items | intros items].
    apply keeps_bind; [apply keeps_map_each; intros j; by apply keeps_materialize
                      | intros imported].
    apply keeps_bind; [by apply keeps_push | intros n].
    apply keeps_bind; [by apply keeps_checkEnvironmentsDuplicates | intros _].
    done. }
  intros w'. specialize (Hkeeps w). fold w' in Hkeeps. unfold f in Hkeeps.
  by injection Hkeeps.
Qed.

(** The counter after the import of the example file: the collection
    has three routes and the counter says 2. *)
Example routesTotal_after_import :
  returns (importEnvironmentsFile [migration_example] verify_example
             (parse_example true) (Some ["/tmp/export.json"]) read_example) started
    (λ _ w',
       (length <$> route_uuids w') = Some 3 ∧ routesTotal w' = 2%Z ∧ updateEvents w' = []).
Proof. by vm_compute. Qed.

(** ** The mutation API keeps the collection tidy *)

Lemma tidy_inv w es :
  tidy w →
  collection_of w = Some es →
  ∃ c,
    environments w = VRef c ∧ arr_at (heap w) c = Some (VRef <$> es) ∧ NoDup es ∧
    ∀ e, e ∈ es →
      is_Some (obj_at (heap w) e) ∧
      ∃ ar rs, prop (heap w) (VRef e) "routes" = VRef ar ∧ ar ≠ c ∧
               arr_at (heap w) ar = Some (VRef <$> rs) ∧
               Forall (λ l, is_Some (obj_at (heap w) l)) rs ∧ NoDup rs.
Proof.
  intros [(es' & Hes' & Hnd & Hroutes)%well_formed_inv Hsep] Hes.
  rewrite Hes in Hsep, Hes'. injection Hes' as <-.
  apply collection_of_Some in Hes as (c & Hc & Harr & Hobjs).
  exists c. split; [done|]. split; [done|]. split; [done|].
  intros e He. rewrite Forall_forall in Hobjs, Hroutes, Hsep.
  split; [by apply Hobjs|].
  destruct (Hroutes e He) as
    (rs & (items & (ar & Hr & Har)%items_of_Some & [-> Hrs]%objects_of_Some)%routes_of_Some
        & Hndr).
  exists ar, rs. split; [done|]. split; [|done].
  intros ->. apply (Hsep e He). by rewrite Hr, Hc.
Qed.

Lemma tidy_intro w c es :
  environments w = VRef c → arr_at (heap w) c = Some (VRef <$> es) → NoDup es →
  (∀ e, e ∈ es →
     is_Some (obj_at (heap w) e) ∧
     ∃ ar rs, prop (heap w) (VRef e) "routes" = VRef ar ∧ ar ≠ c ∧
              arr_at (heap w) ar = Some (VRef <$> rs) ∧
              Forall (λ l, is_Some (obj_at (heap w) l)) rs ∧ NoDup rs) →
  tidy w.
Proof.
  intros Hc Harr Hnd Hes.
  assert (collection_of w = Some es) as Hcoll.
  { apply collection_of_Some. exists c. split; [done|]. split; [done|].
    apply Forall_forall. intros e He. by apply Hes. }
  unfold tidy, well_formed. rewrite Hcoll. split; [split; [done|]|].
  - apply Forall_forall. intros e He.
    destruct (Hes e He) as (_ & ar & rs & Hr & _ & Har & Hrs & Hndr).
    unfold distinct_routes.
    assert (routes_of (heap w) (VRef e) = Some rs) as ->; [|done].
    apply routes_of_Some. exists (VRef <$> rs). split.
    + apply items_of_Some. eauto.
    + by apply objects_of_Some.
  - apply Forall_forall. intros e He.
    destruct (Hes e He) as (_ & ar & rs & Hr & Hne & _).
    rewrite Hr, Hc. by intros [= ->].
Qed.

(** One step of the API on a tidy collection: objects stay objects
    with the [routes] they had, arrays other than the collection and
    the array [t] written to are as they were, and [t], when it is not
    the collection, holds distinct objects. *)
Lemma tidy_step w w' c (es es' : list loc) (t : loc) (lt : list loc) :
  environments w = VRef c →
  (∀ e, e ∈ es →
     is_Some (obj_at (heap w) e) ∧
     ∃ ar rs, prop (heap w) (VRef e) "routes" = VRef ar ∧ ar ≠ c ∧
              arr_at (heap w) ar = Some (VRef <$> rs) ∧
              Forall (λ l, is_Some (obj_at (heap w) l)) rs ∧ NoDup rs) →
  environments w' = VRef c →
  arr_at (heap w') c = Some (VRef <$> es') →
  NoDup es' →
  (∀ l, is_Some (obj_at (heap w) l) →
        is_Some (obj_at (heap w') l) ∧
        prop (heap w') (VRef l) "routes" = prop (heap w) (VRef l) "routes") →
  (∀ l items, arr_at (heap w) l = Some items → l ≠ t → l ≠ c →
              arr_at (heap w') l = Some items) →
  (t = c ∨ (arr_at (heap w') t = Some (VRef <$> lt) ∧
            Forall (λ l, is_Some (obj_at (heap w') l)) lt ∧ NoDup lt)) →
  (∀ e, e ∈ es' →
     e ∈ es ∨
     (is_Some (obj_at (heap w') e) ∧
      ∃ ar rs, prop (heap w') (VRef e) "routes" = VRef ar ∧ ar ≠ c ∧
               arr_at (heap w') ar = Some (VRef <$> rs) ∧
               Forall (λ l, is_Some (obj_at (heap w') l)) rs ∧ NoDup rs)) →
  tidy w'.
Proof.
  intros Hc Hes Hc' Harr' Hnd' Hobjects Harrays Ht Hes'.
  apply (tidy_intro w' c es' Hc' Harr' Hnd').
  intros e He. destruct (Hes' e He) as [Hold|Hnew]; [|done].
  destruct (Hes e Hold) as (Hobj & ar & rs & Hr & Hne & Har & Hrs & Hndr).
  destruct (Hobjects e Hobj) as [Hobj' Hr']. split; [done|].
  rewrite Hr in Hr'.
  destruct (decide (ar = t)) as [->|Hart].
  - destruct Ht as [->|(Ht & Hlt & Hndt)]; [done|].
    exists t, lt. by repeat split.
  - exists ar, rs. split; [done|]. split; [done|]. split; [by apply Harrays|].
    split; [|done]. eapply Forall_impl; [exact Hrs|]. intros l Hl. by apply Hobjects.
Qed.

Lemma object_not_array h l m items : obj_at h l = Some m → arr_at h l = Some items → False.
Proof. intros Hm%obj_at_lookup Ha%arr_at_lookup. congruence. Qed.

Lemma objects_not_array h (ls : list loc) l items :
  Forall (λ l, is_Some (obj_at h l)) ls → arr_at h l = Some items → l ∉ ls.
Proof.
  intros Hls Ha Hin. rewrite Forall_forall in Hls. destruct (Hls l Hin) as [m Hm].
  by eapply object_not_array.
Qed.

(** X23. [addRoute] keeps the collection tidy.  A collection is tidy
    when it is an array of distinct environment objects, each with a
    [routes] array of distinct route objects that is not the collection
    array itself.  On an environment of a tidy collection, with the two
    schemas it copies being objects, [addRoute] returns, the collection
    holds the same environments afterwards and is tidy again. *)
Theorem addRoute_keeps_tidy w e cb hs mh rs mr es :
  customHeadersSchema w = VRef hs →
  obj_at (heap w) hs = Some mh →
  routeSchema w = VRef rs →
  obj_at (heap w) rs = Some mr →
  tidy w →
  collection_of w = Some es →
  e ∈ es →
  ∃ index w', addRoute (VRef e) cb w = Returned index w' ∧ tidy w' ∧
              collection_of w' = Some es.
Proof.
  intros Hhs Hmh Hrs Hmr Htidy Hcoll He.
  destruct (tidy_inv w es Htidy Hcoll) as (c & Hc & Harr & Hnd & Hes).
  destruct (Hes e He) as (Hobj & ar0 & rs0 & Hr0 & Hne0 & Har0 & Hrs0 & Hnd0).
  destruct (addRoute_appends w (VRef e) cb hs mh rs mr ar0 _ Hhs Hmh Hrs Hmr Hr0 Har0)
    as (h & ha & r & w' & Hrun & Hs & Hndn & Hfresh & Hheap).
  apply same_service_fields in Hs as (Henv & _).
  assert (∀ l, l ∈ dom (heap w) → l ≠ h ∧ l ≠ ha ∧ l ≠ r) as Hne.
  { intros l Hl.
    assert (∀ l', l' ∈ [h; ha; r] → l ≠ l') as Hl'.
    { intros l' Hin <-. by apply (Hfresh l). }
    repeat split; apply Hl'; in_list. }
  assert (∀ l o, heap w !! l = Some o → l ≠ ar0 → heap w' !! l = Some o) as Hold.
  { intros l o Hl Hla. rewrite Hheap.
    destruct (Hne l) as (? & ? & ?); [apply elem_of_dom; eauto|].
    by lookup_inserted. }
  assert (∀ l m, obj_at (heap w) l = Some m → obj_at (heap w') l = Some m) as Hobjs.
  { intros l m Hm. unfold obj_at. rewrite (Hold l (OObj m)); [done|by apply obj_at_lookup|].
    intros ->. by eapply object_not_array. }
  assert (arr_at (heap w') c = Some (VRef <$> es)) as Harr'.
  { unfold arr_at. by rewrite (Hold c _ (arr_at_lookup _ _ _ Harr)). }
  assert (tidy w') as Htidy'.
  { apply (tidy_step w w' c es es ar0 (rs0 ++ [r]) Hc Hes); try done.
    - by rewrite Henv.
    - intros l [m Hm]. pose proof (Hobjs l m Hm) as Hm'. split; [eauto|].
      by rewrite (prop_obj_at _ _ _ _ Hm), (prop_obj_at _ _ _ _ Hm').
    - intros l items Hl Hla _. unfold arr_at.
      by rewrite (Hold l _ (arr_at_lookup _ _ _ Hl) Hla).
    - right. split; [|split].
      + unfold arr_at. rewrite Hheap. lookup_inserted. by rewrite fmap_app.
      + apply Forall_app. split.
        * eapply Forall_impl; [exact Hrs0|]. intros l [m Hm]. exists m. by apply Hobjs.
        * apply Forall_singleton. unfold obj_at. rewrite Hheap.
          destruct (Hne ar0) as (? & ? & ?); [by eapply arr_at_dom|].
          lookup_inserted. eauto.
      + apply NoDup_app. split; [done|]. split; [|apply NoDup_singleton].
        intros l Hl ->%list_elem_of_singleton.
        rewrite Forall_forall in Hrs0. destruct (Hrs0 r Hl) as [m Hm].
        apply (Hfresh r); [in_list|]. by eapply obj_at_dom.
    - intros e' He'. by left. }
  exists (Z.of_nat (length (VRef <$> rs0))), w'. split; [done|]. split; [done|].
  apply collection_of_Some. exists c. split; [by rewrite Henv|]. split; [done|].
  apply Forall_forall. intros e' He'. destruct (Hes e' He') as ([m Hm] & _).
  exists m. by apply Hobjs.
Qed.

Lemma addRoute_keeps_tidy_witness :
  let w := started in
  let hs := 7%positive in
  let rs := 6%positive in
  let mh := fields_of (heap w) (VRef hs) in
  let mr := fields_of (heap w) (VRef rs) in
  let es := [8%positive] in
  customHeadersSchema w = VRef hs ∧
  obj_at (heap w) hs = Some mh ∧
  routeSchema w = VRef rs ∧
  obj_at (heap w) rs = Some mr ∧
  tidy w ∧
  collection_of w = Some es ∧
  8%positive ∈ es ∧
  ∃ index w', addRoute (VRef 8%positive) (Some 5) w = Returned index w' ∧ tidy w' ∧
              collection_of w' = Some es.
Proof.
  intros w hs rs mh mr es.
  assert (customHeadersSchema w = VRef hs) as H1 by (by vm_compute).
  assert (obj_at (heap w) hs = Some mh) as H2.
  { apply fields_of_obj_at. apply (bool_decide_unpack _). by vm_compute. }
  assert (routeSchema w = VRef rs) as H3 by (by vm_compute).
  assert (obj_at (heap w) rs = Some mr) as H4.
  { apply fields_of_obj_at. apply (bool_decide_unpack _). by vm_compute. }
  assert (tidy w) as H5 by (apply (bool_decide_unpack _); by vm_compute).
  assert (collection_of w = Some es) as H6 by (by vm_compute).
  assert (8%positive ∈ es) as H7 by in_list.
  split; [exact H1|]. split; [exact H2|]. split; [exact H3|]. split; [exact H4|].
  split; [exact H5|]. split; [exact H6|]. split; [exact H7|].
  exact (addRoute_keeps_tidy w 8%positive (Some 5) hs mh rs mr es H1 H2 H3 H4 H5 H6 H7).
Defined.

(** X24. [removeRoute] keeps the collection tidy, whatever the index:
    on an environment of a tidy collection it returns for every
    [routeIndex] (in range, past the end or negative), the collection
    holds the same environments afterwards and is tidy again. *)
Theorem removeRoute_keeps_tidy w e (routeIndex : Z) cb es :
  tidy w →
  collection_of w = Some es →
  e ∈ es →
  ∃ w', removeRoute (VRef e) routeIndex cb w = Returned tt w' ∧ tidy w' ∧
        collection_of w' = Some es.
Proof.
  intros Htidy Hcoll He.
  destruct (tidy_inv w es Htidy Hcoll) as (c & Hc & Harr & Hnd & Hes).
  destruct (Hes e He) as (Hobj & ar0 & rs0 & Hr0 & Hne0 & Har0 & Hrs0 & Hnd0).
  assert (routes_of (heap w) (VRef e) = Some rs0) as Hroutes.
  { apply routes_of_Some. exists (VRef <$> rs0). split.
    - apply items_of_Some. eauto.
    - by apply objects_of_Some. }
  destruct (removeRoute_splices w (VRef e) rs0 routeIndex cb Hroutes Hnd0)
    as (w1 & Hrun & Hs & Hroutes1 & _ & Hothers & Hprops).
  set (rs1 := delete (splice_start (length rs0) routeIndex) rs0) in *.
  apply same_service_fields in Hs as (Henv & _). simpl in Henv.
  pose proof Hroutes1 as Hroutes1'.
  apply routes_of_Some in Hroutes1' as (items1 & Hitems1 & Hobjects1).
  apply items_of_Some in Hitems1 as (ar1 & Hr1 & Har1).
  apply objects_of_Some in Hobjects1 as [Heq Hrs1]. subst items1.
  assert (∀ l, l ∈ rs1 → l ∈ rs0) as Hsub by (intros l; apply elem_of_delete).
  assert (∀ l, is_Some (obj_at (heap w) l) →
               is_Some (obj_at (heap w1) l) ∧
               ∀ k, k ≠ "duplicates" →
                    prop (heap w1) (VRef l) k = prop (heap w) (VRef l) k) as Hobjects.
  { intros l [m Hm]. destruct (decide (l ∈ rs1)) as [Hin|Hout].
    - split; [|intros k Hk; by apply Hprops].
      rewrite Forall_forall in Hrs1. by apply Hrs1.
    - assert (heap w1 !! l = Some (OObj m)) as Hl.
      { apply Hothers; [by apply obj_at_lookup| |done].
        rewrite Hr0. intros [= ->]. by eapply object_not_array. }
      assert (obj_at (heap w1) l = Some m) as Hm1 by (unfold obj_at; by rewrite Hl).
      split; [eauto|]. intros k _.
      by rewrite (prop_obj_at _ _ _ _ Hm), (prop_obj_at _ _ _ _ Hm1). }
  assert (∀ l items, arr_at (heap w) l = Some items → l ≠ ar0 →
                     arr_at (heap w1) l = Some items) as Harrays.
  { intros l items Hl Hla. unfold arr_at. rewrite (Hothers l (OArr items)); [done| | |].
    - by apply arr_at_lookup.
    - rewrite Hr0. by intros [= ->].
    - intros Hin. eapply objects_not_array; [exact Hrs0|exact Hl|]. by apply Hsub. }
  assert (ar1 = ar0) as ->.
  { destruct (Hobjects e Hobj) as [_ Hsame]. rewrite Hsame, Hr0 in Hr1 by done.
    by injection Hr1. }
  assert (arr_at (heap w1) c = Some (VRef <$> es)) as Harr1 by (by apply Harrays).
  exists (add_event (UpdateEvent (VRef e) cb) w1).
  split; [done|]. split.
  - apply (tidy_step w _ c es es ar0 rs1 Hc Hes); try done.
    + simpl. by rewrite Henv.
    + intros l Hl. destruct (Hobjects l Hl) as [Hl1 Hsame]. split; [done|].
      by apply Hsame.
    + intros l items Hl Hla _. by apply Harrays.
    + right. split; [done|]. split; [done|]. by apply NoDup_delete.
    + intros e' He'. by left.
  - apply collection_of_Some. exists c. split; [simpl; by rewrite Henv|].
    split; [done|]. apply Forall_forall. intros e' He'.
    destruct (Hes e' He') as (Hobj' & _). by apply Hobjects.
Qed.

Lemma removeRoute_keeps_tidy_witness :
  let w := started in
  let es := [8%positive] in
  tidy w ∧
  collection_of w = Some es ∧
  8%positive ∈ es ∧
  ∃ w', removeRoute (VRef 8%positive) (-1) (Some 5) w = Returned tt w' ∧ tidy w' ∧
        collection_of w' = Some es.
Proof.
  intros w es.
  assert (tidy w) as H1 by (apply (bool_decide_unpack _); by vm_compute).
  assert (collection_of w = Some es) as H2 by (by vm_compute).
  assert (8%positive ∈ es) as H3 by in_list.
  split; [exact H1|]. split; [exact H2|]. split; [exact H3|].
  exact (removeRoute_keeps_tidy w 8%positive (-1) (Some 5) es H1 H2 H3).
Defined.

(** X25. [addEnvironment] keeps the collection tidy: on a tidy
    collection, with the three schemas it copies being objects, it
    returns, the collection is the old one followed by one new
    environment, and it is tidy again (the new environment's [routes]
    array is a fresh array holding one fresh route). *)
Theorem addEnvironment_keeps_tidy w cb hs mh rs mr es me envs :
  customHeadersSchema w = VRef hs →
  obj_at (heap w) hs = Some mh →
  routeSchema w = VRef rs →
  obj_at (heap w) rs = Some mr →
  environmentSchema w = VRef es →
  obj_at (heap w) es = Some me →
  tidy w →
  collection_of w = Some envs →
  ∃ index w' e, addEnvironment cb w = Returned index w' ∧ tidy w' ∧
                collection_of w' = Some (envs ++ [e]).
Proof.
  intros Hhs Hmh Hrs Hmr Hes Hme Htidy Hcoll.
  destruct (tidy_inv w envs Htidy Hcoll) as (c & Hc & Harr & Hnd & Henvs).
  destruct (addEnvironment_appends w cb hs mh rs mr es me c _
              Hhs Hmh Hrs Hmr Hes Hme Hc Harr)
    as (h & ha & r & ra & dt & e & w' & Hrun & Hs & Hndn & Hfresh & Hheap).
  apply same_service_fields in Hs as (Henv & _). simpl in Henv.
  assert (∀ l, l ∈ dom (heap w) →
               l ≠ h ∧ l ≠ ha ∧ l ≠ r ∧ l ≠ ra ∧ l ≠ dt ∧ l ≠ e) as Hne.
  { intros l Hl.
    assert (∀ l', l' ∈ [h; ha; r; ra; dt; e] → l ≠ l') as Hl'.
    { intros l' Hin <-. by apply (Hfresh l). }
    repeat split; apply Hl'; in_list. }
  assert (h ≠ ha ∧ h ≠ r ∧ h ≠ ra ∧ h ≠ dt ∧ h ≠ e ∧ ha ≠ r ∧ ha ≠ ra ∧ ha ≠ dt ∧ ha ≠ e ∧
          r ≠ ra ∧ r ≠ dt ∧ r ≠ e ∧ ra ≠ dt ∧ ra ≠ e ∧ dt ≠ e)
    as (? & ? & ? & ? & ? & ? & ? & ? & ? & ? & ? & ? & ? & ? & ?).
  { pose proof (NoDup_cons_1_1 _ _ Hndn) as H1.
    pose proof (NoDup_cons_1_2 _ _ Hndn) as Hnd2.
    pose proof (NoDup_cons_1_1 _ _ Hnd2) as H2.
    pose proof (NoDup_cons_1_2 _ _ Hnd2) as Hnd3.
    pose proof (NoDup_cons_1_1 _ _ Hnd3) as H3.
    pose proof (NoDup_cons_1_2 _ _ Hnd3) as Hnd4.
    pose proof (NoDup_cons_1_1 _ _ Hnd4) as H4.
    pose proof (NoDup_cons_1_2 _ _ Hnd4) as Hnd5.
    pose proof (NoDup_cons_1_1 _ _ Hnd5) as H5.
    repeat (apply not_elem_of_cons in H1 as [? H1]).
    repeat (apply not_elem_of_cons in H2 as [? H2]).
    repeat (apply not_elem_of_cons in H3 as [? H3]).
    repeat (apply not_elem_of_cons in H4 as [? H4]).
    repeat (apply not_elem_of_cons in H5 as [? H5]).
    done. }
  destruct (Hne c) as (? & ? & ? & ? & ? & ?); [by eapply arr_at_dom|].
  assert (∀ l o, heap w !! l = Some o → l ≠ c → heap w' !! l = Some o) as Hold.
  { intros l o Hl Hla. rewrite Hheap.
    destruct (Hne l) as (? & ? & ? & ? & ? & ?); [apply elem_of_dom; eauto|].
    by lookup_inserted. }
  assert (∀ l m, obj_at (heap w) l = Some m → obj_at (heap w') l = Some m) as Hobjs.
  { intros l m Hm. unfold obj_at. rewrite (Hold l (OObj m)); [done|by apply obj_at_lookup|].
    intros ->. by eapply object_not_array. }
  set (kvs := [("uuid", VStr (uuid_source w (S (uuid_calls w))));
               ("name", VStr "New environment"); ("port", VNum 3000);
               ("routes", VRef ra); ("modifiedAt", VRef dt)]) in *.
  assert (obj_at (heap w') e = Some (literal kvs ∪ me)) as He'.
  { unfold obj_at. rewrite Hheap. by lookup_inserted. }
  assert (arr_at (heap w') c = Some (VRef <$> envs ++ [e])) as Harr'.
  { unfold arr_at. rewrite Hheap. lookup_inserted. by rewrite fmap_app. }
  assert (e ∉ envs) as Hnew.
  { intros Hin. destruct (Henvs e Hin) as ([m Hm] & _).
    apply (Hfresh e); [in_list|]. by eapply obj_at_dom. }
  assert (NoDup (envs ++ [e])) as Hnd'.
  { apply NoDup_app. split; [done|]. split; [|apply NoDup_singleton].
    by intros l Hl ->%list_elem_of_singleton. }
  exists (Z.of_nat (length (VRef <$> envs))), w', e. split; [done|]. split.
  - apply (tidy_step w w' c envs (envs ++ [e]) c [] Hc Henvs); try done.
    + by rewrite Henv.
    + intros l [m Hm]. pose proof (Hobjs l m Hm) as Hm'. split; [eauto|].
      by rewrite (prop_obj_at _ _ _ _ Hm), (prop_obj_at _ _ _ _ Hm').
    + intros l items Hl _ Hlc. unfold arr_at.
      by rewrite (Hold l _ (arr_at_lookup _ _ _ Hl) Hlc).
    + by left.
    + intros e' Hin. apply elem_of_app in Hin as [Hold'|Hin]; [by left|].
      apply list_elem_of_singleton in Hin as ->. right.
      split; [rewrite He'; eauto|]. exists ra, [r].
      split.
      { rewrite (prop_obj_at _ _ _ _ He').
        by rewrite (lookup_union_Some_l _ _ _ (VRef ra)) by (by rewrite literal_lookup). }
      split; [done|]. split; [unfold arr_at; rewrite Hheap; by lookup_inserted|].
      split; [|apply NoDup_singleton].
      apply Forall_singleton. unfold obj_at. rewrite Hheap. lookup_inserted. eauto.
  - apply collection_of_Some. exists c. split; [by rewrite Henv|]. split; [done|].
    apply Forall_app. split.
    + apply Forall_forall. intros e' He''. destruct (Henvs e' He'') as ([m Hm] & _).
      exists m. by apply Hobjs.
    + apply Forall_singleton. rewrite He'. eauto.
Qed.

Lemma addEnvironment_keeps_tidy_witness :
  let w := started in
  let hs := 7%positive in
  let rs := 6%positive in
  let es := 3%positive in
  let mh := fields_of (heap w) (VRef hs) in
  let mr := fields_of (heap w) (VRef rs) in
  let me := fields_of (heap w) (VRef es) in
  let envs := [8%positive] in
  customHeadersSchema w = VRef hs ∧
  obj_at (heap w) hs = Some mh ∧
  routeSchema w = VRef rs ∧
  obj_at (heap w) rs = Some mr ∧
  environmentSchema w = VRef es ∧
  obj_at (heap w) es = Some me ∧
  tidy w ∧
  collection_of w = Some envs ∧
  ∃ index w' e, addEnvironment (Some 5) w = Returned index w' ∧ tidy w' ∧
                collection_of w' = Some (envs ++ [e]).
Proof.
  intros w hs rs es mh mr me envs.
  assert (customHeadersSchema w = VRef hs) as H1 by (by vm_compute).
  assert (obj_at (heap w) hs = Some mh) as H2.
  { apply fields_of_obj_at. apply (bool_decide_unpack _). by vm_compute. }
  assert (routeSchema w = VRef rs) as H3 by (by vm_compute).
  assert (obj_at (heap w) rs = Some mr) as H4.
  { apply fields_of_obj_at. apply (bool_decide_unpack _). by vm_compute. }
  assert (environmentSchema w = VRef es) as H5 by (by vm_compute).
  assert (obj_at (heap w) es = Some me) as H6.
  { apply fields_of_obj_at. apply (bool_decide_unpack _). by vm_compute. }
  assert (tidy w) as H7 by (apply (bool_decide_unpack _); by vm_compute).
  assert (collection_of w = Some envs) as H8 by (by vm_compute).
  split; [exact H1|]. split; [exact H2|]. split; [exact H3|]. split; [exact H4|].
  split; [exact H5|]. split; [exact H6|]. split; [exact H7|]. split; [exact H8|].
  exact (addEnvironment_keeps_tidy w (Some 5) hs mh rs mr es me envs
           H1 H2 H3 H4 H5 H6 H7 H8).
Defined.

(** X26. [removeEnvironment] keeps the collection tidy: at an index of
    a tidy collection it returns, the collection is the old one without
    that position, and it is tidy again. *)
Theorem removeEnvironment_keeps_tidy w (i : nat) l envs :
  tidy w →
  collection_of w = Some envs →
  envs !! i = Some l →
  ∃ w', removeEnvironment (Z.of_nat i) w = Returned tt w' ∧ tidy w' ∧
        collection_of w' = Some (delete i envs).
Proof.
  intros Htidy Hcoll Hi.
  destruct (tidy_inv w envs Htidy Hcoll) as (c & Hc & Harr & Hnd & Henvs).
  assert (Forall (λ l, is_Some (obj_at (heap w) l)) envs) as Hobjs.
  { apply Forall_forall. intros e He. by apply Henvs. }
  destruct (removeEnvironment_splices w c envs i l Hc Harr Hobjs Hnd Hi)
    as (w1 & Hrun & Hs & Harr1 & Hobjs1 & Hothers & Hprops & _).
  assert (environments w1 = VRef c) as Henv1.
  { apply same_service_fields in Hs as (-> & _). by destruct (truthy _). }
  assert (∀ e, e ∈ delete i envs → e ∈ envs) as Hsub by (intros e; apply elem_of_delete).
  exists (add_event (UpdateEvent VNull None) w1).
  split; [done|]. split.
  - apply (tidy_step w _ c envs (delete i envs) c [] Hc Henvs); try done.
    + by apply NoDup_delete.
    + intros l' [m Hm]. destruct (decide (l' ∈ delete i envs)) as [Hin|Hout].
      * split; [|by apply Hprops]. rewrite Forall_forall in Hobjs1. by apply Hobjs1.
      * assert (heap w1 !! l' = Some (OObj m)) as Hl'.
        { apply Hothers; [by apply obj_at_lookup| |done].
          intros ->. by eapply object_not_array. }
        assert (obj_at (heap w1) l' = Some m) as Hm1 by (unfold obj_at; by rewrite Hl').
        split; [simpl; eauto|].
        change (heap (add_event (UpdateEvent VNull None) w1)) with (heap w1).
        by rewrite (prop_obj_at _ _ _ _ Hm), (prop_obj_at _ _ _ _ Hm1).
    + intros l' items Hl' _ Hlc. unfold arr_at. simpl.
      rewrite (Hothers l' (OArr items)); [done|by apply arr_at_lookup|done|].
      intros Hin. eapply objects_not_array; [exact Hobjs|exact Hl'|]. by apply Hsub.
    + by left.
    + intros e He. left. by apply Hsub.
  - apply collection_of_Some. exists c. by split.
Qed.

Lemma removeEnvironment_keeps_tidy_witness :
  let w := two_environments in
  let envs := [8; 22]%positive in
  tidy w ∧
  collection_of w = Some envs ∧
  envs !! 0%nat = Some 8%positive ∧
  ∃ w', removeEnvironment (Z.of_nat 0) w = Returned tt w' ∧ tidy w' ∧
        collection_of w' = Some (delete 0%nat envs).
Proof.
  intros w envs.
  assert (tidy w) as H1 by (apply (bool_decide_unpack _); by vm_compute).
  assert (collection_of w = Some envs) as H2 by (by vm_compute).
  assert (envs !! 0%nat = Some 8%positive) as H3 by done.
  split; [exact H1|]. split; [exact H2|]. split; [exact H3|].
  exact (removeEnvironment_keeps_tidy w 0 8%positive envs H1 H2 H3).
Defined.

(** ** The counter of routes against the routes *)

(** The copy of an array is an array of copies. *)
Lemma cloned_array hosts (h h' : gmap loc object) l xs v' :
  h !! l = Some (OArr xs) → cloned hosts h h' (VRef l) v' →
  ∃ l' ys, v' = VRef l' ∧ (l' ∉ dom h) ∧ h' !! l' = Some (OArr ys) ∧
           Forall2 (cloned hosts h h') xs ys.
Proof.
  intros Hl Hc.
  inversion Hc as [? Hp|? Hh Hhost|? ? ? Hd|? l' xs0 ys Ha Hl' Hys HF|? ? ? ? Hm];
    simplify_eq.
  - by destruct (Hp l).
  - by exists l', ys.
Qed.

Lemma cloned_routes hosts (h h' : gmap loc object) (ls : list loc) ys :
  Forall (λ l, is_Some (obj_at h l)) ls →
  Forall2 (cloned hosts h h') (VRef <$> ls) ys →
  ∃ ls', ys = VRef <$> ls' ∧ length ls' = length ls ∧
         Forall (λ l, is_Some (obj_at h' l)) ls'.
Proof.
  intros Hobjs. revert ys. induction Hobjs as [|l ls [m Hm] _ IH]; intros ys Hys.
  - apply Forall2_nil_inv_l in Hys as ->. by exists [].
  - rewrite fmap_cons in Hys.
    apply Forall2_cons_inv_l in Hys as (y & ys' & Hy & Hys' & ->).
    destruct (IH _ Hys') as (ls' & -> & Hlen & Hobjs').
    destruct (cloned_object _ _ _ _ _ _ (obj_at_lookup _ _ _ Hm) Hy)
      as (l' & m' & -> & _ & Hl' & _).
    exists (l' :: ls'). split; [done|]. split; [simpl; by rewrite Hlen|].
    constructor; [|done]. unfold obj_at. rewrite Hl'. eauto.
Qed.

(** [duplicateEnvironment] at an index of the collection: the new
    environment, its routes and the counter. *)
Lemma duplicateEnvironment_pushes w (fuel d i : nat) cb a items e m name r ritems :
  environments w = VRef a →
  arr_at (heap w) a = Some items →
  items !! i = Some (VRef e) →
  obj_at (heap w) e = Some m →
  m !! "name" = Some (VStr name) →
  m !! "routes" = Some (VRef r) →
  arr_at (heap w) r = Some ritems →
  plain false d (heap w) (VRef r) = true →
  (d ≤ fuel)%nat →
  ∃ w' e' routes',
    duplicateEnvironment fuel (Z.of_nat i) cb w
    = Returned (Z.of_nat (length items)) w' ∧
    environments w' = VRef a ∧
    arr_at (heap w') a = Some (items ++ [VRef e']) ∧
    (∀ l o, heap w !! l = Some o → l ≠ a → heap w' !! l = Some o) ∧
    (e' ∉ dom (heap w)) ∧
    is_Some (obj_at (heap w') e') ∧
    prop (heap w') (VRef e') "routes" = routes' ∧
    cloned false (heap w) (heap w') (VRef r) routes' ∧
    routesTotal w' = (routesTotal w + Z.of_nat (length ritems))%Z.
Proof.
  intros Henv Ha Hi He Hname Hroutes Hr Hplain Hfuel.
  set (w1 := set_uuid_calls (S (uuid_calls w)) w).
  set (dups := fresh (dom (heap w))).
  set (w2 := set_heap <[dups := OArr []]> w1).
  assert (heap w ⊆ heap w2) as Hsub2 by apply insert_fresh_subseteq.
  destruct (cloneDeep_cloned false d fuel (VRef r) w2 (heap w) Hfuel Hsub2 Hplain)
    as (routes' & w3 & Hclone & Hs3 & Hsub3 & Hcloned).
  assert (heap w ⊆ heap w3) as Hsub3' by (by etrans).
  set (kvs := [("instance", VNull); ("running", VBool false);
               ("uuid", VStr (uuid_source w (uuid_calls w)));
               ("name", VStr (name ++ " (copy)")%string); ("startedAt", VNull);
               ("modifiedAt", VNull); ("duplicates", VRef dups);
               ("needRestart", VBool false); ("routes", routes')]).
  set (e' := fresh (dom (heap w3))).
  set (m' := literal kvs ∪ m).
  set (w4 := set_heap <[e' := OObj m']> w3).
  assert (heap w3 ⊆ heap w4) as Hsub4 by apply insert_fresh_subseteq.
  assert (heap w ⊆ heap w4) as Hsub4' by (by etrans).
  set (w5 := set_routesTotal (routesTotal w4 + Z.of_nat (length ritems)) w4).
  set (w6 := set_heap <[a := OArr (items ++ [VRef e'])]> w5).
  set (w7 := add_event (UpdateEvent (VRef e') cb) w6).
  destruct (same_service_fields _ _ Hs3) as (Henv3 & Htotal3 & _).
  simpl in Henv3, Htotal3. rewrite Henv in Henv3.
  assert (e' ∉ dom (heap w)) as He' by (by apply fresh_not_in_sub).
  assert (a ∈ dom (heap w)) as Hadom by (by eapply arr_at_dom).
  assert (a ≠ e') as Hae by (intros Heq; apply He'; by rewrite <- Heq).
  assert (outside (dom (heap w)) (heap w3) (heap w7)) as Hout.
  { intros l o Hl Hlo. simpl. rewrite lookup_insert_ne by (by intros <-).
    by eapply lookup_weaken. }
  assert (obj_at (heap w7) e' = Some m') as Hm'.
  { unfold obj_at. simpl. rewrite lookup_insert_ne by done.
    by rewrite lookup_insert_eq. }
  exists w7, e', routes'.
  split.
  { unfold duplicateEnvironment.
    erewrite bind_returned by reflexivity. rewrite Henv.
    erewrite bind_returned by (by eapply get_index_array). rewrite Hi. simpl.
    erewrite bind_returned by reflexivity.
    erewrite bind_returned by reflexivity. simpl. rewrite Henv.
    erewrite bind_returned by (by eapply get_index_array). rewrite Hi. simpl.
    erewrite bind_returned by (by eapply get_prop_field).
    erewrite bind_returned by reflexivity.
    erewrite bind_returned by reflexivity.
    erewrite bind_returned by reflexivity. simpl. rewrite Henv.
    erewrite bind_returned by (eapply get_index_array, arr_at_weaken; [exact Hsub2|exact Ha]).
    rewrite Hi. simpl.
    erewrite bind_returned
      by (eapply get_prop_field; [eapply obj_at_weaken; [exact Hsub2|exact He]|exact Hroutes]).
    erewrite bind_returned by exact Hclone.
    unfold Object_assign.
    erewrite bind_returned.
    2:{ erewrite bind_returned
          by (eapply own_fields_object, obj_at_weaken; [exact Hsub3'|exact He]).
        reflexivity. }
    erewrite bind_returned by reflexivity. simpl. rewrite Henv3.
    erewrite bind_returned by (eapply get_index_array, arr_at_weaken; [exact Hsub4'|exact Ha]).
    rewrite Hi. simpl.
    erewrite bind_returned
      by (eapply get_prop_field; [eapply obj_at_weaken; [exact Hsub4'|exact He]|exact Hroutes]).
    erewrite bind_returned
      by (eapply array_length_array, arr_at_weaken; [exact Hsub4'|exact Hr]).
    erewrite bind_returned by reflexivity.
    erewrite bind_returned by reflexivity. simpl. rewrite Henv3.
    erewrite bind_returned
      by (eapply push_array, (arr_at_weaken (heap w) _ _ _ Hsub4'); exact Ha).
    erewrite bind_returned by reflexivity.
    unfold mret, M_ret. f_equal.
    rewrite length_app. simpl. lia. }
  split; [simpl; by rewrite Henv3|].
  split; [apply arr_at_store_array|].
  split.
  { intros l o Hl Hne. simpl. rewrite lookup_insert_ne by done. by eapply lookup_weaken. }
  split; [done|].
  split; [rewrite Hm'; eauto|].
  split.
  { rewrite (prop_obj_at _ _ _ _ Hm'). unfold m'.
    by rewrite (lookup_union_Some_l _ _ _ routes') by (by rewrite literal_lookup). }
  split; [by apply Hcloned|].
  simpl. by rewrite Htotal3.
Qed.

(** [duplicateRoute] whatever the index: a route is appended, a copy of
    the route at the index or, outside the routes, of [undefined]. *)
Lemma duplicateRoute_pushes w (fuel d : nat) environment a (ls : list loc)
    (routeIndex : Z) cb :
  prop (heap w) environment "routes" = VRef a →
  arr_at (heap w) a = Some (VRef <$> ls) →
  Forall (λ l, is_Some (obj_at (heap w) l)) ls →
  forallb (plain false d (heap w)) (VRef <$> ls) = true →
  (d ≤ fuel)%nat →
  ∃ w' r',
    duplicateRoute fuel environment routeIndex cb w
    = Returned (Z.of_nat (length ls)) w' ∧
    routesTotal w' = (routesTotal w + 1)%Z ∧
    (r' ∉ dom (heap w)) ∧
    routes_of (heap w') environment = Some (ls ++ [r']).
Proof.
  intros Hr Ha Hobjs Hplains Hfuel.
  set (route := if decide (0 ≤ routeIndex)%Z
                then default VUndefined ((VRef <$> ls) !! Z.to_nat routeIndex)
                else VUndefined).
  assert (get_index (VRef a) routeIndex w = Returned route w) as Hget.
  { unfold get_index. by rewrite (arr_at_lookup _ _ _ Ha). }
  assert (route = VUndefined ∨
          ∃ r m, route = VRef r ∧ obj_at (heap w) r = Some m ∧
                 plain false d (heap w) (VRef r) = true) as Hroute.
  { unfold route. destruct (decide (0 ≤ routeIndex)%Z); [|by left].
    destruct ((VRef <$> ls) !! Z.to_nat routeIndex) as [v|] eqn:Hv; [|by left].
    right. rewrite list_lookup_fmap in Hv.
    destruct (ls !! Z.to_nat routeIndex) as [r|] eqn:Hl; [|done].
    injection Hv as <-.
    rewrite Forall_forall in Hobjs.
    destruct (Hobjs r (list_elem_of_lookup_2 _ _ _ Hl)) as [m Hm].
    exists r, m. split; [done|]. split; [done|].
    rewrite forallb_forall in Hplains. apply Hplains.
    apply list_elem_of_In, list_elem_of_fmap. exists r. split; [done|].
    by eapply list_elem_of_lookup_2. }
  clearbody route.
  assert (plain false d (heap w) route = true) as Hplain.
  { destruct Hroute as [->|(r & m & -> & _ & Hp)]; [by destruct d|done]. }
  destruct (cloneDeep_cloned false d fuel route w (heap w) Hfuel (reflexivity _) Hplain)
    as (clone & w1 & Hclone & Hs1 & Hsub1 & Hcloned).
  assert (∃ mc, ∀ w0, heap w1 ⊆ heap w0 → own_fields clone w0 = Returned mc w0)
    as (mc & Hown).
  { pose proof (Hcloned (heap w1) (outside_refl _ _)) as Hc.
    destruct Hroute as [->|(r & m & -> & Hm & _)].
    - inversion Hc; simplify_eq. by exists ∅.
    - destruct (cloned_object _ _ _ _ _ _ (obj_at_lookup _ _ _ Hm) Hc)
        as (c & mc & -> & _ & Hc1 & _).
      exists mc. intros w0 Hsub. apply own_fields_object. unfold obj_at.
      by rewrite (lookup_weaken _ _ _ _ Hc1 Hsub). }
  destruct (same_service_fields _ _ Hs1) as (_ & Htotal1 & _).
  set (w2 := set_uuid_calls (S (uuid_calls w1)) w1).
  set (dups := fresh (dom (heap w1))).
  set (w3 := set_heap <[dups := OArr []]> w2).
  set (kvs := [("uuid", VStr (uuid_source w1 (uuid_calls w1))); ("duplicates", VRef dups)]).
  set (m' := literal kvs ∪ mc).
  set (r' := fresh (dom (heap w3))).
  set (w4 := set_heap <[r' := OObj m']> w3).
  set (w5 := set_heap <[a := OArr ((VRef <$> ls) ++ [VRef r'])]> w4).
  set (w6 := set_routesTotal (routesTotal w5 + 1) w5).
  set (w7 := add_event (UpdateEvent environment cb) w6).
  assert (heap w1 ⊆ heap w3) as Hsub3 by apply insert_fresh_subseteq.
  assert (heap w3 ⊆ heap w4) as Hsub4 by apply insert_fresh_subseteq.
  assert (heap w ⊆ heap w3) as Hsub3' by (by etrans).
  assert (heap w ⊆ heap w4) as Hsub4' by (by etrans).
  assert (a ∈ dom (heap w)) as Hadom by (by eapply arr_at_dom).
  assert (r' ∉ dom (heap w)) as Hrw by (by apply fresh_not_in_sub).
  assert (a ≠ r') as Har by (intros Heq; apply Hrw; by rewrite <- Heq).
  destruct (prop_ref_inv _ _ _ _ Hr) as (le & me & -> & Hme).
  assert (∀ h', heap w ⊆ h' → prop h' (VRef le) "routes" = VRef a) as Hroutes.
  { intros h' Hsub. unfold prop in *. rewrite (obj_at_weaken _ _ _ _ Hsub Hme).
    by rewrite Hme in Hr. }
  exists w7, r'.
  split.
  { unfold duplicateRoute.
    erewrite bind_returned by (by eapply get_prop_ref).
    erewrite bind_returned by exact Hget.
    erewrite bind_returned by exact Hclone.
    erewrite bind_returned by reflexivity.
    erewrite bind_returned by reflexivity.
    unfold Object_assign.
    erewrite bind_returned.
    2:{ erewrite bind_returned by exact (Hown w3 Hsub3). reflexivity. }
    erewrite bind_returned by exact (get_prop_ref (VRef le) "routes" a w4 (Hroutes _ Hsub4')).
    erewrite bind_returned
      by exact (push_array a (VRef <$> ls) _ w4 (arr_at_weaken _ _ _ _ Hsub4' Ha)).
    erewrite bind_returned by reflexivity.
    erewrite bind_returned by reflexivity.
    unfold mret, M_ret. f_equal.
    rewrite length_app, length_fmap. simpl. lia. }
  split; [simpl; by rewrite Htotal1|].
  split; [done|].
  assert (arr_at (heap w4) a = Some (VRef <$> ls)) as Ha4 by (by eapply arr_at_weaken).
  apply routes_of_Some. exists (VRef <$> ls ++ [r']). split.
  - apply items_of_Some. exists a. split.
    + change (prop (<[a := OArr ((VRef <$> ls) ++ [VRef r'])]> (heap w4)) (VRef le) "routes"
              = VRef a).
      rewrite (prop_store_array _ _ _ _ _ _ Ha4). by apply Hroutes.
    + change (arr_at (<[a := OArr ((VRef <$> ls) ++ [VRef r'])]> (heap w4)) a
              = Some (VRef <$> ls ++ [r'])).
      rewrite arr_at_store_array. by rewrite fmap_app.
  - apply objects_of_Some. split; [done|].
    apply Forall_forall. intros l Hl.
    change (is_Some (obj_at (<[a := OArr ((VRef <$> ls) ++ [VRef r'])]> (heap w4)) l)).
    rewrite (obj_at_store_array _ _ _ _ _ Ha4).
    apply elem_of_app in Hl as [Hl|Hl].
    + rewrite Forall_forall in Hobjs. destruct (Hobjs l Hl) as [m Hm].
      exists m. by eapply obj_at_weaken.
    + apply list_elem_of_singleton in Hl as ->. exists m'.
      unfold obj_at. simpl. by rewrite lookup_insert_eq.
Qed.

(** [addEnvironment]: the new environment has one route. *)
Lemma addEnvironment_counts w cb hs mh rs mr es me c (envs : list loc) :
  customHeadersSchema w = VRef hs →
  obj_at (heap w) hs = Some mh →
  routeSchema w = VRef rs →
  obj_at (heap w) rs = Some mr →
  environmentSchema w = VRef es →
  obj_at (heap w) es = Some me →
  environments w = VRef c →
  arr_at (heap w) c = Some (VRef <$> envs) →
  Forall (λ l, is_Some (obj_at (heap w) l)) envs →
  ∃ w' e r,
    addEnvironment cb w = Returned (Z.of_nat (length envs)) w' ∧
    routesTotal w' = (routesTotal w + 1)%Z ∧
    (e ∉ dom (heap w)) ∧
    collection_of w' = Some (envs ++ [e]) ∧
    routes_of (heap w') (VRef e) = Some [r].
Proof.
  intros Hhs Hmh Hrs Hmr Hes Hme Hc Harr Hobjs.
  destruct (addEnvironment_appends w cb hs mh rs mr es me c _
              Hhs Hmh Hrs Hmr Hes Hme Hc Harr)
    as (h & ha & r & ra & dt & e & w' & Hrun & Hs & Hndn & Hfresh & Hheap).
  apply same_service_fields in Hs as (Henv & Htotal & _). simpl in Henv, Htotal.
  assert (∀ l, l ∈ dom (heap w) →
               l ≠ h ∧ l ≠ ha ∧ l ≠ r ∧ l ≠ ra ∧ l ≠ dt ∧ l ≠ e) as Hne.
  { intros l Hl.
    assert (∀ l', l' ∈ [h; ha; r; ra; dt; e] → l ≠ l') as Hl'.
    { intros l' Hin <-. by apply (Hfresh l). }
    repeat split; apply Hl'; in_list. }
  assert (h ≠ ha ∧ h ≠ r ∧ h ≠ ra ∧ h ≠ dt ∧ h ≠ e ∧ ha ≠ r ∧ ha ≠ ra ∧ ha ≠ dt ∧ ha ≠ e ∧
          r ≠ ra ∧ r ≠ dt ∧ r ≠ e ∧ ra ≠ dt ∧ ra ≠ e ∧ dt ≠ e)
    as (? & ? & ? & ? & ? & ? & ? & ? & ? & ? & ? & ? & ? & ? & ?).
  { pose proof (NoDup_cons_1_1 _ _ Hndn) as H1.
    pose proof (NoDup_cons_1_2 _ _ Hndn) as Hnd2.
    pose proof (NoDup_cons_1_1 _ _ Hnd2) as H2.
    pose proof (NoDup_cons_1_2 _ _ Hnd2) as Hnd3.
    pose proof (NoDup_cons_1_1 _ _ Hnd3) as H3.
    pose proof (NoDup_cons_1_2 _ _ Hnd3) as Hnd4.
    pose proof (NoDup_cons_1_1 _ _ Hnd4) as H4.
    pose proof (NoDup_cons_1_2 _ _ Hnd4) as Hnd5.
    pose proof (NoDup_cons_1_1 _ _ Hnd5) as H5.
    repeat (apply not_elem_of_cons in H1 as [? H1]).
    repeat (apply not_elem_of_cons in H2 as [? H2]).
    repeat (apply not_elem_of_cons in H3 as [? H3]).
    repeat (apply not_elem_of_cons in H4 as [? H4]).
    repeat (apply not_elem_of_cons in H5 as [? H5]).
    done. }
  destruct (Hne c) as (? & ? & ? & ? & ? & ?); [by eapply arr_at_dom|].
  set (kvs := [("uuid", VStr (uuid_source w (S (uuid_calls w))));
               ("name", VStr "New environment"); ("port", VNum 3000);
               ("routes", VRef ra); ("modifiedAt", VRef dt)]) in *.
  assert (obj_at (heap w') e = Some (literal kvs ∪ me)) as He'.
  { unfold obj_at. rewrite Hheap. by lookup_inserted. }
  exists w', e, r. split; [by rewrite length_fmap in Hrun|]. split; [done|].
  split; [apply Hfresh; in_list|].
  split.
  - apply collection_of_Some. exists c. split; [by rewrite Henv|]. split.
    + unfold arr_at. rewrite Hheap. lookup_inserted. by rewrite fmap_app.
    + apply Forall_app. split; [|apply Forall_singleton; rewrite He'; eauto].
      apply Forall_forall. intros l Hl. rewrite Forall_forall in Hobjs.
      destruct (Hobjs l Hl) as [m Hm]. exists m.
      destruct (Hne l) as (? & ? & ? & ? & ? & ?); [by eapply obj_at_dom|].
      assert (l ≠ c) by (intros ->; by eapply object_not_array).
      unfold obj_at. rewrite Hheap. lookup_inserted. by apply obj_at_lookup in Hm as ->.
  - apply routes_of_Some. exists [VRef r]. split.
    + apply items_of_Some. exists ra. split.
      * rewrite (prop_obj_at _ _ _ _ He').
        by rewrite (lookup_union_Some_l _ _ _ (VRef ra)) by (by rewrite literal_lookup).
      * unfold arr_at. rewrite Hheap. by lookup_inserted.
    + apply (objects_of_Some _ _ [r]). split; [done|].
      apply Forall_singleton. unfold obj_at. rewrite Hheap. lookup_inserted. eauto.
Qed.

Lemma splice_start_in (len : nat) (start : Z) :
  (splice_start len start < len)%nat ↔ (start < Z.of_nat len)%Z ∧ len ≠ 0%nat.
Proof. unfold splice_start. destruct (decide (start < 0)%Z); lia. Qed.

Lemma length_delete_at {A} (ls : list A) (s : nat) :
  length (delete s ls) = if decide (s < length ls)%nat then (length ls - 1)%nat else length ls.
Proof.
  destruct (decide (s < length ls)%nat) as [Hs|Hs].
  - apply length_delete. by apply lookup_lt_is_Some_2.
  - rewrite delete_beyond; [done|lia].
Qed.

(** C10, as amended.  In a tidy collection, for an environment [e] of
    it at index [i] that has a string for name and routes [ls] that are
    data of depth at most [d], with fuel for that depth:
    [removeEnvironment] leaves the counter of routes as it was, at every
    index and in every world, and so it does here, where the environment
    removed has the routes [ls]; [addEnvironment] adds 1 and the new
    environment has one route; [addRoute] adds 1 and the environment has
    one more route; [duplicateEnvironment] adds the number of routes of
    [e], which is the number of routes of the copy; [duplicateRoute], at
    every index, adds 1 and the environment has one more route;
    [removeRoute], at every index, subtracts 1 and removes the route
    where [splice] starts: the counter has moved by the number of routes
    removed exactly when the index is below the number of routes and
    there is a route to remove; past the last route none is removed and
    the counter is still one less. *)
Theorem routesTotal_adjustments w cb (fuel d i : nat) hs mh rs mr es me envs e name ls :
  customHeadersSchema w = VRef hs →
  obj_at (heap w) hs = Some mh →
  routeSchema w = VRef rs →
  obj_at (heap w) rs = Some mr →
  environmentSchema w = VRef es →
  obj_at (heap w) es = Some me →
  tidy w →
  collection_of w = Some envs →
  envs !! i = Some e →
  prop (heap w) (VRef e) "name" = VStr name →
  routes_of (heap w) (VRef e) = Some ls →
  plain false d (heap w) (prop (heap w) (VRef e) "routes") = true →
  (d ≤ fuel)%nat →
  ((∀ environmentIndex w0,
      routesTotal (final (removeEnvironment environmentIndex w0)) = routesTotal w0) ∧
   ∃ w', removeEnvironment (Z.of_nat i) w = Returned tt w' ∧
         collection_of w' = Some (delete i envs) ∧
         routesTotal w' = routesTotal w) ∧
  (∃ index w' e',
     addEnvironment cb w = Returned index w' ∧
     collection_of w' = Some (envs ++ [e']) ∧
     routes_count (VRef e') w' = Some 1%Z ∧
     routesTotal w' = (routesTotal w + 1)%Z) ∧
  (∃ index w',
     addRoute (VRef e) cb w = Returned index w' ∧
     routes_count (VRef e) w' = Some (Z.of_nat (length ls) + 1)%Z ∧
     routesTotal w' = (routesTotal w + 1)%Z) ∧
  (∃ index w' e',
     duplicateEnvironment fuel (Z.of_nat i) cb w = Returned index w' ∧
     collection_of w' = Some (envs ++ [e']) ∧
     routes_count (VRef e') w' = Some (Z.of_nat (length ls)) ∧
     routesTotal w' = (routesTotal w + Z.of_nat (length ls))%Z) ∧
  (∀ routeIndex, ∃ index w',
     duplicateRoute fuel (VRef e) routeIndex cb w = Returned index w' ∧
     routes_count (VRef e) w' = Some (Z.of_nat (length ls) + 1)%Z ∧
     routesTotal w' = (routesTotal w + 1)%Z) ∧
  (∀ routeIndex, ∃ w',
     removeRoute (VRef e) routeIndex cb w = Returned tt w' ∧
     routesTotal w' = (routesTotal w - 1)%Z ∧
     routes_of (heap w') (VRef e)
     = Some (delete (splice_start (length ls) routeIndex) ls) ∧
     (adjusted_by_routes (VRef e) w w' ↔
      (routeIndex < Z.of_nat (length ls))%Z ∧ ls ≠ [])).
Proof.
  intros Hhs Hmh Hrs Hmr Hes Hme Htidy Hcoll Hi Hname Hroutes Hplain Hfuel.
  destruct (tidy_inv w envs Htidy Hcoll) as (c & Hc & Harr & Hnd & Henvs).
  assert (e ∈ envs) as He by (by eapply list_elem_of_lookup_2).
  assert (Forall (λ l, is_Some (obj_at (heap w) l)) envs) as Hobjs.
  { apply Forall_forall. intros l Hl. by apply Henvs. }
  destruct (Henvs e He) as ([m Hm] & ar & rs0 & Hr0 & Hne0 & Har0 & Hrs0 & Hnd0).
  assert (rs0 = ls) as ->.
  { assert (routes_of (heap w) (VRef e) = Some rs0) as Hroutes0.
    { apply routes_of_Some. exists (VRef <$> rs0). split.
      - apply items_of_Some. eauto.
      - by apply objects_of_Some. }
    rewrite Hroutes in Hroutes0. by injection Hroutes0. }
  rewrite Hr0 in Hplain.
  assert (m !! "name" = Some (VStr name)) as Hmname.
  { rewrite (prop_obj_at _ _ _ _ Hm) in Hname.
    destruct (m !! "name") as [v|]; simpl in Hname; [by subst|done]. }
  assert (m !! "routes" = Some (VRef ar)) as Hmroutes.
  { pose proof Hr0 as Hr0'. rewrite (prop_obj_at _ _ _ _ Hm) in Hr0'.
    destruct (m !! "routes") as [v|]; simpl in Hr0'; [by subst|done]. }
  split; [split|].
  { exact (proj1 removeEnvironment_frames_routesTotal). }
  { destruct (removeEnvironment_splices w c envs i e Hc Harr Hobjs Hnd Hi)
      as (w1 & Hrun & Hs & Harr1 & Hobjs1 & _).
    apply same_service_fields in Hs as (Henv1 & Htotal1 & _).
    exists (add_event (UpdateEvent VNull None) w1). split; [done|]. split.
    - apply collection_of_Some. exists c. split; [|by split].
      simpl. rewrite Henv1. by destruct (truthy _).
    - simpl. rewrite Htotal1. by destruct (truthy _). }
  split.
  { destruct (addEnvironment_counts w cb hs mh rs mr es me c envs
                Hhs Hmh Hrs Hmr Hes Hme Hc Harr Hobjs)
      as (w' & e' & r & Hrun & Htotal & _ & Hcoll' & Hroutes').
    exists (Z.of_nat (length envs)), w', e'. split; [done|]. split; [done|].
    split; [|done]. unfold routes_count. by rewrite Hroutes'. }
  split.
  { destruct (addRoute_routes w (VRef e) cb hs mh rs mr ls Hhs Hmh Hrs Hmr Hroutes)
      as (w' & r & Hrun & Hs & _ & Hroutes' & _).
    apply same_service_fields in Hs as (_ & Htotal & _).
    exists (Z.of_nat (length ls)), w'. split; [done|]. split; [|done].
    unfold routes_count. rewrite Hroutes'. simpl. f_equal. rewrite length_app. simpl. lia. }
  split.
  { destruct (duplicateEnvironment_pushes w fuel d i cb c (VRef <$> envs) e m name ar
                (VRef <$> ls) Hc Harr) as (w' & e' & routes' & Hrun & Henv' & Harr' & Hframe
                                           & He' & Hobj' & Hprop' & Hcloned & Htotal);
      try done.
    { by rewrite list_lookup_fmap, Hi. }
    destruct (cloned_array _ _ _ _ _ _ (arr_at_lookup _ _ _ Har0) Hcloned)
      as (ar' & ys & -> & _ & Hys & Hall).
    destruct (cloned_routes _ _ _ _ _ Hrs0 Hall) as (ls' & -> & Hlen & Hobjs').
    rewrite !length_fmap in *.
    exists (Z.of_nat (length envs)), w', e'. split; [done|]. split.
    - apply collection_of_Some. exists c. split; [done|]. split.
      + by rewrite fmap_app.
      + apply Forall_app. split; [|by apply Forall_singleton].
        apply Forall_forall. intros l Hl. destruct (Henvs l Hl) as ([ml Hml] & _).
        exists ml. unfold obj_at. rewrite (Hframe l (OObj ml)); [done|by apply obj_at_lookup|].
        intros ->. by eapply object_not_array.
    - split; [|done]. unfold routes_count.
      assert (routes_of (heap w') (VRef e') = Some ls') as ->; [|simpl; by rewrite Hlen].
      apply routes_of_Some. exists (VRef <$> ls'). split.
      + apply items_of_Some. exists ar'. split; [done|]. unfold arr_at. by rewrite Hys.
      + by apply objects_of_Some. }
  split.
  { intros routeIndex.
    destruct d as [|d']; [done|]. simpl in Hplain.
    rewrite (arr_at_lookup _ _ _ Har0) in Hplain.
    destruct (duplicateRoute_pushes w fuel d' (VRef e) ar ls routeIndex cb
                Hr0 Har0 Hrs0 Hplain) as (w' & r' & Hrun & Htotal & _ & Hroutes');
      [lia|].
    exists (Z.of_nat (length ls)), w'. split; [done|]. split; [|done].
    unfold routes_count. rewrite Hroutes'. simpl. f_equal. rewrite length_app. simpl. lia. }
  intros routeIndex.
  destruct (removeRoute_splices w (VRef e) ls routeIndex cb Hroutes Hnd0)
    as (w1 & Hrun & Hs & Hroutes1 & _).
  apply same_service_fields in Hs as (_ & Htotal1 & _). simpl in Htotal1.
  set (s := splice_start (length ls) routeIndex) in *.
  exists (add_event (UpdateEvent (VRef e) cb) w1).
  split; [done|]. split; [done|]. split; [done|].
  assert ((s < length ls)%nat ↔ (routeIndex < Z.of_nat (length ls))%Z ∧ ls ≠ []) as Hin.
  { unfold s. rewrite splice_start_in.
    assert (length ls ≠ 0%nat ↔ ls ≠ []) as Hnil by (destruct ls; simpl; split; done).
    tauto. }
  pose proof (length_delete_at ls s) as Hlen.
  unfold adjusted_by_routes, routes_count.
  change (heap (add_event (UpdateEvent (VRef e) cb) w1)) with (heap w1).
  change (routesTotal (add_event (UpdateEvent (VRef e) cb) w1)) with (routesTotal w1).
  rewrite Hroutes, Hroutes1, Htotal1. simpl. rewrite <- Hin.
  destruct (decide (s < length ls)%nat); lia.
Qed.

Lemma routesTotal_adjustments_witness :
  let w := started in
  let hs := 7%positive in
  let rs := 6%positive in
  let es := 3%positive in
  let mh := fields_of (heap w) (VRef hs) in
  let mr := fields_of (heap w) (VRef rs) in
  let me := fields_of (heap w) (VRef es) in
  let envs := [8%positive] in
  let e := 8%positive in
  let ls := [11; 14]%positive in
  customHeadersSchema w = VRef hs ∧
  obj_at (heap w) hs = Some mh ∧
  routeSchema w = VRef rs ∧
  obj_at (heap w) rs = Some mr ∧
  environmentSchema w = VRef es ∧
  obj_at (heap w) es = Some me ∧
  tidy w ∧
  collection_of w = Some envs ∧
  envs !! 0%nat = Some e ∧
  prop (heap w) (VRef e) "name" = VStr "Example" ∧
  routes_of (heap w) (VRef e) = Some ls ∧
  plain false 4 (heap w) (prop (heap w) (VRef e) "routes") = true ∧
  (4 ≤ 4)%nat ∧
  ((∀ environmentIndex w0,
      routesTotal (final (removeEnvironment environmentIndex w0)) = routesTotal w0) ∧
   ∃ w', removeEnvironment (Z.of_nat 0) w = Returned tt w' ∧
         collection_of w' = Some (delete 0%nat envs) ∧
         routesTotal w' = routesTotal w) ∧
  (∃ index w' e',
     addEnvironment (Some 6) w = Returned index w' ∧
     collection_of w' = Some (envs ++ [e']) ∧
     routes_count (VRef e') w' = Some 1%Z ∧
     routesTotal w' = (routesTotal w + 1)%Z) ∧
  (∃ index w',
     addRoute (VRef e) (Some 6) w = Returned index w' ∧
     routes_count (VRef e) w' = Some (Z.of_nat (length ls) + 1)%Z ∧
     routesTotal w' = (routesTotal w + 1)%Z) ∧
  (∃ index w' e',
     duplicateEnvironment 4 (Z.of_nat 0) (Some 6) w = Returned index w' ∧
     collection_of w' = Some (envs ++ [e']) ∧
     routes_count (VRef e') w' = Some (Z.of_nat (length ls)) ∧
     routesTotal w' = (routesTotal w + Z.of_nat (length ls))%Z) ∧
  (∀ routeIndex, ∃ index w',
     duplicateRoute 4 (VRef e) routeIndex (Some 6) w = Returned index w' ∧
     routes_count (VRef e) w' = Some (Z.of_nat (length ls) + 1)%Z ∧
     routesTotal w' = (routesTotal w + 1)%Z) ∧
  (∀ routeIndex, ∃ w',
     removeRoute (VRef e) routeIndex (Some 6) w = Returned tt w' ∧
     routesTotal w' = (routesTotal w - 1)%Z ∧
     routes_of (heap w') (VRef e)
     = Some (delete (splice_start (length ls) routeIndex) ls) ∧
     (adjusted_by_routes (VRef e) w w' ↔
      (routeIndex < Z.of_nat (length ls))%Z ∧ ls ≠ [])).
Proof.
  intros w hs rs es mh mr me envs e ls.
  assert (customHeadersSchema w = VRef hs) as H1 by (by vm_compute).
  assert (obj_at (heap w) hs = Some mh) as H2.
  { apply fields_of_obj_at. apply (bool_decide_unpack _). by vm_compute. }
  assert (routeSchema w = VRef rs) as H3 by (by vm_compute).
  assert (obj_at (heap w) rs = Some mr) as H4.
  { apply fields_of_obj_at. apply (bool_decide_unpack _). by vm_compute. }
  assert (environmentSchema w = VRef es) as H5 by (by vm_compute).
  assert (obj_at (heap w) es = Some me) as H6.
  { apply fields_of_obj_at. apply (bool_decide_unpack _). by vm_compute. }
  assert (tidy w) as H7 by (apply (bool_decide_unpack _); by vm_compute).
  assert (collection_of w = Some envs) as H8 by (by vm_compute).
  assert (envs !! 0%nat = Some e) as H9 by done.
  assert (prop (heap w) (VRef e) "name" = VStr "Example") as H10 by (by vm_compute).
  assert (routes_of (heap w) (VRef e) = Some ls) as H11 by (by vm_compute).
  assert (plain false 4 (heap w) (prop (heap w) (VRef e) "routes") = true) as H12
    by (by vm_compute).
  assert (4 ≤ 4)%nat as H13 by lia.
  split; [exact H1|]. split; [exact H2|]. split; [exact H3|]. split; [exact H4|].
  split; [exact H5|]. split; [exact H6|]. split; [exact H7|]. split; [exact H8|].
  split; [exact H9|]. split; [exact H10|]. split; [exact H11|]. split; [exact H12|].
  split; [exact H13|].
  exact (routesTotal_adjustments w (Some 6) 4 4 0 hs mh rs mr es me envs e "Example" ls
           H1 H2 H3 H4 H5 H6 H7 H8 H9 H10 H11 H12 H13).
Defined.

(** C10 as first stated, refuted for [removeRoute]: on the service as
    it starts, whose default environment has two routes, [removeRoute]
    at index 2, past the last route, returns with the two routes still
    there and the counter of routes down from 2 to 1: the counter has not
    moved by the number of routes removed. *)
Lemma removeRoute_counts_a_route_it_leaves :
  let w := started in
  let environment := environment_at 0 w in
  returns (removeRoute environment 2 None) w
    (λ _ w', routes_count environment w = Some 2%Z ∧
             routes_count environment w' = Some 2%Z ∧
             routesTotal w = 2%Z ∧ routesTotal w' = 1%Z ∧
             ¬ adjusted_by_routes environment w w').
Proof. intros w environment. apply (bool_decide_unpack _). by vm_compute. Qed.
